(* ===== verification/_CoqProject ===== *)
-Q . S2P
Prelude.v
Text.v
Stream.v
TransferTypes.v
TransferCodec.v
Fs.v
StorageUtils.v
Vault.v
Trust.v
Auth.v
AuthFacts.v
AuthSystem.v
AuthLockout.v
AuthBackends.v
Config.v
Peers.v
Identity.v
Metadata.v
History.v
Editor.v
InputActions.v
Engine.v
EngineFacts.v
Paths.v
Echo.v
Hoare.v
Metrics.v
Conn.v
ShellOps.v
Upload.v
ShellFacts.v
Download.v
Control.v
Blob.v
Demo.v
UploadFacts.v
Dispatch.v
Budget.v
BlobFacts.v
ClientTransfer.v
ClientBlob.v
Confine.v
TreeFacts.v
Protocol.v
UploadTrip.v
DownloadTrip.v
BlobTrip.v
ClientFacts.v
ServerLoop.v
ServerFacts.v
Pty.v
Handler.v
HandlerFacts.v
SideStreams.v
SideFacts.v
HostKey.v
Connect.v
ConnectFacts.v
ClientSession.v
SessionFacts.v
TerminalTrip.v
Ipc.v
LocalPaths.v
Completion.v
CompletionFacts.v
LocalCommands.v
Drive.v
DriveFacts.v
PathTrip.v
Wormhole.v
Startup.v
AddressBook.v
ConnectFlow.v
ConnectFlowFacts.v
NodeCommands.v
Service.v
