(* ===== verification/Prelude.v ===== *)
(** * Irosh: a verification library

    Irosh is an SSH server and client over iroh's peer-to-peer transport: a
    host publishes a ticket or a short wormhole code, a client dials it, both
    authenticate over SSH, and side streams of the same connection carry file
    transfers and metadata. The library follows the code file by file; the
    names of definitions are the names of the functions they translate.

    ** Reading guide

    Foundations
    - [Prelude]: byte strings, results, the state-and-error monad [M], loops
      over lists, big-endian integers. [Text]: Rust string operations.
      [Stream]: readers and writers of bytes, and the interface of serde_json.
    - [Fs]: a file system whose every call may fail, with its history, so that
      a theorem can speak about each point a crash can leave.
    - [Hoare]: triples, loops ([loop]) with a measure, and [avoids], which with
      the error loops run out with is termination.

    Storage and trust ([src/storage], [src/config.rs])
    - [StorageUtils]: [atomic_write_secure] and its contract. [Vault]: what
      the authenticators see of the storage, as a class; [Trust] implements it
      and proves its laws. [Config], [Peers], [Identity]: the other records.

    Authentication ([src/auth])
    - [Auth]: the unified authenticator; [AuthFacts], [AuthSystem],
      [AuthLockout]: its guarantees for one call, for all interleavings of
      sessions, and for guessing; [AuthBackends]: the trait and the simple
      implementations.

    Transport ([src/transport])
    - [TransferTypes], [TransferCodec]: the frames of a transfer stream.
      [Metadata]: the peer metadata and its codec. [Paths]: how paths of a peer
      are checked ([helpers.rs]) and resolved ([server/transfer/state.rs]).

    Transfers on the server ([src/server/transfer])
    - [Conn]: the state of a handler: a stream and a disk. [ShellOps]: its
      file operations. [Upload], [Download], [Control], [Blob]: the handlers;
      [Dispatch]: the stream they are dispatched from. [Metrics]: counters.
      [Budget]: the memory budget streams of a connection wait for.
    - [ShellFacts], [UploadFacts], [BlobFacts], [Confine], [TreeFacts]: what
      they do to the disk, for every input and every failing system call.

    Transfers on the client ([src/client/transfer])
    - [ClientTransfer], [ClientBlob]: the operations of a session.
      [ClientFacts]: they end. [Protocol]: conversations, in which [UploadTrip],
      [DownloadTrip] and [BlobTrip] put a client and a server together.

    The server ([src/server], [src/session/pty.rs])
    - [Startup]: which authenticator a server gets, the protocol names it
      binds and routes. [ServerLoop], [ServerFacts]: the control loop of
      [Server::run] with its tasks. [Ipc]: how the daemon is asked for
      something over a local socket. [Wormhole]: pairing codes, the rules under
      which one is opened, and how it is found.
    - [Pty], [Handler], [HandlerFacts]: the SSH handler of a connection, with
      its terminals and child processes; [Echo]: its echo filter.
      [SideStreams], [SideFacts]: the gate that side streams wait at.

    The connection on the client ([src/client])
    - [HostKey], [Connect], [ConnectFacts]: dialing, the host key, and
      authentication. [ClientSession], [SessionFacts]: a session.
      [TerminalTrip]: a session and the server's handler put together.

    The command line ([cli/src/commands], most of it in [connect])
    - [History], [Editor], [InputActions], [Engine], [EngineFacts]: what
      happens to the keystrokes of an interactive session.
    - [LocalPaths], [Completion], [CompletionFacts], [LocalCommands]: the local
      commands of a session; [Drive], [DriveFacts]: its event loop. [PathTrip]:
      a remote path from the argument to the server's file.
    - [AddressBook]: [irosh peer]. [ConnectFlow], [ConnectFlowFacts]: the phases
      of [irosh connect], which put [Wormhole], [Peers], [Connect],
      [ClientSession] and [Drive] together.
    - [NodeCommands]: [irosh trust], [passwd], [config], and what [irosh host]
      does before it binds its server. [Service]: the systemd service.
    [Demo] is a concrete machine the witnesses of the transfer theorems run on.

    ** What the theorems show

    - Trust: a key is in the vault only because it was there, was adopted by
      first use, or was paired with the invite code ([AuthSystem]); guessing is
      bounded ([AuthLockout]); the files that hold it change atomically
      ([StorageUtils], [Trust]); identities are not lost ([Identity]).
    - Wire formats: what is written is read back, however it was cut into
      packets, and nothing else is accepted ([TransferCodec], [Metadata]).
    - Transfers: an upload appears complete or not at all, but for an error of
      the last write that the file system defers ([UploadFacts]);
      trees stay in their directory on both sides ([TreeFacts], [Paths]);
      every stream and every client operation ends ([Dispatch],
      [ClientFacts]); the two ends fit together ([UploadTrip], [DownloadTrip],
      [BlobTrip]); memory is accounted for, and waiting for it is free of
      cycles ([BlobFacts], [Budget]).
    - Access: while the handler of a connection lives, its side streams wait
      for an accepted authentication ([SideFacts], [HandlerFacts]); a server in stealth mode
      answers to its secret name only ([Startup]); a wormhole does not open an
      unprotected node silently ([Wormhole]); a pinned host key stays pinned,
      and an impostor gets nothing ([HostKey], [ConnectFlowFacts]); the client
      and the server of a pairing fit together ([ConnectFacts]).
    - Life times: a child is killed with its connection, has exited, or was
      given up after a while ([HandlerFacts]); one wormhole at a time, and what a shutdown leads to ([ServerFacts]); what
      is open when a connection fails or a session ends ([ConnectFacts],
      [SessionFacts], [DriveFacts]).
    - The command line: a connection leads from a target to a shell that gets
      what is typed, or fails with the ticket kept ([ConnectFlowFacts]); the
      address book is a map ([AddressBook]), and so are the devices a node
      trusts ([NodeCommands]); what the peer wrote is shown once
      ([DriveFacts]); downloads stay where they were asked for ([LocalPaths]).
    - Keystrokes: no input panics the engine and local editing stays local
      ([EngineFacts]).
    - Where the code falls short of what it means to do, a lemma says so, on a
      concrete input or in general, next to the theorems on that part: for
      example that the gate of the side streams opens when the handler is gone
      ([SideFacts]), or that a running server keeps a revoked key
      ([NodeCommands]).

    ** Bounds and fuel

    Recursion that is not structural takes fuel from a measure of its input:
    the unread bytes of a stream for a loop that starts by reading a frame, the
    unread rest of a file for a loop that sends one, the length of the input
    for the scanners. The loops the code itself bounds have the bound of the
    code: three attempts to dial, three password prompts, sixty queries for a
    ticket, a million names for a download. Each phase of [irosh connect] goes
    on to a later one, so five turns are enough ([connect_decides]). [Hoare.decreases] is proved of every loop
    of a transfer, so the value for running out ([EDiverged]) is never
    returned; [Dispatch] and [ClientFacts] state this for whole operations.
    Integers the code bounds are [N] with the wrap-around or the check written out ([add_u64],
    [checked_add]); lengths of data in memory are [nat].

    ** Modelling decisions

    - Code that is not in the repository is a parameter with its documented
      behaviour as laws: serde_json, ssh-key, argon2, iroh, russh, iroh-blobs,
      walkdir, the helper programs of a live shell, clocks and randomness. Where
      the two ends of an SSH channel are put together, [deliver] of
      [TerminalTrip] is the law: the requests and data of a channel arrive at
      the handler once and in order. Whether a write error of
      [tokio::fs::File] shows at the write or at the flush is a parameter
      ([deferred]).
    - A theorem about storage either holds for every call that may fail, or
      says that the calls do not ([reliable], [settled]), where a failure the
      code ignores would break it; lemmas next to it show which.
    - A task runs alone between the points where it waits; where tasks share
      state, the steps of the shared state are interleaved in every order
      ([AuthSystem], [Budget], [Metrics], and the server's loops).
    - The disk has no symbolic links and no other writer. A path is split into
      components, so a trailing separator is not kept.
    - The output of [find] is read before the entries it lists are sent; the
      progress callbacks of the client are left out. [Protocol] shows that the
      two conversations fit, not how their bytes are buffered.
    - The Linux build is modelled. russh calls the callbacks of a handler one
      at a time and drops the handler when the connection ends; requests that
      want no reply are not waited for; iroh's router does not close
      connections of its own; a tokio watch channel wakes its receivers when
      its value changes and when its last sender is gone. Writing to the own
      terminal succeeds. An id of a node is its 64 hexadecimal digits. Ctrl-C
      during a stage of the connect command leaves an arbitrary world.

    ** Not modelled

    - Drawing, colours, prompts and the text of messages of the command line,
      and the commands that only print or ask for one call of the library
      ([check], [dashboard], [identity]). launchd, the terminals of the
      operating systems ([src/sys]) and the inspection of a live shell's
      process ([server/shell_access.rs]), which are calls into them and enter
      as parameters; diagnostics, error texts and logging. Windows-only
      code.
    - The insides of iroh, pkarr, russh and iroh-blobs: endpoints, publishing,
      encryption, hole punching.
    - The poisoning of mutexes and panics of blocking tasks.
    - Tests, benchmarks, fuzz targets, scripts and packaging.
*)

From Stdlib Require Export Ascii String NArith Lia.
From stdpp Require Export base tactics list gmap strings option numbers.

#[export] Set Warnings "-clear-no-such-hyp".

(** ** Byte strings *)

(** Rust's [Vec<u8>], [&[u8]], and (as their UTF-8 bytes) [String] and [&str]. *)
Abbreviation bytes := (list ascii).

(** A string literal of the source, as its bytes. *)
Definition bs (s : string) : bytes := list_ascii_of_string s.

(** The length of a byte string as a [usize]. *)
Definition blen {A} (b : list A) : N := N.of_nat (length b).

(** ** Results

    Rust's [Result<A, E>], with the error type first so that [result E] is a
    monad for stdpp's notations. *)
Inductive result (E A : Type) : Type :=
| Ok (a : A)
| Err (e : E).
Arguments Ok {E A} a.
Arguments Err {E A} e.

#[export] Instance result_ret E : MRet (result E) := fun A a => Ok a.
#[export] Instance result_bind E : MBind (result E) := fun A B k m =>
  match m with Ok a => k a | Err e => Err e end.

#[export] Instance result_fmap E : FMap (result E) := fun A B f m =>
  match m with Ok a => Ok (f a) | Err e => Err e end.

#[export] Instance result_eq_dec E A `{EqDecision E, EqDecision A} :
  EqDecision (result E A).
Proof. solve_decision. Defined.

(** [Result::map_err], which the source's [?] applies through [From]. *)
Definition map_err {E F A} (f : E -> F) (r : result E A) : result F A :=
  match r with Ok a => Ok a | Err e => Err (f e) end.

Definition is_ok {E A} (r : result E A) : bool :=
  match r with Ok _ => true | Err _ => false end.

(** ** Stateful fallible code

    [M S E A] is code that owns a mutable state [S], and returns a
    [Result<A, E>]: the state written before an early return is kept. *)
Definition M (S E A : Type) : Type := S -> result E A * S.

#[export] Instance M_ret S E : MRet (M S E) := fun A a s => (Ok a, s).
#[export] Instance M_bind S E : MBind (M S E) := fun A B k m s =>
  match m s with
  | (Ok a, s') => k a s'
  | (Err e, s') => (Err e, s')
  end.

Definition throw {S E A} (e : E) : M S E A := fun s => (Err e, s).
Definition lift {S E A} (r : result E A) : M S E A := fun s => (r, s).
Definition read_state {S E} : M S E S := fun s => (Ok s, s).
Definition write_state {S E} (s : S) : M S E unit := fun _ => (Ok tt, s).

(** [.map_err(f)] on a stateful computation. *)
Definition M_map_err {S E F A} (f : E -> F) (m : M S E A) : M S F A := fun s =>
  let '(r, s') := m s in (map_err f r, s').

(** [if result.is_err() { let _ = undo; }] *)
Definition on_error {S E F A} (m : M S E A) (undo : M S F unit) : M S E A := fun s =>
  match m s with
  | (Ok a, s') => (Ok a, s')
  | (Err e, s') => (Err e, (undo s').2)
  end.

(** [match m { Ok(..) => .., Err(..) => .. }]: the result as a value. *)
Definition attempt {S E F A} (m : M S E A) : M S F (result E A) := fun s =>
  let '(r, s') := m s in (Ok r, s').

(** [let _ = m;]: the result is dropped. *)
Definition ignore {S E F A} (m : M S F A) : M S E unit := fun s => (Ok tt, (m s).2).

Lemma bind_ok {S E A B} (m : M S E A) (k : A -> M S E B) s a s' :
  m s = (Ok a, s') -> (m ≫= k) s = k a s'.
Proof. intros Hm. unfold mbind, M_bind. by rewrite Hm. Qed.

Lemma bind_err {S E A B} (m : M S E A) (k : A -> M S E B) s e s' :
  m s = (Err e, s') -> (m ≫= k) s = (Err e, s').
Proof. intros Hm. unfold mbind, M_bind. by rewrite Hm. Qed.

Lemma bind_ok_inv {S E A B} (m : M S E A) (k : A -> M S E B) s b s' :
  (m ≫= k) s = (Ok b, s') -> exists a s1, m s = (Ok a, s1) /\ k a s1 = (Ok b, s').
Proof. unfold mbind, M_bind. destruct (m s) as [[a|e] s1]; naive_solver. Qed.

(** ** Input and output errors: the [std::io::ErrorKind]s the source meets *)
Inductive io_error : Type :=
| NotFound
| PermissionDenied
| AlreadyExists
| InvalidInput
| InvalidData
| UnexpectedEof
| BrokenPipe
| ConnectionReset
| StorageFull
| IsADirectory
| NotADirectory
| DirectoryNotEmpty
| OtherError.

#[export] Instance io_error_eq_dec : EqDecision io_error.
Proof. solve_decision. Defined.

(** ** Big-endian integers *)

(** The [k] low bytes of [x], most significant first ([uN::to_be_bytes]). *)
Fixpoint be_bytes (k : nat) (x : N) : bytes :=
  match k with
  | O => []
  | S k => be_bytes k (x / 256) ++ [ascii_of_N (x mod 256)]
  end.

(** [uN::from_be_bytes]. *)
Definition be_val (b : bytes) : N :=
  foldl (fun acc c => acc * 256 + N_of_ascii c)%N 0%N b.

Lemma be_bytes_length k x : length (be_bytes k x) = k.
Proof. revert x; induction k as [|k IH]; intros x; simpl; [done|].
  rewrite length_app, IH. simpl. lia. Qed.

Lemma be_val_snoc b c : be_val (b ++ [c]) = (be_val b * 256 + N_of_ascii c)%N.
Proof. unfold be_val. by rewrite foldl_app. Qed.

Lemma be_val_bytes k x : (x < 256 ^ N.of_nat k)%N -> be_val (be_bytes k x) = x.
Proof.
  revert x; induction k as [|k IH]; intros x Hx.
  - simpl in Hx. unfold be_val; simpl. lia.
  - rewrite Nat2N.inj_succ, N.pow_succ_r' in Hx. cbn [be_bytes].
    rewrite be_val_snoc, IH, N_ascii_embedding.
    + pose proof (N.div_mod' x 256). lia.
    + apply N.mod_lt. lia.
    + apply N.Div0.div_lt_upper_bound. lia.
Qed.

Lemma be_val_lt b : (be_val b < 256 ^ N.of_nat (length b))%N.
Proof.
  induction b as [|c b IH] using rev_ind; [done|].
  rewrite be_val_snoc, length_app, Nat.add_1_r, Nat2N.inj_succ, N.pow_succ_r'.
  pose proof (N_ascii_bounded c). lia.
Qed.

Lemma be_bytes_val b : be_bytes (length b) (be_val b) = b.
Proof.
  induction b as [|c b IH] using rev_ind; [done|].
  rewrite length_app, Nat.add_1_r, be_val_snoc. cbn [be_bytes].
  pose proof (N_ascii_bounded c).
  replace ((be_val b * 256 + N_of_ascii c) / 256)%N with (be_val b)
    by (rewrite N.div_add_l, N.div_small; lia).
  replace ((be_val b * 256 + N_of_ascii c) mod 256)%N with (N_of_ascii c)
    by (rewrite N.add_comm, N.Div0.mod_add, N.mod_small; lia).
  by rewrite IH, ascii_N_embedding.
Qed.

#[global] Arguments be_bytes : simpl never.
#[global] Arguments be_val : simpl never.

(** ** Automation *)

Create HintDb irosh.
Create Rewrite HintDb irosh.
#[export] Hint Rewrite @length_app be_bytes_length : irosh.
#[export] Hint Resolve be_val_lt : irosh.

(** Split every [match] and [if] of the goal and the hypotheses, keeping the
    equations, and discharge what congruence and arithmetic can. *)
Ltac break_match := repeat (case_match; simplify_eq/=); try done.

(** An early return: [if !cond { return Err(e) }]. *)
Definition ensure {S E} (cond : bool) (e : E) : M S E unit :=
  if cond then mret tt else throw e.

Lemma bind_ensure {S E B} (c : bool) (e : E) (k : unit -> M S E B) s :
  (ensure c e ≫= k) s = if c then k tt s else (Err e, s).
Proof. by destruct c. Qed.

Lemma bind_assoc {S E A B C} (m : M S E A) (k : A -> M S E B) (h : B -> M S E C) s :
  ((m ≫= k) ≫= h) s = (m ≫= (fun a => k a ≫= h)) s.
Proof. unfold mbind, M_bind. by destruct (m s) as [[] ?]. Qed.

(** Values of the unit type are equal. *)
Ltac destruct_units := repeat match goal with u : unit |- _ => destruct u end.

(** Evaluating only the result of a computation. *)
Lemma pair_fst {A B} (x : A * B) a : x.1 = a -> x = (a, x.2).
Proof. by destruct x; intros <-. Qed.
