(* ===== verification/Text.v ===== *)
(** * Rust string operations on UTF-8 bytes

    What the components use of [str] and [String], on the bytes of the string:
    UTF-8 validity and character boundaries, [trim], [to_lowercase] on ASCII,
    [replace], hexadecimal and decimal formatting, splitting and joining. *)

From S2P Require Import Prelude.
From stdpp Require Import pretty.

(** ** UTF-8 *)

Definition byte_in (lo hi : N) (c : ascii) : bool :=
  ((lo <=? N_of_ascii c) && (N_of_ascii c <=? hi))%N.

(** A continuation byte; [str::is_char_boundary] is its negation. *)
Definition is_cont (c : ascii) : bool := byte_in 128 191 c.

(** [std::str::from_utf8] succeeds (Table 3-7 of the Unicode standard). *)
Fixpoint utf8_valid (b : bytes) : bool :=
  match b with
  | [] => true
  | c1 :: r1 =>
      if byte_in 0 127 c1 then utf8_valid r1
      else if byte_in 194 223 c1 then
        match r1 with
        | c2 :: r2 => is_cont c2 && utf8_valid r2
        | _ => false
        end
      else if byte_in 224 239 c1 then
        match r1 with
        | c2 :: c3 :: r3 =>
            (if byte_in 224 224 c1 then byte_in 160 191 c2
             else if byte_in 237 237 c1 then byte_in 128 159 c2
             else is_cont c2) && is_cont c3 && utf8_valid r3
        | _ => false
        end
      else if byte_in 240 244 c1 then
        match r1 with
        | c2 :: c3 :: c4 :: r4 =>
            (if byte_in 240 240 c1 then byte_in 144 191 c2
             else if byte_in 244 244 c1 then byte_in 128 143 c2
             else is_cont c2) && is_cont c3 && is_cont c4 && utf8_valid r4
        | _ => false
        end
      else false
  end.

(** [str::is_char_boundary] at [n] *)
Definition is_char_boundary (b : bytes) (n : nat) : bool :=
  match b !! n with
  | Some c => negb (is_cont c)
  | None => bool_decide (n = length b)
  end.

(** The replacement character. *)
Definition REPLACEMENT : bytes := ascii_of_N <$> [239; 191; 189]%N.

(** The range of the second byte of a longer character with lead byte [c1]. *)
Definition second_ok (c1 c2 : ascii) : bool :=
  if byte_in 224 224 c1 then byte_in 160 191 c2
  else if byte_in 237 237 c1 then byte_in 128 159 c2
  else if byte_in 240 240 c1 then byte_in 144 191 c2
  else if byte_in 244 244 c1 then byte_in 128 143 c2
  else is_cont c2.

(** [String::from_utf8_lossy]: every maximal broken part of a character
    becomes one replacement character. *)
Fixpoint utf8_lossy (b : bytes) : bytes :=
  match b with
  | [] => []
  | c1 :: r1 =>
      if byte_in 0 127 c1 then c1 :: utf8_lossy r1
      else if byte_in 194 223 c1 then
        match r1 with
        | c2 :: r2 => if is_cont c2 then c1 :: c2 :: utf8_lossy r2 else REPLACEMENT ++ utf8_lossy r1
        | [] => REPLACEMENT
        end
      else if byte_in 224 239 c1 then
        match r1 with
        | c2 :: r2 =>
            if second_ok c1 c2 then
              match r2 with
              | c3 :: r3 => if is_cont c3 then c1 :: c2 :: c3 :: utf8_lossy r3
                            else REPLACEMENT ++ utf8_lossy r2
              | [] => REPLACEMENT
              end
            else REPLACEMENT ++ utf8_lossy r1
        | [] => REPLACEMENT
        end
      else if byte_in 240 244 c1 then
        match r1 with
        | c2 :: r2 =>
            if second_ok c1 c2 then
              match r2 with
              | c3 :: r3 =>
                  if is_cont c3 then
                    match r3 with
                    | c4 :: r4 => if is_cont c4 then c1 :: c2 :: c3 :: c4 :: utf8_lossy r4
                                  else REPLACEMENT ++ utf8_lossy r3
                    | [] => REPLACEMENT
                    end
                  else REPLACEMENT ++ utf8_lossy r2
              | [] => REPLACEMENT
              end
            else REPLACEMENT ++ utf8_lossy r1
        | [] => REPLACEMENT
        end
      else REPLACEMENT ++ utf8_lossy r1
  end.

(** ** Characters and substrings *)

Definition to_lower (c : ascii) : ascii :=
  if byte_in 65 90 c then ascii_of_N (N_of_ascii c + 32) else c.

(** [str::to_ascii_lowercase] *)
Definition ascii_lowercase (b : bytes) : bytes := to_lower <$> b.

(** [str::contains(char)] for an ASCII character. *)
Definition contains (b : bytes) (c : ascii) : bool := bool_decide (c ∈ b).

(** [str::replace] of any of the ASCII characters [cs] by [r]. *)
Definition replace_chars (cs : bytes) (r : bytes) (b : bytes) : bytes :=
  b ≫= fun c => if decide (c ∈ cs) then r else [c].

Definition starts_with (b p : bytes) : bool := bool_decide (take (length p) b = p).
Definition ends_with (b p : bytes) : bool :=
  bool_decide (drop (length b - length p) b = p).

(** [str::trim_start_matches(char)] *)
Fixpoint trim_start_char (c : ascii) (b : bytes) : bytes :=
  match b with
  | d :: r => if decide (c = d) then trim_start_char c r else b
  | [] => []
  end.

(** [char::is_whitespace]: the encodings of the White_Space characters. *)
Definition whitespace : list bytes :=
  (fun l : list N => ascii_of_N <$> l) <$>
  [[9]; [10]; [11]; [12]; [13]; [32]; [194; 133]; [194; 160]; [225; 154; 128];
   [226; 128; 128]; [226; 128; 129]; [226; 128; 130]; [226; 128; 131];
   [226; 128; 132]; [226; 128; 133]; [226; 128; 134]; [226; 128; 135];
   [226; 128; 136]; [226; 128; 137]; [226; 128; 138]; [226; 128; 168];
   [226; 128; 169]; [226; 128; 175]; [226; 129; 159]; [227; 128; 128]]%N.

Fixpoint trim_start_fuel (fuel : nat) (b : bytes) : bytes :=
  match fuel with
  | O => b
  | S fuel =>
      match List.find (starts_with b) whitespace with
      | Some w => trim_start_fuel fuel (drop (length w) b)
      | None => b
      end
  end.

Fixpoint trim_end_fuel (fuel : nat) (b : bytes) : bytes :=
  match fuel with
  | O => b
  | S fuel =>
      match List.find (ends_with b) whitespace with
      | Some w => trim_end_fuel fuel (take (length b - length w) b)
      | None => b
      end
  end.

Definition trim_start (b : bytes) : bytes := trim_start_fuel (length b) b.
Definition trim_end (b : bytes) : bytes := trim_end_fuel (length b) b.
Definition trim (b : bytes) : bytes := trim_end (trim_start b).

(** ** Formatting *)

Definition hex_digit (n : N) : ascii :=
  if (n <? 10)%N then ascii_of_N (48 + n) else ascii_of_N (87 + n).

(** [format!("{x:0k$x}")] for an [x] of at most [k] digits. *)
Fixpoint hex_pad (k : nat) (x : N) : bytes :=
  match k with
  | O => []
  | S k => hex_pad k (x / 16) ++ [hex_digit (x mod 16)]
  end.

(** [format!("{x}")] *)
Definition decimal (x : N) : bytes := bs (pretty x).

(** ** Splitting *)

Fixpoint split_on (c : ascii) (b : bytes) : list bytes :=
  match b with
  | [] => [[]]
  | d :: r =>
      match split_on c r with
      | w :: ws => if decide (c = d) then [] :: w :: ws else (d :: w) :: ws
      | [] => [[d]]
      end
  end.

Fixpoint join_with (sep : bytes) (ws : list bytes) : bytes :=
  match ws with
  | [] => []
  | [w] => w
  | w :: ws => w ++ sep ++ join_with sep ws
  end.

Definition NL : ascii := ascii_of_N 10.
Definition CR : ascii := ascii_of_N 13.

Definition strip_cr (line : bytes) : bytes :=
  match last line with
  | Some c => if decide (c = CR) then removelast line else line
  | None => line
  end.

(** [str::lines]: a carriage return is dropped only before a newline. *)
Definition lines (b : bytes) : list bytes :=
  let ws := split_on NL b in
  (strip_cr <$> removelast ws) ++
  match last ws with Some (c :: r) => [c :: r] | _ => [] end.

(** ** Lemmas *)

Lemma hex_pad_length k x : length (hex_pad k x) = k.
Proof.
  revert x. induction k as [|k IH]; intros x; simpl; [done|].
  rewrite length_app, IH. simpl. lia.
Qed.

Lemma trim_start_char_suffix c b : trim_start_char c b `suffix_of` b.
Proof.
  induction b as [|d r IH]; simpl; [done|].
  case_decide; [by apply suffix_cons_r|done].
Qed.

Lemma trim_start_char_head c b d r : trim_start_char c b = d :: r -> d <> c.
Proof.
  induction b as [|x b IH]; simpl; [done|].
  case_decide; [done|]. intros [= <- <-]. congruence.
Qed.

Lemma split_on_nonempty c b : split_on c b <> [].
Proof. induction b as [|d r IH]; simpl; [done|]. destruct (split_on c r); [done|]. by case_decide. Qed.

Lemma replace_chars_notin cs r b c : c ∈ cs -> c ∉ r -> c ∉ replace_chars cs r b.
Proof.
  intros Hc Hr (d & Hd & _)%list_elem_of_bind. case_decide; [done|].
  apply list_elem_of_singleton in Hd as ->. done.
Qed.

(** ** Visible ASCII text *)

Definition graphic (c : ascii) : bool := byte_in 33 126 c.

Lemma whitespace_not_graphic w : w ∈ whitespace -> exists c r, w = c :: r /\ Forall (fun c => graphic c = false) w.
Proof.
  intros Hw. assert (Forall (fun w => bool_decide (w <> []) && forallb (fun c => negb (graphic c)) w) whitespace)
    as H by (apply (bool_decide_unpack _); vm_compute; exact I).
  rewrite Forall_forall in H. apply H in Hw. apply andb_prop_elim in Hw as [Hn Hg].
  apply bool_decide_unpack in Hn. destruct w as [|c r]; [done|]. exists c, r. split; [done|].
  apply Forall_forall. intros d Hd. apply Is_true_true, forallb_forall with (x := d) in Hg.
  - by apply negb_true_iff.
  - by apply list_elem_of_In.
Qed.

(** Text without blanks is left alone by [trim]. *)
Lemma trim_graphic b : Forall (fun c => graphic c = true) b -> trim b = b.
Proof.
  intros Hb. assert (forall c w, w ∈ whitespace -> c ∈ w -> c ∉ b) as Hne.
  { intros c w Hw Hc Hin. apply whitespace_not_graphic in Hw as (_ & _ & _ & Hg).
    rewrite Forall_forall in Hg, Hb. specialize (Hg c Hc). by rewrite Hb in Hg. }
  assert (List.find (starts_with b) whitespace = None) as Hs.
  { destruct (List.find _ _) as [w|] eqn:E; [|done]. exfalso. apply List.find_some in E as [Hw E].
    apply list_elem_of_In in Hw. pose proof (whitespace_not_graphic w Hw) as (c & r & -> & _).
    unfold starts_with in E. apply bool_decide_eq_true in E. cbn [length] in E.
    apply (Hne c (c :: r) Hw); [left|].
    eapply (subseteq_take (S (length r)) b). rewrite E. left. }
  assert (List.find (ends_with b) whitespace = None) as He.
  { destruct (List.find (ends_with b) whitespace) as [w|] eqn:E; [|reflexivity]. exfalso. apply List.find_some in E as [Hw E].
    apply list_elem_of_In in Hw. pose proof (whitespace_not_graphic w Hw) as (c & r & -> & _).
    unfold ends_with in E. apply bool_decide_eq_true in E.
    apply (Hne c (c :: r) Hw); [left|].
    eapply (subseteq_drop (length b - length (c :: r)) b). rewrite E. left. }
  assert (trim_start b = b) as E1.
  { unfold trim_start. destruct (length b); [done|]. cbn [trim_start_fuel]. by rewrite Hs. }
  unfold trim. rewrite E1. unfold trim_end. destruct (length b); [done|]. cbn [trim_end_fuel]. by rewrite He.
Qed.

Lemma utf8_graphic b : Forall (fun c => graphic c = true) b -> utf8_valid b = true.
Proof.
  induction 1 as [|c b Hc _ IH]; [done|]. cbn [utf8_valid].
  replace (byte_in 0 127 c) with true; [done|]. symmetry. unfold graphic, byte_in in *.
  apply andb_true_iff in Hc as [H1 H2]. apply N.leb_le in H2. apply andb_true_iff.
  split; apply N.leb_le; lia.
Qed.

(** [format!("{b:02x}")] of every byte. *)
Definition hex_of (b : bytes) : bytes := b ≫= fun c => hex_pad 2 (N_of_ascii c).

Lemma hex_of_graphic b : Forall (fun c => graphic c = true) (hex_of b).
Proof.
  induction b as [|c b IH]; [constructor|].
  change (hex_of (c :: b)) with (hex_pad 2 (N_of_ascii c) ++ hex_of b).
  apply Forall_app. split; [|exact IH].
  destruct c as [[] [] [] [] [] [] [] []]; apply (bool_decide_unpack _); vm_compute; exact I.
Qed.

(** Visible ASCII text and blanks survive the lossy conversion. *)
Lemma utf8_lossy_ascii b : Forall (fun c => (N_of_ascii c <? 128)%N = true) b -> utf8_lossy b = b.
Proof.
  induction 1 as [|c b Hc _ IH]; [done|]. cbn [utf8_lossy].
  replace (byte_in 0 127 c) with true; [by rewrite IH|]. symmetry. unfold byte_in.
  apply N.ltb_lt in Hc. apply andb_true_iff. split; apply N.leb_le; lia.
Qed.

(** ** Valid text *)

(** Valid text followed by anything is as valid as what follows. *)
Lemma utf8_valid_app a b : utf8_valid a = true -> utf8_valid (a ++ b) = utf8_valid b.
Proof.
  remember (length a) as n eqn:Hn. revert a Hn.
  induction n as [n IH] using lt_wf_ind. intros a -> Ha.
  destruct a as [|c1 r1]; [done|]. cbn [utf8_valid app] in *.
  assert (forall r, length r < S (length r1) -> utf8_valid r = true ->
          utf8_valid (r ++ b) = utf8_valid b) as IHr by (intros r Hr; exact (IH (length r) Hr r eq_refl)).
  repeat case_match; simplify_eq/=; try done;
    repeat match goal with
    | H : (_ && _)%bool = true |- _ => apply andb_true_iff in H as [? H]
    end; rewrite ?IHr by (done || lia);
    repeat match goal with H : _ = true |- _ => rewrite H end; done.
Qed.

Lemma byte_in_disjoint lo1 hi1 lo2 hi2 c :
  byte_in lo1 hi1 c = true -> (hi1 < lo2)%N \/ (hi2 < lo1)%N -> byte_in lo2 hi2 c = false.
Proof.
  unfold byte_in. intros [H1%N.leb_le H2%N.leb_le]%andb_true_iff Hd.
  apply andb_false_iff. rewrite !N.leb_gt. lia.
Qed.

(** The second byte of a character of three or four bytes, as [utf8_valid] checks it. *)
Lemma second_ok_3 c1 c2 :
  byte_in 224 239 c1 = true ->
  second_ok c1 c2 = if byte_in 224 224 c1 then byte_in 160 191 c2
                    else if byte_in 237 237 c1 then byte_in 128 159 c2 else is_cont c2.
Proof.
  intros H. unfold second_ok.
  by rewrite (byte_in_disjoint _ _ 240 240 _ H), (byte_in_disjoint _ _ 244 244 _ H) by lia.
Qed.

Lemma second_ok_4 c1 c2 :
  byte_in 240 244 c1 = true ->
  second_ok c1 c2 = if byte_in 240 240 c1 then byte_in 144 191 c2
                    else if byte_in 244 244 c1 then byte_in 128 143 c2 else is_cont c2.
Proof.
  intros H. unfold second_ok.
  by rewrite (byte_in_disjoint _ _ 224 224 _ H), (byte_in_disjoint _ _ 237 237 _ H) by lia.
Qed.

Lemma utf8_lossy_valid b : utf8_valid b = true -> utf8_lossy b = b.
Proof.
  remember (length b) as n eqn:Hn. revert b Hn.
  induction n as [n IH] using lt_wf_ind. intros b -> Hb.
  destruct b as [|c1 r1]; [done|].
  assert (forall r, length r < S (length r1) -> utf8_valid r = true -> utf8_lossy r = r) as IHr
    by (intros r Hr; exact (IH (length r) Hr r eq_refl)).
  clear IH. cbn [utf8_valid utf8_lossy] in *.
  destruct (byte_in 0 127 c1); [by rewrite IHr by (done || lia)|].
  destruct (byte_in 194 223 c1).
  { destruct r1 as [|c2 r2]; [done|]. apply andb_true_iff in Hb as [-> Hb].
    by rewrite IHr by (done || simpl; lia). }
  destruct (byte_in 224 239 c1) eqn:H3.
  { destruct r1 as [|c2 [|c3 r3]]; try done. rewrite second_ok_3 by done.
    rewrite !andb_true_iff in Hb. destruct Hb as [[-> ->] Hb]. by rewrite IHr by (done || simpl; lia). }
  destruct (byte_in 240 244 c1) eqn:H4; [|done].
  destruct r1 as [|c2 [|c3 [|c4 r4]]]; try done. rewrite second_ok_4 by done.
  rewrite !andb_true_iff in Hb. destruct Hb as [[[-> ->] ->] Hb]. by rewrite IHr by (done || simpl; lia).
Qed.

(** *** Decimal numbers *)

Lemma pretty_N_char_graphic x : graphic (pretty_N_char x) = true /\ pretty_N_char x <> "/"%char.
Proof. unfold pretty_N_char. by repeat case_match. Qed.

Lemma pretty_N_go_graphic x s :
  Forall (fun c => graphic c = true /\ c <> "/"%char) (bs s) ->
  Forall (fun c => graphic c = true /\ c <> "/"%char) (bs (pretty_N_go x s)).
Proof.
  revert s. induction (N.lt_wf_0 x) as [x _ IH]; intros s Hs.
  destruct (decide (0 < x)%N) as [Hx|Hx].
  - rewrite pretty_N_go_step by done. apply IH; [apply N.div_lt; lia|].
    constructor; [apply pretty_N_char_graphic|done].
  - replace x with 0%N by lia. by rewrite pretty_N_go_0.
Qed.

Lemma decimal_graphic x : Forall (fun c => graphic c = true /\ c <> "/"%char) (decimal x).
Proof.
  unfold decimal, pretty, pretty_N. case_decide; [by repeat constructor|].
  apply pretty_N_go_graphic. constructor.
Qed.

Lemma decimal_valid x : utf8_valid (decimal x) = true.
Proof. apply utf8_graphic. eapply Forall_impl; [apply decimal_graphic|]. by intros c [? _]. Qed.

Lemma decimal_no_slash x : "/"%char ∉ decimal x.
Proof.
  intros H. pose proof (decimal_graphic x) as HF. rewrite Forall_forall in HF.
  by destruct (HF _ H).
Qed.

(** *** Joined words *)

Lemma split_on_app c w b v vs :
  c ∉ w -> split_on c b = v :: vs -> split_on c (w ++ b) = (w ++ v) :: vs.
Proof.
  intros Hw Hb. induction w as [|d w IH]; [done|].
  apply not_elem_of_cons in Hw as [Hd Hw]. simpl. rewrite IH by done. by rewrite decide_False.
Qed.

Lemma split_on_words c ws :
  Forall (fun w => c ∉ w) ws -> split_on c (ws ≫= fun w => c :: w) = [] :: ws.
Proof.
  induction 1 as [|w ws Hw Hws IH]; [done|].
  change ((w :: ws) ≫= fun w => c :: w) with (c :: w ++ (ws ≫= fun w => c :: w)).
  cbn [split_on]. rewrite (split_on_app c w _ [] ws Hw IH), app_nil_r. by rewrite decide_True.
Qed.

(** *** Lossy text keeps ASCII *)

Definition is_ascii (c : ascii) : bool := byte_in 0 127 c.

Lemma ascii_not_cont c : is_ascii c = true -> is_cont c = false.
Proof. intros H. apply (byte_in_disjoint _ _ _ _ _ H). lia. Qed.

Lemma ascii_not_second c1 c : is_ascii c = true -> second_ok c1 c = false.
Proof.
  intros H. unfold second_ok, is_cont.
  repeat case_match; apply (byte_in_disjoint _ _ _ _ _ H); lia.
Qed.

(** An ASCII character ends whatever character was broken before it. *)
Lemma utf8_lossy_ascii_sep a c b :
  is_ascii c = true -> utf8_lossy (a ++ c :: b) = utf8_lossy a ++ c :: utf8_lossy b.
Proof.
  intros Hc. pose proof (ascii_not_cont c Hc) as Hn. pose proof (fun d => ascii_not_second d c Hc) as Hs.
  assert (utf8_lossy (c :: b) = c :: utf8_lossy b) as E.
  { cbn [utf8_lossy]. unfold is_ascii in Hc. by rewrite Hc. }
  remember (length a) as n eqn:Hl. revert a Hl.
  induction n as [n IH] using lt_wf_ind. intros a ->. destruct a as [|c1 r1]; [exact E|].
  assert (forall r, length r < S (length r1) ->
          utf8_lossy (r ++ c :: b) = utf8_lossy r ++ c :: utf8_lossy b) as IHr
    by (intros r Hr; exact (IH (length r) Hr r eq_refl)).
  clear IH. cbn [app]. cbn [utf8_lossy].
  destruct (byte_in 0 127 c1); [by rewrite IHr by lia|].
  destruct (byte_in 194 223 c1).
  { destruct r1 as [|c2 r2]; cbn [app].
    - by rewrite Hn, E.
    - case_match; [by rewrite IHr by (simpl; lia)|].
      rewrite <-app_assoc. f_equal. exact (IHr (c2 :: r2) ltac:(simpl; lia)). }
  destruct (byte_in 224 239 c1).
  { destruct r1 as [|c2 r2]; cbn [app].
    - by rewrite Hs, E.
    - case_match; [|rewrite <-app_assoc; f_equal; exact (IHr (c2 :: r2) ltac:(simpl; lia))].
      destruct r2 as [|c3 r3]; cbn [app].
      + by rewrite Hn, E.
      + case_match; [by rewrite IHr by (simpl; lia)|].
        rewrite <-app_assoc. f_equal. exact (IHr (c3 :: r3) ltac:(simpl; lia)). }
  destruct (byte_in 240 244 c1).
  2: { rewrite <-app_assoc. f_equal. apply IHr. lia. }
  destruct r1 as [|c2 r2]; cbn [app].
  - by rewrite Hs, E.
  - case_match; [|rewrite <-app_assoc; f_equal; exact (IHr (c2 :: r2) ltac:(simpl; lia))].
    destruct r2 as [|c3 r3]; cbn [app].
    + by rewrite Hn, E.
    + case_match; [|rewrite <-app_assoc; f_equal; exact (IHr (c3 :: r3) ltac:(simpl; lia))].
      destruct r3 as [|c4 r4]; cbn [app].
      * by rewrite Hn, E.
      * case_match; [by rewrite IHr by (simpl; lia)|].
        rewrite <-app_assoc. f_equal. exact (IHr (c4 :: r4) ltac:(simpl; lia)).
Qed.

(** Broken text becomes a replacement character, never ASCII. *)
Lemma utf8_lossy_head c1 r1 :
  is_ascii c1 = false -> exists d r, utf8_lossy (c1 :: r1) = d :: r /\ is_ascii d = false.
Proof.
  unfold is_ascii. intros H. cbn [utf8_lossy]. rewrite H. unfold REPLACEMENT.
  repeat case_match; simpl; eauto.
Qed.

Lemma utf8_lossy_nil b : utf8_lossy b = [] -> b = [].
Proof.
  destruct b as [|c r]; [done|]. destruct (is_ascii c) eqn:Hc.
  - cbn [utf8_lossy]. unfold is_ascii in Hc. by rewrite Hc.
  - destruct (utf8_lossy_head c r Hc) as (d & r' & -> & _). done.
Qed.

Lemma utf8_lossy_ascii_cons b c w :
  is_ascii c = true -> utf8_lossy b = c :: w -> exists r, b = c :: r /\ utf8_lossy r = w.
Proof.
  intros Hc. destruct b as [|d r]; [done|]. destruct (is_ascii d) eqn:Hd.
  - cbn [utf8_lossy]. unfold is_ascii in Hd. rewrite Hd. intros [= -> <-]. eauto.
  - destruct (utf8_lossy_head d r Hd) as (e & r' & E & He). rewrite E. intros [= -> _]. congruence.
Qed.

#[local] Opaque REPLACEMENT.

Lemma utf8_lossy_elem x b : x ∈ utf8_lossy b -> x ∈ b \/ x ∈ REPLACEMENT.
Proof.
  remember (length b) as n eqn:Hl. revert b Hl.
  induction n as [n IH] using lt_wf_ind. intros b ->. destruct b as [|c1 r1]; [by left|].
  assert (forall r, length r < S (length r1) -> x ∈ utf8_lossy r -> x ∈ r \/ x ∈ REPLACEMENT) as IHr
    by (intros r Hr; exact (IH (length r) Hr r eq_refl)).
  clear IH. cbn [utf8_lossy].
  repeat case_match; simplify_eq; rewrite ?elem_of_app, ?elem_of_cons; intros Hx;
    repeat match goal with
    | H : _ \/ _ |- _ => destruct H as [H|H]; [tauto|]
    end; try tauto;
    (apply IHr in Hx; [rewrite ?elem_of_cons in Hx; tauto|simpl; lia]).
Qed.
