(* ===== verification/Stream.v ===== *)
(** * Byte streams and serialization, as the codecs see them

    A reader is what the transport will still deliver and how the stream ends;
    a writer is what it has accepted so far, and how much more it will accept.
    The functions are tokio's [AsyncReadExt] and [AsyncWriteExt] methods with
    the [await]s erased: every theorem about them holds for any way the bytes
    are split into packets, because none of the methods returns early.

    serde_json is not part of the repository: [SerdeJson] is what the codecs
    use of it, and [SerdeJsonLaws] its documented round trip. *)

From S2P Require Import Prelude Text.

(** ** Readers *)

Record reader : Type := mk_reader {
  rd_data : bytes;      (** the bytes still to come *)
  rd_end : io_error;    (** what reading past them returns *)
}.

(** [AsyncReadExt::read_exact] into a buffer of [n] bytes. *)
Definition read_exact (n : nat) : M reader io_error bytes := fun r =>
  if decide (n <= length (rd_data r))
  then (Ok (take n (rd_data r)), mk_reader (drop n (rd_data r)) (rd_end r))
  else (Err (rd_end r), mk_reader [] (rd_end r)).

(** [AsyncReadExt::read_u8] and [read_u32]. *)
Definition read_u8 : M reader io_error N := b ← read_exact 1; mret (be_val b).
Definition read_u32 : M reader io_error N := b ← read_exact 4; mret (be_val b).
Definition read_u64 : M reader io_error N := b ← read_exact 8; mret (be_val b).

(** ** Writers *)

Record writer : Type := mk_writer {
  wr_out : bytes;           (** the bytes accepted *)
  wr_room : option nat;     (** how many more are accepted, if bounded *)
  wr_end : io_error;        (** what writing past that returns *)
}.

(** A writer that accepts everything. *)
Definition open_writer : writer := mk_writer [] None BrokenPipe.

(** [AsyncWriteExt::write_all]: on failure a prefix has been written. *)
Definition write_all (b : bytes) : M writer io_error unit := fun w =>
  match wr_room w with
  | None => (Ok tt, mk_writer (wr_out w ++ b) None (wr_end w))
  | Some room =>
      if decide (length b <= room)
      then (Ok tt, mk_writer (wr_out w ++ b) (Some (room - length b)) (wr_end w))
      else (Err (wr_end w), mk_writer (wr_out w ++ take room b) (Some 0) (wr_end w))
  end.

Definition write_u8 (x : N) : M writer io_error unit := write_all (be_bytes 1 x).
Definition write_u32 (x : N) : M writer io_error unit := write_all (be_bytes 4 x).
Definition write_u64 (x : N) : M writer io_error unit := write_all (be_bytes 8 x).

(** [AsyncWriteExt::flush] on a stream that is not buffered by the writer. *)
Definition flush : M writer io_error unit := mret tt.

(** What a writer accepts in one successful call. *)
Definition wrote (b : bytes) (w w' : writer) : Prop :=
  wr_out w' = wr_out w ++ b /\
  wr_end w' = wr_end w /\
  match wr_room w, wr_room w' with
  | None, None => True
  | Some r, Some r' => r = length b + r'
  | _, _ => False
  end.

(** ** Lemmas *)

Lemma read_exact_app n b rest e :
  length b = n -> read_exact n (mk_reader (b ++ rest) e) = (Ok b, mk_reader rest e).
Proof.
  intros <-. unfold read_exact; simpl. rewrite decide_True by (rewrite length_app; lia).
  by rewrite take_app_length, drop_app_length.
Qed.

Lemma read_exact_short n r :
  length (rd_data r) < n -> read_exact n r = (Err (rd_end r), mk_reader [] (rd_end r)).
Proof. intros ?. unfold read_exact. by rewrite decide_False by lia. Qed.

Lemma read_exact_ok_inv n r b r' :
  read_exact n r = (Ok b, r') ->
  length b = n /\ rd_data r = b ++ rd_data r' /\ rd_end r' = rd_end r.
Proof.
  unfold read_exact. case_decide; intros [= <- <-]; simpl.
  rewrite length_take, take_drop. split_and!; auto. lia.
Qed.

Lemma read_exact_err_inv n r e r' :
  read_exact n r = (Err e, r') -> e = rd_end r /\ length (rd_data r) < n.
Proof. unfold read_exact. case_decide; intros [= <- <-]. split; [done|lia]. Qed.

Lemma read_u8_cons c rest e :
  read_u8 (mk_reader (c :: rest) e) = (Ok (N_of_ascii c), mk_reader rest e).
Proof.
  unfold read_u8. rewrite (bind_ok _ _ _ [c] (mk_reader rest e)); [done|].
  by apply (read_exact_app 1 [c]).
Qed.

Lemma read_be_app (k : nat) x rest e :
  (x < 256 ^ N.of_nat k)%N ->
  (b ← read_exact k; mret (be_val b)) (mk_reader (be_bytes k x ++ rest) e)
  = (Ok x, mk_reader rest e).
Proof.
  intros ?. rewrite (bind_ok _ _ _ (be_bytes k x) (mk_reader rest e)).
  - by rewrite be_val_bytes.
  - by apply read_exact_app, be_bytes_length.
Qed.

Lemma read_u8_app x rest e :
  (x < 256)%N -> read_u8 (mk_reader (be_bytes 1 x ++ rest) e) = (Ok x, mk_reader rest e).
Proof. intros. by apply (read_be_app 1). Qed.

Lemma read_u32_app x rest e :
  (x < 2 ^ 32)%N -> read_u32 (mk_reader (be_bytes 4 x ++ rest) e) = (Ok x, mk_reader rest e).
Proof. intros. by apply (read_be_app 4). Qed.

Lemma read_u64_app x rest e :
  (x < 2 ^ 64)%N -> read_u64 (mk_reader (be_bytes 8 x ++ rest) e) = (Ok x, mk_reader rest e).
Proof. intros. by apply (read_be_app 8). Qed.

Lemma write_all_ok_inv b w w' : write_all b w = (Ok tt, w') -> wrote b w w'.
Proof.
  unfold write_all, wrote.
  destruct (wr_room w) as [room|] eqn:?; [case_decide|]; intros [= <-]; simpl; auto.
  split_and!; auto; lia.
Qed.

Lemma write_all_open b out e :
  write_all b (mk_writer out None e) = (Ok tt, mk_writer (out ++ b) None e).
Proof. done. Qed.

Lemma wrote_trans b1 b2 w1 w2 w3 :
  wrote b1 w1 w2 -> wrote b2 w2 w3 -> wrote (b1 ++ b2) w1 w3.
Proof.
  intros (H1 & E1 & R1) (H2 & E2 & R2). unfold wrote.
  rewrite H2, H1, <-app_assoc. split_and!; [done|congruence|].
  destruct (wr_room w1), (wr_room w2), (wr_room w3); try done.
  rewrite length_app. lia.
Qed.

(** Whatever happens, a writer only ever extends its output. *)
Definition extends (w w' : writer) : Prop := wr_out w `prefix_of` wr_out w'.

Lemma write_all_extends b w : extends w (write_all b w).2.
Proof.
  unfold extends, write_all.
  destruct (wr_room w); [case_decide|]; simpl; by apply prefix_app_r.
Qed.

(** ** serde_json *)

(** The types the source derives [Serialize] and [Deserialize] for. *)
Class Payload (T : Type) : Type := {
  payload_eq_dec :: EqDecision T;
  payload_countable :: Countable T;
}.

(** [serde_json::Error], by its message. *)
Definition json_error : Type := bytes.

Class SerdeJson : Type := {
  to_vec : forall (T : Type) (P : Payload T), T -> result json_error bytes;
  to_vec_pretty : forall (T : Type) (P : Payload T), T -> result json_error bytes;
  from_slice : forall (T : Type) (P : Payload T), bytes -> result json_error T;
}.
Arguments to_vec {_ T P} x.
Arguments to_vec_pretty {_ T P} x.
Arguments from_slice {_ T P} b.

Class SerdeJsonLaws `{SerdeJson} : Prop := {
  from_slice_to_vec : forall (T : Type) (P : Payload T) (x : T) (b : bytes),
    to_vec x = Ok b -> from_slice b = Ok x;
  from_slice_to_vec_pretty : forall (T : Type) (P : Payload T) (x : T) (b : bytes),
    to_vec_pretty x = Ok b -> from_slice b = Ok x /\ utf8_valid b = true;
}.

(** A concrete serializer, so that statements over [SerdeJson] can be run: the
    bits of stdpp's encoding of the value. *)
Fixpoint pos_bits (p : positive) : bytes :=
  match p with
  | xH => []
  | xO p => "0"%char :: pos_bits p
  | xI p => "1"%char :: pos_bits p
  end.

Fixpoint bits_pos (b : bytes) : option positive :=
  match b with
  | [] => Some xH
  | c :: b =>
      p ← bits_pos b;
      if decide (c = "0"%char) then Some (xO p)
      else if decide (c = "1"%char) then Some (xI p)
      else None
  end.

Lemma bits_pos_bits p : bits_pos (pos_bits p) = Some p.
Proof. induction p as [p IH|p IH|]; simpl; try rewrite IH; done. Qed.

Lemma pos_bits_text p : utf8_valid (pos_bits p) = true.
Proof. by induction p. Qed.

Definition bit_json : SerdeJson := {|
  to_vec T P x := Ok (pos_bits (encode x));
  to_vec_pretty T P x := Ok (pos_bits (encode x));
  from_slice T P b :=
    match bits_pos b ≫= decode with
    | Some x => Ok x
    | None => Err (bs "invalid payload")
    end;
|}.

Lemma bit_json_laws : @SerdeJsonLaws bit_json.
Proof.
  split; intros T P x b; simpl; intros [= <-];
    rewrite bits_pos_bits; simpl; rewrite decode_encode; auto using pos_bits_text.
Qed.
