(* ===== verification/TransferTypes.v ===== *)
(** * The transfer protocol's data: [src/transport/transfer/types.rs]

    The payload of every frame as a record, the failure codes, the frame type
    and the error type. A [u64], [u32] or [usize] is an [N]; a [String] is its
    UTF-8 bytes. Each type the source derives [Serialize]/[Deserialize] for is
    a [Payload]. *)

From S2P Require Import Prelude Stream.

Definition MAX_CONTROL_BYTES : N := 8 * 1024.
Definition MAX_CHUNK_BYTES : N := 64 * 1024.

(** ** Payloads *)

Record PutRequest : Type := mk_PutRequest {
  put_path : bytes;
  put_size : N;
  put_mode : option N;
  put_recursive : bool;
}.

Record GetRequest : Type := mk_GetRequest {
  get_path : bytes;
  get_recursive : bool;
}.

Record BlobPutRequest : Type := mk_BlobPutRequest {
  bput_path : bytes;
  bput_hash : bytes;
  bput_format : bytes;
  bput_size : N;
}.

Record BlobGetRequest : Type := mk_BlobGetRequest {
  bget_path : bytes;
}.

Record BlobGetReady : Type := mk_BlobGetReady {
  bready_hash : bytes;
  bready_format : bytes;
  bready_size : N;
}.

Record TransferReady : Type := mk_TransferReady {
  ready_size : N;
  ready_mode : option N;
}.

Record EntryHeader : Type := mk_EntryHeader {
  eh_path : bytes;
  eh_size : N;
  eh_mode : option N;
  eh_is_dir : bool;
}.

Inductive EntryComplete : Type := mk_EntryComplete.

Record TransferComplete : Type := mk_TransferComplete {
  complete_size : N;
}.

Inductive TransferFailureCode : Type :=
| RemoteShellUnavailable
| TargetAlreadyExists
| PathInvalid
| CreateDirectoryFailed
| SizeMismatch
| UnexpectedFrame
| HelperFailed
| AtomicRenameFailed
| Rejected
| CodeNotFound
| IsDirectory
| Internal.

Record TransferFailure : Type := mk_TransferFailure {
  failure_code : TransferFailureCode;
  failure_detail : bytes;
}.

(** [TransferFailure::label] *)
Definition label (f : TransferFailure) : bytes :=
  match failure_code f with
  | RemoteShellUnavailable => bs "remote shell unavailable"
  | TargetAlreadyExists => bs "target already exists"
  | PathInvalid => bs "transfer path invalid"
  | CreateDirectoryFailed => bs "creating remote directory failed"
  | SizeMismatch => bs "transfer size mismatch"
  | UnexpectedFrame => bs "unexpected transfer frame"
  | HelperFailed => bs "transfer helper failed"
  | AtomicRenameFailed => bs "atomic rename failed"
  | Rejected => bs "transfer rejected"
  | CodeNotFound => bs "path not found"
  | IsDirectory => bs "path is a directory"
  | Internal => bs "transfer internal error"
  end.

(** [impl Display for TransferFailure] *)
Definition display_failure (f : TransferFailure) : bytes :=
  if decide (failure_detail f = []) then label f
  else label f ++ bs ": " ++ failure_detail f.

Inductive CwdRequest : Type := mk_CwdRequest.

Record CwdResponse : Type := mk_CwdResponse { cwd_path : bytes }.

Record ExistsRequest : Type := mk_ExistsRequest { exists_path : bytes }.

Record ExistsResponse : Type := mk_ExistsResponse {
  ex_exists : bool;
  ex_is_dir : bool;
}.

Record CompletionRequest : Type := mk_CompletionRequest { completion_path : bytes }.

Record CompletionResponse : Type := mk_CompletionResponse { matches : list bytes }.

(** ** Frames *)

Inductive TransferFrame : Type :=
| FPutRequest (r : PutRequest)
| FPutReady (r : TransferReady)
| FPutChunk (b : bytes)
| FPutComplete (c : TransferComplete)
| FGetRequest (r : GetRequest)
| FGetReady (r : TransferReady)
| FGetChunk (b : bytes)
| FGetComplete (c : TransferComplete)
| FCwdRequest (r : CwdRequest)
| FCwdResponse (r : CwdResponse)
| FExistsRequest (r : ExistsRequest)
| FExistsResponse (r : ExistsResponse)
| FCompletionRequest (r : CompletionRequest)
| FCompletionResponse (r : CompletionResponse)
| FBlobPutRequest (r : BlobPutRequest)
| FBlobGetRequest (r : BlobGetRequest)
| FBlobGetReady (r : BlobGetReady)
| FNewEntry (h : EntryHeader)
| FEntryComplete (c : EntryComplete)
| FError (f : TransferFailure).

(** ** Errors *)

Inductive TransferError : Type :=
| TIo (e : io_error)
| InvalidMagic
| UnsupportedVersion (version : N)
| UnsupportedKind (kind : N)
| UnexpectedKind (expected actual : N)
| PayloadTooLarge (size : N)
| TJson (e : json_error)
| InvalidPath (details : bytes).

(** ** Decidable equality and serialization *)

#[export] Instance failure_code_eq_dec : EqDecision TransferFailureCode.
Proof. solve_decision. Defined.

(** Position in the declaration: the variant index derive assigns. *)
Definition code_index (c : TransferFailureCode) : nat :=
  match c with
  | RemoteShellUnavailable => 0 | TargetAlreadyExists => 1 | PathInvalid => 2
  | CreateDirectoryFailed => 3 | SizeMismatch => 4 | UnexpectedFrame => 5
  | HelperFailed => 6 | AtomicRenameFailed => 7 | Rejected => 8
  | CodeNotFound => 9 | IsDirectory => 10 | Internal => 11
  end.

Definition code_at (n : nat) : TransferFailureCode :=
  match n with
  | 0 => RemoteShellUnavailable | 1 => TargetAlreadyExists | 2 => PathInvalid
  | 3 => CreateDirectoryFailed | 4 => SizeMismatch | 5 => UnexpectedFrame
  | 6 => HelperFailed | 7 => AtomicRenameFailed | 8 => Rejected
  | 9 => CodeNotFound | 10 => IsDirectory | _ => Internal
  end.

Lemma code_at_index c : code_at (code_index c) = c.
Proof. by destruct c. Qed.

#[export] Instance failure_code_countable : Countable TransferFailureCode :=
  inj_countable' code_index code_at code_at_index.

(** A record is a payload when a tuple of its fields is. *)
Lemma inj_payload {A B} `{EqDecision B} (f : A -> B) (g : B -> A) (E : forall x, g (f x) = x) :
  EqDecision A.
Proof.
  intros x y. destruct (decide (f x = f y)) as [H|H].
  - left. rewrite <-(E x), <-(E y). by f_equal.
  - right. intros ->. done.
Defined.

Definition tuple_payload {A B} `{Countable B} (f : A -> B) (g : B -> A)
    (E : forall x, g (f x) = x) : Payload A :=
  {| payload_eq_dec := inj_payload f g E;
     payload_countable := @inj_countable' B _ _ A (inj_payload f g E) f g E |}.

#[export] Instance PutRequest_payload : Payload PutRequest.
Proof.
  refine (tuple_payload
    (fun r => (put_path r, put_size r, put_mode r, put_recursive r))
    (fun '(p, s, m, rec) => mk_PutRequest p s m rec) _); by intros [].
Defined.

#[export] Instance GetRequest_payload : Payload GetRequest.
Proof.
  refine (tuple_payload (fun r => (get_path r, get_recursive r))
    (fun '(p, rec) => mk_GetRequest p rec) _); by intros [].
Defined.

#[export] Instance BlobPutRequest_payload : Payload BlobPutRequest.
Proof.
  refine (tuple_payload
    (fun r => (bput_path r, bput_hash r, bput_format r, bput_size r))
    (fun '(p, h, f, s) => mk_BlobPutRequest p h f s) _); by intros [].
Defined.

#[export] Instance BlobGetRequest_payload : Payload BlobGetRequest.
Proof. refine (tuple_payload bget_path mk_BlobGetRequest _); by intros []. Defined.

#[export] Instance BlobGetReady_payload : Payload BlobGetReady.
Proof.
  refine (tuple_payload (fun r => (bready_hash r, bready_format r, bready_size r))
    (fun '(h, f, s) => mk_BlobGetReady h f s) _); by intros [].
Defined.

#[export] Instance TransferReady_payload : Payload TransferReady.
Proof.
  refine (tuple_payload (fun r => (ready_size r, ready_mode r))
    (fun '(s, m) => mk_TransferReady s m) _); by intros [].
Defined.

#[export] Instance EntryHeader_payload : Payload EntryHeader.
Proof.
  refine (tuple_payload (fun h => (eh_path h, eh_size h, eh_mode h, eh_is_dir h))
    (fun '(p, s, m, d) => mk_EntryHeader p s m d) _); by intros [].
Defined.

#[export] Instance EntryComplete_payload : Payload EntryComplete.
Proof. refine (tuple_payload (fun _ => tt) (fun _ => mk_EntryComplete) _); by intros []. Defined.

#[export] Instance TransferComplete_payload : Payload TransferComplete.
Proof. refine (tuple_payload complete_size mk_TransferComplete _); by intros []. Defined.

#[export] Instance TransferFailure_payload : Payload TransferFailure.
Proof.
  refine (tuple_payload (fun f => (failure_code f, failure_detail f))
    (fun '(c, d) => mk_TransferFailure c d) _); by intros [].
Defined.

#[export] Instance CwdRequest_payload : Payload CwdRequest.
Proof. refine (tuple_payload (fun _ => tt) (fun _ => mk_CwdRequest) _); by intros []. Defined.

#[export] Instance CwdResponse_payload : Payload CwdResponse.
Proof. refine (tuple_payload cwd_path mk_CwdResponse _); by intros []. Defined.

#[export] Instance ExistsRequest_payload : Payload ExistsRequest.
Proof. refine (tuple_payload exists_path mk_ExistsRequest _); by intros []. Defined.

#[export] Instance ExistsResponse_payload : Payload ExistsResponse.
Proof.
  refine (tuple_payload (fun r => (ex_exists r, ex_is_dir r))
    (fun '(e, d) => mk_ExistsResponse e d) _); by intros [].
Defined.

#[export] Instance CompletionRequest_payload : Payload CompletionRequest.
Proof. refine (tuple_payload completion_path mk_CompletionRequest _); by intros []. Defined.

#[export] Instance CompletionResponse_payload : Payload CompletionResponse.
Proof. refine (tuple_payload matches mk_CompletionResponse _); by intros []. Defined.

#[export] Instance EntryHeader_eq_dec : EqDecision EntryHeader := payload_eq_dec.
#[export] Instance TransferFailure_eq_dec : EqDecision TransferFailure := payload_eq_dec.
#[export] Instance TransferReady_eq_dec : EqDecision TransferReady := payload_eq_dec.
#[export] Instance TransferComplete_eq_dec : EqDecision TransferComplete := payload_eq_dec.
