(* ===== verification/TransferCodec.v ===== *)
(** * The transfer wire format: [src/transport/transfer/codec/]

    A frame is the magic ["IRFT"], the version, the kind, the payload length
    as a big-endian [u32], and the payload. [read_frame] and [write_frame] are
    the raw codec; the [read_*] and [write_*] functions are the typed layer. *)

From S2P Require Import Prelude Stream TransferTypes.

(** ** Constants of [codec/mod.rs] *)

Definition MAGIC : bytes := bs "IRFT".
Definition VERSION : N := 2.

Definition KIND_PUT_REQUEST : N := 1.
Definition KIND_PUT_READY : N := 2.
Definition KIND_PUT_CHUNK : N := 3.
Definition KIND_PUT_COMPLETE : N := 4.
Definition KIND_GET_REQUEST : N := 5.
Definition KIND_GET_READY : N := 6.
Definition KIND_GET_CHUNK : N := 7.
Definition KIND_GET_COMPLETE : N := 8.
Definition KIND_ERROR : N := 9.
Definition KIND_CWD_REQUEST : N := 10.
Definition KIND_CWD_RESPONSE : N := 11.
Definition KIND_EXISTS_REQUEST : N := 12.
Definition KIND_EXISTS_RESPONSE : N := 13.
Definition KIND_NEW_ENTRY : N := 14.
Definition KIND_ENTRY_COMPLETE : N := 15.
Definition KIND_COMPLETION_REQUEST : N := 16.
Definition KIND_COMPLETION_RESPONSE : N := 17.
Definition KIND_BLOB_PUT_REQUEST : N := 18.
Definition KIND_BLOB_GET_REQUEST : N := 19.
Definition KIND_BLOB_GET_READY : N := 20.

Definition io {S A} (m : M S io_error A) : M S TransferError A := M_map_err TIo m.

(** The limit [validate_payload_limit] selects. *)
Definition max_len (kind : N) : N :=
  if (kind =? KIND_PUT_CHUNK)%N || (kind =? KIND_GET_CHUNK)%N
  then MAX_CHUNK_BYTES else MAX_CONTROL_BYTES.

Definition validate_payload_limit {S} (kind payload_len : N) : M S TransferError unit :=
  ensure (negb (max_len kind <? payload_len)%N) (PayloadTooLarge payload_len).

Definition write_frame (kind : N) (payload : bytes) : M writer TransferError unit :=
  validate_payload_limit kind (blen payload);;
  io (write_all MAGIC);;
  io (write_u8 VERSION);;
  io (write_u8 kind);;
  let len := (blen payload mod 2 ^ 32)%N in
  io (write_u32 len);;
  io (write_all payload);;
  io flush;;
  mret tt.

(** ** [codec/reader.rs] *)

(** The [matches!] of [read_frame]. *)
Definition known_kind (kind : N) : bool :=
  existsb (N.eqb kind)
    [KIND_PUT_REQUEST; KIND_PUT_READY; KIND_PUT_CHUNK; KIND_PUT_COMPLETE;
     KIND_GET_REQUEST; KIND_GET_READY; KIND_GET_CHUNK; KIND_GET_COMPLETE;
     KIND_ERROR; KIND_CWD_REQUEST; KIND_CWD_RESPONSE; KIND_EXISTS_REQUEST;
     KIND_EXISTS_RESPONSE; KIND_NEW_ENTRY; KIND_ENTRY_COMPLETE;
     KIND_COMPLETION_REQUEST; KIND_COMPLETION_RESPONSE; KIND_BLOB_PUT_REQUEST;
     KIND_BLOB_GET_REQUEST; KIND_BLOB_GET_READY].

Definition read_frame : M reader TransferError (N * bytes) :=
  magic ← io (read_exact 4);
  ensure (bool_decide (magic = MAGIC)) InvalidMagic;;
  version ← io read_u8;
  ensure (version =? VERSION)%N (UnsupportedVersion version);;
  kind ← io read_u8;
  ensure (known_kind kind) (UnsupportedKind kind);;
  length ← io read_u32;
  validate_payload_limit kind length;;
  payload ← io (read_exact (N.to_nat length));
  mret (kind, payload).

(** [Vec::resize(n, 0)] *)
Definition resize (n : nat) (buf : bytes) : bytes :=
  take n buf ++ replicate (n - length buf) zero.

(** [read_exact(&mut buf[..])]: the bytes that arrived overwrite the front of
    the buffer, whether or not it fills up. *)
Definition read_exact_into (buf : bytes) (r : reader) : result io_error unit * bytes * reader :=
  let n := length buf in
  let buf' := take n (rd_data r) ++ drop (length (rd_data r)) buf in
  let '(res, r') := read_exact n r in
  (match res with Ok _ => Ok tt | Err e => Err e end, buf', r').

(** [read_frame_into]: the caller's buffer is part of the state, and a
    successful call returns the kind and (a view of) the buffer. *)
Definition read_frame_into : M (reader * bytes) TransferError (N * bytes) := fun '(r, buf) =>
  let header : M reader TransferError (N * N) :=
    magic ← io (read_exact 4);
    ensure (bool_decide (magic = MAGIC)) InvalidMagic;;
    version ← io read_u8;
    ensure (version =? VERSION)%N (UnsupportedVersion version);;
    kind ← io read_u8;
    ensure (known_kind kind) (UnsupportedKind kind);;
    length ← io read_u32;
    validate_payload_limit kind length;;
    mret (kind, length) in
  match header r with
  | (Err e, r') => (Err e, (r', buf))
  | (Ok (kind, length), r') =>
      let buf := resize (N.to_nat length) buf in
      match read_exact_into buf r' with
      | (Ok _, buf, r') => (Ok (kind, buf), (r', buf))
      | (Err e, buf, r') => (Err (TIo e), (r', buf))
      end
  end.

(** [TransferFrameBorrowed] *)
Inductive TransferFrameBorrowed : Type :=
| BPutChunk (b : bytes)
| BGetChunk (b : bytes)
| BOwned (f : TransferFrame).

Section typed.
Context {SJ : SerdeJson}.

Definition json {S A} (r : result json_error A) : M S TransferError A :=
  lift (map_err TJson r).

Definition read_json_frame {T} `{Payload T} (expected_kind : N) : M reader TransferError T :=
  '(kind, payload) ← read_frame;
  ensure (kind =? expected_kind)%N (UnexpectedKind expected_kind kind);;
  json (from_slice payload).

(** [decode_frame] *)
Definition decode_frame (kind : N) (payload : bytes) : result TransferError TransferFrame :=
  let de {T} `{Payload T} (f : T -> TransferFrame) : result TransferError TransferFrame :=
    map_err TJson (f <$> from_slice payload) in
  if (kind =? KIND_PUT_REQUEST)%N then de FPutRequest
  else if (kind =? KIND_PUT_READY)%N then de FPutReady
  else if (kind =? KIND_PUT_COMPLETE)%N then de FPutComplete
  else if (kind =? KIND_GET_REQUEST)%N then de FGetRequest
  else if (kind =? KIND_GET_READY)%N then de FGetReady
  else if (kind =? KIND_GET_COMPLETE)%N then de FGetComplete
  else if (kind =? KIND_CWD_REQUEST)%N then de FCwdRequest
  else if (kind =? KIND_CWD_RESPONSE)%N then de FCwdResponse
  else if (kind =? KIND_EXISTS_REQUEST)%N then de FExistsRequest
  else if (kind =? KIND_EXISTS_RESPONSE)%N then de FExistsResponse
  else if (kind =? KIND_COMPLETION_REQUEST)%N then de FCompletionRequest
  else if (kind =? KIND_COMPLETION_RESPONSE)%N then de FCompletionResponse
  else if (kind =? KIND_BLOB_PUT_REQUEST)%N then de FBlobPutRequest
  else if (kind =? KIND_BLOB_GET_REQUEST)%N then de FBlobGetRequest
  else if (kind =? KIND_BLOB_GET_READY)%N then de FBlobGetReady
  else if (kind =? KIND_NEW_ENTRY)%N then de FNewEntry
  else if (kind =? KIND_ENTRY_COMPLETE)%N then de FEntryComplete
  else if (kind =? KIND_ERROR)%N then de FError
  else Err (UnsupportedKind kind).

Definition read_next_frame_into : M (reader * bytes) TransferError TransferFrameBorrowed :=
  '(kind, payload) ← read_frame_into;
  if (kind =? KIND_PUT_CHUNK)%N then mret (BPutChunk payload)
  else if (kind =? KIND_GET_CHUNK)%N then mret (BGetChunk payload)
  else frame ← lift (decode_frame kind payload); mret (BOwned frame).

Definition read_next_frame : M reader TransferError TransferFrame := fun r =>
  let '(res, (r', _)) := read_next_frame_into (r, []) in
  (match res with
   | Ok (BPutChunk payload) => Ok (FPutChunk payload)
   | Ok (BGetChunk payload) => Ok (FGetChunk payload)
   | Ok (BOwned frame) => Ok frame
   | Err e => Err e
   end, r').

Definition read_put_request : M reader TransferError PutRequest :=
  read_json_frame KIND_PUT_REQUEST.
Definition read_put_ready : M reader TransferError TransferReady :=
  read_json_frame KIND_PUT_READY.
Definition read_put_chunk : M reader TransferError bytes :=
  '(kind, payload) ← read_frame;
  ensure (kind =? KIND_PUT_CHUNK)%N (UnexpectedKind KIND_PUT_CHUNK kind);;
  mret payload.
Definition read_put_complete : M reader TransferError TransferComplete :=
  read_json_frame KIND_PUT_COMPLETE.
Definition read_get_request : M reader TransferError GetRequest :=
  read_json_frame KIND_GET_REQUEST.
Definition read_get_ready : M reader TransferError TransferReady :=
  read_json_frame KIND_GET_READY.
Definition read_get_chunk : M reader TransferError bytes :=
  '(kind, payload) ← read_frame;
  ensure (kind =? KIND_GET_CHUNK)%N (UnexpectedKind KIND_GET_CHUNK kind);;
  mret payload.
Definition read_get_complete : M reader TransferError TransferComplete :=
  read_json_frame KIND_GET_COMPLETE.
Definition read_transfer_error : M reader TransferError TransferFailure :=
  read_json_frame KIND_ERROR.
Definition read_exists_request : M reader TransferError ExistsRequest :=
  read_json_frame KIND_EXISTS_REQUEST.
Definition read_exists_response : M reader TransferError ExistsResponse :=
  read_json_frame KIND_EXISTS_RESPONSE.

(** ** [codec/writer.rs] *)

Definition write_json_frame {T} `{Payload T} (kind : N) (value : T) :
    M writer TransferError unit :=
  payload ← json (to_vec value);
  write_frame kind payload.

Definition write_put_request (request : PutRequest) := write_json_frame KIND_PUT_REQUEST request.
Definition write_put_ready (ready : TransferReady) := write_json_frame KIND_PUT_READY ready.
Definition write_put_chunk (chunk : bytes) := write_frame KIND_PUT_CHUNK chunk.
Definition write_put_complete (c : TransferComplete) := write_json_frame KIND_PUT_COMPLETE c.
Definition write_get_request (request : GetRequest) := write_json_frame KIND_GET_REQUEST request.
Definition write_get_ready (ready : TransferReady) := write_json_frame KIND_GET_READY ready.
Definition write_get_chunk (chunk : bytes) := write_frame KIND_GET_CHUNK chunk.
Definition write_get_complete (c : TransferComplete) := write_json_frame KIND_GET_COMPLETE c.
Definition write_transfer_error (error : TransferFailure) := write_json_frame KIND_ERROR error.
Definition write_cwd_request (request : CwdRequest) := write_json_frame KIND_CWD_REQUEST request.
Definition write_cwd_response (response : CwdResponse) :=
  write_json_frame KIND_CWD_RESPONSE response.
Definition write_exists_request (req : ExistsRequest) :=
  write_json_frame KIND_EXISTS_REQUEST req.
Definition write_exists_response (res : ExistsResponse) :=
  write_json_frame KIND_EXISTS_RESPONSE res.
Definition write_new_entry (header : EntryHeader) := write_json_frame KIND_NEW_ENTRY header.
Definition write_entry_complete (c : EntryComplete) := write_json_frame KIND_ENTRY_COMPLETE c.
Definition write_completion_request (req : CompletionRequest) :=
  write_json_frame KIND_COMPLETION_REQUEST req.
Definition write_completion_response (res : CompletionResponse) :=
  write_json_frame KIND_COMPLETION_RESPONSE res.
Definition write_blob_put_request (req : BlobPutRequest) :=
  write_json_frame KIND_BLOB_PUT_REQUEST req.
Definition write_blob_get_request (req : BlobGetRequest) :=
  write_json_frame KIND_BLOB_GET_REQUEST req.
Definition write_blob_get_ready (ready : BlobGetReady) :=
  write_json_frame KIND_BLOB_GET_READY ready.

(** The writer of each frame, for stating what the pairs of functions
    promise together. *)
Definition write_any (f : TransferFrame) : M writer TransferError unit :=
  match f with
  | FPutRequest r => write_put_request r
  | FPutReady r => write_put_ready r
  | FPutChunk b => write_put_chunk b
  | FPutComplete c => write_put_complete c
  | FGetRequest r => write_get_request r
  | FGetReady r => write_get_ready r
  | FGetChunk b => write_get_chunk b
  | FGetComplete c => write_get_complete c
  | FCwdRequest r => write_cwd_request r
  | FCwdResponse r => write_cwd_response r
  | FExistsRequest r => write_exists_request r
  | FExistsResponse r => write_exists_response r
  | FCompletionRequest r => write_completion_request r
  | FCompletionResponse r => write_completion_response r
  | FBlobPutRequest r => write_blob_put_request r
  | FBlobGetRequest r => write_blob_get_request r
  | FBlobGetReady r => write_blob_get_ready r
  | FNewEntry h => write_new_entry h
  | FEntryComplete c => write_entry_complete c
  | FError f => write_transfer_error f
  end.
End typed.

(** ** The raw codec *)

(** The layout of a frame. *)
Definition encode_frame (kind : N) (payload : bytes) : bytes :=
  MAGIC ++ be_bytes 1 VERSION ++ be_bytes 1 kind ++ be_bytes 4 (blen payload) ++ payload.

(** What a conforming peer may send. *)
Definition frame_ok (kind : N) (payload : bytes) : Prop :=
  known_kind kind = true /\ (blen payload <= max_len kind)%N.

Lemma max_len_bound kind : (max_len kind <= 65536)%N.
Proof. unfold max_len, MAX_CHUNK_BYTES, MAX_CONTROL_BYTES. case_match; lia. Qed.

Lemma known_kind_u8 kind : known_kind kind = true -> (kind < 256)%N.
Proof.
  unfold known_kind. rewrite existsb_exists. intros (k & Hin & ->%N.eqb_eq).
  unfold KIND_PUT_REQUEST, KIND_PUT_READY, KIND_PUT_CHUNK, KIND_PUT_COMPLETE,
    KIND_GET_REQUEST, KIND_GET_READY, KIND_GET_CHUNK, KIND_GET_COMPLETE, KIND_ERROR,
    KIND_CWD_REQUEST, KIND_CWD_RESPONSE, KIND_EXISTS_REQUEST, KIND_EXISTS_RESPONSE,
    KIND_NEW_ENTRY, KIND_ENTRY_COMPLETE, KIND_COMPLETION_REQUEST,
    KIND_COMPLETION_RESPONSE, KIND_BLOB_PUT_REQUEST, KIND_BLOB_GET_REQUEST,
    KIND_BLOB_GET_READY in Hin.
  simpl in Hin. lia.
Qed.

Lemma io_ok {S A} (m : M S io_error A) s a s' :
  m s = (Ok a, s') -> io m s = (Ok a, s').
Proof. intros E. unfold io, M_map_err. by rewrite E. Qed.

Lemma io_ok_inv {S A} (m : M S io_error A) s a s' :
  io m s = (Ok a, s') -> m s = (Ok a, s').
Proof. unfold io, M_map_err. destruct (m s) as [[]]; naive_solver. Qed.

Lemma bind_io_ok {S A B} (m : M S io_error A) (k : A -> M S TransferError B) s a s' :
  m s = (Ok a, s') -> (io m ≫= k) s = k a s'.
Proof. intros E. by apply bind_ok, io_ok. Qed.

Lemma validate_ok {S B} kind len (k : unit -> M S TransferError B) s :
  (len <= max_len kind)%N -> (validate_payload_limit kind len ≫= k) s = k tt s.
Proof.
  intros. unfold validate_payload_limit.
  by rewrite bind_ensure, (proj2 (N.ltb_ge _ _)).
Qed.

(** Run one step of a codec forward. *)
Ltac io_step lem := rewrite (bind_io_ok _ _ _ _ _ lem); simpl.

Lemma read_frame_encode kind payload rest e :
  frame_ok kind payload ->
  read_frame (mk_reader (encode_frame kind payload ++ rest) e)
  = (Ok (kind, payload), mk_reader rest e).
Proof.
  intros [Hk Hl]. pose proof (known_kind_u8 _ Hk). pose proof (max_len_bound kind).
  unfold read_frame, encode_frame. rewrite <-!app_assoc.
  erewrite bind_io_ok by by apply read_exact_app. rewrite bind_ensure.
  rewrite bool_decide_true by done.
  erewrite bind_io_ok by by apply read_u8_app. rewrite bind_ensure, N.eqb_refl.
  erewrite bind_io_ok by by apply read_u8_app. rewrite bind_ensure, Hk.
  erewrite bind_io_ok by (apply read_u32_app; simpl; lia).
  rewrite validate_ok by done.
  erewrite bind_io_ok by (apply read_exact_app; unfold blen; lia). done.
Qed.

Lemma read_u8_inv r x r' :
  read_u8 r = (Ok x, r') ->
  rd_data r = be_bytes 1 x ++ rd_data r' /\ rd_end r' = rd_end r.
Proof.
  intros (b & r1 & Hb & [= <- <-])%bind_ok_inv.
  apply read_exact_ok_inv in Hb as (Hlen & -> & ?).
  by rewrite <-(be_bytes_val b), Hlen at 1.
Qed.

Lemma read_u32_inv r x r' :
  read_u32 r = (Ok x, r') ->
  rd_data r = be_bytes 4 x ++ rd_data r' /\ rd_end r' = rd_end r.
Proof.
  intros (b & r1 & Hb & [= <- <-])%bind_ok_inv.
  apply read_exact_ok_inv in Hb as (Hlen & -> & ?).
  by rewrite <-(be_bytes_val b), Hlen at 1.
Qed.

Lemma bind_ensure_inv {S E B} (c : bool) (e : E) (k : unit -> M S E B) s b s' :
  (ensure c e ≫= k) s = (Ok b, s') -> c = true /\ k tt s = (Ok b, s').
Proof. rewrite bind_ensure. by destruct c. Qed.

Lemma read_frame_inv r kind payload r' :
  read_frame r = (Ok (kind, payload), r') ->
  frame_ok kind payload /\ rd_data r = encode_frame kind payload ++ rd_data r' /\
  rd_end r' = rd_end r.
Proof.
  intros (magic & r1 & H1%io_ok_inv & H)%bind_ok_inv.
  apply bind_ensure_inv in H as [->%bool_decide_eq_true H].
  apply bind_ok_inv in H as (version & r2 & H2%io_ok_inv & H).
  apply bind_ensure_inv in H as [->%N.eqb_eq H].
  apply bind_ok_inv in H as (k & r3 & H3%io_ok_inv & H).
  apply bind_ensure_inv in H as [Hk H].
  apply bind_ok_inv in H as (len & r4 & H4%io_ok_inv & H).
  apply bind_ensure_inv in H as [Hl%negb_true_iff%N.ltb_ge H].
  apply bind_ok_inv in H as (b & r5 & H5%io_ok_inv & [= <- <- <-]).
  apply read_exact_ok_inv in H1 as (_ & E1 & ?), H5 as (Hb & E5 & ?).
  apply read_u8_inv in H2 as [E2 ?], H3 as [E3 ?]. apply read_u32_inv in H4 as [E4 ?].
  assert (blen b = len) as Hb' by (unfold blen; lia).
  unfold frame_ok, encode_frame. rewrite E1, E2, E3, E4, E5, Hb', <-!app_assoc.
  split_and!; congruence.
Qed.

Lemma write_frame_ok kind payload w :
  (blen payload <= max_len kind)%N ->
  write_frame kind payload w =
  (io (write_all MAGIC);; io (write_u8 VERSION);; io (write_u8 kind);;
   io (write_u32 (blen payload));; io (write_all payload)) w.
Proof.
  intros Hl. unfold write_frame. rewrite validate_ok by done.
  pose proof (max_len_bound kind). rewrite N.mod_small by (simpl; lia).
  unfold mbind, M_bind, io, M_map_err, flush, mret, M_ret.
  break_match; destruct_units; done.
Qed.

Lemma bind_io_inv {S A B} (m : M S io_error A) (k : A -> M S TransferError B) s b s' :
  (io m ≫= k) s = (Ok b, s') -> exists a s1, m s = (Ok a, s1) /\ k a s1 = (Ok b, s').
Proof. intros (a & s1 & ?%io_ok_inv & ?)%bind_ok_inv. eauto. Qed.

Lemma write_frame_wrote kind payload w w' :
  write_frame kind payload w = (Ok tt, w') ->
  (blen payload <= max_len kind)%N /\ wrote (encode_frame kind payload) w w'.
Proof.
  intros H. assert (blen payload <= max_len kind)%N as Hl.
  { by apply bind_ensure_inv in H as [?%negb_true_iff%N.ltb_ge _]. }
  split; [done|]. rewrite write_frame_ok in H by done.
  apply bind_io_inv in H as ([] & w1 & H1%write_all_ok_inv & H).
  apply bind_io_inv in H as ([] & w2 & H2%write_all_ok_inv & H).
  apply bind_io_inv in H as ([] & w3 & H3%write_all_ok_inv & H).
  apply bind_io_inv in H as ([] & w4 & H4%write_all_ok_inv & H).
  apply io_ok_inv, write_all_ok_inv in H.
  unfold encode_frame. eauto using wrote_trans.
Qed.

(** An open writer takes every frame within the limit. *)
Lemma write_frame_open kind payload out e :
  (blen payload <= max_len kind)%N ->
  write_frame kind payload (mk_writer out None e)
  = (Ok tt, mk_writer (out ++ encode_frame kind payload) None e).
Proof.
  intros. rewrite write_frame_ok by done. unfold encode_frame.
  unfold mbind, M_bind, io, M_map_err, write_u8, write_u32, write_all; simpl.
  by rewrite <-!app_assoc.
Qed.

(** ** Reading incrementally

    A computation on a reader is [online] when what it does with a stream does
    not depend on bytes it has not consumed: either it consumes everything and
    fails with the stream's own end, or more data behind would only be left
    over. *)
Definition online {A} (m : M reader TransferError A) : Prop := forall d e,
  m (mk_reader d e) = (Err (TIo e), mk_reader [] e) \/
  exists res rest, forall d', m (mk_reader (d ++ d') e) = (res, mk_reader (rest ++ d') e).

Lemma online_read_exact n : online (io (read_exact n)).
Proof.
  intros d e. destruct (decide (n <= length d)).
  - right. exists (Ok (take n d)), (drop n d). intros d'.
    apply io_ok. rewrite <-(take_drop n d) at 1. rewrite <-app_assoc.
    apply read_exact_app. rewrite length_take. lia.
  - left. unfold io, M_map_err. by rewrite read_exact_short by (simpl; lia).
Qed.

Lemma online_pure {A} (res : result TransferError A) : online (lift res).
Proof. intros d e. right. by exists res, d. Qed.

Lemma online_ensure (c : bool) (err : TransferError) : online (ensure c err).
Proof. destruct c; apply online_pure. Qed.

Lemma online_bind {A B} (m : M reader TransferError A) (k : A -> M reader TransferError B) :
  online m -> (forall a, online (k a)) -> online (m ≫= k).
Proof.
  intros Hm Hk d e. destruct (Hm d e) as [E|(res & rest & E)].
  { left. by apply bind_err. }
  destruct res as [a|err].
  - destruct (Hk a rest e) as [E'|(res' & rest' & E')].
    + left. erewrite bind_ok; [exact E'|].
      specialize (E []). by rewrite !app_nil_r in E.
    + right. exists res', rest'. intros d'. by erewrite bind_ok by apply E.
  - right. exists (Err err), rest. intros d'. by erewrite bind_err by apply E.
Qed.

Lemma online_io_bind {A B} (m : M reader io_error A) (f : A -> B) :
  online (io m) -> online (io (a ← m; mret (f a))).
Proof.
  intros Hm d e. unfold io, M_map_err, mbind, M_bind, mret, M_ret in *.
  destruct (Hm d e) as [E|([a|err] & rest & E)].
  - left. by destruct (m (mk_reader d e)) as [[] ?]; simplify_eq/=.
  - right. exists (Ok (f a)), rest. intros d'. specialize (E d').
    by destruct (m _) as [[] ?]; simplify_eq/=.
  - right. exists (Err err), rest. intros d'. specialize (E d').
    by destruct (m _) as [[] ?]; simplify_eq/=.
Qed.

Create HintDb online.
#[export] Hint Resolve online_read_exact online_pure online_ensure online_bind
  online_io_bind : online.

Lemma online_read_frame : online read_frame.
Proof.
  unfold read_frame, validate_payload_limit, read_u8, read_u32.
  repeat (apply online_bind; [by auto with online | intros]). apply (online_pure (Ok _)).
Qed.

(** An online computation that succeeds on exactly [d] fails with the stream's
    end on every proper prefix of [d], having consumed it. *)
Lemma online_truncated {A} (m : M reader TransferError A) d1 d2 a e :
  online m -> d2 <> [] ->
  m (mk_reader (d1 ++ d2) e) = (Ok a, mk_reader [] e) ->
  m (mk_reader d1 e) = (Err (TIo e), mk_reader [] e).
Proof.
  intros Hm Hne E. destruct (Hm d1 e) as [?|(res & rest & E')]; [done|].
  rewrite E' in E. injection E as _ ?. by destruct rest, d2.
Qed.

(** ** The buffered reader *)

Lemma resize_length n buf : length (resize n buf) = n.
Proof. unfold resize. rewrite length_app, length_take, length_replicate. lia. Qed.

Lemma read_exact_into_spec buf r :
  read_exact_into buf r =
  match read_exact (length buf) r with
  | (Ok b, r') => (Ok tt, b, r')
  | (Err e, r') => (Err e, rd_data r ++ drop (length (rd_data r)) buf, r')
  end.
Proof.
  unfold read_exact_into, read_exact. case_decide.
  - f_equal. f_equal. by rewrite (drop_ge buf), app_nil_r by lia.
  - by rewrite take_ge by lia.
Qed.

(** Reusing the buffer changes nothing but the buffer. *)
Lemma read_frame_into_spec (r : reader) (buf : bytes) :
  exists buf' : bytes,
    read_frame_into (r, buf) = ((read_frame r).1, ((read_frame r).2, buf')) /\
    forall kind payload, (read_frame r).1 = Ok (kind, payload) -> buf' = payload.
Proof.
  unfold read_frame_into, read_frame, validate_payload_limit, ensure, throw, io, M_map_err.
  unfold mbind, M_bind, mret, M_ret.
  repeat (case_match; simplify_eq/=); try (eexists; split; [done|by intros]).
  all: match goal with
       | E : read_exact_into _ _ = _ |- _ =>
           rewrite read_exact_into_spec, resize_length in E
       end.
  all: repeat (case_match; simplify_eq/=); eexists; split; try done; naive_solver.
Qed.

Section typed_facts.
Context {SJ : SerdeJson}.

(** [read_next_frame] with the buffer erased. *)
Definition classify (kind : N) (payload : bytes) : result TransferError TransferFrame :=
  if (kind =? KIND_PUT_CHUNK)%N then Ok (FPutChunk payload)
  else if (kind =? KIND_GET_CHUNK)%N then Ok (FGetChunk payload)
  else decode_frame kind payload.

Lemma read_next_frame_spec r :
  read_next_frame r = ('(kind, payload) ← read_frame; lift (classify kind payload)) r.
Proof.
  destruct (read_frame_into_spec r []) as (buf' & E & _).
  unfold read_next_frame, read_next_frame_into, classify.
  unfold mbind, M_bind, mret, M_ret, lift. rewrite E.
  destruct (read_frame r) as [[[kind payload]|err] r']; simpl; [|done].
  break_match.
Qed.

Lemma online_read_next_frame : online read_next_frame.
Proof.
  intros d e.
  destruct (online_bind read_frame (fun '(k, p) => lift (classify k p))
              online_read_frame) with (d := d) (e := e) as [E|(res & rest & E)].
  - intros [k p]. apply online_pure.
  - left. by rewrite read_next_frame_spec.
  - right. exists res, rest. intros d'. by rewrite read_next_frame_spec.
Qed.

(** The kind and the payload bytes a frame is written with. *)
Definition frame_kind (f : TransferFrame) : N :=
  match f with
  | FPutRequest _ => KIND_PUT_REQUEST | FPutReady _ => KIND_PUT_READY
  | FPutChunk _ => KIND_PUT_CHUNK | FPutComplete _ => KIND_PUT_COMPLETE
  | FGetRequest _ => KIND_GET_REQUEST | FGetReady _ => KIND_GET_READY
  | FGetChunk _ => KIND_GET_CHUNK | FGetComplete _ => KIND_GET_COMPLETE
  | FCwdRequest _ => KIND_CWD_REQUEST | FCwdResponse _ => KIND_CWD_RESPONSE
  | FExistsRequest _ => KIND_EXISTS_REQUEST | FExistsResponse _ => KIND_EXISTS_RESPONSE
  | FCompletionRequest _ => KIND_COMPLETION_REQUEST
  | FCompletionResponse _ => KIND_COMPLETION_RESPONSE
  | FBlobPutRequest _ => KIND_BLOB_PUT_REQUEST
  | FBlobGetRequest _ => KIND_BLOB_GET_REQUEST
  | FBlobGetReady _ => KIND_BLOB_GET_READY
  | FNewEntry _ => KIND_NEW_ENTRY | FEntryComplete _ => KIND_ENTRY_COMPLETE
  | FError _ => KIND_ERROR
  end.

Definition frame_payload (f : TransferFrame) : result json_error bytes :=
  match f with
  | FPutChunk b | FGetChunk b => Ok b
  | FPutRequest r => to_vec r | FPutReady r => to_vec r
  | FPutComplete c => to_vec c | FGetRequest r => to_vec r
  | FGetReady r => to_vec r | FGetComplete c => to_vec c
  | FCwdRequest r => to_vec r | FCwdResponse r => to_vec r
  | FExistsRequest r => to_vec r | FExistsResponse r => to_vec r
  | FCompletionRequest r => to_vec r | FCompletionResponse r => to_vec r
  | FBlobPutRequest r => to_vec r | FBlobGetRequest r => to_vec r
  | FBlobGetReady r => to_vec r | FNewEntry h => to_vec h
  | FEntryComplete c => to_vec c | FError f => to_vec f
  end.

Lemma write_any_spec f w :
  write_any f w = (payload ← json (frame_payload f); write_frame (frame_kind f) payload) w.
Proof. by destruct f. Qed.

Lemma frame_kind_known f : known_kind (frame_kind f) = true.
Proof. by destruct f. Qed.

Lemma classify_payload {SL : SerdeJsonLaws} f payload :
  frame_payload f = Ok payload -> classify (frame_kind f) payload = Ok f.
Proof.
  destruct f; intros H;
    first [ by simplify_eq/= |
      apply from_slice_to_vec in H; unfold classify, decode_frame; simpl; by rewrite H ].
Qed.

Lemma write_any_wrote f w w' :
  write_any f w = (Ok tt, w') ->
  exists payload, frame_payload f = Ok payload /\ frame_ok (frame_kind f) payload /\
    wrote (encode_frame (frame_kind f) payload) w w'.
Proof.
  rewrite write_any_spec. intros (payload & w1 & Hj & H)%bind_ok_inv.
  unfold json, lift, map_err in Hj.
  destruct (frame_payload f) eqn:?; simplify_eq.
  apply write_frame_wrote in H as [??].
  exists payload. split_and!; auto. split; [apply frame_kind_known|done].
Qed.

Lemma read_next_frame_encode {SL : SerdeJsonLaws} f payload rest e :
  frame_payload f = Ok payload -> frame_ok (frame_kind f) payload ->
  read_next_frame (mk_reader (encode_frame (frame_kind f) payload ++ rest) e)
  = (Ok f, mk_reader rest e).
Proof.
  intros Hp Hok. rewrite read_next_frame_spec.
  erewrite bind_ok by by apply read_frame_encode. unfold lift.
  by rewrite classify_payload.
Qed.
End typed_facts.

(** ** What the codec promises *)

(** The raw codec is a bijection between the frames it may send and the
    byte strings it accepts: [read_frame] returns [(kind, payload)] exactly
    when the stream starts with the encoding of a frame of a known kind and
    admissible size, and then leaves exactly the bytes behind that frame. *)
Theorem read_frame_accepts r kind payload r' :
  read_frame r = (Ok (kind, payload), r') <->
  known_kind kind = true /\ (blen payload <= max_len kind)%N /\
  rd_data r = encode_frame kind payload ++ rd_data r' /\ rd_end r' = rd_end r.
Proof.
  split.
  - intros ([??] & ? & ?)%read_frame_inv. auto.
  - destruct r as [d e], r' as [d' e']; simpl. intros (Hk & Hl & -> & ->).
    by apply read_frame_encode.
Qed.

(** A session's worth of frames. *)
Fixpoint write_frames `{SerdeJson} (fs : list TransferFrame) : M writer TransferError unit :=
  match fs with
  | [] => mret tt
  | f :: fs => write_any f;; write_frames fs
  end.

Fixpoint read_frames `{SerdeJson} (n : nat) : M reader TransferError (list TransferFrame) :=
  match n with
  | O => mret []
  | S n => f ← read_next_frame; fs ← read_frames n; mret (f :: fs)
  end.

(** C11: Every sequence of frames a sender writes successfully is read back,
    frame by frame and in order, whatever follows it on the stream and
    whatever the output already held; nothing behind it is consumed. *)
Theorem frames_roundtrip {SJ : SerdeJson} {SL : SerdeJsonLaws} fs w w' rest e :
  write_frames fs w = (Ok tt, w') ->
  exists out, wr_out w' = wr_out w ++ out /\
    read_frames (length fs) (mk_reader (out ++ rest) e) = (Ok fs, mk_reader rest e).
Proof.
  revert w. induction fs as [|f fs IH]; intros w; simpl.
  - intros [= <-]. exists []. by rewrite app_nil_r.
  - intros ([] & w1 & (payload & Hp & Hok & Hw & _)%write_any_wrote & Hfs)%bind_ok_inv.
    destruct (IH _ Hfs) as (out & Hout & Hr).
    exists (encode_frame (frame_kind f) payload ++ out).
    rewrite Hout, Hw, <-!app_assoc. split; [done|].
    erewrite bind_ok by by apply read_next_frame_encode.
    by erewrite bind_ok by apply Hr.
Qed.

Definition demo_frames : list TransferFrame :=
  [FPutReady (mk_TransferReady 3 None); FPutChunk (bs "abc");
   FPutComplete (mk_TransferComplete 3)].

Lemma frames_roundtrip_witness :
  exists w', @write_frames bit_json demo_frames open_writer = (Ok tt, w') /\
  exists out, wr_out w' = wr_out open_writer ++ out /\
    @read_frames bit_json 3 (mk_reader (out ++ bs "tail") UnexpectedEof)
    = (Ok demo_frames, mk_reader (bs "tail") UnexpectedEof).
Proof.
  eexists. split; [vm_compute; reflexivity|].
  apply (@frames_roundtrip bit_json bit_json_laws demo_frames). vm_compute. reflexivity.
Defined.

(** A stream that ends inside a frame is an I/O error, whatever the cut:
    the readers never return a frame, and never report another error, when
    they are given a proper prefix of a frame they would have accepted. *)
Theorem truncated_frame_is_io_error {SJ : SerdeJson} f d1 d2 e :
  d2 <> [] ->
  read_next_frame (mk_reader (d1 ++ d2) e) = (Ok f, mk_reader [] e) ->
  read_next_frame (mk_reader d1 e) = (Err (TIo e), mk_reader [] e).
Proof. apply online_truncated, online_read_next_frame. Qed.

Lemma truncated_frame_is_io_error_witness :
  let d := encode_frame KIND_PUT_CHUNK (bs "abc") in
  @read_next_frame bit_json (mk_reader (take 12 d) UnexpectedEof)
  = (Err (TIo UnexpectedEof), mk_reader [] UnexpectedEof).
Proof.
  apply (@truncated_frame_is_io_error bit_json (FPutChunk (bs "abc"))
           _ (drop 12 (encode_frame KIND_PUT_CHUNK (bs "abc")))).
  - vm_compute. discriminate.
  - rewrite take_drop. vm_compute. reflexivity.
Defined.

(** A frame whose declared length exceeds the limit of its kind (64 KiB
    for chunks, 8 KiB otherwise) is rejected with [PayloadTooLarge] from its
    ten-byte header alone, with the payload still unread: no payload buffer
    of more than 64 KiB is ever filled. *)
Theorem oversized_frame_rejected kind len rest e :
  known_kind kind = true -> (len < 2 ^ 32)%N ->
  read_frame (mk_reader (MAGIC ++ be_bytes 1 VERSION ++ be_bytes 1 kind ++
                         be_bytes 4 len ++ rest) e) =
  if (max_len kind <? len)%N
  then (Err (PayloadTooLarge len), mk_reader rest e)
  else (payload ← io (read_exact (N.to_nat len)); mret (kind, payload)) (mk_reader rest e).
Proof.
  intros Hk Hl. pose proof (known_kind_u8 _ Hk). unfold read_frame.
  erewrite bind_io_ok by by apply read_exact_app. rewrite bind_ensure.
  rewrite bool_decide_true by done.
  erewrite bind_io_ok by by apply read_u8_app. rewrite bind_ensure, N.eqb_refl.
  erewrite bind_io_ok by by apply read_u8_app. rewrite bind_ensure, Hk.
  erewrite bind_io_ok by by apply read_u32_app.
  unfold validate_payload_limit. rewrite bind_ensure. by destruct (_ <? _)%N.
Qed.

Lemma oversized_frame_rejected_witness :
  read_frame (mk_reader (MAGIC ++ be_bytes 1 VERSION ++ be_bytes 1 KIND_ERROR ++
                         be_bytes 4 4294967295 ++ []) UnexpectedEof)
  = (Err (PayloadTooLarge 4294967295), mk_reader [] UnexpectedEof).
Proof. apply (oversized_frame_rejected KIND_ERROR 4294967295 [] UnexpectedEof); done. Defined.

(** Reusing a buffer across frames is invisible: for every previous
    content of the buffer, [read_next_frame_into] returns the frame that
    [read_next_frame] returns with a fresh buffer, consumes the same bytes,
    and a chunk it hands out is exactly the chunk on the wire (no byte of an
    earlier, longer frame survives in it). *)
Theorem buffered_reader_equivalent {SJ : SerdeJson} (r : reader) (buf : bytes) :
  exists buf' : bytes,
    read_next_frame_into (r, buf) =
    (match (read_next_frame r).1 with
     | Ok (FPutChunk b) => Ok (BPutChunk b)
     | Ok (FGetChunk b) => Ok (BGetChunk b)
     | Ok f => Ok (BOwned f)
     | Err err => Err err
     end, ((read_next_frame r).2, buf')).
Proof.
  destruct (read_frame_into_spec r buf) as (buf' & E & _). exists buf'.
  rewrite read_next_frame_spec. unfold read_next_frame_into, classify.
  unfold mbind, M_bind, mret, M_ret, lift. rewrite E.
  destruct (read_frame r) as [[[kind payload]|err] r']; simpl; [|done].
  case_match; [done|]. case_match; [done|].
  destruct (decode_frame kind payload) as [f|] eqn:Hd; simpl; [|done].
  assert (match f with FPutChunk _ | FGetChunk _ => False | _ => True end).
  { revert Hd. unfold decode_frame.
    repeat (case_match; [destruct (from_slice payload); naive_solver|]). done. }
  by destruct f.
Qed.

(** The frame a typed reader expects, as a partial function on frames. *)
Definition typed_reader_agrees `{SerdeJson} {A} (m : M reader TransferError A)
    (expected : N) (view : TransferFrame -> option A) : Prop := forall r f r',
  read_next_frame r = (Ok f, r') ->
  m r = (match view f with
         | Some a => Ok a
         | None => Err (UnexpectedKind expected (frame_kind f))
         end, r').

Section agreement.
Context {SJ : SerdeJson}.

(** A frame is decoded from its own kind only. *)
Lemma classify_kind kind payload f : classify kind payload = Ok f -> frame_kind f = kind.
Proof.
  unfold classify, decode_frame.
  repeat (case_match eqn:E; [apply N.eqb_eq in E as ->;
            solve [naive_solver | destruct (from_slice payload); naive_solver]|
          clear E]).
  done.
Qed.

Lemma read_next_frame_inv r f r' :
  read_next_frame r = (Ok f, r') ->
  exists payload, read_frame r = (Ok (frame_kind f, payload), r') /\
    classify (frame_kind f) payload = Ok f.
Proof.
  rewrite read_next_frame_spec. intros ([kind payload] & r1 & Hr & Hc)%bind_ok_inv.
  injection Hc as Hc <-. pose proof (classify_kind _ _ _ Hc) as <-. eauto.
Qed.

Lemma json_reader_agrees {T} {P : Payload T} expected (F : T -> TransferFrame)
    (view : TransferFrame -> option T) :
  (forall payload, classify expected payload = map_err TJson (F <$> from_slice payload)) ->
  (forall x, view (F x) = Some x) ->
  (forall f, frame_kind f <> expected -> view f = None) ->
  typed_reader_agrees (read_json_frame expected) expected view.
Proof.
  intros Hc Hv Hn r f r' (payload & Hr & Hf)%read_next_frame_inv.
  unfold read_json_frame. erewrite bind_ok by apply Hr. cbn beta iota. rewrite bind_ensure.
  destruct (N.eqb_spec (frame_kind f) expected) as [E|E].
  - rewrite E, Hc in Hf. unfold json, lift.
    destruct (from_slice payload); simplify_eq/=. by rewrite Hv.
  - by rewrite Hn.
Qed.
End agreement.

(** Each typed reader agrees with the dispatching reader: on a stream
    from which [read_next_frame] reads a frame, it returns that frame's
    payload when the frame is of its kind, and otherwise [UnexpectedKind]
    with the two kinds, having consumed exactly that frame. *)
Theorem typed_readers_agree {SJ : SerdeJson} :
  typed_reader_agrees read_put_request KIND_PUT_REQUEST
    (fun f => if f is FPutRequest x then Some x else None) /\
  typed_reader_agrees read_put_ready KIND_PUT_READY
    (fun f => if f is FPutReady x then Some x else None) /\
  typed_reader_agrees read_put_chunk KIND_PUT_CHUNK
    (fun f => if f is FPutChunk x then Some x else None) /\
  typed_reader_agrees read_put_complete KIND_PUT_COMPLETE
    (fun f => if f is FPutComplete x then Some x else None) /\
  typed_reader_agrees read_get_request KIND_GET_REQUEST
    (fun f => if f is FGetRequest x then Some x else None) /\
  typed_reader_agrees read_get_ready KIND_GET_READY
    (fun f => if f is FGetReady x then Some x else None) /\
  typed_reader_agrees read_get_chunk KIND_GET_CHUNK
    (fun f => if f is FGetChunk x then Some x else None) /\
  typed_reader_agrees read_get_complete KIND_GET_COMPLETE
    (fun f => if f is FGetComplete x then Some x else None) /\
  typed_reader_agrees read_transfer_error KIND_ERROR
    (fun f => if f is FError x then Some x else None) /\
  typed_reader_agrees read_exists_request KIND_EXISTS_REQUEST
    (fun f => if f is FExistsRequest x then Some x else None) /\
  typed_reader_agrees read_exists_response KIND_EXISTS_RESPONSE
    (fun f => if f is FExistsResponse x then Some x else None).
Proof.
  repeat split; try (eapply json_reader_agrees; [done|done|by intros []]).
  - intros r f r' (payload & Hr & Hf)%read_next_frame_inv. unfold read_put_chunk.
    erewrite bind_ok by apply Hr. cbn beta iota. rewrite bind_ensure. destruct f; try done. by injection Hf as ->.
  - intros r f r' (payload & Hr & Hf)%read_next_frame_inv. unfold read_get_chunk.
    erewrite bind_ok by apply Hr. cbn beta iota. rewrite bind_ensure. destruct f; try done. by injection Hf as ->.
Qed.
