(* ===== verification/Fs.v ===== *)
(** * The file system, as the storage and transfer code uses it

    A path is its components, innermost first, so that [Path::join] with one
    component is [cons] and [Path::parent] is [tail]; the empty list is the
    root directory. A file system maps paths to nodes. Every system call may
    fail: [oracle n] says whether the [n]-th call does, with which error, and
    (for a write) after how many bytes. [hist] lists the contents of the disk
    after each call, latest first: what a crash between two calls leaves.

    Concurrent changes by other processes and symbolic links are not modelled. *)

From S2P Require Import Prelude Text.

Abbreviation path := (list bytes).

Inductive node : Type :=
| Dir (mode : N)
| File (content : bytes) (mode : N).

#[export] Instance node_eq_dec : EqDecision node.
Proof. solve_decision. Defined.

Abbreviation disk := (gmap path node).

Record fs : Type := mk_fs {
  nodes : disk;
  umask : N;
  oracle : nat -> option (nat * io_error);
  ticks : nat;
  hist : list disk;
}.

(** A file system none of whose calls fails by chance. *)
Definition reliable (s : fs) : Prop := forall n, oracle s n = None.

Definition is_dir_node (n : option node) : bool :=
  match n with Some (Dir _) => true | _ => false end.

(** ** System calls *)

(** The state after one call. *)
Definition tick (s : fs) (d : disk) : fs :=
  mk_fs d (umask s) (oracle s) (S (ticks s)) (d :: hist s).

Definition syscall {A} (op : fs -> result io_error A * disk) : M fs io_error A := fun s =>
  match oracle s (ticks s) with
  | Some (_, e) => (Err e, tick s (nodes s))
  | None => let '(r, d) := op s in (r, tick s d)
  end.

(** A call that only looks. *)
Definition query {A} (f : disk -> result io_error A) : M fs io_error A :=
  syscall (fun s => (f (nodes s), nodes s)).

(** [Path::exists], [Path::is_dir] and [Path::is_file]: an error is [false]. *)
Definition test_path {E} (f : option node -> bool) (p : path) : M fs E bool := fun s =>
  match query (fun d => Ok (f (d !! p))) s with
  | (Ok b, s') => (Ok b, s')
  | (Err _, s') => (Ok false, s')
  end.

Definition path_exists {E} : path -> M fs E bool :=
  test_path (fun n => match n with Some _ => true | None => false end).
Definition path_is_dir {E} : path -> M fs E bool := test_path is_dir_node.
Definition path_is_file {E} : path -> M fs E bool :=
  test_path (fun n => match n with Some (File _ _) => true | _ => false end).

Definition masked (s : fs) (mode : N) : N := N.ldiff mode (umask s).

Definition parent_check (d : disk) (p : path) : result io_error unit :=
  match p with
  | [] => Err InvalidInput
  | _ :: q =>
      match d !! q with
      | Some (Dir _) => Ok tt
      | Some (File _ _) => Err NotADirectory
      | None => Err NotFound
      end
  end.

Definition mkdir (p : path) : M fs io_error unit := syscall (fun s =>
  match nodes s !! p with
  | Some _ => (Err AlreadyExists, nodes s)
  | None =>
      match parent_check (nodes s) p with
      | Ok _ => (Ok tt, <[p := Dir (masked s 511)]> (nodes s))
      | Err e => (Err e, nodes s)
      end
  end).

(** [fs::create_dir_all] *)
Fixpoint create_dir_all (p : path) : M fs io_error unit := fun s =>
  let or_dir (e : io_error) (s : fs) :=
    match path_is_dir (E := io_error) p s with
    | (Ok true, s) => (Ok tt, s)
    | (_, s) => (Err e, s)
    end in
  match mkdir p s with
  | (Ok _, s) => (Ok tt, s)
  | (Err NotFound, s) =>
      match p with
      | [] => (Err OtherError, s)
      | _ :: q =>
          match create_dir_all q s with
          | (Err e, s) => (Err e, s)
          | (Ok _, s) =>
              match mkdir p s with
              | (Ok _, s) => (Ok tt, s)
              | (Err e, s) => or_dir e s
              end
          end
      end
  | (Err e, s) => or_dir e s
  end.

(** [fs::metadata], for its [is_dir] and permission bits. *)
Definition metadata (p : path) : M fs io_error (bool * N) := query (fun d =>
  match d !! p with
  | Some (Dir m) => Ok (true, m)
  | Some (File _ m) => Ok (false, m)
  | None => Err NotFound
  end).

Definition set_mode (n : node) (mode : N) : node :=
  match n with Dir _ => Dir mode | File c _ => File c mode end.

Definition set_permissions (p : path) (mode : N) : M fs io_error unit := syscall (fun s =>
  match nodes s !! p with
  | Some n => (Ok tt, <[p := set_mode n mode]> (nodes s))
  | None => (Err NotFound, nodes s)
  end).

(** [File::create]: truncates an existing file. *)
Definition file_create (p : path) : M fs io_error unit := syscall (fun s =>
  match nodes s !! p with
  | Some (Dir _) => (Err IsADirectory, nodes s)
  | Some (File _ m) => (Ok tt, <[p := File [] m]> (nodes s))
  | None =>
      match parent_check (nodes s) p with
      | Ok _ => (Ok tt, <[p := File [] (masked s 438)]> (nodes s))
      | Err e => (Err e, nodes s)
      end
  end).

Definition append (d : disk) (p : path) (b : bytes) : disk :=
  match d !! p with
  | Some (File c m) => <[p := File (c ++ b) m]> d
  | _ => d
  end.

(** [write_all] on the handle of [p]: a failed write leaves a prefix. *)
Definition file_write_all (p : path) (b : bytes) : M fs io_error unit := fun s =>
  match oracle s (ticks s) with
  | Some (k, e) => (Err e, tick s (append (nodes s) p (take k b)))
  | None => (Ok tt, tick s (append (nodes s) p b))
  end.

(** [sync_all], [sync_data] and [flush] on a handle *)
Definition file_sync (p : path) : M fs io_error unit := query (fun _ => Ok tt).

(** [fs::rename] of a file. *)
Definition rename (src dst : path) : M fs io_error unit := syscall (fun s =>
  match nodes s !! src with
  | Some (File c m) =>
      match nodes s !! dst, parent_check (nodes s) dst with
      | Some (Dir _), _ => (Err IsADirectory, nodes s)
      | _, Ok _ => (Ok tt, <[dst := File c m]> (delete src (nodes s)))
      | _, Err e => (Err e, nodes s)
      end
  | Some (Dir _) => (Err OtherError, nodes s)
  | None => (Err NotFound, nodes s)
  end).

Definition remove_file (p : path) : M fs io_error unit := syscall (fun s =>
  match nodes s !! p with
  | Some (File _ _) => (Ok tt, delete p (nodes s))
  | Some (Dir _) => (Err IsADirectory, nodes s)
  | None => (Err NotFound, nodes s)
  end).

Definition is_below (p q : path) : bool :=
  bool_decide (p `suffix_of` q).

(** [fs::remove_dir_all] *)
Definition remove_dir_all (p : path) : M fs io_error unit := syscall (fun s =>
  match nodes s !! p with
  | Some (Dir _) => (Ok tt, filter (fun x => is_below p x.1 = false) (nodes s))
  | Some (File _ _) => (Err NotADirectory, nodes s)
  | None => (Err NotFound, nodes s)
  end).

(** [fs::read] and [fs::read_to_string] *)
Definition read_file (p : path) : M fs io_error bytes := query (fun d =>
  match d !! p with
  | Some (File c _) => Ok c
  | Some (Dir _) => Err IsADirectory
  | None => Err NotFound
  end).

Definition read_to_string (p : path) : M fs io_error bytes :=
  b ← read_file p;
  if utf8_valid b then mret b else throw InvalidData.

(** The names in a directory. *)
Definition children (d : disk) (p : path) : list bytes :=
  omap (fun x => match x.1 with
                 | c :: q => if decide (q = p) then Some c else None
                 | [] => None
                 end) (map_to_list d).

(** [fs::read_dir], and the step of its iterator. *)
Definition read_dir (p : path) : M fs io_error (list bytes) := query (fun d =>
  match d !! p with
  | Some (Dir _) => Ok (children d p)
  | Some (File _ _) => Err NotADirectory
  | None => Err NotFound
  end).

Definition next_entry (name : bytes) : M fs io_error bytes := query (fun _ => Ok name).

(** ** File names *)

(** The last dot of a name that is not its first character splits it into
    [Path::file_stem] and [Path::extension]. *)
Fixpoint last_dot (name : bytes) : option (bytes * bytes) :=
  match name with
  | [] => None
  | c :: r =>
      match last_dot r with
      | Some (s, e) => Some (c :: s, e)
      | None => if decide (c = "."%char) then Some ([], r) else None
      end
  end.

Definition extension (name : bytes) : option bytes :=
  match last_dot name with
  | Some ([], _) | None => None
  | Some (_ :: _, e) => if decide (name = bs "..") then None else Some e
  end.

Definition file_stem (name : bytes) : bytes :=
  match last_dot name with
  | Some ([], _) | None => name
  | Some (s, _) => if decide (name = bs "..") then name else s
  end.

(** A dotless suffix is the extension. *)
Lemma last_dot_app x e :
  "."%char ∉ e -> last_dot (x ++ "."%char :: e) = Some (x, e).
Proof.
  intros He. induction x as [|c x IH]; simpl.
  - assert (last_dot e = None) as ->.
    { induction e as [|c e IH]; [done|]. apply not_elem_of_cons in He as [Hc He]. simpl.
      rewrite IH by done. by rewrite decide_False. }
    done.
  - by rewrite IH.
Qed.

Lemma extension_app x e :
  "."%char ∉ e -> x <> [] -> e <> [] -> extension (x ++ "."%char :: e) = Some e.
Proof.
  intros He Hx Hne. unfold extension. rewrite last_dot_app by done.
  destruct x as [|c x]; [done|]. rewrite decide_False; [done|].
  intros H. apply (f_equal length) in H. rewrite length_app in H.
  destruct e; [done|]. destruct x; simpl in H; lia.
Qed.

(** ** Facts about every call *)

(** What a computation may have done to the disk: everything it ever wrote is
    recorded, and the oracle and the mask stay. *)
Definition runs (P : disk -> disk -> Prop) (s s' : fs) : Prop :=
  umask s' = umask s /\ oracle s' = oracle s /\
  exists ds, hist s' = ds ++ hist s /\
    nodes s' = default (nodes s) (head ds) /\
    Forall (P (nodes s)) ds.

Lemma tick_runs (P : disk -> disk -> Prop) s d : P (nodes s) d -> runs P s (tick s d).
Proof. intros. split_and!; [done..|]. exists [d]. split_and!; auto. Qed.

Lemma runs_2 (P : disk -> disk -> Prop) s d d' :
  P (nodes s) d -> P (nodes s) d' -> runs P s (tick (tick s d) d').
Proof.
  intros. split_and!; [done..|]. exists [d'; d]. split_and!; [done..|]. auto.
Qed.

Lemma runs_snoc (P : disk -> disk -> Prop) s s' d :
  runs P s s' -> P (nodes s) d -> runs P s (tick s' d).
Proof.
  intros (? & ? & ds & Hh & ? & F) Hd. split_and!; [done..|].
  exists (d :: ds). simpl. rewrite Hh. split_and!; auto.
Qed.

Lemma runs_refl P s : runs P s s.
Proof. split_and!; [done..|]. by exists []. Qed.

Lemma runs_trans (P : disk -> disk -> Prop) s1 s2 s3 :
  (forall d1 d2 d3, P d1 d2 -> P d2 d3 -> P d1 d3) ->
  runs P s1 s2 -> runs P s2 s3 -> runs P s1 s3.
Proof.
  intros Ht (U1 & O1 & ds1 & H1 & N1 & F1) (U2 & O2 & ds2 & H2 & N2 & F2).
  split_and!; [congruence..|]. exists (ds2 ++ ds1). split_and!.
  - by rewrite H2, H1, app_assoc.
  - rewrite N2, N1. by destruct ds2, ds1.
  - apply Forall_app. split; [|done]. destruct ds1 as [|d ds1]; simpl in N1.
    + by rewrite N1 in F2.
    + pose proof (Forall_inv F1) as Pd. rewrite N1 in F2.
      eapply Forall_impl; [|exact F2]. intros d3 Hd3. exact (Ht _ _ _ Pd Hd3).
Qed.

Lemma runs_final (P : disk -> disk -> Prop) s s' :
  P (nodes s) (nodes s) -> runs P s s' -> P (nodes s) (nodes s').
Proof.
  intros Hr (_ & _ & ds & _ & -> & F). destruct ds as [|d ds]; simpl; [done|].
  exact (Forall_inv F).
Qed.

Lemma runs_mono (P Q : disk -> disk -> Prop) s s' :
  (forall d', P (nodes s) d' -> Q (nodes s) d') -> runs P s s' -> runs Q s s'.
Proof.
  intros HPQ (? & ? & ds & ? & ? & F). split_and!; [done..|].
  exists ds. split_and!; [done..|]. eapply Forall_impl; [|exact F]; auto.
Qed.

Lemma runs_reliable P s s' : runs P s s' -> reliable s -> reliable s'.
Proof. intros (_ & Ho & _) Hr n. by rewrite Ho. Qed.

(** The disk is untouched. *)
Definition same (d d' : disk) : Prop := d' = d.

Lemma runs_same_nodes s s' : runs same s s' -> nodes s' = nodes s.
Proof. intros H. by apply (runs_final same) in H. Qed.

(** Only [p] is touched. *)
Definition only (P : path -> Prop) (d d' : disk) : Prop := forall q, ~ P q -> d' !! q = d !! q.

Lemma only_refl P d : only P d d.
Proof. by intros ? ?. Qed.

Lemma only_trans P d1 d2 d3 : only P d1 d2 -> only P d2 d3 -> only P d1 d3.
Proof. intros H1 H2 q Hq. by rewrite H2, H1. Qed.

Lemma only_insert (P : path -> Prop) d p n : P p -> only P d (<[p := n]> d).
Proof. intros Hp q Hq. apply lookup_insert_ne. congruence. Qed.

Lemma only_delete (P : path -> Prop) d p : P p -> only P d (delete p d).
Proof. intros Hp q Hq. apply lookup_delete_ne. congruence. Qed.

Lemma query_runs {A} (f : disk -> result io_error A) s r s' :
  query f s = (r, s') -> runs same s s'.
Proof.
  unfold query, syscall. intros H. destruct (oracle s (ticks s)) as [[]|];
    injection H as <- <-; by apply tick_runs.
Qed.

Lemma query_reliable {A} (f : disk -> result io_error A) s :
  reliable s -> query f s = (f (nodes s), tick s (nodes s)).
Proof. intros Hr. unfold query, syscall. by rewrite Hr. Qed.

Lemma test_path_runs {E} f p s (r : result E bool) s' :
  test_path f p s = (r, s') -> runs same s s' /\ exists b, r = Ok b.
Proof.
  unfold test_path. destruct (query _ s) as [[b|e] s1] eqn:Hq; intros [= <- <-];
    apply query_runs in Hq; eauto.
Qed.

Lemma test_path_true {E} f p s s' :
  test_path (E := E) f p s = (Ok true, s') -> f (nodes s !! p) = true.
Proof.
  unfold test_path, query, syscall.
  destruct (oracle s (ticks s)) as [[]|]; [done|]. by intros [= ?].
Qed.

Lemma test_path_reliable {E} f p s :
  reliable s -> test_path (E := E) f p s = (Ok (f (nodes s !! p)), tick s (nodes s)).
Proof. intros Hr. unfold test_path. by rewrite query_reliable. Qed.

(** ** What each call does *)

Lemma file_create_spec p s r s' :
  file_create p s = (r, s') ->
  (r = Ok tt /\ exists m, s' = tick s (<[p := File [] m]> (nodes s))) \/
  ((exists e, r = Err e) /\ s' = tick s (nodes s)).
Proof.
  unfold file_create, syscall.
  destruct (oracle s (ticks s)) as [[k e]|]; [intros [= <- <-]; eauto|].
  repeat case_match; intros; simplify_eq; eauto.
Qed.

Lemma file_write_all_spec p b s r s' c m :
  nodes s !! p = Some (File c m) -> file_write_all p b s = (r, s') ->
  exists b', b' `prefix_of` b /\ s' = tick s (<[p := File (c ++ b') m]> (nodes s)) /\
    match r with Ok _ => b' = b | Err _ => True end.
Proof.
  intros Hp. unfold file_write_all, append. rewrite Hp.
  destruct (oracle s (ticks s)) as [[k e]|]; intros [= <- <-].
  - exists (take k b). split_and!; [|done..]. exists (drop k b). by rewrite take_drop.
  - by exists b.
Qed.

Lemma rename_spec p q s r s' c m :
  nodes s !! p = Some (File c m) -> rename p q s = (r, s') ->
  (r = Ok tt /\ s' = tick s (<[q := File c m]> (delete p (nodes s)))) \/
  ((exists e, r = Err e) /\ s' = tick s (nodes s)).
Proof.
  intros Hp. unfold rename, syscall.
  destruct (oracle s (ticks s)) as [[k e]|]; [intros [= <- <-]; eauto|].
  rewrite Hp. repeat case_match; intros; simplify_eq; eauto.
Qed.

Lemma remove_file_spec p s r s' :
  remove_file p s = (r, s') ->
  (r = Ok tt /\ (exists c m, nodes s !! p = Some (File c m)) /\ s' = tick s (delete p (nodes s))) \/
  (exists e, r = Err e /\ s' = tick s (nodes s)).
Proof.
  unfold remove_file, syscall.
  destruct (oracle s (ticks s)) as [[k e]|]; [intros [= <- <-]; eauto|].
  repeat case_match; intros; simplify_eq; eauto 8.
Qed.

Lemma metadata_spec p s r s' :
  metadata p s = (r, s') -> s' = tick s (nodes s) /\
  match r with
  | Ok (true, m) => nodes s !! p = Some (Dir m)
  | Ok (false, m) => exists c, nodes s !! p = Some (File c m)
  | Err _ => True
  end.
Proof.
  unfold metadata, query, syscall. destruct (oracle s (ticks s)) as [[]|].
  - by intros [= <- <-].
  - intros [= <- <-]. split; [done|]. repeat case_match; simplify_eq; eauto.
Qed.

Lemma set_permissions_spec p mode s r s' n :
  nodes s !! p = Some n -> set_permissions p mode s = (r, s') ->
  (r = Ok tt /\ s' = tick s (<[p := set_mode n mode]> (nodes s))) \/
  ((exists e, r = Err e) /\ s' = tick s (nodes s)).
Proof.
  intros Hp. unfold set_permissions, syscall.
  destruct (oracle s (ticks s)) as [[k e]|]; [intros [= <- <-]; eauto|].
  rewrite Hp. intros [= <- <-]. eauto.
Qed.

(** [create_dir_all] only adds directories at or above its path. *)
Definition adds_dirs (p : path) (d d' : disk) : Prop := forall q,
  d' !! q = d !! q \/ (q `suffix_of` p /\ d !! q = None /\ is_dir_node (d' !! q)).

Lemma adds_dirs_refl p d : adds_dirs p d d.
Proof. by left. Qed.

Lemma adds_dirs_trans p d1 d2 d3 : adds_dirs p d1 d2 -> adds_dirs p d2 d3 -> adds_dirs p d1 d3.
Proof.
  intros H1 H2 q. destruct (H1 q) as [E1|(S1 & N1 & D1)], (H2 q) as [E2|(S2 & N2 & D2)].
  - left. congruence.
  - right. split_and!; [done|congruence|done].
  - right. split_and!; [done|done|by rewrite E2].
  - by rewrite N2 in D1.
Qed.

Lemma adds_dirs_cons c p d d' : adds_dirs p d d' -> adds_dirs (c :: p) d d'.
Proof.
  intros H q. destruct (H q) as [?|(? & ? & ?)]; [by left|].
  right. split_and!; [by apply suffix_cons_r|done..].
Qed.

Lemma same_runs p s s' : runs same s s' -> runs (adds_dirs p) s s'.
Proof. apply runs_mono. intros d' ->. apply adds_dirs_refl. Qed.

Lemma mkdir_runs p s r s' : mkdir p s = (r, s') -> runs (adds_dirs p) s s'.
Proof.
  unfold mkdir, syscall. destruct (oracle s (ticks s)) as [[k e]|].
  { intros [= <- <-]. apply tick_runs, adds_dirs_refl. }
  destruct (nodes s !! p) eqn:Hp; [intros [= <- <-]; apply tick_runs, adds_dirs_refl|].
  destruct (parent_check _ _); intros [= <- <-]; apply tick_runs; [|apply adds_dirs_refl].
  intros q. destruct (decide (q = p)) as [->|Hne].
  - right. by rewrite lookup_insert_eq.
  - left. by rewrite lookup_insert_ne.
Qed.

Lemma path_is_dir_runs p (e : io_error) s : 
  runs (adds_dirs p) s
    (match path_is_dir (E := io_error) p s with
     | (Ok true, s) => (Ok tt, s)
     | (_, s) => (Err e, s)
     end).2.
Proof.
  destruct (path_is_dir p s) as [r s1] eqn:E.
  apply test_path_runs in E as [E _]. apply same_runs.
  by destruct r as [[]|].
Qed.

Lemma create_dir_all_runs p s r s' : create_dir_all p s = (r, s') -> runs (adds_dirs p) s s'.
Proof.
  revert s r s'. induction p as [|c p IH]; intros s r s'; cbn [create_dir_all];
    destruct (mkdir _ s) as [r1 s1] eqn:E1; apply mkdir_runs in E1.
  - pose proof (fun e => path_is_dir_runs [] e s1) as Hd.
    destruct r1 as [[]|e]; [by intros [= <- <-]|].
    intros H. destruct e; try (by injection H as <- <-);
      (eapply runs_trans; [apply adds_dirs_trans|exact E1|]);
      specialize (Hd OtherError);
      destruct (path_is_dir [] s1) as [[[]|] s2]; injection H as <- <-; apply Hd.
  - pose proof (fun e s => path_is_dir_runs (c :: p) e s) as Hd.
    destruct r1 as [[]|e]; [by intros [= <- <-]|].
    intros H. destruct (decide (e = NotFound)) as [->|Hne].
    + destruct (create_dir_all p s1) as [r2 s2] eqn:E2.
      apply IH, (runs_mono _ (adds_dirs (c :: p)) _ _ (adds_dirs_cons c p _)) in E2.
      pose proof (runs_trans _ _ _ _ (adds_dirs_trans _) E1 E2) as E12.
      destruct r2; [|by injection H as <- <-].
      destruct (mkdir (c :: p) s2) as [r3 s3] eqn:E3. apply mkdir_runs in E3.
      pose proof (runs_trans _ _ _ _ (adds_dirs_trans _) E12 E3) as E13.
      destruct r3 as [|e]; [by injection H as <- <-|].
      eapply runs_trans; [apply adds_dirs_trans|exact E13|].
      specialize (Hd e s3). destruct (path_is_dir (c :: p) s3) as [[[]|] s4]; by injection H as <- <-.
    + eapply runs_trans; [apply adds_dirs_trans|exact E1|].
      specialize (Hd e s1).
      destruct e; try done; destruct (path_is_dir (c :: p) s1) as [[[]|] s4]; by injection H as <- <-.
Qed.

(** A reliable disk on which the directory and its ancestors exist keeps
    [create_dir_all] a no-op. *)
Lemma create_dir_all_existing p s m :
  reliable s -> nodes s !! p = Some (Dir m) ->
  create_dir_all p s = (Ok tt, tick (tick s (nodes s)) (nodes s)).
Proof.
  intros Hr Hp.
  assert (mkdir p s = (Err AlreadyExists, tick s (nodes s))) as Em.
  { unfold mkdir, syscall. by rewrite Hr, Hp. }
  destruct p; cbn [create_dir_all]; rewrite Em; unfold path_is_dir;
    rewrite test_path_reliable by done; simpl; by rewrite Hp.
Qed.

(** After a successful [create_dir_all] the path is a directory. *)
Lemma mkdir_ok p s u s' : mkdir p s = (Ok u, s') -> is_dir_node (nodes s' !! p).
Proof.
  unfold mkdir, syscall. destruct (oracle s (ticks s)) as [[]|]; [done|].
  repeat case_match; intros; simplify_eq/=. by rewrite lookup_insert_eq.
Qed.

Lemma path_is_dir_true {E} p s s' :
  path_is_dir (E := E) p s = (Ok true, s') -> is_dir_node (nodes s' !! p).
Proof.
  intros H. pose proof (test_path_true _ _ _ _ H) as Ht.
  apply test_path_runs in H as [H _]. rewrite (runs_same_nodes _ _ H). by rewrite Ht.
Qed.

Lemma create_dir_all_ok p s u s' : create_dir_all p s = (Ok u, s') -> is_dir_node (nodes s' !! p).
Proof.
  destruct p as [|c p]; cbn [create_dir_all].
  - destruct (mkdir [] s) as [[|e] s1] eqn:E1.
    + intros [= _ <-]. by eapply mkdir_ok.
    + destruct e; try done; destruct (path_is_dir [] s1) as [[[]|] s2] eqn:E2; try done;
        intros [= _ <-]; by eapply path_is_dir_true.
  - destruct (mkdir (c :: p) s) as [[|e] s1] eqn:E1.
    + intros [= _ <-]. by eapply mkdir_ok.
    + destruct (decide (e = NotFound)) as [->|Hne].
      * destruct (create_dir_all p s1) as [[|] s2]; [|done].
        destruct (mkdir (c :: p) s2) as [[|] s3] eqn:E3.
        { intros [= _ <-]. by eapply mkdir_ok. }
        destruct (path_is_dir (c :: p) s3) as [[[]|] s4] eqn:E4; try done.
        intros [= _ <-]. by eapply path_is_dir_true.
      * destruct e; try done; destruct (path_is_dir (c :: p) s1) as [[[]|] s2] eqn:E2; try done;
          intros [= _ <-]; by eapply path_is_dir_true.
Qed.

(** Only directories at or above [p] appeared or changed their mode. *)
Definition dirs_only (p : path) (d d' : disk) : Prop := forall q,
  d' !! q = d !! q \/
  (q `suffix_of` p /\ (d !! q = None \/ is_dir_node (d !! q)) /\ is_dir_node (d' !! q)).

Lemma dirs_only_refl p d : dirs_only p d d.
Proof. by left. Qed.

Lemma dirs_only_trans p d1 d2 d3 : dirs_only p d1 d2 -> dirs_only p d2 d3 -> dirs_only p d1 d3.
Proof.
  intros H1 H2 q. destruct (H1 q) as [E1|(S1 & N1 & D1)], (H2 q) as [E2|(S2 & N2 & D2)].
  - left. congruence.
  - right. rewrite <-E1. auto.
  - right. rewrite E2. auto.
  - right. auto.
Qed.

Lemma adds_dirs_only p d d' : adds_dirs p d d' -> dirs_only p d d'.
Proof. intros H q. destruct (H q) as [?|(? & ? & ?)]; auto. Qed.

Lemma dirs_only_file p d d' q c m :
  dirs_only p d d' -> d !! q = Some (File c m) -> d' !! q = Some (File c m).
Proof. intros H Hq. destruct (H q) as [->|(_ & [?|Hd] & _)]; [done|congruence|by rewrite Hq in Hd]. Qed.

Lemma dirs_only_below p d d' q :
  dirs_only p d d' -> ~ q `suffix_of` p -> d' !! q = d !! q.
Proof. intros H Hq. by destruct (H q) as [?|[? _]]. Qed.

(** Only directories among [P] appeared or changed their mode. *)
Definition dirs_in (P : path -> Prop) (d d' : disk) : Prop := forall q,
  d' !! q = d !! q \/
  (P q /\ (d !! q = None \/ is_dir_node (d !! q)) /\ is_dir_node (d' !! q)).

Lemma dirs_only_in (P : path -> Prop) p d d' :
  (forall q, q `suffix_of` p -> P q) -> dirs_only p d d' -> dirs_in P d d'.
Proof. intros HP H q. destruct (H q) as [?|(? & ? & ?)]; [by left|right]. auto. Qed.

Lemma dirs_in_refl P d : dirs_in P d d.
Proof. by left. Qed.

Lemma dirs_in_trans P d1 d2 d3 : dirs_in P d1 d2 -> dirs_in P d2 d3 -> dirs_in P d1 d3.
Proof.
  intros H1 H2 q. destruct (H1 q) as [E1|(S1 & N1 & D1)], (H2 q) as [E2|(S2 & N2 & D2)].
  - left. congruence.
  - right. rewrite <-E1. auto.
  - right. rewrite E2. auto.
  - right. auto.
Qed.

Lemma not_suffix_cons (c : bytes) (p : path) : ~ c :: p `suffix_of` p.
Proof. intros [k Hk]. apply (f_equal length) in Hk. rewrite length_app in Hk. simpl in Hk. lia. Qed.

(** ** Loops over directory entries *)

(** [for x in xs { ... }] *)
Fixpoint for_each {S E A} (f : A -> M S E unit) (l : list A) : M S E unit :=
  match l with
  | [] => mret tt
  | x :: l => f x;; for_each f l
  end.

(** [for x in xs { if let Some(y) = ... { out.push(y) } }] *)
Fixpoint collect {S E A B} (f : A -> M S E (option B)) (l : list A) : M S E (list B) :=
  match l with
  | [] => mret []
  | x :: l =>
      y ← f x;
      ys ← collect f l;
      mret (match y with Some y => y :: ys | None => ys end)
  end.

Lemma for_each_runs {E A} P (f : A -> M fs E unit) l s r s' :
  (forall d1 d2 d3, P d1 d2 -> P d2 d3 -> P d1 d3) ->
  Forall (fun x => forall s r s', f x s = (r, s') -> runs P s s') l ->
  for_each f l s = (r, s') -> runs P s s'.
Proof.
  intros HP HF. revert s. induction HF as [|x l Hx _ IH]; intros s; simpl.
  { intros [= <- <-]. apply runs_refl. }
  unfold mbind, M_bind. destruct (f x s) as [[u|e] s1] eqn:E1; apply Hx in E1.
  - intros E2%IH. by eapply runs_trans.
  - by intros [= <- <-].
Qed.

(** What the last turn establishes holds after the loop. *)
Lemma for_each_last {S E A} (Q : S -> Prop) (f : A -> M S E unit) l x s u s' :
  (forall s u s', f x s = (Ok u, s') -> Q s') ->
  for_each f (l ++ [x]) s = (Ok u, s') -> Q s'.
Proof.
  intros HQ. revert s. induction l as [|y l IH]; intros s; simpl; unfold mbind, M_bind, mret, M_ret.
  - destruct (f x s) as [[u1|e] s1] eqn:E1; [|done]. intros [= <- <-]. eauto.
  - destruct (f y s) as [[u1|e] s1]; [|done]. apply IH.
Qed.

Lemma collect_sound {S E A B} (I : S -> Prop) (Q : A -> B -> Prop) (f : A -> M S E (option B)) l :
  (forall x s r s', I s -> f x s = (r, s') -> I s' /\ forall y, r = Ok (Some y) -> Q x y) ->
  forall s r s', I s -> collect f l s = (r, s') ->
    I s' /\ forall ys y, r = Ok ys -> y ∈ ys -> exists x, x ∈ l /\ Q x y.
Proof.
  intros Hf. induction l as [|x l IH]; intros s r s' HI; simpl.
  { intros [= <- <-]. split; [done|]. by intros ys y [= <-] ?%elem_of_nil. }
  unfold mbind, M_bind. destruct (f x s) as [r1 s1] eqn:E1.
  apply Hf in E1 as [I1 Q1]; [|done].
  destruct r1 as [o|e]; [|by intros [= <- <-]].
  destruct (collect f l s1) as [r2 s2] eqn:E2. apply IH in E2 as [I2 Q2]; [|done].
  destruct r2 as [ys'|e]; intros [= <- <-]; split; try done.
  intros ys y [= <-] Hy. destruct o as [z|].
  - apply elem_of_cons in Hy as [->|Hy].
    + exists x. split; [left|by apply Q1].
    + destruct (Q2 ys' y eq_refl Hy) as (x' & ? & ?). exists x'. by split; [right|].
  - destruct (Q2 ys' y eq_refl Hy) as (x' & ? & ?). exists x'. by split; [right|].
Qed.

Lemma collect_pure {S E A B} (I : S -> Prop) (g : A -> option B) (f : A -> M S E (option B)) l :
  (forall x s, I s -> exists s', f x s = (Ok (g x), s') /\ I s') ->
  forall s, I s -> exists s', collect f l s = (Ok (omap g l), s') /\ I s'.
Proof.
  intros Hf. induction l as [|x l IH]; intros s HI; simpl; [by eexists|].
  destruct (Hf x s HI) as (s1 & E1 & I1). destruct (IH s1 I1) as (s2 & E2 & I2).
  exists s2. split; [|done]. unfold mbind, M_bind. rewrite E1, E2. by destruct (g x).
Qed.

(** [children] is what it says. *)
Lemma elem_of_children d p c : c ∈ children d p <-> is_Some (d !! (c :: p)).
Proof.
  unfold children. rewrite list_elem_of_omap. split.
  - intros ([[|c' q] n] & Hin & H); simpl in H; [done|]. case_decide; simplify_eq.
    apply elem_of_map_to_list in Hin. eauto.
  - intros [n Hn]. exists (c :: p, n). split; [by apply elem_of_map_to_list|].
    simpl. by rewrite decide_True.
Qed.

(** The same files, whatever happened to directories. *)
Definition files_same (d d' : disk) : Prop := forall q c m,
  d' !! q = Some (File c m) <-> d !! q = Some (File c m).

Lemma files_same_trans d1 d2 d3 : files_same d1 d2 -> files_same d2 d3 -> files_same d1 d3.
Proof. intros H1 H2 q c m. etrans; [apply H2|apply H1]. Qed.

Lemma dirs_in_files P d d' : dirs_in P d d' -> files_same d d'.
Proof.
  intros H q c m. destruct (H q) as [->|(_ & N & D)]; [done|].
  split; intros E; [by rewrite E in D|destruct N as [N|N]; by rewrite E in N].
Qed.

(** ** Reads that cannot fail *)

Lemma reliable_tick s d : reliable s -> reliable (tick s d).
Proof. done. Qed.

Lemma read_file_reliable p s c m :
  reliable s -> nodes s !! p = Some (File c m) -> read_file p s = (Ok c, tick s (nodes s)).
Proof. intros Hr Hp. unfold read_file. rewrite query_reliable by done. by rewrite Hp. Qed.

Lemma read_to_string_reliable p s c m :
  reliable s -> nodes s !! p = Some (File c m) -> utf8_valid c = true ->
  read_to_string p s = (Ok c, tick s (nodes s)).
Proof.
  intros Hr Hp Hu. unfold read_to_string, mbind, M_bind.
  rewrite (read_file_reliable _ _ _ _ Hr Hp). by rewrite Hu.
Qed.

Lemma path_exists_reliable {E} p s :
  reliable s ->
  path_exists (E := E) p s = (Ok (bool_decide (is_Some (nodes s !! p))), tick s (nodes s)).
Proof.
  intros Hr. unfold path_exists. rewrite test_path_reliable by done.
  by destruct (nodes s !! p).
Qed.

(** ** Joining a path with a string *)

(** [Path::join] with a [/]-separated string, as the system calls resolve it:
    an absolute string replaces the path, [..] climbs. *)
Definition join_component (p : path) (c : bytes) : path :=
  if decide (c = [] \/ c = bs ".") then p
  else if decide (c = bs "..") then tail p
  else c :: p.

Definition join_str (p : path) (b : bytes) : path :=
  foldl join_component (if starts_with b (bs "/") then [] else p) (split_on "/"%char b).

Lemma split_on_none c b : c ∉ b -> split_on c b = [b].
Proof.
  induction b as [|d b IH]; intros H; simpl; [done|].
  apply not_elem_of_cons in H as [Hd H]. rewrite IH by done. by rewrite decide_False.
Qed.

(** A plain name is one component. *)
Lemma join_str_name p b :
  "/"%char ∉ b -> b <> [] -> b <> bs "." -> b <> bs ".." -> join_str p b = b :: p.
Proof.
  intros Hs H0 H1 H2. unfold join_str. rewrite split_on_none by done.
  assert (starts_with b (bs "/") = false) as ->.
  { unfold starts_with. apply bool_decide_eq_false. simpl. intros E.
    destruct b as [|c b]; [done|]. injection E as ->. apply Hs. left. }
  simpl. unfold join_component. rewrite decide_False by naive_solver. by rewrite decide_False.
Qed.
