(* ===== verification/StorageUtils.v ===== *)
(** * Atomic and owner-only writes: [src/storage/utils.rs] (Unix)

    [atomic_write_secure] is the one way the storage layer writes a file. Its
    contract, proved here for every behaviour of the file system: the target
    never holds anything but its old content or the whole new one (at every
    point a crash can leave), the new content is never readable by others,
    and an error leaves the target as it was. *)

From S2P Require Import Prelude Text Fs.

(** The errors of [src/error/storage.rs] that the modelled code returns. *)
Inductive storage_error : Type :=
| DirectoryCreate (p : path) (source : io_error)
| DirectoryRead (p : path) (source : io_error)
| DirectoryEntryRead (p : path) (source : io_error)
| FileRead (p : path) (source : io_error)
| FileWrite (p : path) (source : io_error)
| FileDelete (p : path) (source : io_error)
| PeerNameInvalid (name : bytes)
| PeerProfileSerialize (source : bytes)
| PeerProfileParse (source : bytes)
| PublicKeyFormat
| PublicKeyRead (p : path)
| EndpointSecretInvalid (p : path).

Definition mode_bits (m : N) : N := N.land m 511.

(** [apply_secure_permissions_unix] *)
Definition apply_secure_permissions (p : path) : M fs storage_error unit :=
  '(is_dir, mode) ← M_map_err (DirectoryRead p) (metadata p);
  let target_mode : N := if (is_dir : bool) then 448%N else 384%N in
  if (mode_bits mode =? target_mode)%N then mret tt
  else M_map_err (FileWrite p) (set_permissions p target_mode).

Definition ensure_dir_secure (p : path) : M fs storage_error unit :=
  e ← path_exists p;
  if (e : bool) then mret tt else
  M_map_err (DirectoryCreate p) (create_dir_all p);;
  apply_secure_permissions p.

Definition ensure_dir_secure_tighten (p : path) : M fs storage_error unit :=
  M_map_err (DirectoryCreate p) (create_dir_all p);;
  apply_secure_permissions p.

(** The temporary name: [format!(".{}.{:016x}.tmp", ...)]. *)
Definition tmp_name (base_name : bytes) (random_suffix : N) : bytes :=
  bs "." ++ trim_start_char "."%char base_name ++ bs "." ++
  hex_pad 16 random_suffix ++ bs ".tmp".

(** The closure of [atomic_write_secure]. *)
Definition write_tmp_and_rename (tmp_path target : path) (data : bytes) : M fs storage_error unit :=
  M_map_err (FileWrite tmp_path) (file_create tmp_path);;
  apply_secure_permissions tmp_path;;
  M_map_err (FileWrite tmp_path) (file_write_all tmp_path data);;
  M_map_err (FileWrite tmp_path) (file_sync tmp_path);;
  M_map_err (FileWrite target) (rename tmp_path target).

Definition atomic_write_secure (random_suffix : N) (target : path) (data : bytes) :
    M fs storage_error unit :=
  match target with
  | [] => throw (DirectoryCreate target InvalidInput)
  | base_name :: parent =>
      ensure_dir_secure parent;;
      let tmp_path := tmp_name base_name random_suffix :: parent in
      on_error (write_tmp_and_rename tmp_path target data) (remove_file tmp_path)
  end.

(** ** The temporary file is never the target *)

Lemma tmp_name_ne base suffix : tmp_name base suffix <> base.
Proof.
  intros E. unfold tmp_name in E. set (t := trim_start_char _ _) in E.
  pose proof (hex_pad_length 16 suffix) as Hh.
  destruct (hex_pad 16 suffix) as [|h hs] eqn:Hx; [done|].
  assert (length base = length t + 22) as Hl.
  { rewrite <-E, !length_app. simpl in *. lia. }
  destruct base as [|c base]; [done|]. injection E as Hc E. subst c.
  assert (trim_start_char "."%char ("."%char :: base) = trim_start_char "."%char base) as Ht.
  { done. }
  subst t. rewrite Ht in E, Hl.
  destruct base as [|d base]; [simpl in Hl; lia|].
  destruct (trim_start_char "."%char (d :: base)) as [|x t'] eqn:Hd.
  - simpl in E. injection E as <- E. destruct base as [|y base]; [done|].
    assert (y = "."%char) as ->.
    { simpl in Hd. revert Hd. case_decide; [congruence|discriminate]. }
    injection E as E _. revert Hx. cbn [hex_pad]. rewrite E.
    assert (forall n, hex_digit (n mod 16) <> "."%char) as Hn.
    { intros n. unfold hex_digit. pose proof (N.mod_lt n 16 ltac:(done)) as Hm.
      generalize dependent (n mod 16)%N. intros x Hm. case_match; intros Hc; apply (f_equal N_of_ascii) in Hc;
        rewrite N_ascii_embedding in Hc by lia; change (N_of_ascii ".") with 46%N in Hc; lia. }
    simpl. intros Hx. injection Hx as Hx _. by apply Hn in Hx.
  - pose proof (trim_start_char_head _ _ _ _ Hd) as Hne.
    injection E as -> _.
    pose proof (trim_start_char_suffix "."%char (d :: base)) as [k Hk]. rewrite Hd in Hk.
    apply (f_equal length) in Hk. rewrite length_app in Hk.
    simpl in Hd. rewrite decide_False in Hd by congruence. injection Hd as <-.
    simpl in *. lia.
Qed.

(** ** The write protocol *)

(** A file only its owner can read or write, with this content. *)
Definition private (data : bytes) (n : option node) : Prop :=
  exists m, n = Some (File data m) /\ mode_bits m = 384%N.

Lemma apply_secure_permissions_file p s r s' c m :
  nodes s !! p = Some (File c m) ->
  apply_secure_permissions p s = (r, s') ->
  exists m', nodes s' !! p = Some (File c m') /\
    runs (fun d d' => d' = d \/ d' = <[p := File c m']> d) s s' /\
    match r with Ok _ => mode_bits m' = 384%N | Err _ => True end.
Proof.
  intros Hp. unfold apply_secure_permissions, mbind, M_bind, M_map_err.
  destruct (metadata p s) as [r1 s1] eqn:E1. apply metadata_spec in E1 as [-> H1].
  destruct r1 as [[[] m1]|e]; simpl.
  - congruence.
  - destruct H1 as [c1 H1]. simplify_eq.
    assert (runs (fun d d' => d' = d \/ d' = <[p := File c m]> d) s (tick s (nodes s))) as Hr
      by (apply tick_runs; by left).
    destruct (N.eqb_spec (mode_bits m) 384) as [Em|Em].
    { intros [= <- <-]. exists m. auto. }
    destruct (set_permissions p 384 (tick s (nodes s))) as [r2 s2] eqn:E2.
    apply (set_permissions_spec _ _ _ _ _ (File c m)) in E2; [|done].
    destruct E2 as [[-> ->]|[[e ->] ->]]; intros [= <- <-]; simpl.
    + exists 384%N. split; [by rewrite lookup_insert_eq|]. split; [|done].
      apply runs_2; [by left|by right].
    + exists m. split; [done|]. split; [|done].
      apply runs_2; by left.
  - intros [= <- <-]. exists m. split; [done|]. split; [|done]. apply tick_runs. by left.
Qed.

Section protocol.
Context (tmp target : path) (data : bytes) (Hne : tmp <> target).

(** What every disk between the start and the end of the protocol satisfies:
    nothing else changed, the target is old or complete, and the temporary
    file holds data only when it is private. *)
Definition step_ok (d d' : disk) : Prop :=
  only (fun q => q = tmp \/ q = target) d d' /\
  (d' !! target = d !! target \/ private data (d' !! target)) /\
  (d' !! tmp = d !! tmp \/ d' !! tmp = None \/
   exists b m, d' !! tmp = Some (File b m) /\ b `prefix_of` data /\ (b = [] \/ mode_bits m = 384%N)).

Lemma step_ok_trans d1 d2 d3 : step_ok d1 d2 -> step_ok d2 d3 -> step_ok d1 d3.
Proof.
  intros (F1 & T1 & P1) (F2 & T2 & P2). split; [by eapply only_trans|]. split.
  - destruct T2 as [E|?]; [rewrite E|]; auto.
  - destruct P2 as [E|?]; [rewrite E|]; auto.
Qed.

(** Only the temporary file changed. *)
Lemma step_ok_tmp d c m :
  c `prefix_of` data -> (c = [] \/ mode_bits m = 384%N) -> step_ok d (<[tmp := File c m]> d).
Proof.
  intros Hp Hc. split; [apply only_insert; by left|]. split.
  - left. by apply lookup_insert_ne.
  - rewrite lookup_insert_eq. right. right. eauto 6.
Qed.

Lemma step_ok_same d c m :
  d !! tmp = Some (File c m) -> c `prefix_of` data -> (c = [] \/ mode_bits m = 384%N) ->
  step_ok d d.
Proof. intros E Hp Hc. rewrite <-(insert_id d tmp (File c m)) at 2 by done. by apply step_ok_tmp. Qed.

Lemma write_tmp_and_rename_spec s r s' :
  write_tmp_and_rename tmp target data s = (r, s') ->
  runs step_ok s s' /\
  match r with
  | Ok _ => private data (nodes s' !! target) /\ nodes s' !! tmp = None
  | Err _ => nodes s' !! target = nodes s !! target
  end.
Proof.
  unfold write_tmp_and_rename, mbind, M_bind, M_map_err.
  destruct (file_create tmp s) as [r1 s1] eqn:E1.
  apply file_create_spec in E1 as [[-> [m1 ->]]|[[e ->] ->]]; simpl; swap 1 2.
  { intros [= <- <-]. split; [|done]. apply tick_runs. split; [apply only_refl|]. by split; left. }
  set (d1 := <[tmp := File [] m1]> (nodes s)).
  assert (runs step_ok s (tick s d1)) as R1
    by (apply tick_runs, step_ok_tmp; [apply prefix_nil|by left]).
  assert (d1 !! target = nodes s !! target) as T1 by by apply lookup_insert_ne.
  destruct (apply_secure_permissions tmp (tick s d1)) as [r2 s2] eqn:E2.
  apply (apply_secure_permissions_file _ _ _ _ [] m1) in E2 as (m2 & Hp2 & R2 & Hm2);
    [|apply lookup_insert_eq].
  assert (nodes s2 !! target = nodes s !! target) as T2.
  { apply runs_final in R2 as [->| ->]; [done| |by left]. by rewrite lookup_insert_ne. }
  assert (runs step_ok s s2) as R12.
  { eapply runs_trans; [apply step_ok_trans|exact R1|]. eapply runs_mono; [|exact R2].
    intros d' [->| ->];
      [eapply step_ok_same; [apply lookup_insert_eq| |]|apply step_ok_tmp];
      auto using prefix_nil. }
  destruct r2 as [u2|e]; [|intros [= <- <-]; done].
  destruct (file_write_all tmp data s2) as [r3 s3] eqn:E3.
  apply (file_write_all_spec _ _ _ _ _ _ _ Hp2) in E3 as (b & Hb & -> & Hr3). simpl in *.
  set (d3 := <[tmp := File b m2]> (nodes s2)) in *.
  assert (d3 !! target = nodes s !! target) as T3
    by (etrans; [by apply lookup_insert_ne|done]).
  assert (runs step_ok s (tick s2 d3)) as R13.
  { eapply runs_trans; [apply step_ok_trans|exact R12|]. apply tick_runs, step_ok_tmp; auto. }
  destruct r3 as [u3|e]; [|intros [= <- <-]; done]. subst b. simpl.
  unfold file_sync. destruct (query _ (tick s2 d3)) as [r4 s4] eqn:E4.
  apply query_runs in E4. pose proof (runs_same_nodes _ _ E4) as N4. simpl in N4.
  assert (d3 !! tmp = Some (File data m2)) as P3 by apply lookup_insert_eq.
  assert (runs step_ok s s4) as R14.
  { eapply runs_trans; [apply step_ok_trans|exact R13|]. eapply runs_mono; [|exact E4].
    intros d' ->. eapply step_ok_same; [exact P3|done|by right]. }
  destruct r4 as [u4|e]; [|intros [= <- <-]; split; [done|congruence]]. simpl.
  destruct (rename tmp target s4) as [r5 s5] eqn:E5. rewrite <-N4 in P3.
  apply (rename_spec _ _ _ _ _ _ _ P3) in E5 as [[-> ->]|[[e ->] ->]]; simpl; intros [= <- <-].
  - split.
    + eapply runs_trans; [apply step_ok_trans|exact R14|]. apply tick_runs.
      split; [|split].
      * intros q Hq. rewrite lookup_insert_ne, lookup_delete_ne; naive_solver.
      * right. rewrite lookup_insert_eq. by exists m2.
      * right. left. rewrite lookup_insert_ne by done. apply lookup_delete_eq.
    + simpl. rewrite lookup_insert_eq, lookup_insert_ne, lookup_delete_eq by done.
      split; [by exists m2|done].
  - split; [|simpl; congruence].
    eapply runs_trans; [apply step_ok_trans|exact R14|]. apply tick_runs.
    eapply step_ok_same; [exact P3|done|by right].
Qed.
End protocol.

(** ** Creating directories *)

Lemma apply_secure_permissions_dir p s r s' :
  is_dir_node (nodes s !! p) ->
  apply_secure_permissions p s = (r, s') -> runs (dirs_only p) s s'.
Proof.
  intros Hd. unfold apply_secure_permissions, mbind, M_bind, M_map_err.
  assert (runs (dirs_only p) s (tick s (nodes s))) as R0 by apply tick_runs, dirs_only_refl.
  destruct (metadata p s) as [r1 s1] eqn:E1. apply metadata_spec in E1 as [-> H1].
  destruct r1 as [[d m]|e]; simpl; [|by intros [= <- <-]].
  destruct (_ =? _)%N; [by intros [= <- <-]|].
  destruct (nodes s !! p) as [[mode|]|] eqn:Hp; try done.
  destruct (set_permissions _ _ _) as [r2 s2] eqn:E2.
  apply (set_permissions_spec _ _ _ _ _ (Dir mode)) in E2; [|done].
  destruct E2 as [[-> ->]|[[e ->] ->]];
    intros [= <- <-]; apply runs_2; try apply dirs_only_refl.
  intros q. destruct (decide (q = p)) as [->|Hne].
  - right. simpl. rewrite lookup_insert_eq, Hp. auto.
  - left. by rewrite lookup_insert_ne.
Qed.

Lemma create_then_secure p s r s' :
  (M_map_err (DirectoryCreate p) (create_dir_all p);; apply_secure_permissions p) s = (r, s') ->
  runs (dirs_only p) s s'.
Proof.
  unfold mbind, M_bind, M_map_err. destruct (create_dir_all p s) as [r1 s1] eqn:E1.
  assert (runs (dirs_only p) s s1) as R1.
  { eapply runs_mono; [|by eapply create_dir_all_runs]. intros. by apply adds_dirs_only. }
  destruct r1 as [u|e]; simpl; [|by intros [= <- <-]].
  apply create_dir_all_ok in E1. intros E2. apply apply_secure_permissions_dir in E2; [|done].
  eapply runs_trans; [apply dirs_only_trans|done..].
Qed.

Lemma ensure_dir_secure_tighten_runs p s r s' :
  ensure_dir_secure_tighten p s = (r, s') -> runs (dirs_only p) s s'.
Proof. apply create_then_secure. Qed.

Lemma ensure_dir_secure_runs p s r s' :
  ensure_dir_secure p s = (r, s') -> runs (dirs_only p) s s'.
Proof.
  unfold ensure_dir_secure, mbind at 1, M_bind at 1.
  destruct (path_exists p s) as [r1 s1] eqn:E1.
  apply test_path_runs in E1 as [R1 [b ->]].
  assert (runs (dirs_only p) s s1) as R1'.
  { eapply runs_mono; [|exact R1]. intros d' ->. apply dirs_only_refl. }
  destruct b; [by intros [= <- <-]|]. intros E2%create_then_secure.
  eapply runs_trans; [apply dirs_only_trans|done..].
Qed.

(** A directory that was there is there afterwards. *)
Lemma dirs_only_dir p d d' q : dirs_only p d d' -> is_dir_node (d !! q) -> is_dir_node (d' !! q).
Proof. intros H Hq. by destruct (H q) as [->|(_ & _ & ?)]. Qed.

(** A successful [ensure_dir_secure_tighten] leaves a private directory. *)
Lemma ensure_dir_secure_tighten_ok p s u s' :
  ensure_dir_secure_tighten p s = (Ok u, s') ->
  exists m, nodes s' !! p = Some (Dir m) /\ mode_bits m = 448%N.
Proof.
  unfold ensure_dir_secure_tighten, apply_secure_permissions, mbind, M_bind, M_map_err.
  destruct (create_dir_all p s) as [[?|] s1] eqn:E1; [|done]. simpl.
  apply create_dir_all_ok in E1.
  destruct (metadata p s1) as [r2 s2] eqn:E2. apply metadata_spec in E2 as [-> H2].
  destruct r2 as [[d m]|]; [|done]. simpl.
  destruct d; [|destruct H2 as [c H2]; by rewrite H2 in E1].
  destruct (mode_bits m =? 448)%N eqn:Em; [intros [= _ <-]; exists m; by apply N.eqb_eq in Em|].
  destruct (set_permissions _ _ _) as [r3 s3] eqn:E3.
  apply (set_permissions_spec _ _ _ _ _ (Dir m)) in E3; [|done].
  destruct E3 as [[-> ->]|[[e ->] _]]; [|done]. intros [= _ <-].
  exists 448%N. simpl. by rewrite lookup_insert_eq.
Qed.

(** On an existing directory it succeeds, unless a call fails. *)
Lemma ensure_dir_secure_tighten_again p s :
  reliable s -> is_dir_node (nodes s !! p) ->
  exists s', ensure_dir_secure_tighten p s = (Ok tt, s').
Proof.
  intros Hr Hd. destruct (nodes s !! p) as [[m|]|] eqn:Hp; try done.
  unfold ensure_dir_secure_tighten, apply_secure_permissions, mbind, M_bind, M_map_err.
  rewrite (create_dir_all_existing p s m) by done. cbn beta iota delta [map_err].
  unfold metadata. rewrite query_reliable by (intros n; apply Hr). simpl. rewrite Hp. simpl.
  destruct (_ =? _)%N; [by eexists|]. unfold set_permissions, syscall. simpl.
  rewrite Hr, Hp. by eexists.
Qed.

(** ** The contract *)

(** What any disk a crash can leave looks like, from the disk before. *)
Definition write_step (tmp target : path) (data : bytes) (d d' : disk) : Prop :=
  (forall q, q <> tmp -> q <> target ->
    d' !! q = d !! q \/
    (q `suffix_of` target /\ (d !! q = None \/ is_dir_node (d !! q)) /\ is_dir_node (d' !! q))) /\
  (d' !! target = d !! target \/ private data (d' !! target)) /\
  (d' !! tmp = d !! tmp \/ d' !! tmp = None \/
   exists b m, d' !! tmp = Some (File b m) /\ b `prefix_of` data /\ (b = [] \/ mode_bits m = 384%N)).

Lemma write_step_refl tmp target data d : write_step tmp target data d d.
Proof. split; [by left|]. by split; left. Qed.

Lemma write_step_trans tmp target data d1 d2 d3 :
  write_step tmp target data d1 d2 -> write_step tmp target data d2 d3 ->
  write_step tmp target data d1 d3.
Proof.
  intros (F1 & T1 & P1) (F2 & T2 & P2). split; [|split].
  - intros q Hq1 Hq2.
    destruct (F2 q Hq1 Hq2) as [E2|(S2 & N2 & D2)], (F1 q Hq1 Hq2) as [E1|(S1 & N1 & D1)].
    + left. congruence.
    + right. rewrite E2. auto.
    + right. rewrite <-E1. auto.
    + right. auto.
  - destruct T2 as [E|?]; [rewrite E|]; auto.
  - destruct P2 as [E|?]; [rewrite E|]; auto.
Qed.

(** Directories above the target are created first. *)
Lemma dirs_write_step tmp target base parent data d d' :
  target = base :: parent -> (exists t, tmp = t :: parent) ->
  dirs_only parent d d' -> write_step tmp target data d d'.
Proof.
  intros -> [t ->] H. split; [|split; left].
  - intros q _ _. destruct (H q) as [?|(Hs & ? & ?)]; [by left|right].
    split; [by apply suffix_cons_r|done].
  - apply (dirs_only_below _ _ _ _ H), not_suffix_cons.
  - apply (dirs_only_below _ _ _ _ H), not_suffix_cons.
Qed.

Lemma step_write_step tmp target data d d' :
  step_ok tmp target data d d' -> write_step tmp target data d d'.
Proof. intros (F & ? & ?). split; [|done]. intros q ??. left. by apply F; intros [|]. Qed.

(** Removing the temporary file is always admissible. *)
Lemma delete_write_step tmp target data d :
  tmp <> target -> write_step tmp target data d (delete tmp d).
Proof.
  intros Hne. split; [|split].
  - intros q Hq ?. left. by rewrite lookup_delete_ne.
  - left. by rewrite lookup_delete_ne.
  - right. left. apply lookup_delete_eq.
Qed.

Lemma remove_tmp_runs tmp target data s r s' :
  tmp <> target -> remove_file tmp s = (r, s') ->
  runs (write_step tmp target data) s s' /\ nodes s' !! target = nodes s !! target /\
  (reliable s -> is_dir_node (nodes s !! tmp) = false -> nodes s' !! tmp = None).
Proof.
  intros Hne. unfold remove_file, syscall. destruct (oracle s (ticks s)) as [[]|] eqn:Ho.
  { intros [= <- <-]. split; [apply tick_runs, write_step_refl|]. split; [done|].
    intros Hr. by rewrite Hr in Ho. }
  destruct (nodes s !! tmp) as [[]|] eqn:Ht; intros [= <- <-]; simpl.
  - split; [apply tick_runs, write_step_refl|done].
  - split; [by apply tick_runs, delete_write_step|].
    split; [by apply lookup_delete_ne|]. intros _ _. apply lookup_delete_eq.
  - split; [apply tick_runs, write_step_refl|done].
Qed.

Lemma atomic_write_secure_spec suffix base parent data s r s' :
  let tmp := tmp_name base suffix :: parent in
  let target := base :: parent in
  atomic_write_secure suffix target data s = (r, s') ->
  runs (write_step tmp target data) s s' /\
  match r with
  | Ok _ => private data (nodes s' !! target) /\ nodes s' !! tmp = None
  | Err _ => nodes s' !! target = nodes s !! target /\
             (reliable s -> nodes s !! tmp = None -> nodes s' !! tmp = None)
  end.
Proof.
  intros tmp target. assert (tmp <> target) as Hne by (intros [= E]; by apply tmp_name_ne in E).
  unfold atomic_write_secure, target, mbind, M_bind. cbv beta zeta. fold tmp target.
  destruct (ensure_dir_secure parent s) as [r1 s1] eqn:E1. apply ensure_dir_secure_runs in E1.
  assert (forall q, ~ q `suffix_of` parent -> nodes s1 !! q = nodes s !! q) as Hs1.
  { intros q. apply dirs_only_below, (runs_final _ _ _ (dirs_only_refl _ _) E1). }
  assert (runs (write_step tmp target data) s s1) as R1.
  { eapply runs_mono; [|exact E1]. intros d. apply (dirs_write_step tmp target base parent); eauto. }
  assert (nodes s1 !! target = nodes s !! target) as Et by apply Hs1, not_suffix_cons.
  assert (nodes s1 !! tmp = nodes s !! tmp) as Ep by apply Hs1, not_suffix_cons.
  destruct r1 as [u|e]; [|intros [= <- <-]; split; [done|]; split; [done|]; congruence].
  unfold on_error. destruct (write_tmp_and_rename tmp target data s1) as [r2 s2] eqn:E2.
  apply (write_tmp_and_rename_spec _ _ _ Hne) in E2 as [R2 H2].
  assert (runs (write_step tmp target data) s s2) as R12.
  { eapply runs_trans; [apply write_step_trans|exact R1|].
    eapply runs_mono; [|exact R2]. intros d. apply step_write_step. }
  destruct r2 as [u2|e]; [intros [= <- <-]; auto|].
  destruct (remove_file tmp s2) as [r3 s3] eqn:E3. simpl. intros [= <- <-].
  apply (remove_tmp_runs _ _ data _ _ _ Hne) in E3 as (R3 & T3 & P3).
  split; [by eapply runs_trans; [apply write_step_trans|exact R12|]|].
  split; [congruence|]. intros Hr Hn. apply P3; [by eapply runs_reliable|].
  apply runs_final in R12 as (_ & _ & [E|[E|(b & m & E & _)]]); [| | |apply write_step_refl];
    rewrite E; [by rewrite Hn|done..].
Qed.

(** What was written is read back. *)
Lemma atomic_write_read_back suffix target data s u s' :
  reliable s -> atomic_write_secure suffix target data s = (Ok u, s') ->
  reliable s' /\ exists m, nodes s' !! target = Some (File data m).
Proof.
  intros Hr H. destruct target as [|base parent]; [done|].
  apply atomic_write_secure_spec in H as (R & (m & Hm & _) & _).
  split; [by eapply runs_reliable|by exists m].
Qed.

Lemma atomic_write_dirs suffix base parent data s r s' q :
  atomic_write_secure suffix (base :: parent) data s = (r, s') ->
  q <> base :: parent -> q <> tmp_name base suffix :: parent ->
  is_dir_node (nodes s !! q) -> is_dir_node (nodes s' !! q).
Proof.
  intros H Hq Ht Hc. apply atomic_write_secure_spec in H as (R & _).
  apply runs_final in R as (F & _); [|apply write_step_refl].
  by destruct (F q Ht Hq) as [->|(_ & _ & ?)].
Qed.

(** A failed write leaves every file as it was. *)
Lemma atomic_write_error suffix target data s e s' c m :
  atomic_write_secure suffix target data s = (Err e, s') ->
  nodes s !! target = Some (File c m) -> nodes s' !! target = Some (File c m).
Proof.
  intros H Ht. destruct target as [|base parent]; [by injection H as _ <-|].
  apply atomic_write_secure_spec in H as (_ & -> & _). done.
Qed.

(** Other files survive a write, unless they have a temporary name. *)
Lemma atomic_write_others suffix base parent data s r s' q c m :
  atomic_write_secure suffix (base :: parent) data s = (r, s') ->
  q <> base :: parent -> q <> tmp_name base suffix :: parent ->
  nodes s !! q = Some (File c m) -> nodes s' !! q = Some (File c m).
Proof.
  intros H Hq Ht Hc. apply atomic_write_secure_spec in H as (R & _).
  apply runs_final in R as (F & _); [|apply write_step_refl].
  destruct (F q Ht Hq) as [->|(_ & N & _)]; [done|].
  rewrite Hc in N. by destruct N.
Qed.

(** C15: The write is atomic and private, whatever calls fail and wherever the
    process dies. At every point of [atomic_write_secure] the target holds
    its old content or exactly the new one; the new data is only ever in a
    file with permissions 0600, under the target's name or the temporary
    one; nothing else on the disk changes except directories created above
    the target. [Ok] means the new content is in place, and an error that the
    target is unchanged; without faults no temporary file remains. *)
Theorem atomic_write_secure_contract suffix base parent data s r s' :
  let tmp := tmp_name base suffix :: parent in
  let target := base :: parent in
  atomic_write_secure suffix target data s = (r, s') ->
  runs (write_step tmp target data) s s' /\
  match r with
  | Ok _ => private data (nodes s' !! target) /\ nodes s' !! tmp = None
  | Err _ => nodes s' !! target = nodes s !! target /\
             (reliable s -> nodes s !! tmp = None -> nodes s' !! tmp = None)
  end.
Proof. apply atomic_write_secure_spec. Qed.

Definition demo_fs (oracle : nat -> option (nat * io_error)) : fs :=
  mk_fs {[ [] := Dir 493; [bs "srv"] := Dir 493; [bs "shadow"; bs "srv"] := File (bs "old") 384 ]}
    18 oracle 0 [].

Lemma atomic_write_secure_contract_witness :
  let target := [bs "shadow"; bs "srv"] in
  let faulty n := if decide (n = 4) then Some (1, StorageFull) else None in
  private (bs "new") (nodes (atomic_write_secure 7 target (bs "new") (demo_fs (fun _ => None))).2
                      !! target) /\
  nodes (atomic_write_secure 7 target (bs "new") (demo_fs faulty)).2 !! target
  = Some (File (bs "old") 384).
Proof.
  intros target faulty. split.
  - apply (atomic_write_secure_contract 7 (bs "shadow") [bs "srv"] (bs "new")
             (demo_fs (fun _ => None)) (Ok tt) _). apply pair_fst. vm_compute. reflexivity.
  - destruct (atomic_write_secure_contract 7 (bs "shadow") [bs "srv"] (bs "new")
                (demo_fs faulty) (Err (FileWrite [tmp_name (bs "shadow") 7; bs "srv"] StorageFull))
                (atomic_write_secure 7 target (bs "new") (demo_fs faulty)).2) as (_ & E & _);
      [apply pair_fst; vm_compute; reflexivity|].
    exact E.
Defined.
