(* ===== verification/Vault.v ===== *)
(** * The vault, as the authenticators see it

    What [src/auth] uses of [src/storage]: loading the authorized keys, adding
    one, reading the password hash. [VaultStore] is the interface,
    [VaultLaws] what it promises; the storage layer implements it over the
    file system ([Trust.v]), and the authenticators are verified against it. *)

From S2P Require Import Prelude Text Fs StorageUtils.

(** ** Public keys *)

Class SshKey (K : Type) : Type := {
  key_eq_dec :: EqDecision K;
  to_openssh : K -> result unit bytes;
  parse_openssh : bytes -> option K;
  fingerprint : K -> bytes;
}.

(** A key that was written is read back. *)
Class SshKeyLaws (K : Type) `{SshKey K} : Prop := {
  parse_to_openssh : forall (k : K) (b : bytes), to_openssh k = Ok b -> parse_openssh b = Some k;
  to_openssh_text : forall (k : K) (b : bytes), to_openssh k = Ok b -> utf8_valid b = true;
  fingerprint_nonempty : forall (k : K), fingerprint k <> [];
}.

(** ** The store *)

Class VaultStore (St K : Type) : Type := {
  load_vault : M St storage_error (list (bytes * K));
  add_client : bytes -> K -> M St storage_error unit;
  load_shadow : M St storage_error (option bytes);
  (** the specification's view of the state *)
  in_vault : St -> K -> Prop;
  shadow_of : St -> result storage_error (option bytes);
  settled : St -> Prop;    (** no call fails by chance *)
}.

Class VaultLaws (St K : Type) `{VaultStore St K} : Prop := {
  load_vault_sound : forall (s : St) l s' k,
    load_vault s = (Ok l, s') -> k ∈ l.*2 -> in_vault s k;
  load_vault_complete : forall (s : St), settled s ->
    exists l, (load_vault s).1 = Ok l /\ forall k, in_vault s k -> k ∈ l.*2;
  load_vault_frame : forall (s : St) r s',
    load_vault s = (r, s') ->
    (forall k, in_vault s' k <-> in_vault s k) /\ shadow_of s' = shadow_of s /\
    (settled s -> settled s');
  add_client_ok : forall (s : St) fp k u s',
    fp <> [] -> add_client fp k s = (Ok u, s') ->
    in_vault s' k /\ forall k', in_vault s' k' -> k' = k \/ in_vault s k';
  add_client_err : forall (s : St) fp k e s',
    fp <> [] -> add_client fp k s = (Err e, s') -> forall k', in_vault s' k' <-> in_vault s k';
  add_client_frame : forall (s : St) fp k r s',
    fp <> [] -> add_client fp k s = (r, s') -> shadow_of s' = shadow_of s /\ (settled s -> settled s');
  load_shadow_settled : forall (s : St), settled s -> (load_shadow s).1 = shadow_of s;
  load_shadow_frame : forall (s : St) r s',
    load_shadow s = (r, s') ->
    (forall k : K, in_vault s' k <-> in_vault s k) /\ shadow_of s' = shadow_of s /\
    (settled s -> settled s');
}.
