(* ===== verification/Trust.v ===== *)
(** * Trust records and the shadow file: [src/storage/trust.rs], [shadow.rs]

    The vault is the directory [trust/clients] with one OpenSSH public key per
    authorized client, [trust/servers] the pinned host keys, [shadow] the
    password hash. The key type, its OpenSSH format and its fingerprint belong
    to the ssh-key crate and are parameters ([SshKey]). *)

From S2P Require Import Prelude Text Fs StorageUtils Vault.

Inductive TrustEventKind : Type := ServerKeyLearned | ClientKeyAuthorized.

Record TrustEvent : Type := mk_TrustEvent {
  te_kind : TrustEventKind;
  te_path : path;
}.

Record TrustRecord : Type := mk_TrustRecord {
  tr_exists : bool;
  tr_path : path;
  tr_public_key_openssh : option bytes;
}.

Record TrustSummary : Type := mk_TrustSummary {
  known_servers : list TrustRecord;
  authorized_clients : list TrustRecord;
}.

(** ** [trust.rs] *)

Section trust.
Context {K : Type} {SK : SshKey K}.
Variable root : path.

Definition trust_dir : path := bs "trust" :: root.
Definition servers_dir : path := bs "servers" :: trust_dir.
Definition clients_dir : path := bs "clients" :: trust_dir.

Definition ensure_trust_dirs : M fs storage_error unit :=
  for_each ensure_dir_secure_tighten [root; trust_dir; servers_dir; clients_dir].

(** [node_id.replace(['/', '\\', '.', ':'], "_")] *)
Definition safe_id (node_id : bytes) : bytes :=
  replace_chars ["/"; "\"; "."; ":"]%char (bs "_") node_id.

Definition server_key_path (node_id : bytes) : path :=
  (safe_id node_id ++ bs ".pub") :: servers_dir.

Definition client_key_path (node_id : bytes) : path :=
  (safe_id node_id ++ bs ".pub") :: clients_dir.

Definition write_public_key (suffix : N) (p : path) (key : K) : M fs storage_error unit :=
  match to_openssh key with
  | Err _ => throw PublicKeyFormat
  | Ok content => atomic_write_secure suffix p content
  end.

(** [PublicKey::read_openssh_file] *)
Definition read_openssh_file (p : path) : M fs storage_error K :=
  content ← M_map_err (fun _ => PublicKeyRead p) (read_to_string p);
  match parse_openssh content with
  | Some key => mret key
  | None => throw (PublicKeyRead p)
  end.

Definition load_key_at (p : path) : M fs storage_error (option K) :=
  e ← path_exists p;
  if (e : bool) then key ← read_openssh_file p; mret (Some key) else mret None.

Definition load_known_server (node_id : bytes) : M fs storage_error (option K) :=
  load_key_at (server_key_path node_id).

Definition load_authorized_client (node_id : bytes) : M fs storage_error (option K) :=
  load_key_at (client_key_path node_id).

(** [path.extension().is_some_and(|ext| ext == "pub")] *)
Definition is_pub (name : bytes) : bool := bool_decide (extension name = Some (bs "pub")).

(** One turn of the loop of [load_all_authorized_clients]: a record that
    cannot be read or parsed is skipped. *)
Definition load_entry (name : bytes) : M fs storage_error (option (bytes * K)) :=
  name ← M_map_err (DirectoryEntryRead clients_dir) (next_entry name);
  if is_pub name then
    r ← attempt (read_openssh_file (name :: clients_dir));
    mret (match r with Ok key => Some (file_stem name, key) | Err _ => None end)
  else mret None.

Definition load_all_authorized_clients : M fs storage_error (list (bytes * K)) :=
  e ← path_exists clients_dir;
  if (e : bool) then
    entries ← M_map_err (DirectoryRead clients_dir) (read_dir clients_dir);
    collect load_entry entries
  else mret [].

Definition write_known_server (suffix : N) (node_id : bytes) (key : K) :
    M fs storage_error TrustEvent :=
  ensure_trust_dirs;;
  let p := server_key_path node_id in
  write_public_key suffix p key;;
  mret (mk_TrustEvent ServerKeyLearned p).

Definition write_authorized_client (suffix : N) (node_id : bytes) (key : K) :
    M fs storage_error TrustEvent :=
  ensure_trust_dirs;;
  let p := client_key_path node_id in
  write_public_key suffix p key;;
  mret (mk_TrustEvent ClientKeyAuthorized p).

Definition remove_if_exists (p : path) : M fs storage_error bool := fun s =>
  match remove_file p s with
  | (Ok _, s) => (Ok true, s)
  | (Err NotFound, s) => (Ok false, s)
  | (Err source, s) => (Err (FileDelete p source), s)
  end.

Definition reset_known_server (node_id : bytes) : M fs storage_error bool :=
  remove_if_exists (server_key_path node_id).

Definition reset_authorized_client (node_id : bytes) : M fs storage_error bool :=
  remove_if_exists (client_key_path node_id).

Definition inspect_public_key_record (p : path) : M fs storage_error TrustRecord :=
  e ← path_exists p;
  if negb e then mret (mk_TrustRecord false p None) else
  key ← read_openssh_file p;
  match to_openssh key with
  | Ok b => mret (mk_TrustRecord true p (Some b))
  | Err _ => throw PublicKeyFormat
  end.

Definition inspect_entry (dir : path) (name : bytes) : M fs storage_error (option TrustRecord) :=
  name ← M_map_err (DirectoryEntryRead dir) (next_entry name);
  if is_pub name
  then record ← inspect_public_key_record (name :: dir); mret (Some record)
  else mret None.

Definition read_trust_dir (dir : path) : M fs storage_error (list TrustRecord) :=
  e ← path_exists dir;
  if negb e then mret [] else
  entries ← M_map_err (DirectoryRead dir) (read_dir dir);
  collect (inspect_entry dir) entries.

Definition inspect_trust : M fs storage_error TrustSummary :=
  servers ← read_trust_dir servers_dir;
  clients ← read_trust_dir clients_dir;
  mret (mk_TrustSummary servers clients).

(** ** [shadow.rs] *)

Definition shadow_file_path : path := bs "shadow" :: root.

Definition write_shadow_file (suffix : N) (password_hash : bytes) : M fs storage_error unit :=
  atomic_write_secure suffix shadow_file_path password_hash.

Definition load_shadow_file : M fs storage_error (option bytes) :=
  e ← path_exists shadow_file_path;
  if negb e then mret None else
  content ← M_map_err (FileRead shadow_file_path) (read_to_string shadow_file_path);
  mret (Some (trim content)).

Definition delete_shadow_file : M fs storage_error bool :=
  e ← path_exists shadow_file_path;
  if negb e then mret false else
  M_map_err (FileDelete shadow_file_path) (remove_file shadow_file_path);;
  mret true.

(** [reset_vault] of [src/storage/mod.rs] *)
Definition reset_vault : M fs storage_error unit := fun s =>
  match remove_dir_all trust_dir s with
  | (Err NotFound, s) | (Ok _, s) => (delete_shadow_file;; mret tt) s
  | (Err source, s) => (Err (FileDelete trust_dir source), s)
  end.
End trust.

(** ** What is on the disk *)

Section facts.
Context {K : Type} {SK : SshKey K}.
Variable root : path.

(** A record of the vault: its file stem and its key. *)
Definition entry_of (d : disk) (name : bytes) : option (bytes * K) :=
  if is_pub name then
    match d !! (name :: clients_dir root) with
    | Some (File c _) => if utf8_valid c then (fun k => (file_stem name, k)) <$> parse_openssh c else None
    | _ => None
    end
  else None.

Definition on_disk (d : disk) (k : K) : Prop := exists name id, entry_of d name = Some (id, k).

Lemma entry_of_files d d' name : files_same d d' -> entry_of d' name = entry_of d name.
Proof.
  intros H. unfold entry_of. destruct (is_pub name); [|done].
  destruct (d !! _) as [[|c m]|] eqn:E; [|by apply H in E as ->|];
    destruct (d' !! _) as [[|c' m']|] eqn:E'; try done; apply H in E'; congruence.
Qed.

Lemma on_disk_files d d' k : files_same d d' -> on_disk d' k <-> on_disk d k.
Proof.
  intros H. unfold on_disk.
  split; intros (name & id & E); exists name, id; revert E; by rewrite (entry_of_files d d').
Qed.

Lemma read_openssh_file_runs p s r s' :
  read_openssh_file (K := K) p s = (r, s') -> runs same s s' /\
  forall k, r = Ok k -> exists c m, nodes s !! p = Some (File c m) /\
                             utf8_valid c = true /\ parse_openssh c = Some k.
Proof.
  unfold read_openssh_file, read_to_string, read_file, mbind, M_bind, M_map_err.
  destruct (query _ s) as [r1 s1] eqn:E1. pose proof (query_runs _ _ _ _ E1) as R1.
  unfold query, syscall in E1. destruct r1 as [c|e]; simpl.
  - destruct (oracle s (ticks s)) as [[]|]; [done|]. injection E1 as E1 <-.
    destruct (utf8_valid c) eqn:Hu; simpl; [|by intros [= <- <-]].
    destruct (parse_openssh c) eqn:Hp; intros [= <- <-]; split; try done.
    intros k' [= <-]. destruct (nodes s !! p) as [[|c' m]|]; try done. injection E1 as ->. eauto.
  - by intros [= <- <-].
Qed.

Lemma load_entry_runs name s r s' :
  load_entry root name s = (r, s') -> runs same s s' /\
  forall y, r = Ok (Some y) -> entry_of (nodes s) name = Some y.
Proof.
  unfold load_entry, next_entry, mbind, M_bind, M_map_err.
  destruct (query _ s) as [r1 s1] eqn:E1. pose proof (query_runs _ _ _ _ E1) as R1.
  destruct r1 as [name'|e]; simpl; [|by intros [= <- <-]].
  assert (name' = name) as ->.
  { unfold query, syscall in E1. destruct (oracle s (ticks s)) as [[]|]; by injection E1. }
  unfold entry_of. destruct (is_pub name); [|by intros [= <- <-]].
  unfold attempt. destruct (read_openssh_file _ s1) as [r2 s2] eqn:E2.
  apply read_openssh_file_runs in E2 as [R2 H2]. intros [= <- <-]. split.
  - eapply runs_trans; [|done..]. by intros ??? -> ->.
  - intros y [= Hy]. destruct r2 as [k|]; [|done]. injection Hy as <-.
    rewrite <-(runs_same_nodes _ _ R1). destruct (H2 k eq_refl) as (c & m & -> & -> & ->). done.
Qed.

Lemma same_trans d1 d2 d3 : same d1 d2 -> same d2 d3 -> same d1 d3.
Proof. by intros -> ->. Qed.

Lemma load_all_runs s r s' :
  load_all_authorized_clients root s = (r, s') -> runs same s s' /\
  forall l id k, r = Ok l -> (id, k) ∈ l -> exists name, entry_of (nodes s) name = Some (id, k).
Proof.
  unfold load_all_authorized_clients, path_exists, mbind at 1, M_bind at 1.
  destruct (test_path _ _ s) as [r1 s1] eqn:E1. apply test_path_runs in E1 as [R1 [b ->]].
  destruct b.
  2: { intros [= <- <-]. split; [done|]. by intros l id k [= <-] ?%elem_of_nil. }
  unfold read_dir, mbind, M_bind, M_map_err.
  destruct (query _ s1) as [r2 s2] eqn:E2. apply query_runs in E2 as R2.
  pose proof (runs_trans _ _ _ _ same_trans R1 R2) as R12.
  destruct r2 as [names|e]; simpl; [|by intros [= <- <-]].
  intros E3. apply (collect_sound (fun s2 => runs same s s2)
    (fun name y => entry_of (nodes s) name = Some y)) in E3 as [R3 H3]; [| |done].
  - split; [done|]. intros l id k -> Hin. destruct (H3 l (id, k) eq_refl Hin) as (name & _ & ?). eauto.
  - clear. intros name s0 r0 s1 R0 E0. apply load_entry_runs in E0 as [R1 H1].
    split; [by eapply runs_trans; [apply same_trans|..]|].
    intros y Hy. rewrite <-(runs_same_nodes _ _ R0). auto.
Qed.

(** With no faults the loop computes every record. *)
Lemma load_entry_reliable d name s :
  reliable s /\ nodes s = d -> exists s',
    load_entry root name s = (Ok (entry_of d name), s') /\ (reliable s' /\ nodes s' = d).
Proof.
  intros [Hr <-]. destruct (load_entry root name s) as [r s'] eqn:E.
  apply load_entry_runs in E as R. destruct R as [R _].
  exists s'. split; [|split; [by eapply runs_reliable|by apply runs_same_nodes]]. f_equal.
  revert E. unfold load_entry, next_entry, read_openssh_file, read_to_string, read_file.
  unfold mbind, M_bind, M_map_err, attempt, mret, M_ret.
  rewrite query_reliable by done. unfold entry_of. simpl.
  destruct (is_pub name); [|by intros [= <- _]].
  rewrite query_reliable by exact Hr. simpl.
  destruct (nodes s !! _) as [[|c m]|]; try by intros [= <- _].
  destruct (utf8_valid c); [|by intros [= <- _]].
  simpl. destruct (parse_openssh c); by intros [= <- _].
Qed.

(** The clients directory is where its records are. *)
Definition clients_ok (d : disk) : Prop :=
  is_dir_node (d !! clients_dir root) \/
  (d !! clients_dir root = None /\ forall name, d !! (name :: clients_dir root) = None).

Lemma load_all_reliable s :
  reliable s -> clients_ok (nodes s) -> exists l,
    (load_all_authorized_clients root s).1 = Ok l /\
    forall k, on_disk (nodes s) k -> k ∈ l.*2.
Proof.
  intros Hr Hc. unfold load_all_authorized_clients, path_exists, mbind, M_bind, M_map_err.
  rewrite test_path_reliable by done.
  destruct (nodes s !! clients_dir root) as [[m|]|] eqn:Ed.
  - unfold read_dir. rewrite query_reliable by done. cbn [map_err]. simpl. rewrite Ed. cbn [map_err].
    destruct (collect_pure (fun s' => reliable s' /\ nodes s' = nodes s) (entry_of (nodes s))
      (load_entry root) (children (nodes s) (clients_dir root)) (load_entry_reliable (nodes s)))
      with (s := tick (tick s (nodes s)) (nodes s)) as (s' & -> & _); [done|].
    eexists. split; [done|]. intros k (name & id & E).
    apply list_elem_of_fmap. exists (id, k). split; [done|].
    apply list_elem_of_omap. exists name. split; [|done]. apply elem_of_children.
    unfold entry_of in E. destruct (is_pub name); [|done].
    revert E. destruct (nodes s !! (name :: _)) as [n|]; [by eexists|done].
  - destruct Hc as [Hc|[Hc _]]; [by rewrite Ed in Hc|congruence].
  - exists []. split; [done|]. intros k (name & id & E). unfold entry_of in E.
    destruct Hc as [Hc|[_ Hc]]; [by rewrite Ed in Hc|]. rewrite Hc in E.
    by destruct (is_pub name).
Qed.

(** ** Writing a record *)

Definition above_records (q : path) : Prop :=
  q `suffix_of` clients_dir root \/ q `suffix_of` servers_dir root.

Lemma above_not_shadow : ~ above_records (shadow_file_path root).
Proof.
  intros [H|H]; repeat (apply suffix_cons_inv in H as [H|H]; [by injection H|]);
    by apply not_suffix_cons in H.
Qed.

Lemma above_not_record name : ~ above_records (name :: clients_dir root).
Proof.
  intros [H|H].
  - by apply not_suffix_cons in H.
  - destruct H as [k H]. apply (f_equal length) in H. rewrite length_app in H. simpl in H. lia.
Qed.

Lemma tighten_runs p s r s' :
  (forall q, q `suffix_of` p -> above_records q) ->
  ensure_dir_secure_tighten p s = (r, s') ->
  runs (dirs_in above_records) s s' /\ (forall u, r = Ok u -> is_dir_node (nodes s' !! p)).
Proof.
  intros Hp H. split.
  - apply ensure_dir_secure_tighten_runs in H. eapply runs_mono; [|exact H].
    intros d. by apply dirs_only_in.
  - intros u ->. revert H. unfold ensure_dir_secure_tighten, mbind, M_bind, M_map_err.
    destruct (create_dir_all p s) as [[u1|e] s1] eqn:E1; simpl; [|done].
    apply create_dir_all_ok in E1. intros E2. apply apply_secure_permissions_dir in E2; [|done].
    apply (runs_final _ _ _ (dirs_only_refl _ _)) in E2.
    destruct (E2 p) as [->|(_ & _ & ?)]; done.
Qed.

Lemma ensure_trust_dirs_runs s r s' :
  ensure_trust_dirs root s = (r, s') ->
  runs (dirs_in above_records) s s' /\
  (forall u, r = Ok u -> is_dir_node (nodes s' !! clients_dir root)).
Proof.
  intros H. split.
  - apply (for_each_runs (dirs_in above_records)) in H; [done|apply dirs_in_trans|].
    repeat apply Forall_cons_2; try apply Forall_nil_2;
      intros ??? E; eapply tighten_runs; try exact E; intros q Hq;
      unfold above_records, clients_dir, servers_dir, trust_dir in *; auto using suffix_cons_r.
  - intros u ->. revert H.
    apply (for_each_last (fun s' => is_dir_node (nodes s' !! clients_dir root)) _
      [root; trust_dir root; servers_dir root]).
    intros s0 u0 s1 E. apply tighten_runs in E as [_ E]; [by eapply E|]. by left.
Qed.

(** A record's name is recognized as one, and a temporary file's is not. *)
Lemma pub_name id : id <> [] -> is_pub (safe_id id ++ bs ".pub") = true.
Proof.
  intros Hid. unfold is_pub. apply bool_decide_eq_true.
  apply (extension_app _ (bs "pub")); [by apply (bool_decide_unpack _); vm_compute| |done].
  unfold safe_id, replace_chars. destruct id as [|c id]; [done|].
  simpl. by case_decide.
Qed.

Lemma tmp_not_pub base suffix : is_pub (tmp_name base suffix) = false.
Proof.
  unfold is_pub. apply bool_decide_eq_false. unfold tmp_name.
  rewrite !app_assoc. change (bs ".tmp") with ("."%char :: bs "tmp").
  rewrite extension_app; [done|by apply (bool_decide_unpack _); vm_compute|done..].
Qed.

(** The record of [id] may have become the one of [key]; nothing else of the
    vault, and not the shadow file, changed. *)
Definition record_step (id : bytes) (key : K) (d d' : disk) : Prop :=
  let name := safe_id id ++ bs ".pub" in
  (forall n, n <> name -> entry_of d' n = entry_of d n) /\
  (entry_of d' name = entry_of d name \/ entry_of d' name = Some (file_stem name, key)) /\
  d' !! shadow_file_path root = d !! shadow_file_path root.

Lemma record_step_trans id key d1 d2 d3 :
  record_step id key d1 d2 -> record_step id key d2 d3 -> record_step id key d1 d3.
Proof.
  intros (A1 & B1 & C1) (A2 & B2 & C2). split; [|split].
  - intros n Hn. by rewrite A2, A1.
  - destruct B2 as [->|?]; auto.
  - congruence.
Qed.

Lemma dirs_record_step id key d d' :
  dirs_in above_records d d' -> record_step id key d d'.
Proof.
  intros H. pose proof (dirs_in_files _ _ _ H) as Hf.
  split; [intros n _; by apply entry_of_files|]. split; [left; by apply entry_of_files|].
  destruct (H (shadow_file_path root)) as [?|[[]%above_not_shadow _]]; done.
Qed.

Lemma shadow_not_below name : ~ shadow_file_path root `suffix_of` name :: clients_dir root.
Proof.
  intros H. apply suffix_cons_inv in H as [H|H].
  - apply (f_equal length) in H. simpl in H. lia.
  - apply above_not_shadow. by left.
Qed.

Lemma write_record_step id key data base suffix d d' :
  base = safe_id id ++ bs ".pub" -> id <> [] ->
  utf8_valid data = true -> parse_openssh data = Some key ->
  write_step (tmp_name base suffix :: clients_dir root) (base :: clients_dir root) data d d' ->
  record_step id key d d'.
Proof.
  intros -> Hid Hu Hp (F & T & _). split; [|split].
  - intros n Hn. unfold entry_of. destruct (is_pub n) eqn:Hpub; [|done].
    destruct (F (n :: clients_dir root)) as [->|(_ & N & D)]; [|congruence|done|].
    + intros [= ->]. by rewrite tmp_not_pub in Hpub.
    + revert N D. generalize (d' !! (n :: clients_dir root)) (d !! (n :: clients_dir root)).
      intros [[]|] [[]|]; try done; by intros [?|?].
  - unfold entry_of. rewrite (pub_name id Hid).
    destruct T as [->|(m & -> & _)]; [by left|]. right. by rewrite Hu, Hp.
  - destruct (F (shadow_file_path root)) as [?|[[]%shadow_not_below _]]; [| |done];
      intros H; apply (f_equal length) in H; simpl in H; lia.
Qed.

Lemma record_step_refl id key d : record_step id key d d.
Proof. split; [done|]. by split; [left|]. Qed.

Lemma write_authorized_client_spec {SL : SshKeyLaws K} suffix id key s r s' :
  id <> [] ->
  write_authorized_client root suffix id key s = (r, s') ->
  runs (record_step id key) s s' /\
  match r with
  | Ok ev => te_kind ev = ClientKeyAuthorized /\
      entry_of (nodes s') (safe_id id ++ bs ".pub")
      = Some (file_stem (safe_id id ++ bs ".pub"), key)
  | Err _ => forall n, entry_of (nodes s') n = entry_of (nodes s) n
  end.
Proof.
  intros Hid. unfold write_authorized_client, mbind at 1, M_bind at 1.
  destruct (ensure_trust_dirs root s) as [r1 s1] eqn:E1.
  apply ensure_trust_dirs_runs in E1 as [R1 _].
  assert (forall n, entry_of (nodes s1) n = entry_of (nodes s) n) as F1.
  { intros n. apply entry_of_files, (dirs_in_files above_records).
    exact (runs_final _ _ _ (dirs_in_refl _ _) R1). }
  apply (runs_mono _ (record_step id key)) in R1; [|intros d; apply dirs_record_step].
  destruct r1 as [u1|e]; [|by intros [= <- <-]].
  unfold write_public_key, mbind, M_bind, mret, M_ret. 
  destruct (to_openssh key) as [data|] eqn:Ek; [|by intros [= <- <-]].
  destruct (atomic_write_secure _ _ _ s1) as [r2 s2] eqn:E2.
  apply atomic_write_secure_spec in E2 as [R2 H2].
  apply (runs_mono _ (record_step id key)) in R2.
  2: { intros d. eapply write_record_step; eauto using parse_to_openssh, to_openssh_text. }
  pose proof (runs_trans _ _ _ _ (record_step_trans id key) R1 R2) as R.
  destruct r2 as [u2|e]; intros [= <- <-]; (split; [done|]).
  - split; [done|]. destruct H2 as [(m & Hm & _) _]. unfold entry_of.
    rewrite (pub_name id Hid). unfold client_key_path in Hm. rewrite Hm.
    by rewrite (to_openssh_text _ _ Ek), (parse_to_openssh _ _ Ek).
  - destruct H2 as [H2 _]. intros n.
    apply runs_final in R2 as (R2 & _); [|apply record_step_refl].
    destruct (decide (n = safe_id id ++ bs ".pub")) as [->|Hn]; [|by rewrite R2, F1].
    rewrite <-F1. unfold entry_of. unfold client_key_path in H2. by rewrite H2.
Qed.

Lemma write_authorized_client_clients suffix id key s r s' :
  write_authorized_client root suffix id key s = (r, s') ->
  (reliable s -> reliable s') /\ (clients_ok (nodes s) -> clients_ok (nodes s')).
Proof.
  unfold write_authorized_client, mbind at 1, M_bind at 1.
  destruct (ensure_trust_dirs root s) as [r1 s1] eqn:E1.
  apply ensure_trust_dirs_runs in E1 as [R1 D1].
  assert (clients_ok (nodes s) -> clients_ok (nodes s1)) as C1.
  { apply (runs_final _ _ _ (dirs_in_refl _ _)) in R1. intros [Hd|[Hd Hn]].
    - left. by destruct (R1 (clients_dir root)) as [->|(_ & _ & ?)].
    - destruct (R1 (clients_dir root)) as [E|(_ & _ & ?)]; [right|by left].
      split; [congruence|]. intros name. rewrite <-(Hn name).
      by destruct (R1 (name :: clients_dir root)) as [?|[[]%above_not_record _]]. }
  assert (reliable s -> reliable s1) as Hr1 by (by eapply runs_reliable).
  destruct r1 as [u1|e]; [|by intros [= <- <-]].
  specialize (D1 u1 eq_refl). unfold write_public_key, mbind, M_bind, mret, M_ret.
  destruct (to_openssh key) as [data|]; [|by intros [= <- <-]].
  destruct (atomic_write_secure _ _ _ s1) as [r2 s2] eqn:E2.
  apply atomic_write_secure_spec in E2 as [R2 _].
  intros H. assert (s' = s2) as -> by (by destruct r2; injection H).
  split; [intros; eapply runs_reliable; eauto|]. intros _. left.
  apply runs_final in R2 as (F & _); [|apply write_step_refl].
  destruct (F (clients_dir root)) as [->|(_ & _ & ?)]; try done;
    intros E; by apply list_cons_self in E.
Qed.

End facts.

(** ** The file system as a vault *)

Section instance.
Context {K : Type} {SK : SshKey K} {SL : SshKeyLaws K}.
Variable root : path.
Variable rng : nat -> N.    (** [rand::random], by the number of calls made *)

#[local] Instance fs_vault : VaultStore fs K := {|
  load_vault := load_all_authorized_clients root;
  add_client fp k := fun s =>
    (_ ← write_authorized_client root (rng (ticks s)) fp k; mret tt) s;
  load_shadow := load_shadow_file root;
  in_vault s k := on_disk root (nodes s) k;
  shadow_of s :=
    match nodes s !! shadow_file_path root with
    | None => Ok None
    | Some (Dir _) => Err (FileRead (shadow_file_path root) IsADirectory)
    | Some (File c _) =>
        if utf8_valid c then Ok (Some (trim c))
        else Err (FileRead (shadow_file_path root) InvalidData)
    end;
  settled s := reliable s /\ clients_ok root (nodes s);
|}.

Lemma load_shadow_file_runs s r s' : load_shadow_file root s = (r, s') -> runs same s s'.
Proof.
  unfold load_shadow_file, path_exists, read_to_string, read_file, mbind, M_bind, M_map_err.
  destruct (test_path _ _ s) as [r1 s1] eqn:E1. apply test_path_runs in E1 as [R1 [b ->]].
  destruct b; simpl; [|by intros [= <- <-]].
  destruct (query _ s1) as [r2 s2] eqn:E2. apply query_runs in E2.
  pose proof (runs_trans _ _ _ _ same_trans R1 E2) as R.
  destruct r2 as [c|e]; simpl; [destruct (utf8_valid c)|]; by intros [= <- <-].
Qed.

Lemma same_runs_frame s s' :
  runs same s s' ->
  (forall k : K, in_vault s' k <-> in_vault s k) /\ shadow_of (K := K) s' = shadow_of (K := K) s /\
  (settled (K := K) s -> settled (K := K) s').
Proof.
  intros R. pose proof (runs_same_nodes _ _ R) as E. simpl. rewrite E.
  split_and!; [done..|]. intros [? ?]. split; [by eapply runs_reliable|done].
Qed.

Lemma add_client_vault s fp k r s' :
  fp <> [] -> add_client fp k s = (r, s') ->
  exists e, write_authorized_client root (rng (ticks s)) fp k s = (e, s') /\
    r = (match e with Ok _ => Ok tt | Err x => Err x end).
Proof.
  intros _. simpl. unfold mbind, M_bind, mret, M_ret.
  destruct (write_authorized_client _ _ _ _ _) as [[ev|e] s1]; intros [= <- <-]; eauto.
Qed.

#[local] Instance fs_vault_laws : VaultLaws fs K.
Proof.
  split.
  - intros s l s' k E ([id k'] & -> & Hin)%list_elem_of_fmap.
    apply load_all_runs in E as [_ H]. destruct (H l id k' eq_refl Hin) as [name ?]. by exists name, id.
  - intros s [Hr Hc]. by apply load_all_reliable.
  - intros s r s' E. apply load_all_runs in E as [E _]. by apply same_runs_frame.
  - intros s fp k u s' Hfp H0; apply add_client_vault in H0 as (e & E & He); [|done].
    destruct (write_authorized_client_spec root _ _ _ _ _ _ Hfp E) as [R H].
    destruct e as [ev|]; [|done]. destruct H as [_ H]. split; [by eexists _, _|].
    apply runs_final in R as (F & _); [|apply record_step_refl].
    intros k' (name & id & E').
    destruct (decide (name = safe_id fp ++ bs ".pub")) as [->|Hn].
    + left. rewrite H in E'. by injection E'.
    + right. exists name, id. by rewrite <-F.
  - intros s fp k e s' Hfp (e' & E & He)%add_client_vault k'; [|done].
    destruct (write_authorized_client_spec root _ _ _ _ _ _ Hfp E) as [R H].
    destruct e' as [|]; [done|]. simpl. unfold on_disk.
    split; intros (n & id & E'); exists n, id; by rewrite ?H in *.
  - intros s fp k r s' Hfp H0; apply add_client_vault in H0 as (e & E & He); [|done].
    split.
    + destruct (write_authorized_client_spec root _ _ _ _ _ _ Hfp E) as [R H].
      apply runs_final in R as (_ & _ & F); [|apply record_step_refl]. simpl. by rewrite F.
    + intros [Hr Hc]. apply write_authorized_client_clients in E as [R Hk]. split; eauto.
  - intros s [Hr Hc]. simpl. unfold load_shadow_file, path_exists, read_to_string, read_file.
    unfold mbind, M_bind, M_map_err. rewrite test_path_reliable by done.
    destruct (nodes s !! shadow_file_path root) as [[m|c m]|] eqn:Es; [| |done];
      cbn [negb]; rewrite query_reliable by exact Hr; simpl; rewrite Es; [done|].
    by destruct (utf8_valid c).
  - intros s r s' E. apply load_shadow_file_runs in E. by apply same_runs_frame.
Qed.
End instance.

(** ** What the storage layer promises *)

(** A key type to run the statements on: a key is its OpenSSH line. *)
Definition text_key : SshKey bytes := {|
  key_eq_dec := _;
  to_openssh k := if utf8_valid k then Ok k else Err tt;
  parse_openssh b := Some b;
  fingerprint k := bs "SHA256:" ++ k;
|}.

Lemma text_key_laws : @SshKeyLaws bytes text_key.
Proof.
  split; simpl.
  - intros k b. by destruct (utf8_valid k); intros [= ->].
  - intros k b. by destruct (utf8_valid k) eqn:E; intros [= <-].
  - done.
Qed.

(** C36: The storage layer implements the vault the authenticators rely on:
    loading returns only keys with a record on disk and, when no call fails,
    all of them; adding a client is all or nothing; the password hash is the
    trimmed shadow file; and none of the calls disturbs what it does not name. *)
Theorem storage_implements_vault {K} {SK : SshKey K} {SL : SshKeyLaws K} root rng :
  @VaultLaws fs K (fs_vault root rng).
Proof. apply fs_vault_laws. Qed.

Lemma storage_implements_vault_witness :
  @VaultLaws fs bytes (@fs_vault bytes text_key [bs "srv"] (fun _ => 7%N)).
Proof. apply (@storage_implements_vault bytes text_key text_key_laws). Defined.

(** Authorizing a client is one atomic step on the vault. At every point
    of [write_authorized_client], and after a crash at any of them, every
    other record and the shadow file are as before, and the client's record
    is either as before or is exactly its key; [Ok] means the record is there,
    and an error that the vault is unchanged. *)
Theorem authorize_client_atomic {K} {SK : SshKey K} {SL : SshKeyLaws K} root suffix id (key : K) s r s' :
  id <> [] ->
  write_authorized_client root suffix id key s = (r, s') ->
  runs (record_step root id key) s s' /\
  match r with
  | Ok ev => te_kind ev = ClientKeyAuthorized /\
      entry_of root (nodes s') (safe_id id ++ bs ".pub")
      = Some (file_stem (safe_id id ++ bs ".pub"), key)
  | Err _ => forall n, entry_of (K := K) root (nodes s') n = entry_of root (nodes s) n
  end.
Proof.
  intros Hid E. exact (write_authorized_client_spec root suffix id key s r s' Hid E).
Qed.

Lemma authorize_client_atomic_witness :
  let id := bs "SHA256:a/b" in
  let s := demo_fs (fun _ => None) in
  runs (@record_step bytes text_key [bs "srv"] id (bs "key")) s
    (@write_authorized_client bytes text_key [bs "srv"] 7 id (bs "key") s).2.
Proof.
  intros id s.
  exact (proj1 (@authorize_client_atomic bytes text_key text_key_laws [bs "srv"] 7 id
    (bs "key") s _ _ ltac:(done) (surjective_pairing _))).
Defined.

(** A server key that was pinned successfully is the one the next
    connection to the same node is checked against. *)
Theorem known_server_roundtrip {K} {SK : SshKey K} {SL : SshKeyLaws K} root suffix id (key : K) s ev s' :
  reliable s ->
  write_known_server root suffix id key s = (Ok ev, s') ->
  (load_known_server (K := K) root id s').1 = Ok (Some key).
Proof.
  intros Hr. unfold write_known_server, mbind, M_bind, mret, M_ret.
  destruct (ensure_trust_dirs root s) as [[u|] s1] eqn:E1; [|done].
  apply ensure_trust_dirs_runs in E1 as [R1 _].
  unfold write_public_key. destruct (to_openssh key) as [data|] eqn:Ek; [|done].
  destruct (atomic_write_secure _ _ _ s1) as [[u2|] s2] eqn:E2; [|done]. intros [= _ <-].
  apply atomic_write_secure_spec in E2 as (R2 & (m & Hm & _) & _).
  assert (reliable s2) as Hr2 by (by eapply runs_reliable, (runs_reliable _ _ _ R1)).
  unfold load_known_server, load_key_at, read_openssh_file, read_to_string, read_file, path_exists.
  unfold mbind, M_bind, M_map_err, mret, M_ret. rewrite test_path_reliable by done.
  change (nodes s2 !! server_key_path root id = Some (File data m)) in Hm.
  rewrite Hm, query_reliable by exact Hr2. simpl. rewrite Hm.
  by rewrite (to_openssh_text _ _ Ek); simpl; rewrite (parse_to_openssh _ _ Ek).
Qed.

Lemma known_server_roundtrip_witness :
  let s := demo_fs (fun _ => None) in
  (@load_known_server bytes text_key [bs "srv"] (bs "node")
     (@write_known_server bytes text_key [bs "srv"] 7 (bs "node") (bs "hostkey") s).2).1
  = Ok (Some (bs "hostkey")).
Proof.
  apply (@known_server_roundtrip bytes text_key text_key_laws [bs "srv"] 7 (bs "node")
    (bs "hostkey") (demo_fs (fun _ => None))
    (mk_TrustEvent ServerKeyLearned [bs "node.pub"; bs "servers"; bs "trust"; bs "srv"])).
  - intros n. reflexivity.
  - apply pair_fst. vm_compute. reflexivity.
Defined.

(** Revoking a client leaves no record of it, whether it had one ([true])
    or not ([false]), and touches no other path; a failing call changes
    nothing. *)
Theorem revoke_removes_record root id s r s' :
  reset_authorized_client root id s = (r, s') ->
  match r with
  | Ok b => nodes s' !! client_key_path root id = None /\
            b = bool_decide (is_Some (nodes s !! client_key_path root id))
  | Err _ => nodes s' = nodes s
  end \/ (exists k, oracle s (ticks s) = Some (k, NotFound)).
Proof.
  unfold reset_authorized_client, remove_if_exists, remove_file, syscall.
  destruct (oracle s (ticks s)) as [[k e]|].
  { destruct e; intros [= <- <-]; try (by left); right; eauto. }
  left. revert H. set (p := client_key_path root id).
  destruct (nodes s !! p) as [[m|c m]|] eqn:Ep; intros [= <- <-]; simpl; [done| |].
  - by rewrite lookup_delete_eq.
  - done.
Qed.

(** [Path::exists] hides I/O errors, so a shadow file whose [stat] fails
    is reported as absent: the loader answers [Ok(None)], not an error, and
    no caller can fail closed. *)
Theorem shadow_stat_error_reads_as_absent root s k e :
  oracle s (ticks s) = Some (k, e) ->
  load_shadow_file root s = (Ok None, tick s (nodes s)).
Proof.
  intros Ho. unfold load_shadow_file, path_exists, test_path, query, syscall, mbind, M_bind.
  by rewrite Ho.
Qed.

Lemma shadow_stat_error_reads_as_absent_witness :
  let s := demo_fs (fun n => Some (0, PermissionDenied)) in
  nodes s !! shadow_file_path [bs "srv"] = Some (File (bs "old") 384) /\
  load_shadow_file [bs "srv"] s = (Ok None, tick s (nodes s)).
Proof.
  split; [vm_compute; reflexivity|].
  apply (shadow_stat_error_reads_as_absent [bs "srv"]
    (demo_fs (fun n => Some (0, PermissionDenied))) 0 PermissionDenied). reflexivity.
Defined.

(** A vault none of whose records can be parsed loads as an empty vault,
    without an error. *)
Theorem corrupt_vault_loads_empty {K} {SK : SshKey K} root s l s' :
  (forall name, entry_of (K := K) root (nodes s) name = None) ->
  load_all_authorized_clients (K := K) root s = (Ok l, s') -> l = [].
Proof.
  intros Hn E. apply load_all_runs in E as [_ H]. destruct l as [|[id k] l]; [done|].
  destruct (H _ id k eq_refl) as [name E]; [left|]. by rewrite Hn in E.
Qed.
