(* ===== verification/Auth.v ===== *)
(** * The unified authenticator: [src/auth/unified.rs]

    A connection attempt runs [check_public_key] and then possibly
    [check_password]. The state is split as the code shares it: [shared] is
    what every clone of the authenticator reaches through an [Arc], together
    with the storage behind it; [cached_key] belongs to one session
    ([for_new_session]). The clock is an argument, in milliseconds; Argon2 is
    the parameter [verify_password]. Mutex poisoning and panicking blocking
    tasks are not modelled. *)

From S2P Require Import Prelude Fs StorageUtils Vault.

Inductive HostKeyPolicy : Type := Strict | Tofu | AcceptAll.

#[export] Instance host_key_policy_eq_dec : EqDecision HostKeyPolicy.
Proof. solve_decision. Defined.

Inductive AuthMethod : Type := PublicKey | Password.

#[export] Instance auth_method_eq_dec : EqDecision AuthMethod.
Proof. solve_decision. Defined.

(** [argon2::password_hash::Error]: a mismatch, or anything else. *)
Inductive PasswordError : Type := PasswordInvalid | PasswordOther (reason : bytes).

Inductive IroshError : Type :=
| StorageErr (e : storage_error)
| VerificationFailed (reason : PasswordError).

Definition LOCKOUT_WINDOW : N := 60000.

(** [Instant::elapsed], which saturates. *)
Definition elapsed (now last : N) : N := now - last.

Section unified.
Context {St K : Type} {VS : VaultStore St K} {SK : SshKey K}.
Variable verify_password : bytes -> bytes -> result PasswordError unit.

(** The fields that never change. *)
Record UnifiedConfig : Type := mk_UnifiedConfig {
  policy : HostKeyPolicy;
  temp_password_hash : option bytes;
  success_tx : bool;
  failure_tx : bool;
}.

Record Shared : Type := mk_Shared {
  authorized_keys : list K;
  success_flag : bool;
  failed_attempts : N;
  last_failure : option N;
  success_sent : nat;      (** notifications sent on [success_tx] *)
  failure_sent : nat;      (** and on [failure_tx] *)
  store : St;
}.

(** A session's view: the shared state and its own slot. *)
Record Session : Type := mk_Session {
  shared : Shared;
  cached_key : option K;
}.

Abbreviation A := (M Session IroshError).

Definition update (f : Shared -> Shared) : A unit := fun s =>
  (Ok tt, mk_Session (f (shared s)) (cached_key s)).

Definition get {T} (f : Session -> T) : A T := fun s => (Ok (f s), s).

Definition set_cached (k : option K) : A unit := fun s =>
  (Ok tt, mk_Session (shared s) k).

(** A storage call. *)
Definition with_store {T} (m : M St storage_error T) : M Session storage_error T := fun s =>
  let sh := shared s in
  let '(r, st) := m (store sh) in
  (r, mk_Session (mk_Shared (authorized_keys sh) (success_flag sh) (failed_attempts sh)
                    (last_failure sh) (success_sent sh) (failure_sent sh) st) (cached_key s)).

Definition set_keys (ks : list K) (sh : Shared) : Shared :=
  mk_Shared ks (success_flag sh) (failed_attempts sh) (last_failure sh)
    (success_sent sh) (failure_sent sh) (store sh).

Definition set_failures (n : N) (last : option N) (sent : nat) (sh : Shared) : Shared :=
  mk_Shared (authorized_keys sh) (success_flag sh) n last (success_sent sh) sent (store sh).

(** [UnifiedAuthenticator::new] and [with_tracking]: the counters are fresh or
    the monitor's. *)
Definition with_tracking (keys : list K) (flag : bool) (attempts : N) (st : St) : Session :=
  mk_Session (mk_Shared keys flag attempts None 0 0 st) None.

Definition new (keys : list K) (st : St) : Session := with_tracking keys false 0 st.

(** [for_new_session]: everything shared, an empty slot. *)
Definition for_new_session (s : Session) : Session := mk_Session (shared s) None.

Definition is_locked_out (now : N) : A bool := fun s =>
  let sh := shared s in
  if (failed_attempts sh <? 3)%N then (Ok false, s)
  else match last_failure sh with
       | None => (Ok true, s)
       | Some last =>
           if (LOCKOUT_WINDOW <? elapsed now last)%N
           then (Ok false, mk_Session (set_failures 0 (last_failure sh) (failure_sent sh) sh)
                                      (cached_key s))
           else (Ok true, s)
       end.

Definition reset_failures : A unit :=
  update (fun sh => set_failures 0 (last_failure sh) (failure_sent sh) sh).

Variable cfg : UnifiedConfig.

Definition record_failure (now : N) : A unit :=
  update (fun sh =>
    let fails := (failed_attempts sh + 1)%N in
    set_failures (fails mod 2 ^ 32) (Some now)
      (if (3 <=? fails)%N && failure_tx cfg then S (failure_sent sh) else failure_sent sh) sh).

Definition notify_success : A unit :=
  update (fun sh =>
    mk_Shared (authorized_keys sh) (success_flag sh) (failed_attempts sh) (last_failure sh)
      (if success_tx cfg then S (success_sent sh) else success_sent sh)
      (failure_sent sh) (store sh)).

Definition set_success : A unit :=
  update (fun sh =>
    mk_Shared (authorized_keys sh) true (failed_attempts sh) (last_failure sh)
      (success_sent sh) (failure_sent sh) (store sh)).

Definition push_key (key : K) : A unit :=
  update (fun sh => set_keys (authorized_keys sh ++ [key]) sh).

(** The two halves of [refresh_keys]: the load, and the assignment under the
    lock. *)
Definition refresh_load : A (result storage_error (list K)) :=
  attempt (vault ← with_store load_vault; mret (vault.*2)).

Definition refresh_assign (r : result storage_error (list K)) : A unit :=
  match r with
  | Ok keys => update (set_keys keys)
  | Err _ => mret tt
  end.

(** [let _ = this.refresh_keys();] *)
Definition refresh_keys : A unit := r ← refresh_load; refresh_assign r.

(** Whether a node password is set; an unreadable file counts as one. *)
Definition node_pw_exists : A bool :=
  r ← attempt (with_store load_shadow);
  mret (match r with Ok (Some _) => true | Ok None => false | Err _ => true end).

Definition has_temp : bool := match temp_password_hash cfg with Some _ => true | None => false end.

Definition check_password_match (password : bytes) : A (option bool) :=
  r ← attempt (with_store load_shadow);
  let temp :=
    match temp_password_hash cfg with
    | Some hash => if is_ok (verify_password password hash) then Some true else None
    | None => None
    end in
  mret (match r with
        | Ok (Some hash) => if is_ok (verify_password password hash) then Some false else temp
        | Ok None => temp
        | Err _ => None
        end).

Definition supported_methods : A (list AuthMethod) :=
  e ← node_pw_exists;
  mret (if e || has_temp then [PublicKey; Password] else [PublicKey]).

(** [check_public_key] up to the release of the first lock: [Some] is the
    answer, [None] means the vault has to be looked at again. *)
Definition pk_first (now : N) (key : K) : A (option bool) :=
  locked ← is_locked_out now;
  if (locked : bool) then mret (Some false)
  else if decide (policy cfg = AcceptAll) then mret (Some true)
  else
    keys ← get (fun s => authorized_keys (shared s));
    if decide (key ∈ keys) then reset_failures;; mret (Some true)
    else mret None.

(** The rest, under the second lock. *)
Definition pk_decide (now : N) (key : K) : A bool :=
  keys ← get (fun s => authorized_keys (shared s));
  if decide (key ∈ keys) then reset_failures;; mret true
  else if decide (policy cfg = Strict) then record_failure now;; mret false
  else
    e ← node_pw_exists;
    if e || has_temp then set_cached (Some key);; mret false
    else if decide (keys = []) then
      M_map_err StorageErr (with_store (add_client (fingerprint key) key));;
      push_key key;;
      set_success;;
      reset_failures;;
      notify_success;;
      mret true
    else record_failure now;; mret false.

Definition check_public_key (now : N) (key : K) : A bool :=
  first ← pk_first now key;
  match first with
  | Some answer => mret answer
  | None => refresh_keys;; pk_decide now key
  end.

(** What a matching temporary password does with the cached key. *)
Definition authorize_cached : A unit :=
  cache ← get cached_key;
  set_cached None;;
  match cache with
  | Some key =>
      keys ← get (fun s => authorized_keys (shared s));
      if decide (key ∈ keys) then mret tt
      else
        M_map_err StorageErr (with_store (add_client (fingerprint key) key));;
        push_key key;;
        set_success;;
        notify_success
  | None => mret tt
  end.

Definition check_password (now : N) (password : bytes) : A bool :=
  locked ← is_locked_out now;
  if (locked : bool) then mret false
  else
    m ← check_password_match password;
    match m with
    | Some is_wormhole =>
        (if (is_wormhole : bool) then authorize_cached else set_cached None);;
        reset_failures;;
        mret true
    | None =>
        set_cached None;;
        record_failure now;;
        mret false
    end.
End unified.
