(* ===== verification/AuthFacts.v ===== *)
(** * What the unified authenticator guarantees

    Facts about [Auth.v], proved against the vault interface: who can end up
    in the vault, who is let in, the lockout, and the bootstrap (TOFU) phase,
    sequentially and under interleaving. *)

From S2P Require Import Prelude Fs StorageUtils Vault Auth.

Section facts.
Context {St K : Type} {VS : VaultStore St K} {SK : SshKey K}.
Context {VL : VaultLaws St K} {SL : SshKeyLaws K}.
Variable cfg : UnifiedConfig.

Abbreviation session := (Session (St := St) (K := K)).
Abbreviation shared_t := (Shared (St := St) (K := K)).

Definition with_st (s : session) (st : St) : session :=
  mk_Session (mk_Shared (authorized_keys (shared s)) (success_flag (shared s))
    (failed_attempts (shared s)) (last_failure (shared s)) (success_sent (shared s))
    (failure_sent (shared s)) st) (cached_key s).

Abbreviation vault s k := (in_vault (store (shared s)) k).
Abbreviation mem s := (authorized_keys (shared s)).

Lemma with_store_eq {T} (m : M St storage_error T) (s : session) :
  with_store m s = ((m (store (shared s))).1, with_st s (m (store (shared s))).2).
Proof. unfold with_store. by destruct (m _). Qed.

(** The state read from the storage is the one it had. *)
Definition quiet (s s' : session) : Prop :=
  (exists st, s' = with_st s st) /\ (forall k, vault s' k <-> vault s k) /\
  shadow_of (K := K) (store (shared s')) = shadow_of (K := K) (store (shared s)) /\
  (settled (K := K) (store (shared s)) -> settled (K := K) (store (shared s'))).

Lemma load_vault_quiet (s : session) r s' :
  with_store load_vault s = (r, s') -> quiet s s' /\
  forall l k, r = Ok l -> k ∈ l.*2 -> vault s k.
Proof.
  rewrite with_store_eq. intros [= <- <-].
  destruct (load_vault (store (shared s))) as [r st] eqn:E. simpl. split.
  - destruct (load_vault_frame _ _ _ E) as (? & ? & ?). split; [by eexists|done].
  - intros l k -> Hk. by eapply load_vault_sound.
Qed.

Lemma load_shadow_quiet (s : session) r s' :
  with_store (load_shadow (St := St) (K := K)) s = (r, s') -> quiet s s' /\
  (settled (K := K) (store (shared s)) -> r = shadow_of (K := K) (store (shared s))).
Proof.
  rewrite with_store_eq. intros [= <- <-].
  destruct (load_shadow (St := St) (K := K) (store (shared s))) as [r st] eqn:E. simpl. split.
  - destruct (load_shadow_frame _ _ _ E) as (? & ? & ?). split; [by eexists|done].
  - intros Hs. pose proof (load_shadow_settled (K := K) _ Hs) as H. by rewrite E in H.
Qed.

Lemma node_pw_exists_cases (s : session) :
  exists b s', node_pw_exists s = (Ok b, s') /\ quiet s s' /\
    (settled (K := K) (store (shared s)) ->
     (b = false <-> shadow_of (K := K) (store (shared s)) = Ok None)).
Proof.
  unfold node_pw_exists, mbind, M_bind, attempt, mret, M_ret.
  destruct (with_store load_shadow s) as [r s'] eqn:E. apply load_shadow_quiet in E as [Q H].
  eexists _, s'. split; [done|]. split; [done|].
  intros Hs. rewrite <-(H Hs). destruct r as [[]|]; naive_solver.
Qed.

(** Only counters changed. *)
Definition counters (s s' : session) : Prop :=
  mem s' = mem s /\ store (shared s') = store (shared s) /\ cached_key s' = cached_key s.

Lemma is_locked_out_cases now (s : session) :
  exists b s', is_locked_out now s = (Ok b, s') /\ counters s s'.
Proof.
  unfold is_locked_out. destruct (_ <? 3)%N; [by eexists _, _|].
  destruct (last_failure (shared s)); [|by eexists _, _].
  destruct (_ <? _)%N; by eexists _, _.
Qed.

Lemma pk_first_cases now key (s : session) :
  exists o s', pk_first cfg now key s = (Ok o, s') /\ counters s s' /\
    (o = Some true -> policy cfg = AcceptAll \/ key ∈ mem s) /\
    (o = None -> policy cfg <> AcceptAll /\ key ∉ mem s).
Proof.
  unfold pk_first, mbind, M_bind, get, mret, M_ret, reset_failures, update.
  destruct (is_locked_out_cases now s) as (b & s1 & -> & Hc). pose proof (proj1 Hc) as Hm.
  destruct b; simpl; [by eexists _, _|].
  case_decide as Hp; simpl; [eexists _, _; split; [done|]; naive_solver|].
  rewrite Hm. case_decide as Hk; eexists _, _; (split; [done|]); naive_solver.
Qed.

(** A key may join the vault by trust on first use only here: no password of
    either kind, no key in the refreshed list, the Tofu policy. *)
Definition tofu_open (s : session) : Prop :=
  policy cfg = Tofu /\ temp_password_hash cfg = None /\ mem s = [].

Lemma add_client_cases (key : K) (s : session) :
  exists r s', with_store (add_client (fingerprint key) key) s = (r, s') /\
    (exists st, s' = with_st s st) /\
    shadow_of (K := K) (store (shared s')) = shadow_of (K := K) (store (shared s)) /\
    (settled (K := K) (store (shared s)) -> settled (K := K) (store (shared s'))) /\
    match r with
    | Ok _ => vault s' key /\ forall k, vault s' k -> k = key \/ vault s k
    | Err _ => forall k, vault s' k <-> vault s k
    end.
Proof.
  rewrite with_store_eq.
  destruct (add_client (fingerprint key) key (store (shared s))) as [r st] eqn:E. simpl.
  pose proof (fingerprint_nonempty key) as Hf.
  destruct (add_client_frame _ _ _ _ _ Hf E) as [F1 F2].
  eexists _, _. split; [done|]. split; [by eexists|]. split; [done|]. split; [done|].
  destruct r; simpl.
  - by eapply add_client_ok.
  - by eapply add_client_err.
Qed.

Lemma pk_decide_cases now key (s : session) :
  policy cfg <> AcceptAll ->
  exists r s', pk_decide cfg now key s = (r, s') /\
  (settled (K := K) (store (shared s)) -> settled (K := K) (store (shared s'))) /\
  shadow_of (K := K) (store (shared s')) = shadow_of (K := K) (store (shared s)) /\
  (((forall k, vault s' k <-> vault s k) /\ mem s' = mem s /\
    (cached_key s' = cached_key s \/ cached_key s' = Some key) /\ (r = Ok true -> key ∈ mem s)) \/
   (tofu_open s /\
    (settled (K := K) (store (shared s)) -> shadow_of (K := K) (store (shared s)) = Ok None) /\
    r = Ok true /\ cached_key s' = cached_key s /\
    mem s' = [key] /\ vault s' key /\ forall k, vault s' k -> k = key \/ vault s k)).
Proof.
  intros Hpol. unfold pk_decide, mbind, M_bind, get, mret, M_ret, reset_failures, record_failure, set_cached, update.
  case_decide as Hk; [eexists _, _; split; [done|]; naive_solver|].
  case_decide as Hst; [eexists _, _; split; [done|]; naive_solver|].
  destruct (node_pw_exists_cases s) as (b & s1 & -> & (([st ->] & Hv & Hsh & Hse) & Hb)).
  destruct (b || has_temp cfg) eqn:Hp; [eexists _, _; split; [done|]; simpl in *; naive_solver|].
  apply orb_false_iff in Hp as [-> Ht].
  case_decide as Hm; [|eexists _, _; split; [done|]; simpl in *; naive_solver].
  unfold M_map_err.
  destruct (add_client_cases key (with_st s st)) as (r & s2 & -> & (st2 & ->) & F1 & F2 & H).
  assert (policy cfg = Tofu) as Htofu by (destruct (policy cfg); congruence).
  assert (temp_password_hash cfg = None) as Htemp.
  { unfold has_temp in Ht. by destruct (temp_password_hash cfg). }
  destruct r as [u|e]; eexists _, _; (split; [done|]); simpl in *;
    (split; [by auto|]); (split; [congruence|]).
  - right. destruct H as [H1 H2]. rewrite Hm. repeat (split; [by try split; naive_solver|]).
    intros k' Hk'. destruct (H2 k' Hk'); [by left|right; by apply Hv].
  - left. split; [|naive_solver]. intros k'. by rewrite H, Hv.
Qed.

Lemma refresh_keys_cases (s : session) :
  exists s', refresh_keys s = (Ok tt, s') /\ (forall k, vault s' k <-> vault s k) /\
    shadow_of (K := K) (store (shared s')) = shadow_of (K := K) (store (shared s)) /\
    (settled (K := K) (store (shared s)) -> settled (K := K) (store (shared s'))) /\
    cached_key s' = cached_key s /\
    (forall k, k ∈ mem s' -> k ∈ mem s \/ vault s k) /\
    (settled (K := K) (store (shared s)) -> forall k, vault s k -> k ∈ mem s').
Proof.
  unfold refresh_keys, refresh_load, mbind, M_bind, attempt, mret, M_ret.
  destruct (with_store load_vault s) as [r s1] eqn:E.
  apply load_vault_quiet in E as E'. destruct E' as [([st ->] & Hv & Hsh & Hse) Hl].
  assert (settled (K := K) (store (shared s)) ->
          exists l, r = Ok l /\ forall k, vault s k -> k ∈ l.*2) as Hc.
  { intros Hs. rewrite with_store_eq in E.
    destruct (load_vault_complete _ Hs) as (l & El & ?). exists l. split; [congruence|done]. }
  destruct r as [l|e]; simpl; eexists; (split; [done|]); simpl in *;
    (split; [done|]); (split; [done|]); (split; [done|]); (split; [done|]); split.
  - intros k Hk. right. by eapply Hl.
  - intros Hs k Hk. destruct (Hc Hs) as (l' & [= <-] & H). auto.
  - auto.
  - intros Hs. by destruct (Hc Hs) as (l' & ? & _).
Qed.

(** The public-key step as a whole. *)
Lemma check_public_key_cases now key (s : session) :
  exists r s', check_public_key cfg now key s = (r, s') /\
  (settled (K := K) (store (shared s)) -> settled (K := K) (store (shared s'))) /\
  shadow_of (K := K) (store (shared s')) = shadow_of (K := K) (store (shared s)) /\
  (forall k, k ∈ mem s' -> k ∈ mem s \/ vault s k \/ vault s' k) /\
  (cached_key s' = cached_key s \/ cached_key s' = Some key) /\
  (((forall k, vault s' k <-> vault s k) /\
    (r = Ok true -> policy cfg = AcceptAll \/ key ∈ mem s \/ vault s key)) \/
   (policy cfg = Tofu /\ temp_password_hash cfg = None /\
    (settled (K := K) (store (shared s)) ->
       shadow_of (K := K) (store (shared s)) = Ok None /\ forall k, ~ vault s k) /\
    r = Ok true /\ (vault s' key /\ mem s' = [key]) /\
    forall k, vault s' k -> k = key \/ vault s k)).
Proof.
  unfold check_public_key, mbind, M_bind, mret, M_ret.
  destruct (pk_first_cases now key s) as (o & s1 & -> & (Hm1 & Hs1 & Hc1) & Ht & Hn).
  destruct o as [b|].
  { exists (Ok b), s1. split; [done|]. rewrite !Hs1, Hm1, Hc1.
    split; [done|]. split; [done|]. split; [by auto|]. split; [by auto|].
    left. split; [done|]. intros [= ->]. naive_solver. }
  destruct (Hn eq_refl) as [Hpol Hk]. clear Ht Hn.
  destruct (refresh_keys_cases s1) as (s2 & -> & Hv2 & Hsh2 & Hse2 & Hc2 & Hm2 & Hf2).
  rewrite Hs1 in *. rewrite Hm1 in Hm2.
  destruct (pk_decide_cases now key s2 Hpol) as (r & s3 & -> & Hse3 & Hsh3 & H).
  exists r, s3. split; [done|]. split; [by auto|]. split; [congruence|].
  destruct H as [(Hv & Hm & Hc & Hr)|((Hp & Ht & Hm) & Hs & -> & Hc & Hm' & Hvk & Hv)].
  - split; [intros k; rewrite Hm; intros Hk'; destruct (Hm2 k Hk'); auto|].
    split; [rewrite <-Hc1, <-Hc2; done|]. left.
    split; [intros k; by rewrite Hv, Hv2|]. intros E. right. auto.
  - split; [intros k; rewrite Hm'; intros ->%list_elem_of_singleton; auto|].
    split; [left; congruence|]. right. repeat (split; [by auto|]).
    split; [|split; [done|split; [done|]]].
    + intros Hset. split; [rewrite <-Hsh2; by auto|].
      intros k Hk'. apply (Hf2 Hset) in Hk'. rewrite Hm in Hk'. by apply elem_of_nil in Hk'.
    + intros k Hk'. destruct (Hv k Hk') as [|Hk2]; [by left|right; by apply Hv2].
Qed.

Lemma authorize_cached_cases (s : session) :
  exists r s', authorize_cached cfg s = (r, s') /\ cached_key s' = None /\
  (settled (K := K) (store (shared s)) -> settled (K := K) (store (shared s'))) /\
  shadow_of (K := K) (store (shared s')) = shadow_of (K := K) (store (shared s)) /\
  ((mem s' = mem s /\ forall k, vault s' k <-> vault s k) \/
   exists key, cached_key s = Some key /\ mem s' = mem s ++ [key] /\ vault s' key /\
     forall k, vault s' k -> k = key \/ vault s k).
Proof.
  unfold authorize_cached, mbind, M_bind, get, mret, M_ret, set_cached. simpl.
  destruct (cached_key s) as [key|] eqn:Ec; [|eexists _, _; split; [done|]; naive_solver].
  simpl. case_decide as Hk; [eexists _, _; split; [done|]; naive_solver|].
  unfold M_map_err. set (s0 := mk_Session (shared s) None).
  destruct (add_client_cases key s0) as (r & s2 & -> & (st & ->) & F1 & F2 & H).
  destruct r as [u|e]; eexists _, _; (split; [done|]); simpl in *;
    (split; [done|]); (split; [done|]); (split; [done|]).
  - right. exists key. naive_solver.
  - left. auto.
Qed.

Variable verify_password : bytes -> bytes -> result PasswordError unit.

Lemma check_password_match_cases password (s : session) :
  exists r s', check_password_match verify_password cfg password s = (Ok r, s') /\ quiet s s' /\
    (r = Some true -> exists h, temp_password_hash cfg = Some h /\
                        verify_password password h = Ok tt).
Proof.
  unfold check_password_match, mbind, M_bind, attempt, mret, M_ret.
  destruct (with_store load_shadow s) as [r s'] eqn:E. apply load_shadow_quiet in E as [Q _].
  eexists _, s'. split; [done|]. split; [done|].
  assert (forall o, o = match temp_password_hash cfg with
                        | Some hash => if is_ok (verify_password password hash) then Some true else None
                        | None => None
                        end -> o = Some true -> exists h, temp_password_hash cfg = Some h /\
                        verify_password password h = Ok tt) as Ht.
  { intros o ->. destruct (temp_password_hash cfg) as [h|]; [|done]. intros Hh. exists h.
    destruct (verify_password password h) as [[]|]; done. }
  destruct r as [[hash|]|e]; simpl; [destruct (is_ok _); [done|]| |done]; by eapply Ht.
Qed.

(** The password step as a whole. *)
Lemma check_password_cases now password (s : session) :
  exists r s', check_password verify_password cfg now password s = (r, s') /\
  (settled (K := K) (store (shared s)) -> settled (K := K) (store (shared s'))) /\
  shadow_of (K := K) (store (shared s')) = shadow_of (K := K) (store (shared s)) /\
  (cached_key s' = cached_key s \/ cached_key s' = None) /\
  ((mem s' = mem s /\ forall k, vault s' k <-> vault s k) \/
   exists key hash, cached_key s = Some key /\
     temp_password_hash cfg = Some hash /\ verify_password password hash = Ok tt /\
     mem s' = mem s ++ [key] /\ vault s' key /\ forall k, vault s' k -> k = key \/ vault s k).
Proof.
  unfold check_password, mbind, M_bind, mret, M_ret.
  destruct (is_locked_out_cases now s) as (b & s1 & -> & (Hm1 & Hs1 & Hc1)).
  destruct b; [eexists _, _; split; [done|]; rewrite Hs1, Hm1; naive_solver|].
  destruct (check_password_match_cases password s1) as (m & s2 & -> & ([st ->] & Hv & Hsh & Hse) & Ht).
  rewrite Hs1 in *.
  destruct m as [[]|].
  - destruct (authorize_cached_cases (with_st s1 st)) as (r & s3 & -> & Hc3 & Hse3 & Hsh3 & H3).
    destruct (Ht eq_refl) as (hash & Hh & Hver). simpl in *. rewrite Hc1, Hm1 in H3.
    assert (forall s4, store (shared s4) = store (shared s3) -> mem s4 = mem s3 ->
      (settled (K := K) (store (shared s)) -> settled (K := K) (store (shared s4))) /\
      shadow_of (K := K) (store (shared s4)) = shadow_of (K := K) (store (shared s)) /\
      ((mem s4 = mem s /\ forall k, vault s4 k <-> vault s k) \/
       exists key hash, cached_key s = Some key /\
         temp_password_hash cfg = Some hash /\ verify_password password hash = Ok tt /\
         mem s4 = mem s ++ [key] /\ vault s4 key /\
         forall k, vault s4 k -> k = key \/ vault s k)) as Hgoal.
    { intros s4 -> ->. split; [by auto|]. split; [congruence|].
      destruct H3 as [[Hm3 Hv3]|(key & E & Hm3 & Hk & Hv3)].
      - left. split; [done|]. intros k. by rewrite Hv3, Hv.
      - right. exists key, hash. repeat (split; [done|]). intros k Hk'.
        destruct (Hv3 k Hk'); [by left|right; by apply Hv]. }
    destruct r as [u|e]; eexists _, _; (split; [done|]).
    + destruct (Hgoal (mk_Session (set_failures 0 (last_failure (shared s3))
        (failure_sent (shared s3)) (shared s3)) (cached_key s3))) as (? & ? & ?); [done..|].
      simpl in *. auto.
    + destruct (Hgoal s3) as (? & ? & ?); [done..|]. auto.
  - eexists _, _; split; [done|]. simpl in *. rewrite Hm1. naive_solver.
  - eexists _, _; split; [done|]. simpl in *. rewrite Hm1. naive_solver.
Qed.
End facts.
