(* ===== verification/AuthSystem.v ===== *)
(** * Many sessions against one authenticator

    The server calls [session_scoped] once per accepted connection, so every
    session has its own cached key and shares everything else. A [system] is
    that: the shared part, and the slot of each session; an [event] is one
    authentication call of one session. The theorems hold for every sequence
    of events, that is, for every interleaving of whole calls; the last
    section interleaves the parts of a call between its lock acquisitions. *)

From S2P Require Import Prelude Text Fs StorageUtils Vault Auth AuthFacts.

(** ** A vault in memory, to run the statements on *)

Definition mem_vault (K : Type) `{EqDecision K} : VaultStore (list K * option bytes) K := {|
  load_vault := fun st => (Ok ((fun k => ([], k)) <$> st.1), st);
  add_client := fun _ k st => (Ok tt, (k :: st.1, st.2));
  load_shadow := fun st => (Ok st.2, st);
  in_vault st k := k ∈ st.1;
  shadow_of st := Ok st.2;
  settled _ := True;
|}.

Lemma mem_vault_laws (K : Type) `{EqDecision K} : @VaultLaws _ K (mem_vault K).
Proof.
  assert (forall l : list K, ((fun k => ([] : bytes, k)) <$> l).*2 = l) as Hl.
  { intros l. rewrite <-list_fmap_compose. by apply list_fmap_id. }
  split; simpl.
  - intros s l s' k [= <- <-]. by rewrite Hl.
  - intros s _. eexists. split; [done|]. intros k. by rewrite Hl.
  - by intros s r s' [= <- <-].
  - intros s fp k u s' _ [= <- <-]. simpl. split; [left|]. by intros k' [?|?]%elem_of_cons; auto.
  - done.
  - by intros s fp k r s' _ [= <- <-].
  - done.
  - by intros s r s' [= <- <-].
Qed.

Section system.
Context {St K : Type} {VS : VaultStore St K} {SK : SshKey K}.
Variable verify_password : bytes -> bytes -> result PasswordError unit.
Variable cfg : UnifiedConfig.

Inductive event : Type :=
| Accept (sid : nat)                              (** [session_scoped] *)
| OfferKey (sid : nat) (now : N) (key : K)        (** [check_public_key] *)
| OfferPassword (sid : nat) (now : N) (password : bytes).   (** [check_password] *)

Record system : Type := mk_system {
  sys_shared : Shared (St := St) (K := K);
  sessions : gmap nat (option K);
}.

Definition start (sh : Shared) : system := mk_system sh ∅.

(** One call: the answer, if the session exists, and the new system. *)
Definition in_session (sid : nat) (m : M Session IroshError bool) (sys : system) :
    option (result IroshError bool) * system :=
  match sessions sys !! sid with
  | Some cached =>
      let '(r, s) := m (mk_Session (sys_shared sys) cached) in
      (Some r, mk_system (shared s) (<[sid := cached_key s]> (sessions sys)))
  | None => (None, sys)
  end.

Definition step (e : event) (sys : system) : option (result IroshError bool) * system :=
  match e with
  | Accept sid =>
      (None, mk_system (sys_shared sys)
               (<[sid := cached_key (for_new_session (mk_Session (sys_shared sys) None))]>
                  (sessions sys)))
  | OfferKey sid now key => in_session sid (check_public_key cfg now key) sys
  | OfferPassword sid now pw => in_session sid (check_password verify_password cfg now pw) sys
  end.

Definition run (evs : list event) (sys : system) : system :=
  foldl (fun sys e => (step e sys).2) sys evs.

Lemma run_snoc evs e sys : run (evs ++ [e]) sys = (step e (run evs sys)).2.
Proof. unfold run. by rewrite foldl_app. Qed.

(** ** Where keys come from *)

Abbreviation vault sys k := (in_vault (store (sys_shared sys)) k).
Abbreviation keys_of sys := (authorized_keys (sys_shared sys)).

(** Trust on first use, by the first call after [evs1]: the Tofu policy, no
    password of either kind, an empty vault; the call says yes, and the key
    it adopts is the only one the node then knows. Storage that cannot be read
    ([settled] is that it can) hides a vault or a password from the code. *)
Definition first_use_from (init : system) (evs1 : list event) (sid : nat) (now : N) (k : K) : Prop :=
  let before := run evs1 init in
  let '(answer, after) := step (OfferKey sid now k) before in
  policy cfg = Tofu /\ temp_password_hash cfg = None /\ answer = Some (Ok true) /\
  keys_of after = [k] /\
  (settled (K := K) (store (sys_shared before)) ->
     shadow_of (K := K) (store (sys_shared before)) = Ok None /\ forall k', ~ vault before k').

(** The events that may bring [k] in, at the end of a history. *)
Definition adopted (init : system) (evs : list event) (k : K) : Prop :=
  exists evs1 e evs2, evs = evs1 ++ e :: evs2 /\
    match e with
    | Accept _ => False
    | OfferKey sid now k' =>
        k' = k /\ first_use_from init evs1 sid now k
    | OfferPassword sid now pw =>
        (** pairing: the invite code, on the session that offered the key *)
        (exists hash, temp_password_hash cfg = Some hash /\ verify_password pw hash = Ok tt) /\
        exists now', OfferKey sid now' k ∈ evs1
    end.

Definition trusted (init : system) (evs : list event) (k : K) : Prop :=
  k ∈ keys_of init \/ vault init k \/ adopted init evs k.

Lemma adopted_app init evs evs' k : adopted init evs k -> adopted init (evs ++ evs') k.
Proof.
  intros (evs1 & e & evs2 & -> & H). exists evs1, e, (evs2 ++ evs').
  by rewrite <-app_assoc.
Qed.

Lemma trusted_app init evs evs' k : trusted init evs k -> trusted init (evs ++ evs') k.
Proof. intros [?|[?|?]]; unfold trusted; auto using adopted_app. Qed.

Context {VL : VaultLaws St K} {SL : SshKeyLaws K}.

(** Every key known to the system is trusted, and every cached key was
    offered in its session. *)
Definition sound (init : system) (evs : list event) (sys : system) : Prop :=
  (forall k, k ∈ keys_of sys -> trusted init evs k) /\
  (forall k, vault sys k -> trusted init evs k) /\
  (forall sid k, sessions sys !! sid = Some (Some k) -> exists now, OfferKey sid now k ∈ evs).

Lemma sound_run init evs :
  sessions init = ∅ -> sound init evs (run evs init).
Proof.
  intros Hs. induction evs as [|e evs IH] using rev_ind.
  { split; [|split]; unfold trusted; [by auto..|]. intros sid k. simpl. by rewrite Hs. }
  rewrite run_snoc. destruct IH as (Hm & Hv & Hc).
  assert (forall sid k, sessions (run evs init) !! sid = Some (Some k) ->
    exists now, OfferKey sid now k ∈ evs ++ [e]) as Hc'.
  { intros sid k E. destruct (Hc _ _ E) as [now ?]. exists now. apply elem_of_app. by left. }
  assert (forall k, k ∈ keys_of (run evs init) -> trusted init (evs ++ [e]) k) as Hm'
    by auto using trusted_app.
  assert (forall k, vault (run evs init) k -> trusted init (evs ++ [e]) k) as Hv'
    by auto using trusted_app.
  destruct e as [sid|sid now key|sid now pw]; simpl.
  - split; [done|split; [done|]]. intros sid' k. simpl.
    rewrite lookup_insert. case_decide; [done|]. apply Hc'.
  - unfold in_session. destruct (sessions (run evs init) !! sid) as [c|] eqn:Ec; [|done].
    destruct (check_public_key_cases cfg now key (mk_Session (sys_shared (run evs init)) c))
      as (r & s' & E & _ & _ & Hmem & Hcache & Hcase).
    simpl in Hmem, Hcache, Hcase. rewrite E. simpl.
    assert (forall k, in_vault (store (shared s')) k -> trusted init (evs ++ [OfferKey sid now key]) k) as Hv2.
    { intros k Hk. destruct Hcase as [[Hsame _]|(Hpol & Htemp & Hopen & -> & [_ Hone] & Hnew)].
      - apply Hv'. by apply Hsame.
      - destruct (Hnew k Hk) as [->|]; [|by apply Hv']. right. right.
        exists evs, (OfferKey sid now key), []. split; [done|]. split; [done|].
        unfold first_use_from. simpl. unfold in_session. by rewrite Ec, E. }
    split; [|split; [done|]].
    + intros k Hk. destruct (Hmem k Hk) as [|[|]]; auto.
    + intros sid' k. cbn [sessions]. rewrite lookup_insert. case_decide as Hsid; [|apply Hc'].
      intros [= Ek]. subst sid'. destruct Hcache as [Hcache|Hcache]; rewrite Hcache in Ek.
      * apply Hc'. congruence.
      * injection Ek as <-. exists now. apply elem_of_app. right. by apply list_elem_of_singleton.
  - unfold in_session. destruct (sessions (run evs init) !! sid) as [c|] eqn:Ec; [|done].
    destruct (check_password_cases cfg verify_password now pw (mk_Session (sys_shared (run evs init)) c))
      as (r & s' & E & _ & _ & Hcache & Hcase).
    simpl in Hcache, Hcase. rewrite E. simpl.
    assert (forall key hash, c = Some key -> temp_password_hash cfg = Some hash ->
      verify_password pw hash = Ok tt -> trusted init (evs ++ [OfferPassword sid now pw]) key) as Hnew.
    { intros key hash -> Hh Hver. right. right. exists evs, (OfferPassword sid now pw), [].
      split; [done|]. split; [by exists hash|]. by apply Hc. }
    split; [|split].
    + intros k. cbn [sys_shared]. destruct Hcase as [[-> _]|(key & hash & Hk & Hh & Hver & -> & _)]; [apply Hm'|].
      intros [?| ->%list_elem_of_singleton]%elem_of_app; [by apply Hm'|]. by eapply Hnew.
    + intros k Hk. destruct Hcase as [[_ Hsame]|(key & hash & Hk' & Hh & Hver & _ & _ & Hv2)].
      * apply Hv'. by apply Hsame.
      * destruct (Hv2 k Hk) as [->|]; [by eapply Hnew|by apply Hv'].
    + intros sid' k. cbn [sessions]. rewrite lookup_insert. case_decide as Hsid; [|apply Hc'].
      intros [= Ek]. subst sid'. destruct Hcache as [Hcache|Hcache]; rewrite Hcache in Ek; [|done].
      apply Hc'. congruence.
Qed.
End system.

(** ** Provenance *)

(** C3: Nobody enters the vault, or the in-memory list of authorized keys, by
    any interleaving of whole calls of any number of sessions, except by one
    of two doors. Trust on first use: under the Tofu policy, without a
    temporary password, the very call that adopts the key says yes and leaves
    it as the only key the node knows; and if the storage can be read at that
    moment, there was no node password and no key in the vault. Pairing: the
    invite code was presented on the very session that had offered that key
    before. So a node password never adds a key, one session's password never
    authorizes another session's key, and a claimed node adopts nobody. (Calls
    that overlap are the subject of [refresh_race_adopts_two_owners].) *)
Theorem vault_provenance {St K} {VS : VaultStore St K} {SK : SshKey K} {VL : VaultLaws St K}
    {SL : SshKeyLaws K} verify_password cfg (sh : Shared (St := St) (K := K)) evs k :
  let sys := run verify_password cfg evs (start sh) in
  k ∈ authorized_keys (sys_shared sys) \/ in_vault (store (sys_shared sys)) k ->
  trusted verify_password cfg (start sh) evs k.
Proof.
  intros sys H. destruct (sound_run verify_password cfg (start sh) evs eq_refl) as (Hm & Hv & _).
  destruct H; auto.
Qed.

Definition demo_verify (password hash : bytes) : result PasswordError unit :=
  if decide (password = hash) then Ok tt else Err PasswordInvalid.

Definition demo_shared (keys : list bytes) (shadow : option bytes) :
    Shared (St := list bytes * option bytes) (K := bytes) :=
  mk_Shared keys false 0 None 0 0 (keys, shadow).

Definition demo_key : SshKey bytes := {|
  key_eq_dec := _;
  to_openssh k := if utf8_valid k then Ok k else Err tt;
  parse_openssh b := Some b;
  fingerprint k := bs "SHA256:" ++ k;
|}.

Lemma demo_key_laws : @SshKeyLaws bytes demo_key.
Proof.
  split; simpl.
  - intros k b. by destruct (utf8_valid k); intros [= ->].
  - intros k b. by destruct (utf8_valid k) eqn:E; intros [= <-].
  - done.
Qed.

Definition pairing_cfg : UnifiedConfig := mk_UnifiedConfig Tofu (Some (bs "code")) true true.

Definition pairing_run : list (event (K := bytes)) :=
  [Accept 1; OfferKey 1 10 (bs "alice"); Accept 2; OfferKey 2 11 (bs "mallory");
   OfferPassword 1 12 (bs "code")].

Lemma vault_provenance_witness :
  @trusted _ _ (mem_vault bytes) demo_key demo_verify pairing_cfg (start (demo_shared [] None))
    pairing_run (bs "alice").
Proof.
  apply (@vault_provenance _ _ (mem_vault bytes) demo_key (mem_vault_laws bytes) demo_key_laws
           demo_verify pairing_cfg (demo_shared [] None) pairing_run (bs "alice")).
  right. vm_compute. left.
Defined.

(** A public-key step answers yes only under the AcceptAll policy or for
    a key whose provenance is accounted for at that moment. *)
Theorem key_access_is_trusted {St K} {VS : VaultStore St K} {SK : SshKey K} {VL : VaultLaws St K}
    {SL : SshKeyLaws K} verify_password cfg (sh : Shared (St := St) (K := K)) evs sid now k sys' :
  step verify_password cfg (OfferKey sid now k) (run verify_password cfg evs (start sh))
  = (Some (Ok true), sys') ->
  policy cfg = AcceptAll \/ trusted verify_password cfg (start sh) (evs ++ [OfferKey sid now k]) k.
Proof.
  intros E. pose proof (sound_run verify_password cfg (start sh) evs eq_refl) as (Hm & Hv & _).
  assert (forall k, trusted verify_password cfg (start sh) evs k ->
    trusted verify_password cfg (start sh) (evs ++ [OfferKey sid now k]) k) as Happ
    by (intros; by apply trusted_app).
  unfold step, in_session in E.
  destruct (sessions (run verify_password cfg evs (start sh)) !! sid) as [c|] eqn:Ec; [|done].
  destruct (check_public_key_cases cfg now k
    (mk_Session (sys_shared (run verify_password cfg evs (start sh))) c))
    as (r & s' & E' & _ & _ & _ & _ & Hcase).
  rewrite E' in E. injection E as -> <-. simpl in Hcase.
  destruct Hcase as [[_ Hyes]|(Hpol & Htemp & Hopen & _ & [_ Hone] & _)].
  - destruct (Hyes eq_refl) as [?|[?|?]]; auto.
  - right. right. right. exists evs, (OfferKey sid now k), []. split; [done|].
    split; [done|]. unfold first_use_from, step, in_session. by rewrite Ec, E'.
Qed.

Lemma key_access_is_trusted_witness :
  policy pairing_cfg = AcceptAll \/
  @trusted _ _ (mem_vault bytes) demo_key demo_verify pairing_cfg (start (demo_shared [] None))
    ((pairing_run ++ [Accept 3]) ++ [OfferKey 3 20 (bs "alice")]) (bs "alice").
Proof.
  eapply (@key_access_is_trusted _ _ (mem_vault bytes) demo_key (mem_vault_laws bytes) demo_key_laws
           demo_verify pairing_cfg (demo_shared [] None) (pairing_run ++ [Accept 3]) 3 20 (bs "alice")).
  apply pair_fst. vm_compute. reflexivity.
Defined.

(** C5: Trust on first use happens at most once: on storage whose calls do
    not fail ([settled]), as soon as one key is in the vault, no sequence of
    whole public-key calls, of any number of sessions, changes the vault
    again. Both conditions are needed: two calls that overlap can adopt two
    keys ([refresh_race_adopts_two_owners]), and a vault that cannot be listed
    is taken for the list in memory. A record that is there but does not parse
    is not a key in the vault. *)
Theorem claimed_vault_is_closed {St K} {VS : VaultStore St K} {SK : SshKey K} {VL : VaultLaws St K}
    {SL : SshKeyLaws K} verify_password cfg (sys : system (St := St) (K := K)) evs k0 :
  settled (K := K) (store (sys_shared sys)) ->
  in_vault (store (sys_shared sys)) k0 ->
  (forall sid now pw, OfferPassword sid now pw ∉ evs) ->
  forall k, in_vault (store (sys_shared (run verify_password cfg evs sys))) k <->
            in_vault (store (sys_shared sys)) k.
Proof.
  intros Hs Hk0 Hev.
  cut (settled (K := K) (store (sys_shared (run verify_password cfg evs sys))) /\
       forall k, in_vault (store (sys_shared (run verify_password cfg evs sys))) k <->
                 in_vault (store (sys_shared sys)) k); [by intros [_ ?]|].
  induction evs as [|e evs IH] using rev_ind; [done|].
  destruct IH as [IHs IHv].
  { intros sid now pw Hin. apply (Hev sid now pw), elem_of_app. by left. }
  rewrite run_snoc. destruct e as [sid|sid now key|sid now pw]; simpl; [done| |].
  - unfold in_session. destruct (sessions _ !! sid) as [c|]; [|done].
    destruct (check_public_key_cases cfg now key
      (mk_Session (sys_shared (run verify_password cfg evs sys)) c))
      as (r & s' & -> & Hset & _ & _ & _ & Hcase).
    simpl in *. split; [by auto|].
    destruct Hcase as [[Hv _]|(_ & _ & Hno & _)].
    + intros k. by rewrite Hv, IHv.
    + destruct (Hno IHs) as [_ Hno']. by destruct (Hno' k0); apply IHv.
  - destruct (Hev sid now pw). apply elem_of_app. right. by apply list_elem_of_singleton.
Qed.

Definition open_cfg : UnifiedConfig := mk_UnifiedConfig Tofu None true true.

Lemma claimed_vault_is_closed_witness :
  @in_vault _ _ (mem_vault bytes)
    (store (sys_shared (@run _ _ (mem_vault bytes) demo_key demo_verify open_cfg
      [Accept 1; OfferKey 1 10 (bs "mallory"); OfferKey 1 11 (bs "eve")]
      (start (demo_shared [bs "alice"] None))))) (bs "eve")
  <-> @in_vault _ _ (mem_vault bytes) (store (demo_shared [bs "alice"] None)) (bs "eve").
Proof.
  apply (@claimed_vault_is_closed _ _ (mem_vault bytes) demo_key (mem_vault_laws bytes) demo_key_laws
    demo_verify open_cfg (start (demo_shared [bs "alice"] None)) _ (bs "alice")).
  - exact I.
  - left.
  - intros sid now pw H. repeat (apply elem_of_cons in H as [?|H]; [done|]). by apply elem_of_nil in H.
Defined.
