(* ===== verification/AuthLockout.v ===== *)
(** * Rate limiting, failing closed, and the refresh race

    The lockout counter of [Auth.v] as an abstract tracker that every wrong
    password attempt refines; the bound it puts on guessing; what a locked
    authenticator answers; and the one interleaving the locks do not exclude. *)

From S2P Require Import Prelude Text Fs StorageUtils Vault Auth AuthFacts AuthSystem.

(** ** The tracker *)

Section lockout.
Context {St K : Type} {VS : VaultStore St K} {SK : SshKey K}.
Context {VL : VaultLaws St K} {SL : SshKeyLaws K}.
Variable verify_password : bytes -> bytes -> result PasswordError unit.
Variable cfg : UnifiedConfig.

Abbreviation session := (Session (St := St) (K := K)).

(** Failures so far and the time of the last one. *)
Definition tracker (s : session) : N * option N :=
  (failed_attempts (shared s), last_failure (shared s)).

(** Whether an attempt is let through, and the counter it then starts from. *)
Definition admit_at (now : N) (t : N * option N) : option N :=
  let '(fails, last) := t in
  if (fails <? 3)%N then Some fails
  else match last with
       | None => None
       | Some l => if (LOCKOUT_WINDOW <? elapsed now l)%N then Some 0%N else None
       end.

(** A wrong attempt. *)
Definition fail_at (now : N) (t : N * option N) : N * option N :=
  match admit_at now t with
  | Some fails => (((fails + 1) mod 2 ^ 32)%N, Some now)
  | None => t
  end.

Lemma is_locked_out_tracker now (s : session) :
  match admit_at now (tracker s) with
  | Some fails => exists s', is_locked_out now s = (Ok false, s') /\
      failed_attempts (shared s') = fails /\ last_failure (shared s') = last_failure (shared s) /\
      counters s s'
  | None => is_locked_out now s = (Ok true, s)
  end.
Proof.
  unfold admit_at, tracker, is_locked_out. destruct (_ <? 3)%N; [by eexists|].
  destruct (last_failure (shared s)) as [l|] eqn:El; [|done].
  destruct (LOCKOUT_WINDOW <? elapsed now l)%N; [|done]. eexists. split; [done|]. by simpl.
Qed.

(** A password that matches neither hash, while the shadow file is [sh]. *)
Definition wrong (sh : result storage_error (option bytes)) (password : bytes) : Prop :=
  forall s : session, shadow_of (K := K) (store (shared s)) = sh ->
  (check_password_match verify_password cfg password s).1 = Ok None.

Lemma wrong_password_tracker now sh password (s : session) :
  wrong sh password -> shadow_of (K := K) (store (shared s)) = sh ->
  (check_password verify_password cfg now password s).1 = Ok false /\
  tracker (check_password verify_password cfg now password s).2 = fail_at now (tracker s).
Proof.
  intros Hw Hsh. unfold check_password, fail_at, mbind, M_bind, mret, M_ret.
  pose proof (is_locked_out_tracker now s) as Hl.
  destruct (admit_at now (tracker s)) as [fails|]; [|by rewrite Hl].
  destruct Hl as (s1 & -> & Hf & Hl & (_ & Hst & _)).
  assert (shadow_of (K := K) (store (shared s1)) = sh) as Hsh1 by (by rewrite Hst).
  pose proof (Hw s1 Hsh1) as Hm.
  unfold check_password_match, mbind, M_bind, mret, M_ret, attempt in *.
  rewrite with_store_eq in *. simpl in *. injection Hm as ->. simpl.
  split; [done|]. unfold tracker. simpl. by rewrite Hf.
Qed.

(** Whether [check_password] weighs the password at all: with a hash function
    that accepts everything, it would not refuse it. *)
Definition weighed (now : N) (pw : bytes) (s : session) : bool :=
  match (check_password (fun _ _ => Ok tt) cfg now pw s).1 with
  | Ok false => false
  | _ => true
  end.

(** A guess that is not weighed is refused whatever the password is. *)
Lemma unweighed_is_refused now pw (s : session) :
  weighed now pw s = false ->
  forall verify, (check_password verify cfg now pw s).1 = Ok false.
Proof.
  unfold weighed, check_password, check_password_match, mbind, M_bind, mret, M_ret, attempt.
  intros H verify. revert H.
  destruct (is_locked_out now s) as [[[]|e] s1]; [done| |done].
  destruct (with_store load_shadow s1) as [[[h|]|e] s2]; simpl; [| |done].
  - unfold set_cached, reset_failures, update. by simpl.
  - destruct (temp_password_hash cfg) as [h|]; simpl; [|done].
    destruct (authorize_cached cfg s2) as [[u|e] s3]; unfold reset_failures, update; by simpl.
Qed.

Lemma weighed_admitted now pw (s : session) :
  weighed now pw s = true -> exists fails, admit_at now (tracker s) = Some fails.
Proof.
  unfold weighed, check_password, mbind, M_bind, mret, M_ret.
  pose proof (is_locked_out_tracker now s) as H.
  destruct (admit_at now (tracker s)) as [f|]; [by exists f|]. by rewrite H.
Qed.

(** The guesses that are weighed in a series of attempts. *)
Fixpoint guesses (l : list (N * bytes)) (s : session) : nat :=
  match l with
  | [] => 0
  | (now, pw) :: l =>
      (if weighed now pw s then 1 else 0) +
      guesses l (check_password verify_password cfg now pw s).2
  end.

Fixpoint admitted (l : list N) (t : N * option N) : nat :=
  match l with
  | [] => 0
  | now :: l => (if admit_at now t is Some _ then 1 else 0) + admitted l (fail_at now t)
  end.

Lemma guesses_admitted sh l (s : session) :
  Forall (fun x => wrong sh x.2) l -> shadow_of (K := K) (store (shared s)) = sh ->
  guesses l s <= admitted (l.*1) (tracker s).
Proof.
  intros H. revert s. induction H as [|[now pw] l Hw _ IH]; intros s Hs; [done|].
  cbn [guesses admitted fmap list_fmap fst snd].
  destruct (wrong_password_tracker now sh pw s Hw Hs) as [_ Et]. rewrite <-Et.
  apply Nat.add_le_mono; [|apply IH].
  - destruct (weighed now pw s) eqn:Ew; [|lia]. by destruct (weighed_admitted _ _ _ Ew) as [f ->].
  - destruct (check_password_cases cfg verify_password now pw s) as (r & s' & -> & _ & E & _).
    simpl. congruence.
Qed.
End lockout.

(** Times that never go back, up to [T]. *)
Fixpoint ordered (from T : N) (l : list N) : Prop :=
  match l with
  | [] => True
  | now :: l => (from <= now <= T)%N /\ ordered now T l
  end.

(** In a batch that began at [B], with [f] failures: what is left of the batch,
    and three for every further window. *)
Lemma admitted_batch l f L B T :
  (1 <= f <= 3)%N -> (B <= L)%N -> ordered L T l ->
  (N.of_nat (admitted l (f, Some L)) <= (3 - f) + 3 * ((T - B) / LOCKOUT_WINDOW))%N.
Proof.
  revert f L B. induction l as [|now l IH]; intros f L B Hf HB Ho; cbn [admitted];
    [apply N.le_0_l|].
  rewrite Nat2N.inj_add. destruct Ho as [[Hn1 Hn2] Ho]. unfold fail_at, admit_at, elapsed.
  destruct (N.ltb_spec f 3) as [Hlt|Hge].
  - rewrite N.mod_small by lia.
    specialize (IH (f + 1)%N now B ltac:(lia) ltac:(lia) Ho).
    revert IH. generalize ((T - B) / LOCKOUT_WINDOW)%N. intros d IH. lia.
  - destruct (N.ltb_spec LOCKOUT_WINDOW (now - L)) as [Hw|Hw].
    + specialize (IH 1%N now now ltac:(lia) ltac:(lia) Ho).
      assert ((T - now) / LOCKOUT_WINDOW + 1 <= (T - B) / LOCKOUT_WINDOW)%N as Hdiv.
      { rewrite <-(N.mul_1_l LOCKOUT_WINDOW), <-N.div_add at 1 by done. rewrite N.mul_1_l.
        apply N.Div0.div_le_mono. unfold LOCKOUT_WINDOW in *. lia. }
      change ((0 + 1) mod 2 ^ 32)%N with 1%N. revert IH Hdiv.
      generalize ((T - B) / LOCKOUT_WINDOW)%N ((T - now) / LOCKOUT_WINDOW)%N. intros d d' IH Hd. lia.
    + assert (f = 3)%N as -> by lia. apply (IH 3%N L B); [lia|done|].
      destruct l as [|now' l]; [done|]. destruct Ho as [[? ?] ?]. split; [lia|done].
Qed.

(** The bound for a whole series. *)
Lemma admitted_fresh l last t0 T :
  ordered t0 T l ->
  (N.of_nat (admitted l (0%N, last)) <= 3 * (1 + (T - t0) / LOCKOUT_WINDOW))%N.
Proof.
  intros Ho.
  destruct l as [|now l']; cbn [admitted]; [apply N.le_0_l|]. destruct Ho as [[Hn1 Hn2] Ho].
  rewrite Nat2N.inj_add. change (fail_at now (0%N, last)) with (1%N, Some now).
  pose proof (admitted_batch l' 1 now now T ltac:(lia) ltac:(lia) Ho) as H.
  assert ((T - now) / LOCKOUT_WINDOW <= (T - t0) / LOCKOUT_WINDOW)%N as Hd
    by (apply N.Div0.div_le_mono; lia).
  cbn [admit_at]. change (0 <? 3)%N with true. cbn iota. revert H Hd.
  generalize ((T - now) / LOCKOUT_WINDOW)%N ((T - t0) / LOCKOUT_WINDOW)%N. intros d d' H Hd. lia.
Qed.


Definition locked_cfg : UnifiedConfig := mk_UnifiedConfig Tofu (Some (bs "code")) true true.

Lemma demo_wrong pw :
  pw <> bs "code" ->
  @wrong (list bytes * option bytes) bytes (mem_vault bytes) demo_verify locked_cfg (Ok None) pw.
Proof.
  intros Hne s Hs. unfold check_password_match, mbind, M_bind, attempt, mret, M_ret.
  rewrite with_store_eq. simpl in *. injection Hs as ->. simpl.
  unfold demo_verify. by rewrite decide_False.
Qed.

Definition demo_guesses : list (N * bytes) :=
  [(0%N, bs "a"); (1%N, bs "b"); (2%N, bs "c"); (3%N, bs "d"); (61000%N, bs "e")].


(** ** What a locked authenticator answers *)

(** Three failures on the books, the last one at [t3]. *)
Definition locked_since {St K} (t3 : N) (s : Session (St := St) (K := K)) : Prop :=
  (3 <= failed_attempts (shared s))%N /\ last_failure (shared s) = Some t3.

(** The lockout is complete and ends on its own. Three wrong passwords,
    at any times at all, lock the authenticator; for the next minute every
    public key (an authorized one, and any key under AcceptAll, included) and
    every password is refused without changing any state; and after that
    minute attempts are let through again. *)
Theorem lockout_lifecycle {St K} {VS : VaultStore St K} {SK : SshKey K} {VL : VaultLaws St K}
    {SL : SshKeyLaws K} verify_password cfg (s : Session (St := St) (K := K)) t1 t2 t3 p1 p2 p3 :
  failed_attempts (shared s) = 0%N ->
  (forall p, p = p1 \/ p = p2 \/ p = p3 ->
     wrong (K := K) (St := St) verify_password cfg (shadow_of (K := K) (store (shared s))) p) ->
  let try t p s := (check_password verify_password cfg t p s).2 in
  let s3 := try t3 p3 (try t2 p2 (try t1 p1 s)) in
  locked_since t3 s3 /\
  forall now,
    if (LOCKOUT_WINDOW <? elapsed now t3)%N
    then exists s', is_locked_out now s3 = (Ok false, s') /\ failed_attempts (shared s') = 0%N
    else (forall key, check_public_key cfg now key s3 = (Ok false, s3)) /\
         (forall pw, check_password verify_password cfg now pw s3 = (Ok false, s3)).
Proof.
  intros Hf Hw try s3. set (s1 := try t1 p1 s). set (s2 := try t2 p2 s1).
  pose proof (Hw p1 ltac:(auto)) as W1. pose proof (Hw p2 ltac:(auto)) as W2.
  pose proof (Hw p3 ltac:(auto)) as W3.
  assert (forall t p s, shadow_of (K := K) (store (shared (try t p s)))
                        = shadow_of (K := K) (store (shared s))) as Hsh.
  { intros t p s0. unfold try.
    by destruct (check_password_cases cfg verify_password t p s0) as (r & s' & -> & _ & E & _). }
  assert (tracker s1 = (1%N, Some t1)) as T1.
  { unfold s1, try. destruct (wrong_password_tracker verify_password cfg t1 _ p1 s W1 eq_refl) as [_ ->].
    unfold fail_at, tracker. by rewrite Hf. }
  assert (tracker s2 = (2%N, Some t2)) as T2.
  { change s2 with (check_password verify_password cfg t2 p2 s1).2.
    destruct (wrong_password_tracker verify_password cfg t2 _ p2 s1 W2) as [_ ->];
      [apply Hsh|]. by rewrite T1. }
  assert (tracker s3 = (3%N, Some t3)) as T3.
  { change s3 with (check_password verify_password cfg t3 p3 s2).2.
    destruct (wrong_password_tracker verify_password cfg t3 _ p3 s2 W3) as [_ ->];
      [unfold s2; rewrite Hsh; apply Hsh|]. by rewrite T2. }
  clearbody s3. injection T3 as F3 L3. split; [split; [lia|done]|].
  intros now. pose proof (is_locked_out_tracker now s3) as Hl.
  unfold admit_at, tracker in Hl. rewrite F3, L3 in Hl. simpl in Hl.
  destruct (LOCKOUT_WINDOW <? elapsed now t3)%N.
  - destruct Hl as (s' & ? & ? & _). by exists s'.
  - split.
    + intros key. unfold check_public_key, pk_first, mbind, M_bind. by rewrite Hl.
    + intros pw. unfold check_password, mbind, M_bind. by rewrite Hl.
Qed.

Lemma lockout_lifecycle_witness :
  let s := mk_Session (demo_shared [bs "alice"] None) None in
  let try t p s := (@check_password _ _ (mem_vault bytes) demo_key demo_verify locked_cfg t p s).2 in
  @check_public_key _ _ (mem_vault bytes) demo_key locked_cfg 5000000 (bs "alice")
    (try 5000000%N (bs "z") (try 1000000%N (bs "y") (try 0%N (bs "x") s)))
  = (Ok false, try 5000000%N (bs "z") (try 1000000%N (bs "y") (try 0%N (bs "x") s))).
Proof.
  intros s try.
  destruct (@lockout_lifecycle _ _ (mem_vault bytes) demo_key (mem_vault_laws bytes) demo_key_laws
    demo_verify locked_cfg s 0 1000000 5000000 (bs "x") (bs "y") (bs "z")) as [_ H].
  - reflexivity.
  - by intros p [->|[->| ->]]; apply demo_wrong.
  - exact (proj1 (H 5000000%N) (bs "alice")).
Defined.

(** ** Failing closed *)

(** The shadow file cannot be read, at any time. *)
Definition shadow_unreadable (St K : Type) `{VaultStore St K} : Prop :=
  forall st : St, exists e, (load_shadow (K := K) st).1 = Err e.

(** An unreadable shadow file fails closed everywhere: no password, not
    even the invite code, is accepted; no key is adopted on first use; and
    clients are told that passwords are required. *)
Theorem unreadable_shadow_fails_closed {St K} {VS : VaultStore St K} {SK : SshKey K}
    {VL : VaultLaws St K} {SL : SshKeyLaws K} verify_password cfg (s : Session (St := St) (K := K)) :
  shadow_unreadable St K ->
  (forall now pw, (check_password verify_password cfg now pw s).1 = Ok false) /\
  (forall now key k, in_vault (store (shared (check_public_key cfg now key s).2)) k <->
                     in_vault (store (shared s)) k) /\
  (supported_methods cfg s).1 = Ok [PublicKey; Password].
Proof.
  intros Hun.
  assert (forall s : Session (St := St) (K := K), exists e st, with_store (load_shadow (K := K)) s = (Err e, with_st s st) /\
    forall k, in_vault (store (shared (with_st s st))) k <-> in_vault (store (shared s)) k) as Hsh.
  { intros s0. destruct (Hun (store (shared s0))) as [e He].
    exists e, (load_shadow (K := K) (store (shared s0))).2. rewrite with_store_eq, He. split; [done|].
    destruct (load_shadow (K := K) (store (shared s0))) as [r st] eqn:E.
    by apply load_shadow_frame in E as (? & _). }
  split; [|split].
  - intros now pw. unfold check_password, mbind, M_bind, mret, M_ret.
    destruct (is_locked_out_cases now s) as (b & s1 & -> & _). destruct b; [done|].
    unfold check_password_match, mbind, M_bind, mret, M_ret, attempt.
    by destruct (Hsh s1) as (e & st & -> & _).
  - intros now key k. unfold check_public_key, mbind, M_bind, mret, M_ret.
    destruct (pk_first_cases cfg now key s) as (o & s1 & -> & (_ & Hs1 & _) & _).
    destruct o as [b|]; simpl; [by rewrite Hs1|].
    destruct (refresh_keys_cases s1) as (s2 & -> & Hv2 & _). rewrite Hs1 in Hv2. rewrite <-Hv2.
    unfold pk_decide, node_pw_exists, mbind, M_bind, get, mret, M_ret, attempt,
      reset_failures, record_failure, set_cached, update.
    case_decide; [done|]. case_decide; [done|].
    by destruct (Hsh s2) as (e & st & -> & Hv).
  - unfold supported_methods, node_pw_exists, mbind, M_bind, mret, M_ret, attempt.
    by destruct (Hsh s) as (e & st & -> & _).
Qed.

(** A vault whose shadow file cannot be read. *)
Definition broken_vault : VaultStore (list bytes) bytes := {|
  load_vault := fun st => (Ok ((fun k => ([], k)) <$> st), st);
  add_client := fun _ k st => (Ok tt, k :: st);
  load_shadow := fun st => (Err (FileRead [] PermissionDenied), st);
  in_vault st k := k ∈ st;
  shadow_of st := Err (FileRead [] PermissionDenied);
  settled _ := True;
|}.

Lemma broken_vault_laws : @VaultLaws _ bytes broken_vault.
Proof.
  assert (forall l : list bytes, ((fun k => ([] : bytes, k)) <$> l).*2 = l) as Hl.
  { intros l. rewrite <-list_fmap_compose. by apply list_fmap_id. }
  split; simpl.
  - intros s l s' k [= <- <-]. by rewrite Hl.
  - intros s _. eexists. split; [done|]. intros k. by rewrite Hl.
  - by intros s r s' [= <- <-].
  - intros s fp k u s' _ [= <- <-]. split; [left|]. by intros k' [?|?]%elem_of_cons; auto.
  - done.
  - by intros s fp k r s' _ [= <- <-].
  - done.
  - by intros s r s' [= <- <-].
Qed.

Lemma unreadable_shadow_fails_closed_witness :
  (@check_password _ _ broken_vault demo_key demo_verify locked_cfg 0 (bs "code")
     (mk_Session (mk_Shared [] false 0 None 0 0 []) (Some (bs "alice")))).1 = Ok false.
Proof.
  apply (@unreadable_shadow_fails_closed _ _ broken_vault demo_key broken_vault_laws demo_key_laws
    demo_verify locked_cfg (mk_Session (mk_Shared [] false 0 None 0 0 []) (Some (bs "alice")))).
  intros st. by eexists.
Defined.

(** ** The refresh race *)

(** [s] continues with the shared state another session left. *)
Definition resume {St K} (s other : Session (St := St) (K := K)) : Session :=
  mk_Session (shared other) (cached_key s).

(** [refresh_keys] reads the vault before it takes the lock, so one
    interleaving of two first connections adopts both strangers: session B
    reads the empty vault, session A runs to completion and becomes the owner,
    and B's stale assignment empties the key list again before B decides. *)
Theorem refresh_race_adopts_two_owners (a b : bytes) (now : N) :
  a <> b ->
  let VS := mem_vault bytes in let SK := demo_key in
  let s0 := mk_Session (demo_shared [] None) None in
  exists sb1 loaded sb2 sa sb3 sb4,
    pk_first open_cfg now b s0 = (Ok None, sb1) /\
    refresh_load sb1 = (Ok loaded, sb2) /\
    check_public_key open_cfg now a (resume s0 sb2) = (Ok true, sa) /\
    refresh_assign loaded (resume sb2 sa) = (Ok tt, sb3) /\
    pk_decide open_cfg now b sb3 = (Ok true, sb4) /\
    store (shared sb4) = ([b; a], None).
Proof.
  intros Hne VS SK s0. do 6 eexists.
  do 5 (split; [lazy; reflexivity|]). reflexivity.
Qed.

Lemma refresh_race_adopts_two_owners_witness :
  let VS := mem_vault bytes in let SK := demo_key in
  exists s : Session, exists sb4, pk_decide open_cfg 0 (bs "mallory") s = (Ok true, sb4) /\
    store (shared sb4) = ([bs "mallory"; bs "alice"], None).
Proof.
  intros VS SK.
  destruct (refresh_race_adopts_two_owners (bs "alice") (bs "mallory") 0 ltac:(done))
    as (sb1 & l & sb2 & sa & sb3 & sb4 & _ & _ & _ & _ & E & F).
  exists sb3, sb4. split; [exact E|exact F].
Defined.
