(* ===== verification/AuthBackends.v ===== *)
(** * The authentication interface and the simple backends

    The [Authenticator] trait of [src/auth/mod.rs] as a class, and its
    implementations: [KeyOnlyAuth] and [CombinedAuth] ([key.rs]),
    [PasswordAuth] ([password.rs]), the unified authenticator ([Auth.v]), and
    the [SharedSession] wrapper that gives a backend with no per-connection
    state the default [session_scoped]. *)

From S2P Require Import Prelude Text Fs StorageUtils Vault Auth AuthFacts AuthSystem AuthLockout.

(** [trait Authenticator]: [S] is the backend with everything it reaches. *)
Class Authenticator (S K : Type) : Type := {
  auth_methods : M S IroshError (list AuthMethod);
  auth_public_key : N -> bytes -> K -> M S IroshError bool;
  auth_password : N -> bytes -> bytes -> M S IroshError bool;
  auth_session_scoped : S -> S;
}.

(** [SharedSession<T>]: forwards every call, and scopes to itself. *)
Definition SharedSession {S K} (inner : Authenticator S K) : Authenticator S K := {|
  auth_methods := auth_methods;
  auth_public_key := auth_public_key;
  auth_password := auth_password;
  auth_session_scoped s := s;
|}.

(** ** [PasswordAuth] *)

Record PasswordAuth : Type := mk_PasswordAuth {
  password_hash : bytes;
  pa_failed_attempts : N;
  pa_last_failure : option N;
}.

Definition password_auth_new (hash : bytes) : PasswordAuth := mk_PasswordAuth hash 0 None.

Section password.
Variable verify_password : bytes -> bytes -> result PasswordError unit.

Definition pa_is_locked_out (now : N) : M PasswordAuth IroshError bool := fun s =>
  if (pa_failed_attempts s <? 3)%N then (Ok false, s)
  else match pa_last_failure s with
       | None => (Ok true, s)
       | Some last =>
           if (LOCKOUT_WINDOW <? elapsed now last)%N
           then (Ok false, mk_PasswordAuth (password_hash s) 0 (pa_last_failure s))
           else (Ok true, s)
       end.

Definition pa_reset_failures : M PasswordAuth IroshError unit := fun s =>
  (Ok tt, mk_PasswordAuth (password_hash s) 0 (pa_last_failure s)).

Definition pa_record_failure (now : N) : M PasswordAuth IroshError unit := fun s =>
  (Ok tt, mk_PasswordAuth (password_hash s) ((pa_failed_attempts s + 1) mod 2 ^ 32) (Some now)).

Definition pa_check_public_key {K} (now : N) (user : bytes) (key : K) :
    M PasswordAuth IroshError bool := mret false.

Definition pa_check_password (now : N) (user password : bytes) : M PasswordAuth IroshError bool :=
  locked ← pa_is_locked_out now;
  if (locked : bool) then mret false
  else
    verified ← (fun s =>
      match verify_password password (password_hash s) with
      | Ok _ => (Ok true, s)
      | Err PasswordInvalid => (Ok false, s)
      | Err reason => (Err (VerificationFailed reason), s)
      end) : M PasswordAuth IroshError bool;
    (if (verified : bool) then pa_reset_failures else pa_record_failure now);;
    mret verified.

#[local] Instance password_authenticator (K : Type) : Authenticator PasswordAuth K := {|
  auth_methods := mret [Password];
  auth_public_key := pa_check_public_key;
  auth_password := pa_check_password;
  auth_session_scoped s := s;
|}.
End password.

(** ** [KeyOnlyAuth] and [CombinedAuth] *)

Section key.
Context {St K : Type} {VS : VaultStore St K} {SK : SshKey K}.
Variable verify_password : bytes -> bytes -> result PasswordError unit.

Record KeyOnlyAuth : Type := mk_KeyOnlyAuth {
  ko_policy : HostKeyPolicy;
  ko_authorized_keys : list K;
  ko_state : St;
}.

Definition ko_check_public_key (now : N) (user : bytes) (key : K) : M KeyOnlyAuth IroshError bool := fun s =>
  if decide (ko_policy s = AcceptAll) then (Ok true, s)
  else
    match ko_authorized_keys s with
    | _ :: _ =>
        if decide (key ∈ ko_authorized_keys s) then (Ok true, s) else (Ok false, s)
    | [] =>
        match ko_policy s with
        | Strict => (Ok false, s)
        | Tofu =>
            match add_client (fingerprint key) key (ko_state s) with
            | (Ok _, st) => (Ok true, mk_KeyOnlyAuth (ko_policy s) (ko_authorized_keys s ++ [key]) st)
            | (Err e, st) => (Err (StorageErr e), mk_KeyOnlyAuth (ko_policy s) (ko_authorized_keys s) st)
            end
        | AcceptAll => (Ok true, s)
        end
    end.

Definition ko_check_password (now : N) (user password : bytes) : M KeyOnlyAuth IroshError bool :=
  mret false.

#[local] Instance key_only_authenticator : Authenticator KeyOnlyAuth K := {|
  auth_methods := mret [PublicKey];
  auth_public_key := ko_check_public_key;
  auth_password := ko_check_password;
  auth_session_scoped s := s;
|}.

Record CombinedAuth : Type := mk_CombinedAuth {
  key_auth : KeyOnlyAuth;
  password_auth : PasswordAuth;
}.

Definition combined_check_public_key (now : N) (user : bytes) (key : K) :
    M CombinedAuth IroshError bool := fun s =>
  let '(r, ka) := ko_check_public_key now user key (key_auth s) in
  (r, mk_CombinedAuth ka (password_auth s)).

Definition combined_check_password (now : N) (user password : bytes) :
    M CombinedAuth IroshError bool := fun s =>
  let '(r, pa) := pa_check_password verify_password now user password (password_auth s) in
  (r, mk_CombinedAuth (key_auth s) pa).

#[local] Instance combined_authenticator : Authenticator CombinedAuth K := {|
  auth_methods := mret [PublicKey; Password];
  auth_public_key := combined_check_public_key;
  auth_password := combined_check_password;
  auth_session_scoped s := s;
|}.

#[local] Instance unified_authenticator (cfg : UnifiedConfig) :
    Authenticator (Session (St := St) (K := K)) K := {|
  auth_methods := supported_methods cfg;
  auth_public_key now _ key := check_public_key cfg now key;
  auth_password now _ pw := check_password verify_password cfg now pw;
  auth_session_scoped := for_new_session;
|}.
End key.

(** ** Guarantees *)

Definition pa_tracker (s : PasswordAuth) : N * option N := (pa_failed_attempts s, pa_last_failure s).

Fixpoint pa_guesses verify_password (l : list (N * bytes)) (s : PasswordAuth) : nat :=
  match l with
  | [] => 0
  | (now, pw) :: l =>
      (if admit_at now (pa_tracker s) is Some _ then 1 else 0) +
      pa_guesses verify_password l (pa_check_password verify_password now [] pw s).2
  end.

Lemma pa_locked_tracker now (s : PasswordAuth) :
  match admit_at now (pa_tracker s) with
  | Some fails => exists s', pa_is_locked_out now s = (Ok false, s') /\
      pa_failed_attempts s' = fails /\ password_hash s' = password_hash s
  | None => pa_is_locked_out now s = (Ok true, s)
  end.
Proof.
  unfold admit_at, pa_tracker, pa_is_locked_out. destruct (_ <? 3)%N; [by eexists|].
  destruct (pa_last_failure s) as [l|]; [|done].
  destruct (LOCKOUT_WINDOW <? elapsed now l)%N; [|done]. by eexists.
Qed.

Lemma pa_wrong_tracker verify_password now user pw (s : PasswordAuth) :
  verify_password pw (password_hash s) = Err PasswordInvalid ->
  exists s', pa_check_password verify_password now user pw s = (Ok false, s') /\
    pa_tracker s' = fail_at now (pa_tracker s) /\ password_hash s' = password_hash s.
Proof.
  intros Hw. unfold pa_check_password, fail_at, mbind, M_bind, mret, M_ret.
  pose proof (pa_locked_tracker now s) as Hl.
  destruct (admit_at now (pa_tracker s)) as [fails|]; [|rewrite Hl; by eexists].
  destruct Hl as (s1 & -> & Hf & Hh). simpl. rewrite Hh, Hw. eexists. split; [done|].
  unfold pa_tracker. simpl. by rewrite Hf.
Qed.

(** The password backend's rate limit: from a fresh counter, at most three
    wrong guesses per minute of elapsed time reach the password hash. *)
Theorem password_auth_guess_bound verify_password (s : PasswordAuth) t0 T l :
  pa_failed_attempts s = 0%N ->
  (forall pw, pw ∈ l.*2 -> verify_password pw (password_hash s) = Err PasswordInvalid) ->
  ordered t0 T (l.*1) ->
  (N.of_nat (pa_guesses verify_password l s) <= 3 * (1 + (T - t0) / LOCKOUT_WINDOW))%N.
Proof.
  intros Hf Hw Ho.
  assert (pa_guesses verify_password l s = admitted (l.*1) (pa_tracker s)) as ->.
  { clear Ho Hf. revert s Hw. induction l as [|[now pw] l IH]; intros s Hw; simpl; [done|].
    destruct (pa_wrong_tracker verify_password now [] pw s) as (s' & -> & Ht & Hh).
    - apply Hw. left.
    - simpl. rewrite IH, Ht; [done|]. intros p Hp. rewrite Hh. apply Hw. by right. }
  unfold pa_tracker. rewrite Hf. by apply admitted_fresh.
Qed.

Lemma password_auth_guess_bound_witness :
  (N.of_nat (pa_guesses demo_verify demo_guesses (password_auth_new (bs "secret"))) <= 6)%N.
Proof.
  etrans.
  - apply (password_auth_guess_bound demo_verify (password_auth_new (bs "secret")) 0 61000 demo_guesses).
    + reflexivity.
    + intros pw H. repeat (apply elem_of_cons in H as [->|H]; [reflexivity|]).
      by apply elem_of_nil in H.
    + vm_compute. repeat split; discriminate.
  - vm_compute. discriminate.
Defined.

(** A stored hash that cannot be checked is an error of the server, not a
    failed attempt: it is reported, counts nothing and locks nobody out. *)
Theorem malformed_hash_is_not_a_failure verify_password now user pw (s : PasswordAuth) reason :
  (pa_failed_attempts s < 3)%N ->
  verify_password pw (password_hash s) = Err (PasswordOther reason) ->
  pa_check_password verify_password now user pw s
  = (Err (VerificationFailed (PasswordOther reason)), s).
Proof.
  intros Hf Hv. unfold pa_check_password, pa_is_locked_out, mbind, M_bind, mret, M_ret.
  rewrite (proj2 (N.ltb_lt _ _) Hf). simpl. by rewrite Hv.
Qed.

Lemma malformed_hash_is_not_a_failure_witness :
  pa_check_password (fun _ _ => Err (PasswordOther (bs "not PHC"))) 0 (bs "u") (bs "p")
    (password_auth_new (bs "garbage"))
  = (Err (VerificationFailed (PasswordOther (bs "not PHC"))), password_auth_new (bs "garbage")).
Proof. by apply malformed_hash_is_not_a_failure. Defined.

(** The decision the key backend is meant to make. *)
Definition key_verdict (p : HostKeyPolicy) (known claimed : bool) : option bool :=
  match p, claimed with
  | AcceptAll, _ => Some true
  | _, true => Some known
  | Strict, false => Some false
  | Tofu, false => None    (** adopt the key *)
  end.

(** The key backend decides by policy, membership and whether the list is
    claimed, and changes state only when it adopts: then the key is in the
    vault and becomes the only authorized key, or the storage error is
    returned and nothing is authorized. *)
Theorem key_only_decision {St K} {VS : VaultStore St K} {SK : SshKey K} {VL : VaultLaws St K}
    {SL : SshKeyLaws K} now user (key : K) (s : KeyOnlyAuth (St := St) (K := K)) r s' :
  ko_check_public_key now user key s = (r, s') ->
  match key_verdict (ko_policy s) (bool_decide (key ∈ ko_authorized_keys s))
          (negb (bool_decide (ko_authorized_keys s = []))) with
  | Some verdict => r = Ok verdict /\ s' = s
  | None =>
      (r = Ok true /\ ko_authorized_keys s' = [key] /\ in_vault (ko_state s') key) \/
      (exists e, r = Err (StorageErr e) /\ ko_authorized_keys s' = [] /\
                 forall k, in_vault (ko_state s') k <-> in_vault (ko_state s) k)
  end.
Proof.
  unfold ko_check_public_key. pose proof (fingerprint_nonempty key) as Hf.
  destruct s as [p keys st]; simpl. case_decide as Hp; [subst; by intros [= <- <-]|].
  destruct keys as [|k0 keys]; simpl.
  - destruct p; [by intros [= <- <-]| |done]. simpl.
    destruct (add_client (fingerprint key) key st) as [[u|e] st'] eqn:E; intros [= <- <-]; simpl.
    + left. split; [done|]. split; [done|]. by eapply add_client_ok.
    + right. exists e. split; [done|]. split; [done|]. by eapply add_client_err.
  - case_decide as Hk; intros [= <- <-];
      [rewrite bool_decide_true by done|rewrite bool_decide_false by done]; by destruct p.
Qed.

Lemma key_only_decision_witness :
  let s := mk_KeyOnlyAuth (K := bytes) Tofu [] ([] : list bytes, None : option bytes) in
  match key_verdict Tofu (bool_decide (bs "k" ∈ ([] : list bytes))) false with
  | Some verdict => False
  | None => (@Ok IroshError bool true = Ok true /\
             [bs "k"] = [bs "k"] /\ @in_vault _ _ (mem_vault bytes) ([bs "k"], None) (bs "k")) \/
      (exists e, @Ok IroshError bool true = Err (StorageErr e) /\ [bs "k"] = [] /\
         forall k, @in_vault _ _ (mem_vault bytes) ([bs "k"], None) k <->
                   @in_vault _ _ (mem_vault bytes) (ko_state s) k)
  end.
Proof.
  intros s.
  exact (@key_only_decision _ _ (mem_vault bytes) demo_key (mem_vault_laws bytes) demo_key_laws
    0 [] (bs "k") s (Ok true) (mk_KeyOnlyAuth Tofu [bs "k"] ([bs "k"], None)) eq_refl).
Defined.
