(* ===== verification/Config.v ===== *)
(** * Configuration: [src/config.rs], [src/storage/config.rs]

    The log level and wormhole code types with their parsers, the persistent
    [AppConfig] with its defaults, and its storage. A [StateConfig] is its
    root directory. *)

From S2P Require Import Prelude Text Stream Fs StorageUtils.

Record StateConfig : Type := mk_StateConfig { root : path }.

Definition blobs_path (state : StateConfig) : path := bs "blobs" :: root state.

(** ** Log levels *)

Inductive LogLevel : Type := Trace | Debug | Info | Warn | Error.

#[export] Instance log_level_eq_dec : EqDecision LogLevel.
Proof. solve_decision. Defined.

Definition as_str (l : LogLevel) : bytes :=
  match l with
  | Trace => bs "trace" | Debug => bs "debug" | Info => bs "info"
  | Warn => bs "warn" | Error => bs "error"
  end.

(** [FromStr for LogLevel]. The accepted words have no letter that another
    character lowercases to, so ASCII case folding decides them; in the error
    message non-ASCII letters are left alone here. *)
Definition log_level_from_str (s : bytes) : result bytes LogLevel :=
  let lower := ascii_lowercase s in
  if decide (lower = bs "trace") then Ok Trace
  else if decide (lower = bs "debug") then Ok Debug
  else if decide (lower = bs "info") then Ok Info
  else if decide (lower = bs "warn" \/ lower = bs "warning") then Ok Warn
  else if decide (lower = bs "error") then Ok Error
  else Err (bs "invalid log level: '" ++ lower ++
            bs "' (expected: trace, debug, info, warn, error)").

(** ** Wormhole codes *)

Record WormholeCode : Type := mk_WormholeCode { code : bytes }.

Definition wormhole_code_new (code : bytes) : result bytes WormholeCode :=
  if decide (trim code = []) then Err (bs "wormhole code cannot be empty")
  else Ok (mk_WormholeCode code).

(** ** [AppConfig] *)

Record AppConfig : Type := mk_AppConfig {
  stealth_secret : option bytes;
  relay_url : option bytes;
  log_level : LogLevel;
  wormhole_timeout : N;
  default_user : option bytes;
}.

Definition app_config_default : AppConfig := mk_AppConfig None None Info 3600 None.

Definition level_index (l : LogLevel) : nat :=
  match l with Trace => 0 | Debug => 1 | Info => 2 | Warn => 3 | Error => 4 end.

Definition level_at (n : nat) : LogLevel :=
  match n with 0 => Trace | 1 => Debug | 2 => Info | 3 => Warn | _ => Error end.

Lemma level_at_index l : level_at (level_index l) = l.
Proof. by destruct l. Qed.

#[export] Instance AppConfig_eq_dec : EqDecision AppConfig.
Proof. solve_decision. Defined.

Definition app_config_tuple (c : AppConfig) :=
  (stealth_secret c, relay_url c, level_index (log_level c), wormhole_timeout c, default_user c).

Lemma app_config_tuple_inv c :
  (fun '(s, r, l, w, d) => mk_AppConfig s r (level_at l) w d) (app_config_tuple c) = c.
Proof. destruct c; simpl. by rewrite level_at_index. Qed.

#[export] Instance AppConfig_payload : Payload AppConfig := {|
  payload_eq_dec := _;
  payload_countable := inj_countable' app_config_tuple
    (fun '(s, r, l, w, d) => mk_AppConfig s r (level_at l) w d) app_config_tuple_inv;
|}.

(** ** Storage *)

Definition CONFIG_FILE : bytes := bs "irosh.json".

Section storage.
Context {SJ : SerdeJson}.
Variable state : StateConfig.

Definition config_path : path := CONFIG_FILE :: root state.

Definition parse_config (data : bytes) : M fs storage_error AppConfig :=
  lift (map_err PeerProfileParse (from_slice data)).

Definition load_config : M fs storage_error AppConfig :=
  e ← path_exists config_path;
  if negb e then mret app_config_default else
  data ← M_map_err (FileRead config_path) (read_to_string config_path);
  parse_config data.

Definition save_config (suffix : N) (config : AppConfig) : M fs storage_error unit :=
  data ← lift (map_err PeerProfileSerialize (to_vec_pretty config));
  atomic_write_secure suffix config_path data.

Definition export_config (suffix : N) (dest : path) : M fs storage_error unit :=
  config ← load_config;
  data ← lift (map_err PeerProfileSerialize (to_vec_pretty config));
  atomic_write_secure suffix dest data.

Definition import_config (suffix : N) (src : path) : M fs storage_error unit :=
  data ← M_map_err (FileRead src) (read_file src);
  imported ← parse_config data;
  save_config suffix imported.

(** ** Lemmas *)

Context {SL : SerdeJsonLaws}.

Lemma load_config_file s c data m :
  reliable s -> nodes s !! config_path = Some (File data m) -> to_vec_pretty c = Ok data ->
  (load_config s).1 = Ok c.
Proof.
  intros Hr Hf Hj. destruct (from_slice_to_vec_pretty _ _ _ _ Hj) as [Hp Hu].
  unfold load_config, mbind, M_bind, M_map_err. rewrite path_exists_reliable by done.
  rewrite Hf. cbn [negb bool_decide]. simpl.
  rewrite (read_to_string_reliable _ (tick s (nodes s)) data m) by done.
  simpl. unfold parse_config, lift. by rewrite Hp.
Qed.

Lemma save_config_ok suffix c s u s' :
  reliable s -> save_config suffix c s = (Ok u, s') ->
  reliable s' /\ exists data m, to_vec_pretty c = Ok data /\
    nodes s' !! config_path = Some (File data m).
Proof.
  intros Hr. unfold save_config, mbind, M_bind, lift, map_err.
  destruct (to_vec_pretty c) as [data|] eqn:Hj; [|done].
  intros H. apply atomic_write_read_back in H as (Hr' & m & Hm); [|done].
  split; [done|]. by exists data, m.
Qed.
End storage.

(** ** What configuration storage promises *)

(** A saved configuration is the one loaded afterwards; and exporting it
    and importing the exported file, in another state directory, reproduces
    it there. *)
Theorem config_roundtrip {SJ : SerdeJson} {SL : SerdeJsonLaws} state state' suffix c s s1 s2 s3 dest :
  reliable s ->
  save_config state suffix c s = (Ok tt, s1) ->
  export_config state suffix dest s1 = (Ok tt, s2) ->
  import_config state' suffix dest s2 = (Ok tt, s3) ->
  (load_config state s1).1 = Ok c /\ (load_config state' s3).1 = Ok c.
Proof.
  intros Hr H1 H2 H3.
  apply save_config_ok in H1 as (Hr1 & data & m & Hj & Hf); [|done].
  pose proof (load_config_file state s1 c data m Hr1 Hf Hj) as Hl. split; [done|].
  unfold export_config, mbind, M_bind, lift, map_err in H2.
  destruct (load_config state s1) as [[c'|] s1'] eqn:El; [|done].
  simpl in Hl. injection Hl as ->. rewrite Hj in H2.
  assert (reliable s1') as Hr1'.
  { unfold load_config, mbind, M_bind, M_map_err in El.
    rewrite path_exists_reliable, Hf in El by done. simpl in El.
    rewrite (read_to_string_reliable _ (tick s1 (nodes s1)) data m) in El; [|done..|].
    - simpl in El. unfold parse_config, lift in El. by injection El as _ <-.
    - by apply (from_slice_to_vec_pretty _ _ c). }
  apply atomic_write_read_back in H2 as (Hr2 & m2 & Hm2); [|done].
  unfold import_config, mbind, M_bind, M_map_err in H3.
  rewrite (read_file_reliable _ _ _ _ Hr2 Hm2) in H3. simpl in H3.
  unfold parse_config, lift in H3.
  rewrite (proj1 (from_slice_to_vec_pretty _ _ _ _ Hj)) in H3. simpl in H3.
  apply save_config_ok in H3 as (Hr3 & data3 & m3 & Hj3 & Hf3); [|done].
  by eapply load_config_file.
Qed.

Definition demo_config : AppConfig :=
  mk_AppConfig (Some (bs "secret")) None Debug 60 (Some (bs "root")).

Lemma config_roundtrip_witness :
  let st := mk_StateConfig [bs "srv"] in let st' := mk_StateConfig [bs "other"] in
  let s := demo_fs (fun _ => None) in
  let s1 := (@save_config bit_json st 7 demo_config s).2 in
  let s2 := (@export_config bit_json st 7 [bs "out.json"; bs "srv"] s1).2 in
  let s3 := (@import_config bit_json st' 7 [bs "out.json"; bs "srv"] s2).2 in
  (@load_config bit_json st s1).1 = Ok demo_config /\
  (@load_config bit_json st' s3).1 = Ok demo_config.
Proof.
  intros st st' s s1 s2 s3.
  apply (@config_roundtrip bit_json bit_json_laws st st' 7 demo_config s s1 s2 s3
    [bs "out.json"; bs "srv"]).
  - intros n. reflexivity.
  - refine (pair_fst (@save_config bit_json st 7 demo_config s) _ _). vm_compute. reflexivity.
  - refine (pair_fst (@export_config bit_json st 7 _ s1) _ _). vm_compute. reflexivity.
  - refine (pair_fst (@import_config bit_json st' 7 _ s2) _ _). vm_compute. reflexivity.
Defined.

(** Printing and parsing log levels are inverse, parsing ignores case,
    and "warning" is the only alias. *)
Theorem log_level_roundtrip l s :
  log_level_from_str (as_str l) = Ok l /\
  (log_level_from_str s = Ok l <->
   ascii_lowercase s = as_str l \/ (l = Warn /\ ascii_lowercase s = bs "warning")).
Proof.
  split; [by destruct l|]. unfold log_level_from_str. generalize (ascii_lowercase s). intros w.
  split.
  - repeat (case_decide; [intros [= <-]; naive_solver|]). done.
  - intros H. destruct H as [->|[-> ->]]; [by destruct l|done].
Qed.
