(* ===== verification/Peers.v ===== *)
(** * Saved peers: [src/storage/peers.rs]

    A peer profile is a JSON file [peers/<name>.json]. The ticket type belongs
    to the transport and is a parameter. [save_peer] validates the name;
    [load_peer] and [delete_peer] do not, so their paths are joined as the
    system resolves them ([join_str]). *)

From S2P Require Import Prelude Text Stream Fs StorageUtils.

Definition MAX_NAME_LEN : N := 128.

Definition RESERVED_NAMES : list bytes := bs <$>
  ["con"; "prn"; "aux"; "nul"; "com1"; "com2"; "com3"; "com4"; "com5"; "com6"; "com7"; "com8";
   "com9"; "lpt1"; "lpt2"; "lpt3"; "lpt4"; "lpt5"; "lpt6"; "lpt7"; "lpt8"; "lpt9"]%string.

(** [validate_peer_name]. No character outside ASCII lowercases into the
    letters of the reserved names, so ASCII case folding decides them. *)
Definition validate_peer_name (name : bytes) : result storage_error unit :=
  if decide (name = []) then Err (PeerNameInvalid name)
  else if (MAX_NAME_LEN <? blen name)%N then Err (PeerNameInvalid name)
  else if contains name zero then Err (PeerNameInvalid name)
  else if contains name "/" || contains name "\" || bool_decide (name = bs ".")
          || bool_decide (name = bs "..") then Err (PeerNameInvalid name)
  else if decide (ascii_lowercase name ∈ RESERVED_NAMES) then Err (PeerNameInvalid name)
  else Ok tt.

Section peers.
Context {SJ : SerdeJson} {Ticket : Type} {PT : Payload Ticket}.

Record PeerProfile : Type := mk_PeerProfile {
  name : bytes;
  ticket : Ticket;
}.

Lemma peer_tuple_inv p : (fun '(n, t) => mk_PeerProfile n t) (name p, ticket p) = p.
Proof. by destruct p. Qed.

#[export] Instance PeerProfile_eq_dec : EqDecision PeerProfile.
Proof. solve_decision. Defined.

#[export] Instance PeerProfile_payload : Payload PeerProfile := {|
  payload_eq_dec := _;
  payload_countable := inj_countable' (fun p => (name p, ticket p))
    (fun '(n, t) => mk_PeerProfile n t) peer_tuple_inv;
|}.

Variable root : path.

Definition peers_dir : path := bs "peers" :: root.

Definition ensure_peers_dir : M fs storage_error path :=
  ensure_dir_secure_tighten root;;
  ensure_dir_secure_tighten peers_dir;;
  mret peers_dir.

Definition peer_path (name : bytes) : path := join_str peers_dir (name ++ bs ".json").

Definition save_peer (suffix : N) (profile : PeerProfile) : M fs storage_error unit :=
  ensure_peers_dir;;
  lift (validate_peer_name (name profile));;
  json ← lift (map_err PeerProfileSerialize (to_vec_pretty profile));
  atomic_write_secure suffix (peer_path (name profile)) json.

Definition load_peer (name : bytes) : M fs storage_error (option PeerProfile) :=
  let p := peer_path name in
  e ← path_exists p;
  if negb e then mret None else
  json ← M_map_err (FileRead p) (read_to_string p);
  profile ← lift (map_err PeerProfileParse (from_slice json));
  mret (Some profile).

Definition is_json (name : bytes) : bool := bool_decide (extension name = Some (bs "json")).

(** One turn of the loop of [list_peers]. *)
Definition list_entry (dir : path) (name : bytes) : M fs storage_error (option PeerProfile) :=
  name ← M_map_err (DirectoryEntryRead dir) (next_entry name);
  f ← path_is_file (name :: dir);
  if f && is_json name then
    json ← M_map_err (FileRead (name :: dir)) (read_to_string (name :: dir));
    mret (match from_slice json with Ok profile => Some profile | Err _ => None end)
  else mret None.

Definition list_peers : M fs storage_error (list PeerProfile) :=
  dir ← ensure_peers_dir;
  entries ← M_map_err (DirectoryRead dir) (read_dir dir);
  collect (list_entry dir) entries.

Definition delete_peer (name : bytes) : M fs storage_error bool := fun s =>
  let p := peer_path name in
  match remove_file p s with
  | (Ok _, s) => (Ok true, s)
  | (Err NotFound, s) => (Ok false, s)
  | (Err source, s) => (Err (FileDelete p source), s)
  end.

Definition rename_peer (suffix : N) (old_name new_name : bytes) : M fs storage_error bool :=
  o ← load_peer old_name;
  match o with
  | None => mret false
  | Some profile =>
      save_peer suffix (mk_PeerProfile new_name (ticket profile));;
      delete_peer old_name;;
      mret true
  end.

(** ** Names and paths *)

Lemma peer_name_ok n :
  validate_peer_name n = Ok tt ->
  n <> [] /\ (blen n <= MAX_NAME_LEN)%N /\ (zero ∉ n) /\ ("/"%char ∉ n) /\ ("\"%char ∉ n) /\
  n <> bs "." /\ n <> bs ".." /\ ascii_lowercase n ∉ RESERVED_NAMES.
Proof.
  unfold validate_peer_name, contains. case_decide; [done|].
  destruct (N.ltb_spec MAX_NAME_LEN (blen n)); [done|].
  destruct (bool_decide_reflect (zero ∈ n)); [done|].
  destruct (bool_decide_reflect ("/"%char ∈ n)); [done|].
  destruct (bool_decide_reflect ("\"%char ∈ n)); [done|].
  destruct (bool_decide_reflect (n = bs ".")); [done|].
  destruct (bool_decide_reflect (n = bs "..")); [done|]. simpl.
  case_decide; [done|]. intros _. repeat (split; [done|]). done.
Qed.

Lemma peer_path_valid n : "/"%char ∉ n -> peer_path n = (n ++ bs ".json") :: peers_dir.
Proof.
  intros Hn. unfold peer_path. apply join_str_name.
  - intros [?|H]%elem_of_app; [done|]. revert H. by apply (bool_decide_unpack _).
  - by destruct n.
  - intros E. apply (f_equal length) in E. rewrite length_app in E. simpl in E. lia.
  - intros E. apply (f_equal length) in E. rewrite length_app in E. simpl in E. lia.
Qed.

Lemma ensure_peers_dir_runs s r s' :
  ensure_peers_dir s = (r, s') -> runs (dirs_only peers_dir) s s'.
Proof.
  unfold ensure_peers_dir, mbind, M_bind, mret, M_ret.
  destruct (ensure_dir_secure_tighten root s) as [r1 s1] eqn:E1.
  apply ensure_dir_secure_tighten_runs in E1.
  assert (runs (dirs_only peers_dir) s s1) as R1.
  { eapply runs_mono; [|exact E1]. intros d H q. destruct (H q) as [?|(? & ? & ?)]; [by left|].
    right. split; [by apply suffix_cons_r|done]. }
  destruct r1 as [u|e]; [|by intros [= <- <-]].
  destruct (ensure_dir_secure_tighten peers_dir s1) as [r2 s2] eqn:E2.
  apply ensure_dir_secure_tighten_runs in E2.
  pose proof (runs_trans _ _ _ _ (dirs_only_trans _) R1 E2).
  destruct r2; by intros [= <- <-].
Qed.

(** ** Saving, loading, deleting *)

Context {SL : SerdeJsonLaws}.

Lemma load_peer_file n s p json m :
  reliable s -> nodes s !! peer_path n = Some (File json m) -> to_vec_pretty p = Ok json ->
  load_peer n s = (Ok (Some p), tick (tick s (nodes s)) (nodes s)).
Proof.
  intros Hr Hf Hj. destruct (from_slice_to_vec_pretty _ _ _ _ Hj) as [Hp Hu].
  unfold load_peer, mbind, M_bind, M_map_err, mret, M_ret, lift.
  rewrite path_exists_reliable, Hf by done. simpl.
  rewrite (read_to_string_reliable _ (tick s (nodes s)) json m) by done.
  simpl. by rewrite Hp.
Qed.

Lemma save_peer_ok suffix p s u s' :
  reliable s -> save_peer suffix p s = (Ok u, s') ->
  reliable s' /\ validate_peer_name (name p) = Ok tt /\
  (exists json m, to_vec_pretty p = Ok json /\
     nodes s' !! peer_path (name p) = Some (File json m)) /\
  (forall q c m, nodes s !! q = Some (File c m) -> q <> peer_path (name p) ->
     q <> tmp_name (name p ++ bs ".json") suffix :: peers_dir -> nodes s' !! q = Some (File c m)).
Proof.
  intros Hr. unfold save_peer, mbind, M_bind, lift, map_err.
  destruct (ensure_peers_dir s) as [[d|] s1] eqn:E1; [|done].
  apply ensure_peers_dir_runs in E1.
  destruct (validate_peer_name (name p)) as [[]|] eqn:Hv; [|done].
  destruct (to_vec_pretty p) as [json|] eqn:Hj; [|done]. intros H.
  assert (reliable s1) as Hr1 by by eapply runs_reliable.
  pose proof (atomic_write_read_back _ _ _ _ _ _ Hr1 H) as (Hr' & m & Hm).
  split; [done|]. split; [done|]. split; [by exists json, m|].
  intros q c m' Hq Hne Ht.
  rewrite peer_path_valid in H by (by apply peer_name_ok in Hv as (_ & _ & _ & ? & _)).
  eapply atomic_write_others; [exact H| |done|].
  - rewrite <-peer_path_valid; [done|]. by apply peer_name_ok in Hv as (_ & _ & _ & ? & _).
  - eapply dirs_only_file; [|exact Hq]. by apply (runs_final _ _ _ (dirs_only_refl _ _)) in E1.
Qed.

Lemma delete_peer_reliable n s c m :
  reliable s -> nodes s !! peer_path n = Some (File c m) ->
  delete_peer n s = (Ok true, tick s (delete (peer_path n) (nodes s))).
Proof.
  intros Hr Hf. unfold delete_peer, remove_file, syscall. rewrite Hr, Hf. done.
Qed.
End peers.
Arguments PeerProfile : clear implicits.
Arguments PeerProfile_payload : clear implicits.

(** ** What peer storage promises *)

(** A saved peer is found again under its name, with its ticket; deleting
    it removes it; and its file is a direct child of the peers directory with
    a name that is one portable component (no separator, no NUL, not a
    reserved device name), whatever name the caller chose. *)
Theorem peer_roundtrip {SJ : SerdeJson} {SL : SerdeJsonLaws} {Ticket} {PT : Payload Ticket}
    root suffix (p : PeerProfile Ticket) s s' :
  reliable s ->
  save_peer root suffix p s = (Ok tt, s') ->
  (load_peer (PT := PT) root (name p) s').1 = Ok (Some p) /\
  (delete_peer root (name p) s').1 = Ok true /\
  (load_peer (PT := PT) root (name p) (delete_peer root (name p) s').2).1 = Ok None /\
  peer_path root (name p) = (name p ++ bs ".json") :: peers_dir root /\
  ("/"%char ∉ name p) /\ ("\"%char ∉ name p) /\ (zero ∉ name p) /\
  ascii_lowercase (name p) ∉ RESERVED_NAMES.
Proof.
  intros Hr H. apply save_peer_ok in H as (Hr' & Hv & (json & m & Hj & Hf) & _); [|done].
  rewrite (load_peer_file root (name p) s' p json m) by done.
  rewrite (delete_peer_reliable root (name p) s' json m) by done.
  apply peer_name_ok in Hv as (_ & _ & ? & ? & ? & _ & _ & ?).
  split; [done|]. split; [done|]. split; [|split; [by apply peer_path_valid|done]].
  unfold load_peer, mbind, M_bind. rewrite path_exists_reliable by exact Hr'.
  simpl. by rewrite lookup_delete_eq.
Qed.

Definition demo_peer : PeerProfile N := mk_PeerProfile (bs "home") 42%N.

#[export] Instance N_payload : Payload N := {| payload_eq_dec := _; payload_countable := _ |}.

Lemma peer_roundtrip_witness :
  (@load_peer bit_json N N_payload [bs "srv"] (bs "home")
     (@save_peer bit_json N N_payload [bs "srv"] 7 demo_peer (demo_fs (fun _ => None))).2).1
  = Ok (Some demo_peer).
Proof.
  refine (proj1 (@peer_roundtrip bit_json bit_json_laws N N_payload [bs "srv"] 7 demo_peer
    (demo_fs (fun _ => None)) _ _ _)).
  - intros n. reflexivity.
  - refine (pair_fst (@save_peer bit_json N N_payload [bs "srv"] 7 demo_peer _) _ _).
    vm_compute. reflexivity.
Defined.

(** Renaming a peer moves it, provided the two names differ. Renaming a
    peer to its own name reports success and deletes it. *)
Theorem rename_peer_outcome {SJ : SerdeJson} {SL : SerdeJsonLaws} {Ticket} {PT : Payload Ticket}
    root suffix (p : PeerProfile Ticket) json m new s s' :
  reliable s ->
  "/"%char ∉ name p ->
  to_vec_pretty p = Ok json -> nodes s !! peer_path root (name p) = Some (File json m) ->
  tmp_name (new ++ bs ".json") suffix <> name p ++ bs ".json" ->
  rename_peer (PT := PT) root suffix (name p) new s = (Ok true, s') ->
  nodes s' !! peer_path root (name p) = None /\
  (load_peer (PT := PT) root new s').1 =
    if decide (new = name p) then Ok None else Ok (Some (mk_PeerProfile new (ticket p))).
Proof.
  intros Hr Hs Hj Hf Htmp. unfold rename_peer, mbind, M_bind, mret, M_ret.
  rewrite (load_peer_file root (name p) s p json m) by done.
  set (s0 := tick (tick s (nodes s)) (nodes s)).
  destruct (save_peer _ _ _ s0) as [[u|] s1] eqn:E1; [|done].
  apply save_peer_ok in E1 as (Hr1 & Hv & (json1 & m1 & Hj1 & Hf1) & Ho); [|done]. simpl in *.
  assert ("/"%char ∉ new) as Hns by (by apply peer_name_ok in Hv as (_ & _ & _ & ? & _)).
  assert (new <> name p -> peer_path root new <> peer_path root (name p)) as Hpp.
  { intros Hne E. rewrite !peer_path_valid in E by done. injection E as E. by apply app_inj_2 in E as [? _]. }
  assert (exists c m', nodes s1 !! peer_path root (name p) = Some (File c m')) as (c & m' & Hp).
  { destruct (decide (new = name p)) as [->|Hne]; [by eauto|].
    exists json, m. apply Ho; [done|by apply not_eq_sym, Hpp|].
    rewrite peer_path_valid by done. intros [= E]. by apply Htmp. }
  rewrite (delete_peer_reliable root (name p) s1 c m') by done. intros [= <-]. simpl.
  split; [apply lookup_delete_eq|]. case_decide as Hne.
  - subst new. unfold load_peer, mbind, M_bind. rewrite path_exists_reliable by exact Hr1.
    simpl. by rewrite lookup_delete_eq.
  - rewrite (load_peer_file root new _ (mk_PeerProfile new (ticket p)) json1 m1); [done|exact Hr1| |done].
    simpl. rewrite lookup_delete_ne; [done|]. by apply not_eq_sym, Hpp.
Qed.

Lemma rename_peer_outcome_witness :
  let s := (@save_peer bit_json N N_payload [bs "srv"] 7 demo_peer (demo_fs (fun _ => None))).2 in
  (@load_peer bit_json N N_payload [bs "srv"] (bs "home")
     (@rename_peer bit_json N N_payload [bs "srv"] 8 (bs "home") (bs "home") s).2).1 = Ok None.
Proof.
  intros s.
  refine (proj2 (@rename_peer_outcome bit_json bit_json_laws N N_payload [bs "srv"] 8 demo_peer
    _ _ (bs "home") s _ _ _ _ _ _ _)).
  - intros n. reflexivity.
  - apply (bool_decide_unpack _). vm_compute. exact I.
  - reflexivity.
  - vm_compute. reflexivity.
  - vm_compute. discriminate.
  - refine (pair_fst (@rename_peer bit_json N N_payload [bs "srv"] 8 (bs "home") (bs "home") s) _ _).
    vm_compute. reflexivity.
Defined.

(** [delete_peer] does not validate its name: a name that climbs out of the
    peers directory deletes any [.json] file it can name, such as the
    application's own configuration. *)
Theorem delete_peer_escapes root s c m :
  reliable s -> nodes s !! (bs "irosh.json" :: root) = Some (File c m) ->
  (delete_peer root (bs "../irosh") s).1 = Ok true /\
  nodes (delete_peer root (bs "../irosh") s).2 !! (bs "irosh.json" :: root) = None.
Proof.
  intros Hr Hf.
  change (bs "irosh.json" :: root) with (peer_path root (bs "../irosh")) in *.
  rewrite (delete_peer_reliable root _ s c m) by done. split; [done|]. apply lookup_delete_eq.
Qed.

Definition escape_fs : fs :=
  mk_fs (<[ [bs "irosh.json"; bs "srv"] := File (bs "{}") 384 ]> (empty : gmap path node))
    18 (fun _ => None) 0 [].

Lemma delete_peer_escapes_witness :
  (delete_peer [bs "srv"] (bs "../irosh") escape_fs).1 = Ok true.
Proof.
  refine (proj1 (delete_peer_escapes [bs "srv"] escape_fs (bs "{}") 384 _ _)).
  - intros n. reflexivity.
  - vm_compute. reflexivity.
Defined.
