(* ===== verification/Identity.v ===== *)
(** * The node's identity: [src/storage/keys.rs], [src/storage/mod.rs]

    One 32-byte secret, stored in hex in [keys/endpoint.secret], is the iroh
    endpoint key and the seed of the SSH host key. Key generation and the two
    cryptographic libraries are not part of the repository: the class
    [IrohKey] is what the code uses of them, and freshly generated keys are
    arguments. *)

From S2P Require Import Prelude Text Fs StorageUtils.

Class IrohKey (SecretKey SshKey : Type) : Type := {
  to_bytes : SecretKey -> bytes;
  key_from_str : bytes -> option SecretKey;
  ssh_from_seed : bytes -> SshKey;    (** [Ed25519Keypair::from_seed] *)
}.

(** [SecretKey::from_str] reads the hexadecimal form. *)
Class IrohKeyLaws (SecretKey SshKey : Type) `{IrohKey SecretKey SshKey} : Prop := {
  key_from_hex : forall k, key_from_str (hex_of (to_bytes k)) = Some k;
}.

Section identity.
Context {SecretKey SshKey : Type} {IK : IrohKey SecretKey SshKey}.

Record EndpointIdentity : Type := mk_EndpointIdentity {
  secret_key : SecretKey;
  ssh_key : SshKey;
}.

Variable root : path.

Definition keys_dir : path := bs "keys" :: root.
Definition secret_path : path := bs "endpoint.secret" :: keys_dir.

Definition ensure_key_dir : M fs storage_error unit :=
  ensure_dir_secure_tighten root;;
  ensure_dir_secure_tighten keys_dir.

Definition parse_secret (raw : bytes) : M fs storage_error SecretKey :=
  match key_from_str (trim raw) with
  | Some key => mret key
  | None => throw (EndpointSecretInvalid secret_path)
  end.

Definition load_secret_key : M fs storage_error SecretKey :=
  e ← path_exists secret_path;
  if negb e then throw (FileRead secret_path NotFound) else
  raw ← M_map_err (FileRead secret_path) (read_to_string secret_path);
  parse_secret raw.

(** [load_or_generate_identity_blocking]; [generated] is what
    [SecretKey::generate] would return. *)
Definition load_or_generate_identity (generated : SecretKey) (suffix : N) :
    M fs storage_error EndpointIdentity :=
  ensure_key_dir;;
  e ← path_exists secret_path;
  key ← (if e : bool then
           raw ← M_map_err (FileRead secret_path) (read_to_string secret_path);
           parse_secret raw
         else
           atomic_write_secure suffix secret_path (hex_of (to_bytes generated));;
           mret generated);
  mret (mk_EndpointIdentity key (ssh_from_seed (to_bytes key))).

Definition delete_secret_key : M fs storage_error bool :=
  e ← path_exists secret_path;
  if e : bool then
    M_map_err (FileWrite secret_path) (remove_file secret_path);;
    mret true
  else mret false.

Definition save_secret_key (suffix : N) (key : SecretKey) : M fs storage_error unit :=
  ensure_key_dir;;
  atomic_write_secure suffix secret_path (hex_of (to_bytes key)).

(** [rotate_identity] of [storage/mod.rs]. *)
Definition rotate_identity (new_key : SecretKey) (suffix : N) (generated : SecretKey)
    (suffix' : N) : M fs storage_error EndpointIdentity :=
  save_secret_key suffix new_key;;
  load_or_generate_identity generated suffix'.

(** ** The key file at every moment *)

(** The key file is the one it was, or a complete private copy of one of [ks]. *)
Definition key_step (ks : list SecretKey) (d d' : disk) : Prop :=
  d' !! secret_path = d !! secret_path \/
  exists k, k ∈ ks /\ private (hex_of (to_bytes k)) (d' !! secret_path).

Lemma key_step_refl ks d : key_step ks d d.
Proof. by left. Qed.

Lemma key_step_trans ks d1 d2 d3 : key_step ks d1 d2 -> key_step ks d2 d3 -> key_step ks d1 d3.
Proof.
  intros [E1|H1] [E2|H2]; [left; congruence|right..].
  - by destruct H2 as (k & ? & ?); exists k.
  - by destruct H1 as (k & ? & ?); exists k; rewrite E2.
  - by destruct H2 as (k & ? & ?); exists k.
Qed.

Lemma key_step_same ks s s' : runs same s s' -> runs (key_step ks) s s'.
Proof. apply runs_mono. intros d ->. apply key_step_refl. Qed.

(** Directories above the key file are not the key file. *)
Lemma key_step_dirs ks p s s' :
  p `suffix_of` keys_dir -> runs (dirs_only p) s s' -> runs (key_step ks) s s'.
Proof.
  intros Hp. apply runs_mono. intros d H. left. apply (dirs_only_below _ _ _ _ H).
  intros Hs. apply (not_suffix_cons (bs "endpoint.secret") keys_dir). by etrans.
Qed.

Lemma ensure_key_dir_runs ks s r s' : ensure_key_dir s = (r, s') -> runs (key_step ks) s s'.
Proof.
  unfold ensure_key_dir, mbind, M_bind. destruct (ensure_dir_secure_tighten root s) as [r1 s1] eqn:E1.
  apply ensure_dir_secure_tighten_runs, (key_step_dirs ks) in E1; [|by apply suffix_cons_r].
  destruct r1; [|by intros [= <- <-]]. intros E2.
  apply ensure_dir_secure_tighten_runs, (key_step_dirs ks) in E2; [|done].
  by eapply runs_trans; [apply key_step_trans|..].
Qed.

Lemma write_key_runs ks k suffix s r s' :
  k ∈ ks -> atomic_write_secure suffix secret_path (hex_of (to_bytes k)) s = (r, s') ->
  runs (key_step ks) s s' /\ (is_ok r -> private (hex_of (to_bytes k)) (nodes s' !! secret_path)).
Proof.
  intros Hk H. unfold secret_path in H. apply atomic_write_secure_spec in H as [R H].
  split; [|by destruct r; destruct H].
  eapply runs_mono; [|exact R]. intros d (_ & [?|?] & _); [by left|right; eauto].
Qed.

Lemma save_secret_key_runs ks k suffix s r s' :
  k ∈ ks -> save_secret_key suffix k s = (r, s') ->
  runs (key_step ks) s s' /\ (is_ok r -> private (hex_of (to_bytes k)) (nodes s' !! secret_path)).
Proof.
  intros Hk. unfold save_secret_key, mbind, M_bind. destruct (ensure_key_dir s) as [r1 s1] eqn:E1.
  apply (ensure_key_dir_runs ks) in E1. destruct r1; [|by intros [= <- <-]].
  intros [R2 H2]%(write_key_runs ks); [|done].
  split; [by eapply runs_trans; [apply key_step_trans|..]|done].
Qed.

Lemma parse_secret_same raw s : (parse_secret raw s).2 = s.
Proof. unfold parse_secret. by destruct (key_from_str _). Qed.

Lemma read_secret_runs s r s' :
  (raw ← M_map_err (FileRead secret_path) (read_to_string secret_path); parse_secret raw) s
  = (r, s') -> runs same s s'.
Proof.
  unfold read_to_string, M_map_err, mbind, M_bind.
  destruct (read_file secret_path s) as [r1 s1] eqn:E1. apply query_runs in E1.
  destruct r1 as [b|e]; [|by intros [= <- <-]].
  destruct (utf8_valid b); simpl; [|by intros [= <- <-]].
  intros H. pose proof (parse_secret_same b s1) as Hs. rewrite H in Hs. simpl in Hs. by subst.
Qed.

Lemma load_or_generate_runs ks k suffix s r s' :
  k ∈ ks -> load_or_generate_identity k suffix s = (r, s') -> runs (key_step ks) s s'.
Proof.
  intros Hk. unfold load_or_generate_identity, mbind at 1, M_bind at 1.
  destruct (ensure_key_dir s) as [r1 s1] eqn:E1. apply (ensure_key_dir_runs ks) in E1.
  destruct r1; [|by intros [= <- <-]]. unfold mbind at 1, M_bind at 1.
  destruct (path_exists secret_path s1) as [r2 s2] eqn:E2.
  apply test_path_runs in E2 as [R2 [b ->]]. apply (key_step_same ks) in R2.
  assert (runs (key_step ks) s s2) as R12 by by eapply runs_trans; [apply key_step_trans|..].
  unfold mbind at 1, M_bind at 1. destruct b.
  - destruct ((raw ← _; parse_secret raw) s2) as [r3 s3] eqn:E3.
    apply read_secret_runs, (key_step_same ks) in E3. intros H.
    assert (s' = s3) as -> by (destruct r3; by injection H). 
    by eapply runs_trans; [apply key_step_trans|..].
  - unfold mbind at 1, M_bind at 1.
    destruct (atomic_write_secure _ _ _ s2) as [r3 s3] eqn:E3.
    apply (write_key_runs ks) in E3 as [R3 _]; [|done]. intros H.
    assert (s' = s3) as -> by (destruct r3; by injection H). 
    by eapply runs_trans; [apply key_step_trans|..].
Qed.

(** ** Results *)

Definition key_dirs (s : fs) : Prop :=
  is_dir_node (nodes s !! root) /\ is_dir_node (nodes s !! keys_dir).

Lemma ensure_key_dir_ok s u s' : ensure_key_dir s = (Ok u, s') -> key_dirs s'.
Proof.
  unfold ensure_key_dir, mbind, M_bind.
  destruct (ensure_dir_secure_tighten root s) as [[?|] s1] eqn:E1; [|done]. intros E2.
  pose proof (ensure_dir_secure_tighten_ok _ _ _ _ E2) as (m & Hm & _).
  apply ensure_dir_secure_tighten_ok in E1 as (m1 & Hm1 & _).
  apply ensure_dir_secure_tighten_runs, (runs_final _ _ _ (dirs_only_refl _ _)) in E2.
  split; [|by rewrite Hm]. apply (dirs_only_dir _ _ _ _ E2). by rewrite Hm1.
Qed.

Lemma ensure_key_dir_again s :
  reliable s -> key_dirs s -> exists s', ensure_key_dir s = (Ok tt, s').
Proof.
  intros Hr [H1 H2]. destruct (ensure_dir_secure_tighten_again root s Hr H1) as [s1 E1].
  unfold ensure_key_dir, mbind, M_bind. rewrite E1.
  apply ensure_dir_secure_tighten_runs in E1. apply ensure_dir_secure_tighten_again.
  - by eapply runs_reliable.
  - apply (runs_final _ _ _ (dirs_only_refl _ _)) in E1.
    by apply (dirs_only_dir _ _ _ _ E1).
Qed.

Lemma write_key_dirs k suffix s r s' :
  key_dirs s -> atomic_write_secure suffix secret_path (hex_of (to_bytes k)) s = (r, s') ->
  key_dirs s'.
Proof.
  intros [H1 H2] H. split; eapply atomic_write_dirs; try exact H; try done; intros E;
    apply (f_equal length) in E; simpl in E; lia.
Qed.

(** A stored key: what the key file says. *)
Definition stored (key : SecretKey) (s : fs) : Prop :=
  exists raw m, nodes s !! secret_path = Some (File raw m) /\ utf8_valid raw = true /\
    key_from_str (trim raw) = Some key.

Definition identity_of (key : SecretKey) : EndpointIdentity :=
  mk_EndpointIdentity key (ssh_from_seed (to_bytes key)).

Lemma stored_private {IKL : IrohKeyLaws SecretKey SshKey} key s :
  private (hex_of (to_bytes key)) (nodes s !! secret_path) -> stored key s.
Proof.
  intros (m & Hm & _). exists (hex_of (to_bytes key)), m. split; [done|].
  split; [apply utf8_graphic, hex_of_graphic|].
  rewrite trim_graphic by apply hex_of_graphic. apply key_from_hex.
Qed.

Lemma read_stored key s :
  reliable s -> stored key s ->
  (raw ← M_map_err (FileRead secret_path) (read_to_string secret_path); parse_secret raw) s
  = (Ok key, tick s (nodes s)).
Proof.
  intros Hr (raw & m & Hf & Hu & Hk). unfold mbind at 1, M_bind at 1, M_map_err.
  rewrite (read_to_string_reliable _ _ _ m) by done. simpl. unfold parse_secret. by rewrite Hk.
Qed.

Lemma stored_unique k1 k2 s : stored k1 s -> stored k2 s -> k1 = k2.
Proof.
  intros (raw1 & m1 & E3 & _ & E4) (raw2 & m2 & E5 & _ & E6).
  rewrite E3 in E5. injection E5 as -> ->. rewrite E4 in E6. by injection E6.
Qed.

(** A present key is loaded by both loaders, which write nothing. *)
Lemma load_secret_key_stored key s :
  reliable s -> stored key s -> (load_secret_key s).1 = Ok key.
Proof.
  intros Hr Hs. unfold load_secret_key, mbind at 1, M_bind at 1.
  rewrite path_exists_reliable by done. destruct Hs as (raw & m & Hf & Hs).
  rewrite Hf. simpl negb. cbv iota. rewrite (read_stored key); [done|exact Hr|].
  by exists raw, m.
Qed.

Lemma load_or_generate_stored key k suffix s s1 :
  reliable s -> ensure_key_dir s = (Ok tt, s1) -> stored key s1 ->
  exists s', load_or_generate_identity k suffix s = (Ok (identity_of key), s') /\
    nodes s' = nodes s1.
Proof.
  intros Hr E1 Hs. pose proof (ensure_key_dir_runs [] _ _ _ E1) as R1.
  pose proof (runs_reliable _ _ _ R1 Hr) as Hr1.
  unfold load_or_generate_identity, mbind at 1, M_bind at 1. rewrite E1.
  unfold mbind at 1, M_bind at 1. rewrite path_exists_reliable by done.
  pose proof Hs as (raw & m & Hf & _). rewrite Hf. simpl bool_decide. cbv iota.
  unfold mbind at 1, M_bind at 1. rewrite (read_stored key); [|exact Hr1|done].
  by eexists.
Qed.

(** What a successful call leaves behind. *)
Lemma load_or_generate_ok {IKL : IrohKeyLaws SecretKey SshKey} k suffix s id s' :
  reliable s -> load_or_generate_identity k suffix s = (Ok id, s') ->
  reliable s' /\ key_dirs s' /\ stored (secret_key id) s' /\ id = identity_of (secret_key id) /\
  match nodes s !! secret_path with
  | Some n => nodes s' !! secret_path = Some n
  | None => secret_key id = k /\ private (hex_of (to_bytes k)) (nodes s' !! secret_path)
  end.
Proof.
  intros Hr H. assert (reliable s') as Hr'.
  { eapply runs_reliable; [|exact Hr]. by apply (load_or_generate_runs [k]) in H; [|left]. }
  split; [exact Hr'|]. revert H. unfold load_or_generate_identity, mbind at 1, M_bind at 1.
  destruct (ensure_key_dir s) as [r1 s1] eqn:E1. destruct r1 as [u|]; [|done].
  pose proof (ensure_key_dir_runs [] _ _ _ E1) as R1.
  pose proof (runs_reliable _ _ _ R1 Hr) as Hr1. apply ensure_key_dir_ok in E1.
  apply runs_final in R1 as [R1|(? & Hn & _)]; [|by apply not_elem_of_nil in Hn|apply key_step_refl].
  unfold mbind at 1, M_bind at 1. rewrite path_exists_reliable by done. rewrite <-R1.
  destruct (nodes s1 !! secret_path) as [n|] eqn:Hn; simpl bool_decide; cbv iota;
    unfold mbind at 1, M_bind at 1.
  - destruct ((raw ← _; parse_secret raw) _) as [[key|] s3] eqn:E3; [|done]. intros [= <- <-].
    pose proof (read_secret_runs _ _ _ E3) as R3%runs_same_nodes. simpl in R3.
    unfold key_dirs, stored. rewrite R3. split; [done|]. split; [|by rewrite Hn].
    revert E3. unfold read_to_string, read_file, M_map_err, mbind, M_bind.
    rewrite query_reliable by exact Hr1. cbn [nodes tick]. rewrite Hn.
    destruct n as [|raw m]; [done|]. destruct (utf8_valid raw) eqn:Hu; [|done].
    unfold parse_secret. simpl. destruct (key_from_str _) eqn:Ek; [|done]. intros [= <- _]. eauto.
  - unfold mbind at 1, M_bind at 1.
    destruct (atomic_write_secure _ _ _ _) as [[?|] s3] eqn:E3; [|done]. intros [= <- <-]. simpl.
    pose proof (write_key_dirs _ _ (tick s1 (nodes s1)) _ _ E1 E3) as Hd.
    apply (write_key_runs [k]) in E3 as [_ E3]; [|left]. specialize (E3 I).
    split; [done|]. split; [by apply stored_private|]. done.
Qed.
End identity.

(** ** Properties *)

(** The identity is stable. Without I/O errors a successful
    [load_or_generate_identity] uses the stored key when there is one and a
    generated one otherwise; afterwards the key is on disk, both loaders
    succeed and return the same key, for any keys the generator would have
    produced, and the SSH key is always derived from it. *)
Theorem identity_is_stable {SK SSH} {IK : IrohKey SK SSH} {IKL : IrohKeyLaws SK SSH}
    root k suffix s id s' :
  reliable s -> load_or_generate_identity root k suffix s = (Ok id, s') ->
  (load_secret_key root s').1 = Ok (secret_key id) /\
  ssh_key id = ssh_from_seed (to_bytes (secret_key id)) /\
  (forall k' suffix', (load_or_generate_identity root k' suffix' s').1 = Ok id) /\
  match nodes s !! secret_path root with
  | Some n => nodes s' !! secret_path root = Some n
  | None => secret_key id = k /\ private (hex_of (to_bytes k)) (nodes s' !! secret_path root)
  end.
Proof.
  intros Hr H. destruct (load_or_generate_ok _ _ _ _ _ _ Hr H) as (Hr' & Hd & Hs & Hid & Hf).
  split; [by apply load_secret_key_stored|]. split; [by rewrite Hid|]. split; [|exact Hf].
  intros k' suffix'. destruct (ensure_key_dir_again _ _ Hr' Hd) as [s1 E1].
  destruct (load_or_generate_stored root (secret_key id) k' suffix' s' s1) as (s2 & E2 & _);
    [exact Hr'|exact E1| |rewrite E2; simpl; by rewrite <-Hid].
  pose proof (ensure_key_dir_runs root [] _ _ _ E1) as R1.
  apply runs_final in R1 as [R1|(? & Hn & _)]; [|by apply not_elem_of_nil in Hn|apply key_step_refl].
  unfold stored. by rewrite R1.
Qed.

(** Rotation never leaves the node without a complete key. Whatever calls
    fail, and wherever the process dies, the key file is the one before or a
    private, complete copy of a generated key; without failures the new
    identity is the new key, and it is on disk. *)
Theorem rotation_keeps_a_key {SK SSH} {IK : IrohKey SK SSH} {IKL : IrohKeyLaws SK SSH}
    root new suffix k suffix' s r s' :
  rotate_identity root new suffix k suffix' s = (r, s') ->
  runs (key_step root [new; k]) s s' /\
  (reliable s -> forall id, r = Ok id -> id = identity_of new /\ stored root new s').
Proof.
  unfold rotate_identity, mbind, M_bind.
  destruct (save_secret_key root suffix new s) as [r1 s1] eqn:E1.
  apply (save_secret_key_runs root [new; k]) in E1 as [R1 H1]; [|left].
  destruct r1 as [u|]; [|by intros [= <- <-]]. intros E2.
  assert (k ∈ [new; k]) as Hk by (right; left).
  pose proof (load_or_generate_runs root [new; k] _ _ _ _ _ Hk E2) as R2.
  split; [by eapply runs_trans; [apply key_step_trans|..]|].
  intros Hr id ->. specialize (H1 I). destruct H1 as (m & Hm & Hp).
  pose proof (runs_reliable _ _ _ R1 Hr) as Hr1.
  destruct (load_or_generate_ok _ _ _ _ _ _ Hr1 E2) as (_ & _ & Hs & Hid & Hf).
  rewrite Hm in Hf.
  assert (stored root new s') as Hn by (apply (stored_private _ _ _); rewrite Hf; by exists m).
  split; [|exact Hn]. rewrite Hid. f_equal. eapply stored_unique; [exact Hs|exact Hn].
Qed.

(** [load_or_generate_identity] takes a [stat] failure for absence: when
    the test for the key file fails, an existing identity is replaced by a
    generated one and the call reports success. *)
Theorem stat_failure_replaces_identity {SK SSH} {IK : IrohKey SK SSH}
    root k suffix s s1 n e id s' :
  ensure_key_dir root s = (Ok tt, s1) -> oracle s1 (ticks s1) = Some (n, e) ->
  load_or_generate_identity root k suffix s = (Ok id, s') ->
  secret_key id = k /\ private (hex_of (to_bytes k)) (nodes s' !! secret_path root).
Proof.
  intros E1 Ho. unfold load_or_generate_identity, mbind, M_bind. rewrite E1.
  unfold path_exists, test_path, query, syscall. rewrite Ho.
  destruct (atomic_write_secure _ _ _ _) as [[?|] s3] eqn:E3; [|done]. intros [= <- <-].
  apply (write_key_runs root [k]) in E3 as [_ E3]; [|left]. by specialize (E3 I).
Qed.

(** ** Witnesses *)

(** A key type whose keys are one byte, written in hex. *)
Definition demo_from_str (b : bytes) : option ascii :=
  List.find (fun c => bool_decide (b = hex_of [c])) (ascii_of_N ∘ N.of_nat <$> seq 0 256).

Definition demo_iroh : IrohKey ascii bytes := {|
  to_bytes k := [k]; key_from_str := demo_from_str; ssh_from_seed b := bs "ssh:" ++ b |}.

#[export] Instance demo_iroh_laws : @IrohKeyLaws ascii bytes demo_iroh.
Proof. constructor. intros [[] [] [] [] [] [] [] []]; vm_compute; reflexivity. Qed.

Definition identity_fs (f : nat -> option (nat * io_error)) : fs :=
  (@save_secret_key ascii bytes demo_iroh [bs "srv"] 7 "a"%char (demo_fs f)).2.

Lemma identity_is_stable_witness :
  (@load_secret_key ascii bytes demo_iroh [bs "srv"]
     (@load_or_generate_identity ascii bytes demo_iroh [bs "srv"] "b"%char 8
        (identity_fs (fun _ => None))).2).1 = Ok "a"%char.
Proof.
  refine (proj1 (@identity_is_stable ascii bytes demo_iroh demo_iroh_laws [bs "srv"] "b"%char 8
    (identity_fs (fun _ => None)) (@mk_EndpointIdentity ascii bytes "a"%char (bs "ssh:a")) _ _ _)).
  - intros n. vm_compute. reflexivity.
  - refine (pair_fst (@load_or_generate_identity ascii bytes demo_iroh [bs "srv"] "b"%char 8 _) _ _).
    vm_compute. reflexivity.
Defined.

Lemma rotation_keeps_a_key_witness :
  runs (@key_step ascii bytes demo_iroh [bs "srv"] ["b"%char; "c"%char])
    (identity_fs (fun _ => None))
    (@rotate_identity ascii bytes demo_iroh [bs "srv"] "b"%char 8 "c"%char 9 (identity_fs (fun _ => None))).2.
Proof.
  refine (proj1 (@rotation_keeps_a_key ascii bytes demo_iroh demo_iroh_laws [bs "srv"]
    "b"%char 8 "c"%char 9 (identity_fs (fun _ => None))
    (Ok (@mk_EndpointIdentity ascii bytes "b"%char (bs "ssh:b"))) _ _)).
  refine (pair_fst (@rotate_identity ascii bytes demo_iroh [bs "srv"] "b"%char 8 "c"%char 9 _) _ _).
  vm_compute. reflexivity.
Defined.

(** Call number 6, counted from 0, is the test for the key file. *)
Definition identity_fs_stat : fs :=
  mk_fs (nodes (identity_fs (fun _ => None))) 18
    (fun n => if decide (n = 6) then Some (0, PermissionDenied) else None) 0 [].

Lemma stat_failure_replaces_identity_witness :
  (load_secret_key (IK := demo_iroh) [bs "srv"] (identity_fs (fun _ => None))).1 = Ok "a"%char /\
  private (hex_of [ "b"%char ])
    (nodes (@load_or_generate_identity ascii bytes demo_iroh [bs "srv"] "b"%char 8 identity_fs_stat).2
       !! secret_path [bs "srv"]).
Proof.
  split; [vm_compute; reflexivity|].
  refine (proj2 (@stat_failure_replaces_identity ascii bytes demo_iroh [bs "srv"] "b"%char 8
    identity_fs_stat (@ensure_key_dir [bs "srv"] identity_fs_stat).2 0 PermissionDenied
    (@mk_EndpointIdentity ascii bytes "b"%char (bs "ssh:b")) _ _ _ _)).
  - refine (pair_fst (ensure_key_dir [bs "srv"] identity_fs_stat) _ _). vm_compute. reflexivity.
  - vm_compute. reflexivity.
  - refine (pair_fst (@load_or_generate_identity ascii bytes demo_iroh [bs "srv"] "b"%char 8 _) _ _).
    vm_compute. reflexivity.
Defined.
