(* ===== verification/Metadata.v ===== *)
(** * Peer metadata: [src/transport/metadata/]

    The fields a peer tells about itself, their sanitization, and their frame
    codec. [String::truncate] panics off a character boundary: the sanitizing
    functions return [None] there. Environment variables and the host and
    user system calls are arguments. *)

From S2P Require Import Prelude Text Stream.

(** ** [types.rs] *)

Definition MAX_FIELD_LEN : nat := 255.

Record PeerMetadata : Type := mk_PeerMetadata {
  hostname : bytes;
  user : bytes;
  os : bytes;
}.

#[export] Instance PeerMetadata_eq_dec : EqDecision PeerMetadata.
Proof. solve_decision. Defined.

(** A compact encoding of the fields, for the concrete serializer. *)
Definition bit (b : bool) (p : positive) : positive := if b then xI p else xO p.

Fixpoint pack (b : bytes) : positive :=
  match b with
  | [] => xH
  | Ascii b0 b1 b2 b3 b4 b5 b6 b7 :: r =>
      bit b0 (bit b1 (bit b2 (bit b3 (bit b4 (bit b5 (bit b6 (bit b7 (pack r))))))))
  end.

Definition unbit (p : positive) : bool * positive :=
  match p with xH => (true, xH) | xO p => (false, p) | xI p => (true, p) end.

Fixpoint unpack (n : nat) (p : positive) : bytes :=
  match n with
  | O => []
  | S n =>
      match p with
      | xH => []
      | _ =>
          let '(b0, p) := unbit p in let '(b1, p) := unbit p in
          let '(b2, p) := unbit p in let '(b3, p) := unbit p in
          let '(b4, p) := unbit p in let '(b5, p) := unbit p in
          let '(b6, p) := unbit p in let '(b7, p) := unbit p in
          Ascii b0 b1 b2 b3 b4 b5 b6 b7 :: unpack n p
      end
  end.

Lemma unpack_pack n b : length b <= n -> unpack n (pack b) = b.
Proof.
  revert n. induction b as [|[[] [] [] [] [] [] [] []] b IH]; intros [|n] H; simpl in *;
    try done; try lia; by rewrite IH by lia.
Qed.

Lemma pack_size b : length b <= Pos.size_nat (pack b).
Proof. induction b as [|[[] [] [] [] [] [] [] []] b IH]; simpl; lia. Qed.

Definition unpack_all (p : positive) : bytes := unpack (Pos.size_nat p) p.

Lemma unpack_all_pack b : unpack_all (pack b) = b.
Proof. apply unpack_pack, pack_size. Qed.

Definition metadata_code (m : PeerMetadata) : positive * (positive * positive) :=
  (pack (hostname m), (pack (user m), pack (os m))).
Definition metadata_decode (c : positive * (positive * positive)) : PeerMetadata :=
  mk_PeerMetadata (unpack_all c.1) (unpack_all c.2.1) (unpack_all c.2.2).

Lemma metadata_code_inv m : metadata_decode (metadata_code m) = m.
Proof. destruct m. unfold metadata_decode; simpl. by rewrite !unpack_all_pack. Qed.

#[export] Instance PeerMetadata_payload : Payload PeerMetadata := {|
  payload_eq_dec := _;
  payload_countable := inj_countable' metadata_code metadata_decode metadata_code_inv;
|}.

(** [c >= ' ' || c == '\t'], on the bytes: every byte of a longer character is
    above the space. *)
Definition printable (c : ascii) : bool :=
  (32 <=? N_of_ascii c)%N || (N_of_ascii c =? 9)%N.

(** [String::truncate]; [None] is its panic. *)
Definition truncate (n : nat) (b : bytes) : option bytes :=
  if decide (length b <= n) then Some b
  else if is_char_boundary b n then Some (take n b) else None.

Definition sanitize_field (s : bytes) : option bytes :=
  truncate MAX_FIELD_LEN (filter (fun c => printable c = true) s).

(** [PeerMetadata::new] *)
Definition metadata_new (hostname user os : bytes) : option PeerMetadata :=
  h ← sanitize_field hostname;
  u ← sanitize_field user;
  o ← sanitize_field os;
  Some (mk_PeerMetadata h u o).

(** [to_lowercase] is Unicode's, given by the caller. *)
Definition default_alias (to_lowercase : bytes -> bytes) (m : PeerMetadata) : bytes :=
  to_lowercase (replace_chars (bs " ") (bs "-") (user m)) ++ bs "-" ++
  to_lowercase (replace_chars (bs " ") (bs "-") (os m)).

Fixpoint contains_str (b p : bytes) : bool :=
  starts_with b p || match b with [] => false | _ :: r => contains_str r p end.

(** On Unix; [var] is [std::env::var], [syscall] is [hostname_syscall]. *)
Definition resolve_hostname (var : bytes -> option bytes) (syscall : option bytes) : bytes :=
  match var (bs "HOSTNAME") with
  | Some h =>
      if bool_decide (h <> []) && bool_decide (h <> bs "localhost") then h
      else default (bs "unknown-host") syscall
  | None => default (bs "unknown-host") syscall
  end.

Definition resolve_username (to_lowercase : bytes -> bytes) (var : bytes -> option bytes)
    (syscall : option bytes) : bytes :=
  let fallback := default (bs "unknown-user") syscall in
  match (match var (bs "USER") with Some u => Some u | None => var (bs "USERNAME") end) with
  | Some u =>
      let u_lower := to_lowercase u in
      if bool_decide (u <> []) && bool_decide (u_lower <> bs "system")
         && bool_decide (u_lower <> bs "local service")
         && bool_decide (u_lower <> bs "network service")
         && negb (contains_str u_lower (bs "systemprofile"))
      then u else fallback
  | None => fallback
  end.

(** ** [codec.rs] *)

Definition MAGIC : bytes := bs "IRMD".
Definition VERSION : N := 2.
Definition KIND_METADATA_REQUEST : N := 1.
Definition KIND_PEER_METADATA : N := 2.
Definition MAX_METADATA_BYTES : N := 8 * 1024.

Inductive MetadataError : Type :=
| MIo (e : io_error)
| InvalidMagic
| UnsupportedVersion (version : N)
| UnsupportedKind (kind : N)
| UnexpectedKind (expected actual : N)
| PayloadTooLarge (size : N)
| MJson (e : json_error).

Definition io {S A} (m : M S io_error A) : M S MetadataError A := M_map_err MIo m.

Definition write_frame (kind : N) (payload : bytes) : M writer MetadataError unit :=
  ensure (negb (MAX_METADATA_BYTES <? blen payload)%N) (PayloadTooLarge (blen payload));;
  io (write_all MAGIC);;
  io (write_u8 VERSION);;
  io (write_u8 kind);;
  let len := (blen payload mod 2 ^ 32)%N in
  io (write_u32 len);;
  io (write_all payload);;
  io flush;;
  mret tt.

Definition read_frame : M reader MetadataError (N * bytes) :=
  magic ← io (read_exact 4);
  ensure (bool_decide (magic = MAGIC)) InvalidMagic;;
  version ← io read_u8;
  ensure (version =? VERSION)%N (UnsupportedVersion version);;
  kind ← io read_u8;
  ensure ((kind =? KIND_PEER_METADATA)%N || (kind =? KIND_METADATA_REQUEST)%N)
    (UnsupportedKind kind);;
  length ← io read_u32;
  ensure (negb (MAX_METADATA_BYTES <? length)%N) (PayloadTooLarge length);;
  payload ← io (read_exact (N.to_nat length));
  mret (kind, payload).

Definition write_metadata_request : M writer MetadataError unit :=
  write_frame KIND_METADATA_REQUEST [].

Definition read_metadata_request : M reader MetadataError unit :=
  '(kind, payload) ← read_frame;
  ensure (kind =? KIND_METADATA_REQUEST)%N (UnexpectedKind KIND_METADATA_REQUEST kind);;
  ensure (bool_decide (payload = [])) (PayloadTooLarge (blen payload)).

Section codec.
Context {SJ : SerdeJson}.

Definition write_metadata (metadata : PeerMetadata) : M writer MetadataError unit :=
  payload ← lift (map_err MJson (to_vec metadata));
  write_frame KIND_PEER_METADATA payload.

(** [Ok None] is the panic of [PeerMetadata::new]. *)
Definition read_metadata : M reader MetadataError (option PeerMetadata) :=
  '(kind, payload) ← read_frame;
  ensure (kind =? KIND_PEER_METADATA)%N (UnexpectedKind KIND_PEER_METADATA kind);;
  raw ← lift (map_err MJson (from_slice payload));
  mret (metadata_new (hostname raw) (user raw) (os raw)).
End codec.

(** ** Sanitized fields *)

Definition clean (b : bytes) : Prop :=
  Forall (fun c => printable c = true) b /\ length b <= MAX_FIELD_LEN.

Definition clean_metadata (m : PeerMetadata) : Prop :=
  clean (hostname m) /\ clean (user m) /\ clean (os m).

Lemma truncate_some n b t : truncate n b = Some t -> t = take n b /\ length t <= n.
Proof.
  unfold truncate. case_decide; [|destruct (is_char_boundary _ _); [|done]]; intros [= <-].
  - by rewrite take_ge.
  - split; [done|]. rewrite length_take. lia.
Qed.

Lemma sanitize_field_clean b t : sanitize_field b = Some t -> clean t.
Proof.
  intros [-> H]%truncate_some. split; [|done]. apply Forall_take, Forall_forall.
  intros c Hc%list_elem_of_In. by apply list_elem_of_filter in Hc as [? _].
Qed.

Lemma filter_id {A} (P : A -> Prop) `{!forall x, Decision (P x)} (l : list A) :
  Forall P l -> filter P l = l.
Proof.
  induction 1 as [|x l Hx _ IH]; [done|]. by rewrite filter_cons_True, IH.
Qed.

Lemma sanitize_clean b : clean b -> sanitize_field b = Some b.
Proof.
  intros [Hp Hl]. unfold sanitize_field. rewrite filter_id by done.
  unfold truncate. by rewrite decide_True.
Qed.

Lemma metadata_new_clean h u o m : metadata_new h u o = Some m -> clean_metadata m.
Proof.
  unfold metadata_new. intros H. 
  destruct (sanitize_field h) eqn:E1; [|done]. destruct (sanitize_field u) eqn:E2; [|done].
  destruct (sanitize_field o) eqn:E3; [|done]. injection H as <-.
  split; [|split]; by eapply sanitize_field_clean.
Qed.

Lemma metadata_new_id m : clean_metadata m -> metadata_new (hostname m) (user m) (os m) = Some m.
Proof.
  intros (H1 & H2 & H3). unfold metadata_new. rewrite !sanitize_clean by done. by destruct m.
Qed.

(** ** The frame codec *)

Definition encode_frame (kind : N) (payload : bytes) : bytes :=
  MAGIC ++ be_bytes 1 VERSION ++ be_bytes 1 kind ++ be_bytes 4 (blen payload) ++ payload.

Lemma metadata_bind_io_ok {S A B} (m : M S io_error A) (k : A -> M S MetadataError B) s a s' :
  m s = (Ok a, s') -> (io m ≫= k) s = k a s'.
Proof. intros E. unfold io, M_map_err, mbind, M_bind. by rewrite E. Qed.

Lemma metadata_write_frame_open kind payload out e :
  (blen payload <= MAX_METADATA_BYTES)%N ->
  write_frame kind payload (mk_writer out None e)
  = (Ok tt, mk_writer (out ++ encode_frame kind payload) None e).
Proof.
  intros H. unfold write_frame. rewrite bind_ensure, (proj2 (N.ltb_ge _ _)) by done. simpl negb. cbv iota.
  do 5 (erewrite metadata_bind_io_ok by apply write_all_open). rewrite N.mod_small.
  - unfold encode_frame. by rewrite <-!app_assoc.
  - unfold MAX_METADATA_BYTES in H. lia.
Qed.

Lemma metadata_read_frame_encode kind payload rest e :
  (blen payload <= MAX_METADATA_BYTES)%N ->
  kind = KIND_PEER_METADATA \/ kind = KIND_METADATA_REQUEST ->
  read_frame (mk_reader (encode_frame kind payload ++ rest) e)
  = (Ok (kind, payload), mk_reader rest e).
Proof.
  intros Hl Hk. unfold read_frame, encode_frame. rewrite <-!app_assoc.
  erewrite metadata_bind_io_ok by by apply read_exact_app. rewrite bind_ensure, bool_decide_true by done.
  erewrite metadata_bind_io_ok by by apply read_u8_app. rewrite bind_ensure, N.eqb_refl.
  erewrite metadata_bind_io_ok by (apply read_u8_app; by destruct Hk as [->| ->]).
  rewrite bind_ensure.
  assert ((kind =? KIND_PEER_METADATA)%N || (kind =? KIND_METADATA_REQUEST)%N = true) as ->
    by by destruct Hk as [->| ->].
  erewrite metadata_bind_io_ok by (apply read_u32_app; unfold MAX_METADATA_BYTES in Hl; lia).
  rewrite bind_ensure, (proj2 (N.ltb_ge _ _)) by done. simpl negb. cbv iota.
  erewrite metadata_bind_io_ok by (apply read_exact_app; unfold blen; lia). done.
Qed.

#[local] Opaque encode_frame.

Section exchange.
Context {SJ : SerdeJson} {SL : SerdeJsonLaws}.

(** The metadata exchange round-trips. What a peer writes as request and
    response is read back as the request and, sanitized, the response, from
    exactly the written bytes; metadata made by [PeerMetadata::new] arrives
    unchanged. *)
Theorem metadata_exchange (m : PeerMetadata) out e w e' rest :
  (write_metadata_request;; write_metadata m) (mk_writer out None e) = (Ok tt, w) ->
  exists d, wr_out w = out ++ d /\
    (read_metadata_request;; read_metadata) (mk_reader (d ++ rest) e')
    = (Ok (metadata_new (hostname m) (user m) (os m)), mk_reader rest e') /\
    (clean_metadata m -> metadata_new (hostname m) (user m) (os m) = Some m).
Proof.
  unfold mbind at 1, M_bind at 1, write_metadata_request. rewrite metadata_write_frame_open by done.
  unfold write_metadata, mbind, M_bind, lift.
  destruct (to_vec m) as [payload|] eqn:Hj; simpl; [|done]. intros H.
  assert (blen payload <= MAX_METADATA_BYTES)%N as Hl.
  { revert H. unfold write_frame. rewrite bind_ensure.
    destruct (MAX_METADATA_BYTES <? blen payload)%N eqn:E; [done|]. by apply N.ltb_ge in E. }
  rewrite metadata_write_frame_open in H by done. injection H as <-. simpl.
  exists (encode_frame KIND_METADATA_REQUEST [] ++ encode_frame KIND_PEER_METADATA payload).
  rewrite <-!app_assoc. split; [done|]. split; [|apply metadata_new_id].
  unfold read_metadata_request, read_metadata, ensure, mbind, M_bind, mret, M_ret.
  rewrite metadata_read_frame_encode by (done || auto). simpl. rewrite metadata_read_frame_encode by (done || auto). simpl.
  unfold lift. by rewrite (from_slice_to_vec _ _ _ _ Hj).
Qed.

(** Whatever bytes arrive, metadata that is accepted has fields of at most
    255 bytes without control characters other than the tab. *)
Theorem read_metadata_clean r m r' :
  read_metadata r = (Ok (Some m), r') -> clean_metadata m.
Proof.
  unfold read_metadata. intros ([kind payload] & r1 & _ & H)%bind_ok_inv.
  rewrite bind_ensure in H. destruct (kind =? _)%N; [|done].
  apply bind_ok_inv in H as (raw & r2 & _ & [= H _]). by apply metadata_new_clean in H.
Qed.
End exchange.

(** A well-formed field whose 255th byte falls inside a character makes the
    reader panic: [read_metadata] does so on a response frame a peer can
    send. *)
Theorem long_field_panics {SJ : SerdeJson} {SL : SerdeJsonLaws} (c1 c2 : ascii) pre post u o payload rest e :
  Forall (fun c => printable c = true) (pre ++ [c1; c2] ++ post) ->
  length pre = 254 -> is_cont c2 = true ->
  to_vec (mk_PeerMetadata (pre ++ [c1; c2] ++ post) u o) = Ok payload ->
  (blen payload <= MAX_METADATA_BYTES)%N ->
  read_metadata (mk_reader (encode_frame KIND_PEER_METADATA payload ++ rest) e)
  = (Ok None, mk_reader rest e).
Proof.
  intros Hp Hl Hc Hj Hb. unfold read_metadata, ensure, mbind, M_bind, mret, M_ret.
  rewrite metadata_read_frame_encode by (done || auto). simpl. unfold lift. rewrite (from_slice_to_vec _ _ _ _ Hj). simpl.
  assert (sanitize_field (pre ++ [c1; c2] ++ post) = None) as E; [|unfold metadata_new; simpl in E; by rewrite E].
  unfold sanitize_field. rewrite filter_id by done. unfold truncate.
  rewrite decide_False by (rewrite !length_app; simpl; unfold MAX_FIELD_LEN; lia).
  unfold is_char_boundary. rewrite lookup_app_r by (unfold MAX_FIELD_LEN; lia).
  rewrite Hl. simpl. by rewrite Hc.
Qed.

(** ** Witnesses *)

#[local] Transparent encode_frame.

Definition demo_metadata : PeerMetadata := mk_PeerMetadata (bs "ho") (bs "u") (bs "x").

Lemma metadata_exchange_witness :
  let w := ((write_metadata_request;; @write_metadata bit_json demo_metadata) open_writer).2 in
  exists d, wr_out w = d /\
    ((read_metadata_request;; @read_metadata bit_json) (mk_reader d UnexpectedEof)).1
    = Ok (Some demo_metadata).
Proof.
  intros w.
  destruct (@metadata_exchange bit_json bit_json_laws demo_metadata [] BrokenPipe w UnexpectedEof [])
    as (d & Hd & Hr & _).
  - vm_compute. reflexivity.
  - exists d. split; [exact Hd|]. rewrite app_nil_r in Hr. rewrite Hr. reflexivity.
Defined.

Lemma read_metadata_clean_witness :
  clean_metadata demo_metadata.
Proof.
  refine (@read_metadata_clean bit_json (mk_reader (encode_frame KIND_PEER_METADATA
    match @to_vec bit_json _ _ (mk_PeerMetadata (bs "h" ++ [ascii_of_N 7] ++ bs "o") (bs "u") (bs "x"))
    with Ok b => b | Err _ => [] end) UnexpectedEof) demo_metadata (mk_reader [] UnexpectedEof) _).
  vm_compute. reflexivity.
Defined.

(** 254 letters and an [é]. *)
Lemma long_field_panics_witness :
  let m := mk_PeerMetadata (replicate 254 "a"%char ++ [ascii_of_N 195; ascii_of_N 169] ++ []) [] [] in
  exists payload, @to_vec bit_json _ _ m = Ok payload /\
    (@read_metadata bit_json (mk_reader (encode_frame KIND_PEER_METADATA payload) UnexpectedEof)).1
    = Ok None.
Proof.
  intros m. eexists. split; [reflexivity|].
  rewrite <-(app_nil_r (encode_frame _ _)).
  rewrite (@long_field_panics bit_json bit_json_laws (ascii_of_N 195) (ascii_of_N 169)
             (replicate 254 "a"%char) [] [] []); [reflexivity|..].
  - apply (bool_decide_unpack _). vm_compute. exact I.
  - reflexivity.
  - reflexivity.
  - reflexivity.
  - apply N.leb_le. vm_compute. reflexivity.
Defined.
