(* ===== verification/History.v ===== *)
(** * Command history: [cli/src/commands/connect/history.rs]

    The entries, the navigation pointer and the line being edited before the
    navigation started. Where the code indexes a vector, an index out of range
    is a panic: [None]. Writing the history file never fails visibly; the file
    operations are kept in the state of the file system. *)

From S2P Require Import Prelude Text Fs.
From stdpp Require Import list.

Definition MAX_HISTORY_ENTRIES : nat := 1000.

Record CommandHistory : Type := mk_CommandHistory {
  hist_path : option path;
  entries : list bytes;
  index : option nat;
  pending : bytes;
}.

Definition set_nav (h : CommandHistory) (i : option nat) (p : bytes) : CommandHistory :=
  mk_CommandHistory (hist_path h) (entries h) i p.

(** [CommandHistory::new] *)
Definition history_new (p : option path) : M fs io_error CommandHistory := fun s =>
  match p with
  | None => (Ok (mk_CommandHistory None [] None []), s)
  | Some q =>
      let '(r, s') := read_to_string q s in
      let es := match r with
                | Ok content =>
                    let ls := lines content in drop (length ls - MAX_HISTORY_ENTRIES) ls
                | Err _ => []
                end in
      (Ok (mk_CommandHistory p es None []), s')
  end.

(** [OpenOptions::new().create(true).append(true).open]; the default mode is
    0666 less the umask. *)
Definition open_append (p : path) : M fs io_error unit := syscall (fun s =>
  match nodes s !! p with
  | Some (File _ _) => (Ok tt, nodes s)
  | Some (Dir _) => (Err IsADirectory, nodes s)
  | None =>
      match parent_check (nodes s) p with
      | Ok _ => (Ok tt, <[p := File [] (masked s 438)]> (nodes s))
      | Err e => (Err e, nodes s)
      end
  end).

(** [writeln!] on an unbuffered file is a write per piece, and stops at the
    first that fails. *)
Definition append_to_file (h : CommandHistory) (entry : bytes) (s : fs) : fs :=
  match hist_path h with
  | None => s
  | Some p =>
      let s := match p with [] => s | _ :: parent => (create_dir_all parent s).2 end in
      match open_append p s with
      | (Ok _, s) => ((file_write_all p entry;; file_write_all p [NL]) s).2
      | (Err _, s) => s
      end
  end.

Definition add (h : CommandHistory) (command : bytes) (s : fs) : CommandHistory * fs :=
  let trimmed := trim command in
  if decide (trimmed = []) then (h, s)
  else if decide (last (entries h) = Some trimmed) then (set_nav h None [], s)
  else
    let es := entries h ++ [trimmed] in
    let es := if decide (MAX_HISTORY_ENTRIES < length es) then tail es else es in
    let h := mk_CommandHistory (hist_path h) es None [] in
    (h, append_to_file h trimmed s).

(** [up] and [down] return the line to show; the outer [None] is a panic. *)
Definition up (h : CommandHistory) (current : bytes) : option (option bytes * CommandHistory) :=
  match entries h with
  | [] => Some (None, h)
  | _ =>
      let '(new_index, p) :=
        match index h with
        | None => (length (entries h) - 1, current)
        | Some i => (i - 1, pending h)
        end in
      e ← entries h !! new_index;
      Some (Some e, set_nav h (Some new_index) p)
  end.

Definition down (h : CommandHistory) : option (option bytes * CommandHistory) :=
  match index h with
  | None => Some (None, h)
  | Some current_index =>
      if decide (length (entries h) <= current_index + 1)
      then Some (Some (pending h), set_nav h None (pending h))
      else
        e ← entries h !! (current_index + 1);
        Some (Some e, set_nav h (Some (current_index + 1)) (pending h))
  end.

Definition abandon_navigation (h : CommandHistory) (current : bytes) : CommandHistory :=
  set_nav h None current.

(** ** The invariant *)

Definition history_ok (h : CommandHistory) : Prop :=
  length (entries h) <= MAX_HISTORY_ENTRIES /\
  match index h with Some i => i < length (entries h) | None => True end.

Lemma history_new_ok p s h s' : history_new p s = (Ok h, s') -> history_ok h.
Proof.
  unfold history_new. destruct p as [q|].
  - destruct (read_to_string q s) as [[content|e] s1]; intros [= <- _]; split; simpl; auto; try lia.
    rewrite length_drop. lia.
  - intros [= <- _]. split; simpl; auto. lia.
Qed.

Lemma add_ok h c s : history_ok h -> history_ok (add h c s).1.
Proof.
  intros [H1 H2]. unfold add. case_decide; [done|]. case_decide; [by split|]. simpl.
  split; simpl; [|done]. case_decide as Hl; [|lia].
  destruct (entries h); simpl in *; [lia|]. rewrite length_app in *. simpl in *. lia.
Qed.

Lemma abandon_ok h c : history_ok h -> history_ok (abandon_navigation h c).
Proof. by intros [H1 _]. Qed.

Lemma up_ok h c : history_ok h -> exists r h', up h c = Some (r, h') /\ history_ok h'.
Proof.
  intros [H1 H2]. unfold up. destruct (entries h) as [|e es] eqn:He.
  { eexists _, _. split; [done|]. split; [by rewrite He|]. by rewrite He. }
  rewrite <-He.
  destruct (index h) as [i|]; simpl;
    (edestruct (lookup_lt_is_Some_2 (entries h)) as [x ->]; [rewrite He in *; simpl in *; lia|]);
    (eexists _, _; split; [done|]; split; simpl; rewrite He in *; simpl in *; lia).
Qed.

Lemma down_ok h : history_ok h -> exists r h', down h = Some (r, h') /\ history_ok h'.
Proof.
  intros [H1 H2]. unfold down. destruct (index h) as [i|] eqn:Hi.
  - case_decide; [by eexists _, _|].
    edestruct (lookup_lt_is_Some_2 (entries h) (i + 1)) as [x Hx]; [lia|]. rewrite Hx. simpl.
    eexists _, _. split; [done|]. split; simpl; [done|lia].
  - eexists _, _. split; [done|]. split; [done|]. by rewrite Hi.
Qed.

(** ** Navigation *)

(** [n] times up from a line, and [n] times down. *)
Fixpoint ups (n : nat) (h : CommandHistory) (current : bytes) : option CommandHistory :=
  match n with
  | O => Some h
  | S n => '(_, h) ← up h current; ups n h current
  end.

Fixpoint downs (n : nat) (h : CommandHistory) : option (option bytes * CommandHistory) :=
  match n with
  | O => Some (None, h)
  | S n =>
      '(r, h) ← down h;
      match n with O => Some (r, h) | _ => downs n h end
  end.

Lemma up_first h c :
  entries h <> [] -> index h = None ->
  exists e, last (entries h) = Some e /\
    up h c = Some (Some e, set_nav h (Some (length (entries h) - 1)) c).
Proof.
  intros He Hi. unfold up. rewrite Hi. destruct (entries h) as [|x es] eqn:E; [done|]. rewrite <-E.
  rewrite last_lookup. replace (pred (length (entries h))) with (length (entries h) - 1) by lia.
  destruct (lookup_lt_is_Some_2 (entries h) (length (entries h) - 1)) as [e He'];
    [rewrite E; simpl; lia|].
  exists e. split; [done|]. by rewrite He'.
Qed.

Lemma up_next h c i :
  index h = Some (S i) -> S i < length (entries h) ->
  exists e, entries h !! i = Some e /\ up h c = Some (Some e, set_nav h (Some i) (pending h)).
Proof.
  intros Hi Hl. unfold up. rewrite Hi. destruct (entries h) as [|x es] eqn:E; [simpl in *; lia|].
  rewrite <-E in *. destruct (lookup_lt_is_Some_2 (entries h) i) as [e He]; [lia|].
  exists e. split; [done|]. simpl. rewrite Nat.sub_0_r, He. done.
Qed.

Lemma ups_index n h c :
  index h = None -> n < length (entries h) ->
  ups (S n) h c = Some (set_nav h (Some (length (entries h) - S n)) c).
Proof.
  intros Hi Hn.
  assert (forall k g, pending g = c -> index g = Some (k + (length (entries g) - S n)) ->
    k + (length (entries g) - S n) < length (entries g) -> k <= n -> n < length (entries g) ->
    ups k g c = Some (set_nav g (Some (length (entries g) - S n)) c)) as Hk.
  { induction k as [|k IH]; intros g Hp Hg Hl Hkn Hng; cbn [ups].
    - simpl in Hg. destruct g as [q es i p]. simpl in *. by subst.
    - destruct (up_next g c _ Hg Hl) as (e & _ & ->). simpl.
      rewrite IH; simpl; try done; try lia; by rewrite Hp. }
  cbn [ups]. destruct (up_first h c) as (e & _ & ->); [by destruct (entries h); simpl in *; [lia|]|done|].
  simpl. rewrite Hk; simpl; try done; try lia; f_equal; lia.
Qed.

Lemma downs_last h i :
  index h = Some i -> length (entries h) = i + 1 ->
  downs 1 h = Some (Some (pending h), set_nav h None (pending h)).
Proof. intros Hi Hl. cbn [downs]. unfold down. rewrite Hi, decide_True by lia. done. Qed.

Lemma downs_next n h i :
  index h = Some i -> i + 1 < length (entries h) ->
  downs (S (S n)) h = downs (S n) (set_nav h (Some (i + 1)) (pending h)).
Proof.
  intros Hi Hl. change (downs (S (S n)) h) with ('(_, h) ← down h; downs (S n) h).
  unfold down. rewrite Hi, decide_False by lia.
  by destruct (lookup_lt_is_Some_2 (entries h) (i + 1) Hl) as [e ->].
Qed.

Lemma downs_from n h i :
  index h = Some i -> length (entries h) = i + S n ->
  downs (S n) h = Some (Some (pending h), set_nav h None (pending h)).
Proof.
  revert h i. induction n as [|n IH]; intros h i Hi Hl; [by apply (downs_last h i)|].
  rewrite (downs_next n h i) by (done || lia). apply (IH (set_nav h (Some (i + 1)) (pending h)) (i + 1)); simpl; [done|lia].
Qed.

(** Browsing the history does not lose the line being edited: from a line
    that is not a history entry, after going up any number of times within
    the history the oldest visited entry is shown, and going down as many
    times shows the line again and leaves the history as it was. *)
Theorem navigation_roundtrip h current n :
  index h = None -> n < length (entries h) ->
  exists h', ups (S n) h current = Some h' /\ index h' = Some (length (entries h) - S n) /\
    downs (S n) h' = Some (Some current, set_nav h None current) /\
    entries h' = entries h.
Proof.
  intros Hi Hn. eexists. split; [by apply ups_index|]. split; [done|]. split; [|done].
  rewrite (downs_from n _ (length (entries h) - S n)) by (simpl; (done || lia)). done.
Qed.

Definition demo_history : CommandHistory :=
  mk_CommandHistory None [bs "ls"; bs "put a"; bs "get b"] None [].

Lemma navigation_roundtrip_witness :
  exists h', ups 2 demo_history (bs "lc") = Some h' /\
    downs 2 h' = Some (Some (bs "lc"), set_nav demo_history None (bs "lc")).
Proof.
  destruct (navigation_roundtrip demo_history (bs "lc") 1) as (h' & H1 & _ & H2 & _).
  - reflexivity.
  - simpl. lia.
  - exists h'. split; [exact H1|exact H2].
Defined.
