(* ===== verification/Editor.v ===== *)
(** * The line editor: [cli/src/commands/connect/input/editor.rs]

    A line, a cursor and a mode; [apply] is one editing event. An index out of
    range, which panics in [Vec::insert] and [Vec::remove], is [None]. *)

From S2P Require Import Prelude Text Fs History.
From stdpp Require Import list.

Inductive EditorEvent : Type :=
| InsertByte (byte : ascii)
| Backspace
| Delete
| MoveLeft
| MoveRight
| MoveHome
| MoveEnd
| HistoryUp
| HistoryDown
| Tab
| Submit.

Inductive EditorEffect : Type :=
| NoOp
| Render
| ClearAndExit
| SubmitPrompt (line : bytes)
| SubmitEscape (line : bytes)
| RequestCompletion.

Inductive EditorMode : Type := Escape | Prompt.

#[export] Instance EditorMode_eq_dec : EqDecision EditorMode.
Proof. solve_decision. Defined.

Record LineEditor : Type := mk_LineEditor {
  line : bytes;
  cursor : nat;
  mode : EditorMode;
}.

Definition new_escape : LineEditor := mk_LineEditor (bs "~") 1 Escape.
Definition new_prompt : LineEditor := mk_LineEditor [] 0 Prompt.

Definition replace_line (ed : LineEditor) (line : bytes) (cursor : nat) : LineEditor :=
  mk_LineEditor line (Nat.min cursor (length line)) (mode ed).

(** [Vec::insert] and [Vec::remove] *)
Definition vec_insert {A} (i : nat) (x : A) (l : list A) : option (list A) :=
  if decide (i <= length l) then Some (take i l ++ [x] ++ drop i l) else None.
Definition vec_remove {A} (i : nat) (l : list A) : option (list A) :=
  if decide (i < length l) then Some (take i l ++ drop (S i) l) else None.

Definition move (ed : LineEditor) (c : nat) : LineEditor := mk_LineEditor (line ed) c (mode ed).

Definition apply (ed : LineEditor) (event : EditorEvent) (history : CommandHistory) :
    option (EditorEffect * LineEditor * CommandHistory) :=
  match event with
  | InsertByte byte =>
      let history := abandon_navigation history (utf8_lossy (line ed)) in
      l ← vec_insert (cursor ed) byte (line ed);
      Some (Render, mk_LineEditor l (cursor ed + 1) (mode ed), history)
  | Backspace =>
      if decide (cursor ed = 0) then Some (NoOp, ed, history) else
      let history := abandon_navigation history (utf8_lossy (line ed)) in
      l ← vec_remove (cursor ed - 1) (line ed);
      let ed' := mk_LineEditor l (cursor ed - 1) (mode ed) in
      if bool_decide (l = []) && bool_decide (mode ed = Escape)
      then Some (ClearAndExit, ed', history)
      else Some (Render, ed', history)
  | Delete =>
      if decide (length (line ed) <= cursor ed) then Some (NoOp, ed, history) else
      let history := abandon_navigation history (utf8_lossy (line ed)) in
      l ← vec_remove (cursor ed) (line ed);
      Some (Render, mk_LineEditor l (cursor ed) (mode ed), history)
  | MoveLeft =>
      if decide (0 < cursor ed) then Some (Render, move ed (cursor ed - 1), history)
      else Some (NoOp, ed, history)
  | MoveRight =>
      if decide (cursor ed < length (line ed)) then Some (Render, move ed (cursor ed + 1), history)
      else Some (NoOp, ed, history)
  | MoveHome => Some (Render, move ed 0, history)
  | MoveEnd => Some (Render, move ed (length (line ed)), history)
  | HistoryUp =>
      '(r, history) ← up history (utf8_lossy (line ed));
      match r with
      | Some prev => Some (Render, mk_LineEditor prev (length prev) (mode ed), history)
      | None => Some (NoOp, ed, history)
      end
  | HistoryDown =>
      '(r, history) ← down history;
      match r with
      | Some next => Some (Render, mk_LineEditor next (length next) (mode ed), history)
      | None => Some (NoOp, ed, history)
      end
  | Tab => Some (RequestCompletion, ed, history)
  | Submit =>
      match mode ed with
      | Prompt => Some (SubmitPrompt (line ed), ed, history)
      | Escape => Some (SubmitEscape (line ed), ed, history)
      end
  end.

(** ** The invariant *)

Definition editor_ok (ed : LineEditor) : Prop := cursor ed <= length (line ed).

Lemma vec_insert_ok {A} i (x : A) l :
  i <= length l -> exists l', vec_insert i x l = Some l' /\ length l' = S (length l).
Proof.
  intros. unfold vec_insert. rewrite decide_True by done. eexists. split; [done|].
  rewrite !length_app, length_take, length_drop. simpl. lia.
Qed.

Lemma vec_remove_ok {A} i (l : list A) :
  i < length l -> exists l', vec_remove i l = Some l' /\ S (length l') = length l.
Proof.
  intros. unfold vec_remove. rewrite decide_True by done. eexists. split; [done|].
  rewrite !length_app, length_take, length_drop. simpl. lia.
Qed.

(** Inserting a byte and deleting it is the identity. *)
Lemma vec_remove_insert {A} i (x : A) l l' : vec_insert i x l = Some l' -> vec_remove i l' = Some l.
Proof.
  unfold vec_insert, vec_remove. case_decide as Hi; [|done]. intros [= <-].
  rewrite decide_True; [|rewrite length_app, length_take; simpl; lia].
  rewrite take_app_le, take_take, Nat.min_id by (rewrite length_take; lia).
  rewrite drop_app_ge by (rewrite length_take; lia). rewrite length_take, Nat.min_l by done.
  replace (S i - i) with 1 by lia. simpl. by rewrite drop_0, take_drop.
Qed.

(** No event panics, and every event keeps the cursor in the line, the mode,
    and the history well-formed. *)
Lemma apply_ok ed ev h :
  editor_ok ed -> history_ok h ->
  exists eff ed' h', apply ed ev h = Some (eff, ed', h') /\ editor_ok ed' /\ history_ok h' /\
    mode ed' = mode ed /\
    match eff with
    | SubmitEscape l => mode ed = Escape /\ l = line ed
    | SubmitPrompt l => mode ed = Prompt /\ l = line ed
    | ClearAndExit => mode ed = Escape
    | _ => True
    end.
Proof.
  intros He Hh. unfold editor_ok in *. destruct ev; cbn [apply].
  - destruct (vec_insert_ok (cursor ed) byte (line ed) He) as (l & -> & Hl). simpl.
    eexists _, _, _. split; [done|]. split; [simpl; lia|]. split; [by apply abandon_ok|done].
  - case_decide; [by eexists _, _, _|].
    destruct (vec_remove_ok (cursor ed - 1) (line ed)) as (l & -> & Hl); [lia|]. simpl.
    destruct (bool_decide (l = []) && bool_decide (mode ed = Escape)) eqn:E;
      eexists _, _, _; (split; [done|]); (split; [simpl; lia|]); (split; [by apply abandon_ok|]);
      (split; [done|]); [|done].
    apply andb_prop in E as [_ E]. by apply bool_decide_eq_true in E.
  - case_decide; [by eexists _, _, _|].
    destruct (vec_remove_ok (cursor ed) (line ed)) as (l & -> & Hl); [lia|]. simpl.
    eexists _, _, _. split; [done|]. split; [simpl; lia|]. split; [by apply abandon_ok|done].
  - case_decide; eexists _, _, _; (split; [done|]); simpl; auto with lia.
  - case_decide; eexists _, _, _; (split; [done|]); simpl; auto with lia.
  - eexists _, _, _. split; [done|]. simpl. auto with lia.
  - eexists _, _, _. split; [done|]. simpl. auto with lia.
  - destruct (up_ok h (utf8_lossy (line ed)) Hh) as (r & h' & -> & Hh'). simpl.
    destruct r as [p|]; eexists _, _, _; (split; [done|]); simpl; auto.
  - destruct (down_ok h Hh) as (r & h' & -> & Hh'). simpl.
    destruct r as [p|]; eexists _, _, _; (split; [done|]); simpl; auto.
  - by eexists _, _, _.
  - destruct (mode ed) eqn:Hm; eexists _, _, _; (split; [done|]); auto.
Qed.

(** Editing is exact. Typing a byte and pressing Backspace is the identity
    on the line and the cursor (in escape mode unless the line becomes empty,
    which leaves the editor), and so is typing, moving left, and Delete; both
    succeed whatever the line, as long as the cursor is inside it. *)
Theorem typing_is_undone ed b h :
  editor_ok ed ->
  exists h1 ed1 h2 eff,
    apply ed (InsertByte b) h = Some (Render, ed1, h1) /\
    apply ed1 Backspace h1 = Some (eff, ed, h2) /\
    (eff = Render <-> ~ (line ed = [] /\ mode ed = Escape)) /\
    exists ed2 h3, apply ed1 MoveLeft h1 = Some (Render, ed2, h1) /\
      apply ed2 Delete h1 = Some (Render, ed, h3).
Proof.
  intros He. destruct (vec_insert_ok (cursor ed) b (line ed) He) as (l & Hl & Hlen).
  pose proof (vec_remove_insert _ _ _ _ Hl) as Hr.
  assert (ed = mk_LineEditor (line ed) (cursor ed) (mode ed)) as Hed by by destruct ed.
  set (h1 := abandon_navigation h (utf8_lossy (line ed))).
  exists h1, (mk_LineEditor l (cursor ed + 1) (mode ed)), (abandon_navigation h1 (utf8_lossy l)).
  exists (if bool_decide (line ed = []) && bool_decide (mode ed = Escape) then ClearAndExit else Render).
  split; [cbn [apply]; by rewrite Hl|]. split; [|split].
  - cbn [apply cursor line mode]. rewrite decide_False by lia. rewrite Nat.add_sub, Hr. simpl.
    rewrite <-Hed. by destruct (bool_decide _ && bool_decide _).
  - case_bool_decide; case_bool_decide; simpl; naive_solver.
  - exists (mk_LineEditor l (cursor ed) (mode ed)), (abandon_navigation h1 (utf8_lossy l)).
    cbn [apply cursor line mode]. rewrite decide_True by lia. unfold move. simpl.
    rewrite Nat.add_sub. split; [done|].
    unfold editor_ok in He. rewrite decide_False by lia. rewrite Hr. simpl. by rewrite <-Hed.
Qed.

Lemma typing_is_undone_witness :
  exists h1 ed1 h2 eff,
    apply new_escape (InsertByte "q") demo_history = Some (Render, ed1, h1) /\
    apply ed1 Backspace h1 = Some (eff, new_escape, h2).
Proof.
  destruct (typing_is_undone new_escape "q"%char demo_history) as (h1 & ed1 & h2 & eff & H1 & H2 & _).
  - unfold editor_ok. simpl. lia.
  - exists h1, ed1, h2, eff. split; [exact H1|exact H2].
Defined.
