(* ===== verification/InputActions.v ===== *)
(** * Escape actions and local commands: [cli/src/commands/connect/input/actions.rs]
    and the parser of [cli/src/commands/connect/prompt.rs]

    [shell_words::split] is not part of the repository: the parsers take it as
    the function [split], with [None] for its error. *)

From S2P Require Import Prelude Text.

(** ** [prompt.rs] *)

Inductive LocalCommand : Type :=
| Help
| Lpwd
| Lls (dir : option bytes)
| Lcd (dir : bytes)
| Paths
| Exit
| Disconnect
| Clear
| Put (local : bytes) (remote : option bytes) (recursive : bool)
| Get (remote : bytes) (local : option bytes) (recursive : bool)
| UsageError (message : bytes)
| Unknown (keyword : bytes).

Section parse.
Variable split : bytes -> option (list bytes).

Definition is_recursive_flag (arg : bytes) : bool :=
  bool_decide (arg = bs "-r") || bool_decide (arg = bs "--recursive").

(** The loop over [parts[1..]] of [put] and [get]. *)
Fixpoint transfer_args (args : list bytes) : bool * list bytes :=
  match args with
  | [] => (false, [])
  | arg :: args =>
      let '(recursive, rest) := transfer_args args in
      if is_recursive_flag arg then (true, rest) else (recursive, arg :: rest)
  end.

Definition word (keyword : bytes) (words : list string) : bool :=
  bool_decide (keyword ∈ (bs <$> words)).

Definition parse_local_command (buf : bytes) : option LocalCommand :=
  let trimmed := trim (utf8_lossy buf) in
  if decide (trimmed = []) then None else
  match default [] (split trimmed) with
  | [] => None
  | keyword :: rest =>
      if word keyword ["help"; "?"; "~?"; "~help"]%string then Some Help
      else if word keyword ["lpwd"; "pwd"; "~lpwd"; "~pwd"]%string then Some Lpwd
      else if word keyword ["lls"; "ls"; "~lls"; "~ls"]%string then Some (Lls (head rest))
      else if word keyword ["lcd"; "cd"; "~lcd"; "~cd"]%string then
        match rest with
        | path :: _ => Some (Lcd path)
        | [] => Some (UsageError (bs "lcd: missing directory path. Usage: lcd <path>"))
        end
      else if word keyword ["paths"]%string then Some Paths
      else if word keyword ["exit"; "~exit"]%string then Some Exit
      else if word keyword ["disconnect"; "~disconnect"]%string then Some Disconnect
      else if word keyword ["clear"; "cls"; "~clear"; "~cls"]%string then Some Clear
      else if word keyword ["put"; "~put"]%string then
        let '(recursive, args) := transfer_args rest in
        match args with
        | local :: more => Some (Put local (head more) recursive)
        | [] => Some (UsageError (bs "put: missing local path. Usage: put [-r] <local> [remote]"))
        end
      else if word keyword ["get"; "~get"]%string then
        let '(recursive, args) := transfer_args rest in
        match args with
        | remote :: more => Some (Get remote (head more) recursive)
        | [] => Some (UsageError (bs "get: missing remote path. Usage: get [-r] <remote> [local]"))
        end
      else Some (Unknown keyword)
  end.
End parse.

(** ** [actions.rs] *)

Inductive EscapeAction : Type :=
| ADisconnect
| ACommandPrompt
| AHelp
| ASendLiteral (bytes : bytes)
| ARunLocal (command : LocalCommand)
| ARequestCompletion.

Inductive InputMode : Type := Remote | LocalEdit.

#[export] Instance InputMode_eq_dec : EqDecision InputMode.
Proof. solve_decision. Defined.

Inductive ControlSequenceState : Type := CtlNone | CtlEscape | CtlCsi.

#[export] Instance ControlSequenceState_eq_dec : EqDecision ControlSequenceState.
Proof. solve_decision. Defined.

Inductive RemoteAnsiState : Type := AnsiNone | AfterEsc | InCsi | InOsc | InOscEsc.

(** [u8::is_ascii_whitespace] *)
Definition ascii_whitespace (c : ascii) : bool :=
  existsb (N.eqb (N_of_ascii c)) [32; 9; 10; 12; 13]%N.

Fixpoint drop_blanks (b : bytes) : bytes :=
  match b with
  | c :: r => if ascii_whitespace c then drop_blanks r else b
  | [] => []
  end.

Definition trim_bytes (s : bytes) : bytes := reverse (drop_blanks (reverse (drop_blanks s))).

Definition strip_tilde (buf : bytes) : bytes :=
  match buf with
  | c :: r => if decide (c = "~"%char) then r else buf
  | [] => buf
  end.

Definition parse_escape (split : bytes -> option (list bytes)) (buf : bytes) : option EscapeAction :=
  let cmd := trim_bytes (strip_tilde buf) in
  if decide (cmd = bs ".") then Some ADisconnect
  else if decide (cmd = bs "?" \/ cmd = bs "help") then Some AHelp
  else if decide (cmd = bs "C" \/ cmd = bs "c") then Some ACommandPrompt
  else if decide (cmd = bs "~") then Some (ASendLiteral (bs "~"))
  else ARunLocal <$> parse_local_command split cmd.

Definition paired_enter_byte (byte : ascii) : option ascii :=
  if decide (byte = CR) then Some NL
  else if decide (byte = NL) then Some CR
  else None.
