(* ===== verification/Engine.v ===== *)
(** * The input engine: [cli/src/commands/connect/input/engine.rs]

    Local keystrokes go to the remote peer, or, after a [~] on an empty line,
    to the line editor. The engine's output buffers, and the file system the
    histories are written to, are threaded with it; [None] is a panic. The
    outcome of the completion request, which asks the remote peer, is an
    argument. *)

From S2P Require Import Prelude Text Fs History Editor InputActions.

Record LineSession : Type := mk_LineSession {
  editor : LineEditor;
  display_cursor : nat;
  control_state : ControlSequenceState;
}.

Record InputEngine : Type := mk_InputEngine {
  mode : InputMode;
  at_start_of_line : bool;
  local_line_len : N;
  active_line : option LineSession;
  escape_history : CommandHistory;
  prompt_history : CommandHistory;
  swallow_next_enter_pair : option ascii;
  remote_ansi : RemoteAnsiState;
  remote_is_windows : bool;
}.

(** [InputEngine::new] *)
Definition engine_new (root : path) (remote_is_windows : bool) : M fs io_error InputEngine :=
  let history_dir := bs "history" :: root in
  escape_history ← history_new (Some (bs "escape.history" :: history_dir));
  prompt_history ← history_new (Some (bs "prompt.history" :: history_dir));
  mret (mk_InputEngine Remote true 0 None escape_history prompt_history None AnsiNone
          remote_is_windows).

(** ** Field updates *)

Definition set_mode (m : InputMode) (e : InputEngine) : InputEngine :=
  mk_InputEngine m (at_start_of_line e) (local_line_len e) (active_line e) (escape_history e)
    (prompt_history e) (swallow_next_enter_pair e) (remote_ansi e) (remote_is_windows e).
Definition set_line_state (start : bool) (len : N) (e : InputEngine) : InputEngine :=
  mk_InputEngine (mode e) start len (active_line e) (escape_history e)
    (prompt_history e) (swallow_next_enter_pair e) (remote_ansi e) (remote_is_windows e).
Definition set_active (l : option LineSession) (e : InputEngine) : InputEngine :=
  mk_InputEngine (mode e) (at_start_of_line e) (local_line_len e) l (escape_history e)
    (prompt_history e) (swallow_next_enter_pair e) (remote_ansi e) (remote_is_windows e).
Definition set_swallow (b : option ascii) (e : InputEngine) : InputEngine :=
  mk_InputEngine (mode e) (at_start_of_line e) (local_line_len e) (active_line e)
    (escape_history e) (prompt_history e) b (remote_ansi e) (remote_is_windows e).
Definition set_ansi (a : RemoteAnsiState) (e : InputEngine) : InputEngine :=
  mk_InputEngine (mode e) (at_start_of_line e) (local_line_len e) (active_line e)
    (escape_history e) (prompt_history e) (swallow_next_enter_pair e) a (remote_is_windows e).
Definition set_escape_history (h : CommandHistory) (e : InputEngine) : InputEngine :=
  mk_InputEngine (mode e) (at_start_of_line e) (local_line_len e) (active_line e) h
    (prompt_history e) (swallow_next_enter_pair e) (remote_ansi e) (remote_is_windows e).
Definition set_prompt_history (h : CommandHistory) (e : InputEngine) : InputEngine :=
  mk_InputEngine (mode e) (at_start_of_line e) (local_line_len e) (active_line e)
    (escape_history e) h (swallow_next_enter_pair e) (remote_ansi e) (remote_is_windows e).

(** [observe_remote]: only a newline arms the escape detector. *)
Fixpoint observe_remote (e : InputEngine) (data : bytes) : InputEngine :=
  match data with
  | [] => e
  | byte :: data =>
      observe_remote (if decide (byte = NL) then set_line_state true 0 e else e) data
  end.

(** ** Rendering *)

Definition ESC : ascii := ascii_of_N 27.

(** [format!("\x1b[{n}D")] and the like *)
Definition cursor_move (n : nat) (dir : string) : bytes :=
  ESC :: bs "[" ++ decimal (N.of_nat n) ++ bs dir.

Definition set_display (c : nat) (l : LineSession) : LineSession :=
  mk_LineSession (editor l) c (control_state l).

Definition render_line (l : LineSession) : bytes * LineSession :=
  let ed := editor l in
  let tail_len := length (line ed) - cursor ed in
  ([CR] ++ (if decide (Editor.mode ed = Prompt) then bs "irosh> " else []) ++ (ESC :: bs "[K")
     ++ line ed ++ (if decide (0 < tail_len) then cursor_move tail_len "D" else []),
   set_display (cursor ed) l).

Definition echo_escape_line (l : LineSession) : bytes :=
  match list.last (line (editor l)) with Some last_byte => [last_byte] | None => [] end.

Definition BS : ascii := ascii_of_N 8.

Definition clear_line_preview (l : LineSession) (chars_on_screen : nat) : bytes :=
  if decide (Editor.mode (editor l) = Escape)
  then concat (replicate (Nat.max chars_on_screen 1) [BS; " "%char; BS])
  else CR :: ESC :: bs "[K".

Definition finalize_submitted_line (l : LineSession) : bytes * LineSession :=
  let tail_len := length (line (editor l)) - display_cursor l in
  ((if decide (0 < tail_len) then cursor_move tail_len "C" else []) ++ [CR; NL], set_display 0 l).

Definition finalize_exit_line (l : LineSession) : bytes * LineSession :=
  let tail_len := length (line (editor l)) - display_cursor l in
  ((if decide (0 < tail_len) then cursor_move tail_len "C" else []) ++ [CR; NL], set_display 0 l).

(** ** Events *)

(** What one call returns. *)
Record Out : Type := mk_Out {
  to_remote : bytes;
  to_local : bytes;
  actions : list EscapeAction;
}.

Definition no_out : Out := mk_Out [] [] [].
Definition out_app (o1 o2 : Out) : Out :=
  mk_Out (to_remote o1 ++ to_remote o2) (to_local o1 ++ to_local o2) (actions o1 ++ actions o2).
Definition out_remote (b : bytes) : Out := mk_Out b [] [].
Definition out_local (b : bytes) : Out := mk_Out [] b [].
Definition out_action (a : EscapeAction) : Out := mk_Out [] [] [a].

(** [exit_local_prompt]; it pushes the wake-up byte. *)
Definition exit_local_prompt (e : InputEngine) : InputEngine :=
  set_active None (set_line_state true 0 (set_mode Remote e)).
Definition wake_up : Out := out_remote [CR].

Definition prompt_session : LineSession := mk_LineSession new_prompt 0 CtlNone.

Section events.
Variable split : bytes -> option (list bytes).

(** The arm [EditorEffect::SubmitEscape] of [apply_editor_event]. *)
Definition submit_escape (e : InputEngine) (l : LineSession) (bytes : bytes) (s : fs) :
    InputEngine * LineSession * Out * fs :=
  let '(h, s) := add (escape_history e) (utf8_lossy bytes) s in
  let e := set_escape_history h e in
  let '(echo, l) := finalize_submitted_line l in
  match parse_escape split bytes with
  | Some ACommandPrompt =>
      (set_line_state true 0 (set_mode LocalEdit e), prompt_session,
       out_app (out_local (echo ++ bs "irosh> ")) (out_action ACommandPrompt), s)
  | Some (ASendLiteral payload) =>
      (set_active None (set_line_state false 1 (set_mode Remote e)), l,
       out_app (out_local echo) (out_action (ASendLiteral payload)), s)
  | Some action =>
      (exit_local_prompt e, l, out_app (out_app (out_local echo) wake_up) (out_action action), s)
  | None =>
      (exit_local_prompt e, l,
       out_app (out_app (out_local echo) wake_up) (out_remote (bs "~" ++ bytes ++ [CR])), s)
  end.

(** The arm [EditorEffect::SubmitPrompt]. *)
Definition submit_prompt (e : InputEngine) (l : LineSession) (bytes : bytes) (s : fs) :
    InputEngine * LineSession * Out * fs :=
  let '(h, s) := add (prompt_history e) (utf8_lossy bytes) s in
  let e := set_prompt_history h e in
  match parse_local_command split bytes with
  | None =>
      (e, prompt_session,
       out_local ((finalize_submitted_line l).1 ++ [CR; NL] ++ bs "irosh> "), s)
  | Some (Exit as action) | Some (Disconnect as action) =>
      let '(echo, l) := finalize_exit_line l in
      (exit_local_prompt e, l,
       out_app (out_app (out_local echo) wake_up) (out_action (ARunLocal action)), s)
  | Some action =>
      (e, prompt_session,
       out_app (out_local (finalize_submitted_line l).1) (out_action (ARunLocal action)), s)
  end.

Definition with_editor (l : LineSession) (ed : LineEditor) : LineSession :=
  mk_LineSession ed (display_cursor l) (control_state l).

Definition apply_editor_event (event : EditorEvent) (e : InputEngine) (l : LineSession) (s : fs) :
    option (InputEngine * LineSession * Out * fs) :=
  let is_escape := bool_decide (Editor.mode (editor l) = Escape) in
  '(eff, ed, h) ← Editor.apply (editor l) event (if is_escape then escape_history e else prompt_history e);
  let e := if is_escape then set_escape_history h e else set_prompt_history h e in
  let l := with_editor l ed in
  Some match eff with
  | NoOp => (e, l, no_out, s)
  | Render =>
      if is_escape then (e, l, out_local (echo_escape_line l), s)
      else let '(o, l) := render_line l in (e, l, out_local o, s)
  | ClearAndExit =>
      (exit_local_prompt e, l,
       out_app (out_local (clear_line_preview l (length (line (editor l))))) wake_up, s)
  | RequestCompletion => (e, l, out_action ARequestCompletion, s)
  | SubmitEscape bytes => submit_escape e l bytes s
  | SubmitPrompt bytes => submit_prompt e l bytes s
  end.

Definition consume_local_ansi (state : ControlSequenceState) (byte : ascii) :
    ControlSequenceState * option EditorEvent :=
  match state with
  | CtlEscape => (if decide (byte = "["%char) then CtlCsi else CtlNone, None)
  | CtlCsi =>
      if byte_in 32 63 byte then (CtlCsi, None) else
      (CtlNone,
       if decide (byte = "A"%char) then Some HistoryUp
       else if decide (byte = "B"%char) then Some HistoryDown
       else if decide (byte = "C"%char) then Some MoveRight
       else if decide (byte = "D"%char) then Some MoveLeft
       else if decide (byte = "H"%char) then Some MoveHome
       else if decide (byte = "F"%char) then Some MoveEnd
       else if decide (byte = "~"%char) then Some Delete
       else None)
  | CtlNone => (CtlNone, None)
  end.

Definition set_control (c : ControlSequenceState) (l : LineSession) : LineSession :=
  mk_LineSession (editor l) (display_cursor l) c.

(** The event a byte of the local edit mode makes; [inr tt] is Ctrl-C. *)
Definition local_event (e : InputEngine) (l : LineSession) (byte : ascii) :
    InputEngine * LineSession * (option EditorEvent + unit) :=
  let n := N_of_ascii byte in
  if decide (control_state l <> CtlNone) then
    let '(c, ev) := consume_local_ansi (control_state l) byte in (e, set_control c l, inl ev)
  else if (n =? 27)%N then (e, set_control CtlEscape l, inl None)
  else if (n =? 8)%N || (n =? 127)%N then (e, l, inl (Some Backspace))
  else if bool_decide (byte = CR) || bool_decide (byte = NL) then
    (set_line_state true 0 (set_swallow (paired_enter_byte byte) e), l, inl (Some Submit))
  else if (n =? 9)%N then (e, l, inl (Some Tab))
  else if (n =? 3)%N then (e, l, inr tt)
  else if graphic byte || (n =? 32)%N then (e, l, inl (Some (InsertByte byte)))
  else (e, l, inl None).

(** The loop of [process_local] in local edit mode. The line is taken out of
    the engine for every byte, and put back while the mode lasts. *)
Fixpoint local_loop (data : bytes) (e : InputEngine) (o : Out) (s : fs) :
    option (InputEngine * Out * fs) :=
  match data with
  | [] => Some (e, o, s)
  | byte :: data =>
      match active_line e with
      | None => Some (set_mode Remote e, o, s)
      | Some l =>
          let '(e, l, ev) := local_event (set_active None e) l byte in
          match ev with
          | inr _ =>
              Some (exit_local_prompt e,
                    out_app (out_app o (out_local (bs "^C" ++ [CR; NL]))) wake_up, s)
          | inl ev =>
              '(e, l, o, s) ←
                match ev with
                | Some ev =>
                    '(e, l, o', s) ← apply_editor_event ev e l s;
                    Some (e, l, out_app o o', s)
                | None => Some (e, l, o, s)
                end;
              let e := if decide (mode e = LocalEdit) then set_active (Some l) e else e in
              local_loop data e o s
          end
      end
  end.

(** [handle_remote_byte], less its output. *)
Definition handle_remote_byte (e : InputEngine) (byte : ascii) : InputEngine :=
  let n := N_of_ascii byte in
  match remote_ansi e with
  | AnsiNone =>
      if bool_decide (byte = CR) || bool_decide (byte = NL) then set_line_state true 0 e
      else if (n =? 27)%N then set_ansi AfterEsc e
      else if (n =? 8)%N || (n =? 127)%N
      then set_line_state (at_start_of_line e) (N.pred (local_line_len e)) e
      else set_line_state false (local_line_len e + 1) e
  | AfterEsc =>
      set_ansi (if decide (byte = "["%char) then InCsi
                else if decide (byte = "]"%char) then InOsc else AnsiNone) e
  | InCsi => if byte_in 32 63 byte then e else set_ansi AnsiNone e
  | InOsc =>
      if (n =? 7)%N then set_ansi AnsiNone e
      else if (n =? 27)%N then set_ansi InOscEsc e else e
  | InOscEsc => set_ansi AnsiNone e
  end.

Definition escape_session : LineSession := mk_LineSession new_escape 0 CtlNone.

(** The loop of [process_local] in remote mode. *)
Fixpoint remote_loop (data : bytes) (e : InputEngine) (o : Out) (s : fs) :
    option (InputEngine * Out * fs) :=
  match data with
  | [] => Some (e, o, s)
  | byte :: data =>
      let swallowed := bool_decide (swallow_next_enter_pair e = Some byte) in
      let e := set_swallow None e in
      if swallowed then remote_loop data e o s
      else if bool_decide (local_line_len e = 0%N) && bool_decide (byte = "~"%char) then
        let e := set_active (Some escape_session) (set_mode LocalEdit e) in
        let o := out_app o (out_local (bs "~")) in
        match data with
        | [] => Some (e, o, s)
        | _ =>
            '(e, o', s) ← local_loop data e no_out s;
            Some (e, out_app o o', s)
        end
      else remote_loop data (handle_remote_byte e byte) (out_app o (out_remote [byte])) s
  end.

Definition process_local (data : bytes) (e : InputEngine) (s : fs) :
    option (InputEngine * Out * fs) :=
  if decide (mode e = Remote) then remote_loop data e no_out s else local_loop data e no_out s.
End events.

(** ** Completion and resizing *)

(** [completion::CompletionResult] and its edit. *)
Inductive CompletionResult : Type :=
| Applied (line : bytes) (cursor : nat)
| Suggestions (matches : list bytes)
| NoCompletion.

(** [complete_active_line], given what [complete_line] answered. *)
Definition complete_active_line (e : InputEngine) (answer : result unit CompletionResult) :
    bytes * InputEngine :=
  match active_line e with
  | None => ([], e)
  | Some l =>
      let is_escape := bool_decide (Editor.mode (editor l) = Escape) in
      let '(o, l) :=
        match answer with
        | Ok (Applied new_line c) =>
            let l := with_editor l (replace_line (editor l) new_line c) in
            if is_escape then (echo_escape_line l, l) else render_line l
        | Ok (Suggestions matches) =>
            let shown := [CR; NL] ++ join_with (bs "  ") matches ++ [CR; NL] in
            if is_escape then (shown ++ echo_escape_line l, l)
            else let '(r, l) := render_line l in (shown ++ bs "irosh> " ++ r, l)
        | _ => ([], l)
        end in
      (o, set_active (Some l) e)
  end.

Definition handle_resize (e : InputEngine) : option bytes * InputEngine :=
  match active_line e with
  | Some l => let '(o, l) := render_line l in (Some o, set_active (Some l) e)
  | None => (None, e)
  end.
