(* ===== verification/EngineFacts.v ===== *)
(** * The input engine is safe: facts about [Engine.v]

    No input makes the engine panic, local editing does not leak keystrokes to
    the remote peer, other input passes through, and how input may be cut into
    chunks. *)

From S2P Require Import Prelude Text Fs History Editor InputActions Engine.

Lemma out_app_no_r o : out_app o no_out = o.
Proof. destruct o. unfold out_app; simpl. by rewrite !app_nil_r. Qed.

Lemma out_app_no_l o : out_app no_out o = o.
Proof. by destruct o. Qed.

Lemma out_app_assoc o1 o2 o3 : out_app o1 (out_app o2 o3) = out_app (out_app o1 o2) o3.
Proof. unfold out_app; simpl. by rewrite !app_assoc. Qed.

(** ** The invariant *)

Definition histories_ok (e : InputEngine) : Prop :=
  history_ok (escape_history e) /\ history_ok (prompt_history e).

(** A line is being edited exactly in local edit mode, with its cursor inside. *)
Definition engine_ok (e : InputEngine) : Prop :=
  histories_ok e /\
  match active_line e with
  | Some l => editor_ok (editor l) /\ mode e = LocalEdit
  | None => mode e = Remote
  end.

Lemma engine_new_ok root w s e s' : engine_new root w s = (Ok e, s') -> engine_ok e.
Proof.
  unfold engine_new. intros (h1 & s1 & H1 & H)%bind_ok_inv.
  apply bind_ok_inv in H as (h2 & s2 & H2 & [= <- <-]).
  split; [split; by eapply history_new_ok|done].
Qed.

(** What an event, or a run of events, may send to the remote peer, given the
    mode it ends in: nothing while editing goes on; when it ends, at most the
    wake-up byte, or a submitted line that is no local command. *)
Definition contained (split : bytes -> option (list bytes)) (m : InputMode) (sent : bytes) : Prop :=
  match m with
  | LocalEdit => sent = []
  | Remote => sent = [] \/ sent = [CR] \/
      exists l, parse_escape split l = None /\ sent = [CR] ++ bs "~" ++ l ++ [CR]
  end.

Section events.
Variable split : bytes -> option (list bytes).

(** While an event is handled the line is outside the engine. *)
Definition editing (e : InputEngine) (l : LineSession) : Prop :=
  histories_ok e /\ active_line e = None /\ editor_ok (editor l).

Definition event_result (r : option (InputEngine * LineSession * Out * fs)) : Prop :=
  exists e l o s, r = Some (e, l, o, s) /\ editing e l /\ contained split (mode e) (to_remote o).

Lemma prompt_session_ok : editor_ok (editor prompt_session).
Proof. unfold editor_ok; simpl. lia. Qed.

Lemma submit_escape_ok e l b s :
  editing e l -> mode e = LocalEdit -> event_result (Some (submit_escape split e l b s)).
Proof.
  intros ((H1 & H2) & Ha & He) Hm. unfold submit_escape.
  pose proof (add_ok (escape_history e) (utf8_lossy b) s H1) as H1'.
  destruct (add _ _ _) as [h s1]. simpl in H1'.
  unfold finalize_submitted_line.
  destruct (parse_escape split b) as [a|] eqn:Hp; [destruct a|];
    eexists _, _, _, _; (split; [reflexivity|]); unfold editing, histories_ok; simpl;
    (split; [by auto using prompt_session_ok|]); simpl; try rewrite Hm; simpl; eauto.
Qed.

Lemma submit_prompt_ok e l b s :
  editing e l -> mode e = LocalEdit -> event_result (Some (submit_prompt split e l b s)).
Proof.
  intros ((H1 & H2) & Ha & He) Hm. unfold submit_prompt.
  pose proof (add_ok (prompt_history e) (utf8_lossy b) s H2) as H2'.
  destruct (add _ _ _) as [h s1]. simpl in H2'.
  unfold finalize_exit_line, finalize_submitted_line.
  destruct (parse_local_command split b) as [a|] eqn:Hp; [destruct a|];
    eexists _, _, _, _; (split; [reflexivity|]); unfold editing, histories_ok; simpl;
    (split; [by auto using prompt_session_ok|]); simpl; try rewrite Hm; simpl; eauto.
Qed.

Lemma apply_editor_event_ok ev e l s :
  editing e l -> mode e = LocalEdit -> event_result (apply_editor_event split ev e l s).
Proof.
  intros ((H1 & H2) & Ha & He) Hm. unfold apply_editor_event.
  set (esc := bool_decide (Editor.mode (editor l) = Escape)).
  destruct (apply_ok (editor l) ev (if esc then escape_history e else prompt_history e))
    as (eff & ed & h & -> & He' & Hh & Hmode & Heff); [done|by destruct esc|]. simpl.
  set (e1 := if esc then set_escape_history h e else set_prompt_history h e).
  assert (editing e1 (with_editor l ed)) as Hed.
  { unfold e1. destruct esc; (split; [by split|done]). }
  assert (mode e1 = LocalEdit) as Hm1 by (unfold e1; by destruct esc).
  destruct eff.
  - eexists _, _, _, _. split; [done|]. split; [done|]. by rewrite Hm1.
  - destruct esc; eexists _, _, _, _; (split; [done|]); (split; [done|]); by rewrite Hm1.
  - eexists _, _, _, _. split; [done|]. destruct Hed as (? & ? & ?).
    split; [by split|]. simpl. auto.
  - by apply submit_prompt_ok.
  - by apply submit_escape_ok.
  - eexists _, _, _, _. split; [done|]. split; [done|]. by rewrite Hm1.
Qed.

Lemma local_event_ok e l b e' l' ev :
  editing e l -> local_event e l b = (e', l', ev) ->
  editing e' l' /\ mode e' = mode e /\ editor l' = editor l /\
  escape_history e' = escape_history e /\ prompt_history e' = prompt_history e.
Proof.
  unfold local_event. intros H.
  repeat (case_match; simplify_eq/=); intros; simplify_eq/=; auto.
Qed.

Lemma contained_remote m b : contained split m b -> contained split Remote b.
Proof. destruct m; simpl; auto. Qed.

(** ** Local editing *)

Lemma local_loop_ok data e o s :
  engine_ok e ->
  exists e' o' s', local_loop split data e o s = Some (e', out_app o o', s') /\ engine_ok e' /\
    (mode e = LocalEdit -> contained split (mode e') (to_remote o')) /\
    (mode e = Remote -> o' = no_out /\ mode e' = Remote).
Proof.
  revert e o s. induction data as [|b data IH]; intros e o s [Hh Ha]; cbn [local_loop].
  { exists e, no_out, s. rewrite out_app_no_r. split; [done|]. split; [done|].
    split; [|done]. intros ->. done. }
  destruct (active_line e) as [l|] eqn:Hl.
  2: { exists (set_mode Remote e), no_out, s. rewrite out_app_no_r. split; [done|].
       split; [by split; [|simpl; rewrite Hl]|]. split; [congruence|done]. }
  destruct Ha as [He Hm].
  destruct (local_event _ l b) as [[e1 l1] ev] eqn:E.
  apply local_event_ok in E as (Hed & Hm1 & _ & _); [|by split]. simpl in Hm1. rewrite Hm in Hm1.
  destruct ev as [ev|[]].
  2: { eexists _, (out_app (out_local (bs "^C" ++ [CR; NL])) wake_up), _.
       rewrite out_app_assoc. split; [done|]. destruct Hed as (? & ? & ?).
       split; [by split|]. rewrite Hm. split; [simpl; auto|done]. }
  assert (exists e2 l2 o2 s2,
    match ev with
    | Some ev => '(e, l, o', s) ← apply_editor_event split ev e1 l1 s; Some (e, l, out_app o o', s)
    | None => Some (e1, l1, o, s)
    end = Some (e2, l2, out_app o o2, s2) /\ editing e2 l2 /\ contained split (mode e2) (to_remote o2))
    as (e2 & l2 & o2 & s2 & -> & Hed2 & Hc2).
  { destruct ev as [ev|].
    - destruct (apply_editor_event_ok ev e1 l1 s) as (e2 & l2 & o2 & s2 & -> & ? & ?); [done..|].
      by exists e2, l2, o2, s2.
    - exists e1, l1, no_out, s. rewrite out_app_no_r. split; [done|]. split; [done|]. by rewrite Hm1. }
  cbn [mbind option_bind]. destruct Hed2 as (Hh2 & Ha2 & He2). rewrite Hm.
  set (e3 := if decide (mode e2 = LocalEdit) then set_active (Some l2) e2 else e2).
  assert (mode e3 = mode e2) as Hm3 by (unfold e3; by case_decide).
  destruct (IH e3 (out_app o o2) s2) as (e4 & o4 & s4 & -> & Hok4 & Hc4 & Hr4).
  { unfold e3. case_decide as Hd; [by split; [|split]|]. split; [done|].
    rewrite Ha2. by destruct (mode e2). }
  exists e4, (out_app o2 o4), s4. rewrite out_app_assoc. split; [done|]. split; [done|].
  split; [|done]. intros _. simpl.
  rewrite Hm3 in Hc4, Hr4. destruct (mode e2) eqn:Hm2; simpl in Hc2.
  - destruct Hr4 as [-> ->]; [done|]. by rewrite app_nil_r.
  - rewrite Hc2. by apply Hc4.
Qed.

(** ** The remote mode *)

Lemma handle_remote_byte_frame e b :
  mode (handle_remote_byte e b) = mode e /\ active_line (handle_remote_byte e b) = active_line e /\
  escape_history (handle_remote_byte e b) = escape_history e /\
  prompt_history (handle_remote_byte e b) = prompt_history e /\
  swallow_next_enter_pair (handle_remote_byte e b) = swallow_next_enter_pair e.
Proof. unfold handle_remote_byte. by repeat (case_match; simpl). Qed.

Lemma handle_remote_byte_ok e b : engine_ok e -> engine_ok (handle_remote_byte e b).
Proof.
  destruct (handle_remote_byte_frame e b) as (H1 & H2 & H3 & H4 & _).
  unfold engine_ok, histories_ok. by rewrite H1, H2, H3, H4.
Qed.

Lemma escape_session_ok e :
  engine_ok e -> engine_ok (set_active (Some escape_session) (set_mode LocalEdit e)).
Proof. intros [Hh _]. split; [done|]. split; [|done]. unfold editor_ok; simpl. lia. Qed.

Lemma remote_loop_ok data e o s :
  engine_ok e -> exists e' o' s', remote_loop split data e o s = Some (e', o', s') /\ engine_ok e'.
Proof.
  revert e o s. induction data as [|b data IH]; intros e o s He; cbn [remote_loop]; [by eexists _, _, _|].
  assert (engine_ok (set_swallow None e)) as He' by exact He.
  case_bool_decide; [by apply IH|].
  case_bool_decide; case_bool_decide; simpl; try (by apply IH, handle_remote_byte_ok).
  pose proof (escape_session_ok _ He') as Hok.
  destruct data as [|c data']; [by eexists _, _, _|].
  destruct (local_loop_ok (c :: data') _ no_out s Hok) as (e1 & o1 & s1 & -> & ? & _).
  simpl. by eexists _, _, _.
Qed.

Lemma process_local_ok data e s :
  engine_ok e -> exists e' o s', process_local split data e s = Some (e', o, s') /\ engine_ok e'.
Proof.
  intros He. unfold process_local. case_decide; [by apply remote_loop_ok|].
  destruct (local_loop_ok data e no_out s He) as (e1 & o1 & s1 & -> & ? & _). by eexists _, _, _.
Qed.
End events.

Lemma observe_remote_ok data e : engine_ok e -> engine_ok (observe_remote e data).
Proof.
  revert e. induction data as [|b data IH]; intros e He; simpl; [done|]. apply IH.
  by case_decide.
Qed.

Lemma complete_ok e a : engine_ok e -> engine_ok (complete_active_line e a).2.
Proof.
  intros [Hh Ha]. unfold complete_active_line. destruct (active_line e) as [l|] eqn:Hl.
  - destruct Ha as [He Hm]. unfold editor_ok in He. unfold render_line, set_display.
    repeat case_match; simplify_eq/=; (split; [done|split; [|done]]); unfold editor_ok; simpl; lia.
  - split; [done|]. simpl. by rewrite Hl.
Qed.

Lemma resize_ok e : engine_ok e -> engine_ok (handle_resize e).2.
Proof.
  intros [Hh Ha]. unfold handle_resize. destruct (active_line e) as [l|] eqn:Hl.
  - by destruct Ha.
  - split; [done|]. simpl. by rewrite Hl.
Qed.

(** The states the session loop can bring an engine into: any order of local
    input, remote output, completions with any answer, and resizes. *)
Inductive reachable (split : bytes -> option (list bytes)) : InputEngine -> Prop :=
| reach_new root w s e s' : engine_new root w s = (Ok e, s') -> reachable split e
| reach_local data e s e' o s' :
    reachable split e -> process_local split data e s = Some (e', o, s') -> reachable split e'
| reach_remote data e : reachable split e -> reachable split (observe_remote e data)
| reach_complete a e : reachable split e -> reachable split (complete_active_line e a).2
| reach_resize e : reachable split e -> reachable split (handle_resize e).2.

Lemma reachable_ok split e : reachable split e -> engine_ok e.
Proof.
  induction 1 as [root w s e s' H|data e s e' o s' _ He H| | |];
    eauto using engine_new_ok, observe_remote_ok, complete_ok, resize_ok.
  destruct (process_local_ok split data e s He) as (? & ? & ? & H' & ?).
  rewrite H' in H. by injection H as -> _ _.
Qed.

(** The input engine never panics. In every state a session can reach, by
    any interleaving of keystrokes, remote output, completion answers and
    resizes, every chunk of input is processed without an out-of-range index;
    a line is being edited exactly in local edit mode, its cursor is inside
    the line, and no history exceeds its 1000 entries. *)
Theorem engine_never_panics split e data s :
  reachable split e ->
  exists e' o s', process_local split data e s = Some (e', o, s') /\
    (mode e' = LocalEdit <-> is_Some (active_line e')) /\
    (forall l, active_line e' = Some l -> cursor (editor l) <= length (line (editor l))) /\
    length (entries (escape_history e')) <= 1000 /\ length (entries (prompt_history e')) <= 1000.
Proof.
  intros H%reachable_ok.
  destruct (process_local_ok split data e s H) as (e' & o & s' & E & ((H1 & _) & (H2 & _)) & Ha).
  exists e', o, s'. split; [exact E|]. split; [|split; [|split]].
  - destruct (active_line e'); [destruct Ha as [_ ->]; by split; eauto|]. rewrite Ha.
    split; [done|]. by intros [? ?].
  - intros l Hl. rewrite Hl in Ha. by destruct Ha.
  - exact H1.
  - exact H2.
Qed.

(** Local editing does not leak keystrokes. While a line is edited, input
    sends nothing to the remote peer as long as editing goes on; the chunk
    that ends it sends at most the wake-up byte, or after the wake-up byte a
    submitted line that is no local command. *)
Theorem local_edit_contained split e data s :
  reachable split e -> mode e = LocalEdit ->
  exists e' o s', process_local split data e s = Some (e', o, s') /\
    contained split (mode e') (to_remote o).
Proof.
  intros H%reachable_ok Hm. unfold process_local. rewrite decide_False by congruence.
  destruct (local_loop_ok split data e no_out s H) as (e' & o & s' & E & _ & Hc & _).
  rewrite out_app_no_l in E. exists e', o, s'. split; [exact E|]. by apply Hc.
Qed.

(** ** Chunks *)

Section chunks.
Variable split : bytes -> option (list bytes).

(** Earlier output is only ever extended. *)
Definition prepend (o : Out) (r : option (InputEngine * Out * fs)) : option (InputEngine * Out * fs) :=
  '(e, o', s) ← r; Some (e, out_app o o', s).

Lemma local_loop_out data e o1 o2 s :
  local_loop split data e (out_app o1 o2) s = prepend o1 (local_loop split data e o2 s).
Proof.
  revert e o2 s. induction data as [|b data IH]; intros e o2 s; cbn [local_loop]; [done|].
  destruct (active_line e) as [l|]; [|done].
  destruct (local_event _ l b) as [[e1 l1] [[ev|]|[]]].
  - destruct (apply_editor_event _ _ _ _ _) as [[[[e2 l2] o3] s2]|]; [|done]. simpl.
    rewrite <-out_app_assoc. apply IH.
  - apply IH.
  - simpl. by rewrite !out_app_assoc.
Qed.

Lemma local_loop_from data e o s :
  local_loop split data e o s = prepend o (local_loop split data e no_out s).
Proof. by rewrite <-local_loop_out, out_app_no_r. Qed.

Lemma set_mode_same e m : mode e = m -> set_mode m e = e.
Proof. destruct e; simpl. by intros ->. Qed.

(** Input behind the end of local editing is dropped. *)
Lemma local_loop_app d1 d2 e o s :
  engine_ok e ->
  local_loop split (d1 ++ d2) e o s =
  ('(e1, o1, s1) ← local_loop split d1 e o s;
   if decide (mode e1 = LocalEdit) then local_loop split d2 e1 o1 s1 else Some (e1, o1, s1)).
Proof.
  revert e o s. induction d1 as [|b d1 IH]; intros e o s He; cbn [local_loop app].
  { simpl. case_decide as Hm; [done|]. destruct He as [_ Ha].
    destruct d2 as [|c d2]; [done|]. cbn [local_loop].
    destruct (active_line e); [by destruct Ha|]. by rewrite set_mode_same. }
  destruct (active_line e) as [l|] eqn:Hl; [|done].
  destruct He as [Hh Ha]. rewrite Hl in Ha. destruct Ha as [He Hm].
  destruct (local_event _ l b) as [[e1 l1] ev] eqn:E.
  apply local_event_ok in E as (Hed & Hm1 & _ & _); [|by split]. simpl in Hm1. rewrite Hm in Hm1.
  destruct ev as [[ev|]|[]]; [| |done].
  - destruct (apply_editor_event_ok split ev e1 l1 s) as (e2 & l2 & o2 & s2 & -> & (Hh2 & Ha2 & He2) & _);
      [done..|]. cbn [mbind option_bind].
    apply IH. case_decide as Hd; [by split; [|split]|]. split; [done|]. rewrite Ha2.
    by destruct (mode e2).
  - cbn [mbind option_bind]. rewrite Hm1. simpl. apply IH. destruct Hed as (? & ? & ?).
    split; [done|]. by split.
Qed.

Lemma remote_loop_app d1 d2 e o s e1 o1 s1 :
  engine_ok e -> mode e = Remote ->
  remote_loop split d1 e o s = Some (e1, o1, s1) -> mode e1 = LocalEdit ->
  remote_loop split (d1 ++ d2) e o s = prepend o1 (local_loop split d2 e1 no_out s1).
Proof.
  revert e o s. induction d1 as [|b d1 IH]; intros e o s He Hm; cbn [remote_loop app].
  { intros [= -> _ _]. congruence. }
  assert (engine_ok (set_swallow None e)) as He' by exact He.
  case_bool_decide; [by apply IH|].
  case_bool_decide; case_bool_decide; simpl;
    try (intros; apply IH; [by apply handle_remote_byte_ok| |done|done];
         by destruct (handle_remote_byte_frame (set_swallow None e) b) as (-> & _)).
  pose proof (escape_session_ok _ He') as Hok.
  set (e2 := set_active (Some escape_session) (set_mode LocalEdit (set_swallow None e))) in *.
  set (o2 := out_app o (out_local (bs "~"))).
  destruct d1 as [|c d1]; simpl app.
  { intros [= <- <- <-] _. destruct d2; [simpl; by rewrite out_app_no_r|done]. }
  intros Hr Hm1. change (c :: d1 ++ d2) with ((c :: d1) ++ d2). rewrite local_loop_app by done.
  destruct (local_loop split (c :: d1) e2 no_out s) as [[[e3 o3] s3]|]; [|done].
  cbn [mbind option_bind] in *. injection Hr as <- <- <-. rewrite decide_True by done.
  rewrite local_loop_from. unfold prepend.
  destruct (local_loop split d2 e3 no_out s3) as [[[e4 o4] s4]|]; simpl; [|done].
  by rewrite out_app_assoc.
Qed.
End chunks.

(** Cutting input into chunks. When a chunk leaves the engine editing, the
    input behind it may come in the same chunk or in the next with the same
    effect. When a chunk ends an editing session, the code drops whatever
    follows in the same chunk: it reaches neither the remote peer nor the
    editor. *)
Theorem input_chunks split d1 d2 e s e1 o1 s1 :
  reachable split e -> process_local split d1 e s = Some (e1, o1, s1) ->
  (mode e1 = LocalEdit ->
   process_local split (d1 ++ d2) e s = prepend o1 (process_local split d2 e1 s1)) /\
  (mode e = LocalEdit -> mode e1 = Remote ->
   process_local split (d1 ++ d2) e s = Some (e1, o1, s1)).
Proof.
  intros H%reachable_ok. unfold process_local. intros E. split.
  - intros Hm1. rewrite (decide_False (P := mode e1 = Remote)) by congruence. case_decide as Hm.
    + by eapply remote_loop_app.
    + rewrite local_loop_app by done. rewrite E. cbn [mbind option_bind].
      rewrite decide_True by done. apply local_loop_from.
  - intros Hm Hm1. rewrite decide_False in * by congruence.
    rewrite local_loop_app by done. rewrite E. cbn [mbind option_bind].
    by rewrite decide_False by congruence.
Qed.

(** What is left of the input when the other half of an Enter pair is due. *)
Definition forwarded (e : InputEngine) (data : bytes) : bytes :=
  match data, swallow_next_enter_pair e with
  | b :: rest, Some c => if decide (b = c) then rest else data
  | _, _ => data
  end.

(** In remote mode input without a tilde passes through: every byte goes to
    the remote peer in order, except that the other half of an Enter pair is
    swallowed once; nothing is shown locally and no action is taken. *)
Theorem remote_passthrough split data e s :
  mode e = Remote -> "~"%char ∉ data ->
  exists e', process_local split data e s = Some (e', out_remote (forwarded e data), s) /\
    mode e' = Remote.
Proof.
  intros Hm Ht. unfold process_local, forwarded. rewrite decide_True by done.
  assert (forall d g o, mode g = Remote -> "~"%char ∉ d -> swallow_next_enter_pair g = None ->
    exists e', remote_loop split d g o s = Some (e', out_app o (out_remote d), s) /\ mode e' = Remote)
    as Hloop.
  { induction d as [|b d IH]; intros g o Hg Hd Hs; cbn [remote_loop].
    - exists g. change (out_remote []) with no_out. by rewrite out_app_no_r.
    - apply not_elem_of_cons in Hd as [Hb Hd]. rewrite bool_decide_false by (by rewrite Hs).
      rewrite (bool_decide_false (b = "~"%char)), andb_false_r by congruence.
      destruct (handle_remote_byte_frame (set_swallow None g) b) as (E1 & _ & _ & _ & E5).
      destruct (IH (handle_remote_byte (set_swallow None g) b) (out_app o (out_remote [b])))
        as (e' & -> & He'); [by rewrite E1|done|by rewrite E5|].
      exists e'. split; [|done]. by rewrite <-out_app_assoc. }
  assert (forall d g, mode g = Remote -> "~"%char ∉ d -> swallow_next_enter_pair g = None ->
    exists e', remote_loop split d g no_out s = Some (e', out_remote d, s) /\ mode e' = Remote) as H0.
  { intros d g Hg Hd Hs. destruct (Hloop d g no_out Hg Hd Hs) as (e' & E & ?). by exists e'. }
  destruct data as [|b rest]; [by exists e|].
  destruct (swallow_next_enter_pair e) as [c|] eqn:Hs; [|by apply H0].
  pose proof Ht as [Hb Hrest]%not_elem_of_cons. cbn [remote_loop]. rewrite Hs. case_decide as Hbc.
  - subst. rewrite bool_decide_true by done. by apply H0.
  - rewrite bool_decide_false by congruence.
    rewrite (bool_decide_false (b = "~"%char)), andb_false_r by congruence.
    destruct (handle_remote_byte_frame (set_swallow None e) b) as (E1 & _ & _ & _ & E5).
    destruct (Hloop rest (handle_remote_byte (set_swallow None e) b) (out_app no_out (out_remote [b])))
      as (e' & -> & He'); [by rewrite E1|done|by rewrite E5|]. by exists e'.
Qed.

(** The next byte is the first of a line for the remote peer. *)
Definition at_line_start (e : InputEngine) : Prop :=
  mode e = Remote /\ local_line_len e = 0%N /\ swallow_next_enter_pair e = None.

(** A lone tilde is doubled. Typing [~] and Enter on an empty line is not
    a local command and is meant for the remote peer, which receives an empty
    line and two tildes. *)
Theorem lone_tilde_is_doubled split e s :
  at_line_start e ->
  exists e' o s', process_local split (bs "~" ++ [CR]) e s = Some (e', o, s') /\
    to_remote o = [CR] ++ bs "~~" ++ [CR] /\ actions o = [] /\ mode e' = Remote.
Proof.
  intros (Hm & Hl & Hs). unfold process_local. rewrite decide_True by done.
  cbn [app bs list_ascii_of_string remote_loop]. rewrite Hs. simpl. rewrite Hl. simpl.
  unfold apply_editor_event, submit_escape. simpl.
  destruct (add _ _ _) as [h s1] eqn:Ea.
  by eexists _, _, _.
Qed.

(** ** Witnesses *)

(** Words separated by single blanks. *)
Definition demo_split (b : bytes) : option (list bytes) := Some (split_on " "%char b).

Definition input_fs : fs := mk_fs (<[ [] := Dir 493 ]> empty) 18 (fun _ => None) 0 [].

Definition demo_engine : InputEngine :=
  match (engine_new [bs "st"] false input_fs).1 with
  | Ok e => e
  | Err _ => mk_InputEngine Remote true 0 None demo_history demo_history None AnsiNone false
  end.

Lemma demo_reachable : reachable demo_split demo_engine.
Proof.
  refine (reach_new demo_split [bs "st"] false input_fs demo_engine
            (engine_new [bs "st"] false input_fs).2 _).
  vm_compute. reflexivity.
Qed.

(** The engine after a tilde. *)
Definition demo_editing : InputEngine :=
  match process_local demo_split (bs "~") demo_engine input_fs with
  | Some (e, _, _) => e
  | None => demo_engine
  end.

Lemma demo_editing_reachable : reachable demo_split demo_editing.
Proof.
  refine (reach_local demo_split (bs "~") demo_engine input_fs demo_editing (out_local (bs "~"))
            input_fs demo_reachable _).
  vm_compute. reflexivity.
Qed.

Lemma engine_never_panics_witness :
  is_Some (process_local demo_split (bs "~put a" ++ [CR]) demo_engine input_fs).
Proof.
  destruct (engine_never_panics demo_split demo_engine (bs "~put a" ++ [CR]) input_fs demo_reachable)
    as (e' & o & s' & E & _).
  rewrite E. by eexists.
Defined.

Lemma local_edit_contained_witness :
  exists e' o s', process_local demo_split (bs "put secret") demo_editing input_fs = Some (e', o, s') /\
    to_remote o = [] /\ mode e' = LocalEdit.
Proof.
  destruct (local_edit_contained demo_split demo_editing (bs "put secret") input_fs
              demo_editing_reachable) as (e' & o & s' & E & Hc); [vm_compute; reflexivity|].
  exists e', o, s'. split; [exact E|].
  assert (mode e' = LocalEdit) as Hm; [|split; [by rewrite Hm in Hc|exact Hm]].
  change (match Some (e', o, s') with Some (e, _, _) => mode e = LocalEdit | None => False end).
  rewrite <-E. vm_compute. reflexivity.
Defined.

(** The command after the escape's Enter is lost. *)
Lemma input_chunks_witness :
  exists e1 o1 s1,
    process_local demo_split (bs "." ++ [CR]) demo_editing input_fs = Some (e1, o1, s1) /\
    process_local demo_split ((bs "." ++ [CR]) ++ bs "ls") demo_editing input_fs = Some (e1, o1, s1).
Proof.
  destruct (process_local demo_split (bs "." ++ [CR]) demo_editing input_fs) as [[[e1 o1] s1]|] eqn:E.
  - exists e1, o1, s1. split; [reflexivity|].
    apply (proj2 (input_chunks demo_split (bs "." ++ [CR]) (bs "ls") demo_editing input_fs e1 o1 s1
                    demo_editing_reachable E)); [vm_compute; reflexivity|].
    change (match Some (e1, o1, s1) with Some (e, _, _) => mode e = Remote | None => False end).
    rewrite <-E. vm_compute. reflexivity.
  - exfalso. vm_compute in E. discriminate E.
Defined.

Lemma remote_passthrough_witness :
  exists e', process_local demo_split (bs "ls" ++ [CR]) demo_engine input_fs
    = Some (e', out_remote (bs "ls" ++ [CR]), input_fs) /\ mode e' = Remote.
Proof.
  refine (remote_passthrough demo_split (bs "ls" ++ [CR]) demo_engine input_fs _ _).
  - vm_compute. reflexivity.
  - apply (bool_decide_unpack _). vm_compute. exact I.
Defined.

Lemma lone_tilde_is_doubled_witness :
  exists e' o s', process_local demo_split (bs "~" ++ [CR]) demo_engine input_fs = Some (e', o, s') /\
    to_remote o = [CR] ++ bs "~~" ++ [CR].
Proof.
  destruct (lone_tilde_is_doubled demo_split demo_engine input_fs) as (e' & o & s' & E & Ho & _).
  - split; [|split]; vm_compute; reflexivity.
  - exists e', o, s'. split; [exact E|exact Ho].
Defined.
