(* ===== verification/Paths.v ===== *)
(** * Remote paths: [src/transport/transfer/helpers.rs], [src/server/transfer/state.rs]

    How paths received from a peer are checked and resolved, on Unix. A
    [PathBuf] is its components, innermost first, with [..] kept: [resolve]
    is what the operating system makes of it. The working directory of a
    process, the home directory and the process table are arguments. *)

From S2P Require Import Prelude Text Fs TransferTypes.

(** ** [std::path] *)

Inductive Component : Type :=
| RootDir
| CurDir
| ParentDir
| Normal (c : bytes).

Definition is_absolute (raw : bytes) : bool := starts_with raw (bs "/").

(** [Path::components]: repeated separators and inner [.] vanish. *)
Definition component_of (c : bytes) : option Component :=
  if decide (c = [] \/ c = bs ".") then None
  else if decide (c = bs "..") then Some ParentDir
  else Some (Normal c).

Definition components (raw : bytes) : list Component :=
  let segments := split_on "/"%char raw in
  (if is_absolute raw then [RootDir]
   else match segments with s :: _ => if decide (s = bs ".") then [CurDir] else [] | [] => [] end)
  ++ omap component_of segments.

(** The components of a [PathBuf] below its root, innermost first. *)
Definition pushed (raw : bytes) : path :=
  reverse (filter (fun c => c <> [] /\ c <> bs ".") (split_on "/"%char raw)).

(** [Path::join]: an absolute path replaces the base. *)
Definition path_join (base : path) (raw : bytes) : path :=
  if is_absolute raw then pushed raw else pushed raw ++ base.

Definition resolve (p : path) : path := foldr (fun c acc => join_component acc c) [] p.

(** ** [sanitize_remote_path] *)

Fixpoint sanitize_components (raw : bytes) (sanitized : path) (cs : list Component) :
    result TransferError path :=
  match cs with
  | [] => Ok sanitized
  | Normal c :: cs => sanitize_components raw (c :: sanitized) cs
  | CurDir :: cs => sanitize_components raw sanitized cs
  | ParentDir :: cs =>
      match sanitized with
      | _ :: rest => sanitize_components raw rest cs
      | [] => Err (InvalidPath (bs "path traversal attempt detected: " ++ raw))
      end
  | RootDir :: _ => Err (InvalidPath (bs "root or prefix components not allowed: " ++ raw))
  end.

Definition sanitize_remote_path (raw : bytes) : result TransferError path :=
  if contains raw zero then Err (InvalidPath (bs "path contains null byte"))
  else if is_absolute raw then Err (InvalidPath (bs "absolute path not allowed: " ++ raw))
  else
    sanitized ← sanitize_components raw [] (components raw);
    if decide (sanitized = []) then Err (InvalidPath (bs "sanitized path is empty"))
    else Ok sanitized.

(** [normalize_path_separators] *)
Definition normalize_path_separators (windows : bool) (raw : bytes) : bytes :=
  if windows then replace_chars (bs "\") (bs "/") raw else raw.

(** ** [sanitize_relative_path] *)

(** [str::split] at either separator *)
Definition split_separators (raw : bytes) : list bytes :=
  split_on "/"%char raw ≫= split_on "\"%char.

Definition is_ascii_alphabetic (c : ascii) : bool := byte_in 65 90 c || byte_in 97 122 c.

Definition has_drive_letter (raw : bytes) : bool :=
  match raw with
  | c :: d :: _ => bool_decide (d = ":"%char) && is_ascii_alphabetic c
  | _ => false
  end.

Definition is_unc (raw : bytes) : bool :=
  match raw with
  | c :: d :: _ :: _ => bool_decide (c = "\"%char) && bool_decide (d = "\"%char)
  | _ => false
  end.

Definition sanitize_relative_path (raw : bytes) : result bytes bytes :=
  if decide (raw = []) then Err (bs "entry path is empty")
  else if is_absolute raw then Err (bs "absolute entry paths are not allowed")
  else if starts_with raw (bs "/") || starts_with raw (bs "\")
  then Err (bs "absolute entry paths are not allowed")
  else if has_drive_letter raw then Err (bs "drive-letter entry paths are not allowed")
  else if is_unc raw then Err (bs "UNC entry paths are not allowed")
  else if bool_decide (bs ".." ∈ split_separators raw)
  then Err (bs "path traversal detected in entry path")
  else Ok raw.

(** ** The shell of a connection *)

Inductive ServerError : Type :=
| ShellError (details : bytes)
| TransferFailed (failure : TransferFailure).

(** [ConnectionShellState], its process part. *)
Record ConnectionShellState : Type := mk_ConnectionShellState { shell_pid : option N }.

Definition shell_state_new : ConnectionShellState := mk_ConnectionShellState None.
Definition set_shell_pid (pid : option N) (_ : ConnectionShellState) : ConnectionShellState :=
  mk_ConnectionShellState pid.
Definition clear_shell_pid_if_matches (pid : option N) (st : ConnectionShellState) :
    ConnectionShellState :=
  if decide (shell_pid st = pid) then mk_ConnectionShellState None else st.

Inductive ShellContext : Type :=
| Live (pid : N)
| Stateless.

Definition from_state (st : ConnectionShellState) : ShellContext :=
  match shell_pid st with Some pid => Live pid | None => Stateless end.

Section resolve.
(** The working directory of a process, where it can be read, and [$HOME]. *)
Variable process_cwd : N -> option path.
Variable home_dir : option path.

Definition cwd (ctx : ShellContext) : result ServerError path :=
  match ctx with
  | Live pid =>
      match process_cwd pid with
      | Some p => Ok p
      | None => Err (ShellError (bs "could not determine the live shell's working directory (PID "
                                 ++ decimal pid ++ bs "); use an absolute remote path"))
      end
  | Stateless =>
      match home_dir with
      | Some p => Ok p
      | None => Err (ShellError (bs "could not determine server home directory"))
      end
  end.

(** [raw.strip_prefix("~/").or_else(|| raw.strip_prefix("~\\"))] *)
Definition strip_home (raw : bytes) : option bytes :=
  match raw with
  | "~"%char :: "/"%char :: rest => Some rest
  | "~"%char :: "\"%char :: rest => Some rest
  | _ => None
  end.

Definition traversal (detail : string) : result ServerError path :=
  Err (TransferFailed (mk_TransferFailure PathInvalid (bs detail))).

Definition resolve_path (ctx : ShellContext) (raw : bytes) : result ServerError path :=
  if decide (trim raw = []) then traversal "transfer path is empty"
  else if is_absolute raw then Ok (pushed raw)
  else if decide (raw = bs "~") then
    match home_dir with
    | Some home => Ok home
    | None => Err (ShellError (bs "could not determine server home directory for ~ expansion"))
    end
  else match strip_home raw with
  | Some home_relative =>
      if decide (bs ".." ∈ split_on "/"%char home_relative)
      then traversal "path traversal detected in home-relative path"
      else match home_dir with
      | Some home => Ok (path_join home home_relative)
      | None => Err (ShellError (bs "could not determine server home directory for ~/ expansion"))
      end
  | None =>
      if bool_decide (bs ".." ∈ split_on "/"%char raw)
         || bool_decide (bs ".." ∈ split_on "\"%char raw)
      then traversal "path traversal detected in relative path"
      else
        base ← cwd ctx;
        Ok (path_join base raw)
  end.
End resolve.

(** ** Lemmas *)

(** Proper names: what a path below a directory consists of. *)
Definition proper (c : bytes) : Prop := c <> [] /\ c <> bs "." /\ c <> bs ".." /\ ("/"%char ∉ c).

Lemma split_on_pieces c b w : w ∈ split_on c b -> c ∉ w.
Proof.
  revert w. induction b as [|d b IH]; intros w; simpl.
  - intros ->%list_elem_of_singleton. apply not_elem_of_nil.
  - destruct (split_on c b) as [|v vs] eqn:E; [by apply split_on_nonempty in E|].
    case_decide as Hd.
    + intros [->|Hw]%elem_of_cons; [apply not_elem_of_nil|by apply IH].
    + intros [->|Hw]%elem_of_cons; [|by apply IH; right].
      intros [?|Hc]%elem_of_cons; [done|]. by eapply (IH v); [left|].
Qed.

Lemma pushed_proper raw :
  bs ".." ∉ split_on "/"%char raw -> Forall proper (pushed raw).
Proof.
  intros Hd. apply Forall_forall. intros c Hc%list_elem_of_In.
  apply elem_of_reverse, list_elem_of_filter in Hc as [[H1 H2] Hc].
  split; [done|]. split; [done|]. split; [congruence|]. by eapply split_on_pieces.
Qed.

Lemma resolve_below p base : Forall proper p -> resolve (p ++ base) = p ++ resolve base.
Proof.
  induction 1 as [|c p (H1 & H2 & H3 & _) _ IH]; [done|].
  change (resolve ((c :: p) ++ base)) with (join_component (resolve (p ++ base)) c).
  rewrite IH. unfold join_component. rewrite decide_False by naive_solver. by rewrite decide_False.
Qed.

Lemma split_separators_dots raw :
  bs ".." ∈ split_on "/"%char raw -> bs ".." ∈ split_separators raw.
Proof.
  intros H. unfold split_separators. apply list_elem_of_bind. exists (bs "..").
  split; [|done]. simpl. left.
Qed.

(** Pushing and popping the components is resolving them below any directory. *)
Lemma sanitize_shift raw acc segs p base :
  sanitize_components raw acc (omap component_of segs) = Ok p ->
  foldl join_component (acc ++ base) segs = p ++ base.
Proof.
  revert acc. induction segs as [|c segs IH]; intros acc; simpl; [by intros [= ->]|].
  unfold component_of at 1, join_component at 2.
  case_decide; [apply IH|]. case_decide; simpl; [|apply (IH (c :: acc))].
  destruct acc; [done|apply IH].
Qed.

Lemma sanitize_proper raw acc segs p :
  Forall proper acc -> Forall (fun c => "/"%char ∉ c) segs ->
  sanitize_components raw acc (omap component_of segs) = Ok p -> Forall proper p.
Proof.
  revert acc. induction segs as [|c segs IH]; intros acc Ha Hs; simpl; [by intros [= <-]|].
  inversion Hs as [|?? Hc Hs']; subst. unfold component_of at 1.
  case_decide as H1; [by apply IH|]. case_decide as H2; simpl.
  - destruct acc; [done|]. apply IH; [by inversion Ha|done].
  - apply IH; [|done]. constructor; [|done]. unfold proper. naive_solver.
Qed.

Lemma components_relative raw :
  is_absolute raw = false ->
  exists l, components raw = l ++ omap component_of (split_on "/"%char raw) /\ (l = [] \/ l = [CurDir]).
Proof.
  intros H. unfold components. rewrite H.
  destruct (split_on _ raw); [by eexists; split; [|left]|]. case_decide; eauto.
Qed.

Lemma sanitize_curdir raw l cs :
  l = [] \/ l = [CurDir] -> sanitize_components raw [] (l ++ cs) = sanitize_components raw [] cs.
Proof. by intros [->| ->]. Qed.

Lemma sanitize_names raw acc segs :
  bs ".." ∉ segs ->
  sanitize_components raw acc (omap component_of segs)
  = Ok (reverse (filter (fun c => c <> [] /\ c <> bs ".") segs) ++ acc).
Proof.
  revert acc. induction segs as [|c segs IH]; intros acc; [done|].
  intros [Hc Hs]%not_elem_of_cons. simpl. unfold component_of at 1.
  case_decide as H1.
  - rewrite filter_cons_False by naive_solver. by apply IH.
  - rewrite decide_False by congruence. simpl. rewrite IH by done.
    rewrite filter_cons_True by naive_solver. by rewrite reverse_cons, <-app_assoc.
Qed.

(** An accepted entry path is relative and made of proper names. *)
Lemma sanitize_relative_ok raw entry :
  sanitize_relative_path raw = Ok entry ->
  entry = raw /\ is_absolute raw = false /\ (bs ".." ∉ split_separators raw) /\
  Forall proper (pushed raw).
Proof.
  unfold sanitize_relative_path. case_decide; [done|].
  destruct (is_absolute raw) eqn:Ha; [done|]. repeat case_match; try done. intros [= <-].
  match goal with H : bool_decide _ = false |- _ => apply bool_decide_eq_false in H as Hd end.
  split_and!; [done..|]. apply pushed_proper. intros ?. by apply Hd, split_separators_dots.
Qed.

(** ** Properties *)

(** The client's check of a name sent by the peer is sound and complete
    enough. A sanitized path is relative, not empty, made of proper names, and
    below any directory it is where the operating system finds the raw path,
    so a download cannot leave its destination; every relative path without
    NUL and without [..] that names something is accepted as it is. *)
Theorem sanitize_remote_path_contained raw :
  match sanitize_remote_path raw with
  | Ok p => p <> [] /\ Forall proper p /\ (zero ∉ raw) /\
            forall base, join_str base raw = p ++ base
  | Err _ => zero ∈ raw \/ is_absolute raw = true \/ bs ".." ∈ split_on "/"%char raw \/
             pushed raw = []
  end.
Proof.
  unfold sanitize_remote_path, contains. case_bool_decide as Hz; [by left|].
  destruct (is_absolute raw) eqn:Ha; [by right; left|].
  destruct (components_relative raw Ha) as (l & -> & Hl). rewrite sanitize_curdir by done.
  destruct (decide (bs ".." ∈ split_on "/"%char raw)) as [Hd|Hd].
  { destruct (sanitize_components _ _ _) as [p|] eqn:E; simpl; [|auto]. case_decide; [auto|].
    split; [done|]. split; [|split; [done|]].
    - eapply sanitize_proper; [constructor| |exact E]. apply Forall_forall.
      intros c Hc%list_elem_of_In. by eapply split_on_pieces.
    - intros base. unfold join_str. unfold is_absolute in Ha. rewrite Ha.
      by apply (sanitize_shift raw [] _ _ base). }
  pose proof (sanitize_names raw [] _ Hd) as E. rewrite app_nil_r in E. fold (pushed raw) in E.
  rewrite E. simpl. case_decide as Hp; [auto|].
  split; [done|]. split; [by apply pushed_proper|]. split; [done|].
  intros base. unfold join_str. unfold is_absolute in Ha. rewrite Ha.
  by apply (sanitize_shift raw [] _ _ base).
Qed.

(** Where a request's path leads. A resolved path is the absolute path the
    peer named, or lies below the home or working directory with proper names
    only; the first case includes a path that becomes absolute when its [~/]
    is removed. *)
Theorem resolve_path_contained process_cwd home_dir ctx raw p :
  resolve_path process_cwd home_dir ctx raw = Ok p ->
  (is_absolute raw = true /\ p = pushed raw) \/
  (exists rest, strip_home raw = Some rest /\ is_absolute rest = true /\ p = pushed rest) \/
  exists base q, p = q ++ base /\ Forall proper q /\ resolve p = q ++ resolve base /\
    (home_dir = Some base \/ cwd process_cwd home_dir ctx = Ok base).
Proof.
  unfold resolve_path. case_decide; [done|].
  destruct (is_absolute raw) eqn:Ha; [intros [= <-]; by left|].
  intros E. right. revert E.
  case_decide.
  { destruct home_dir as [home|]; [|done]. intros [= <-]. right. exists home, [].
    split; [done|]. split; [constructor|]. auto. }
  destruct (strip_home raw) as [rest|] eqn:Hs.
  - case_decide as Hd; [done|]. destruct home_dir as [home|] eqn:Hh; [|done]. intros [= <-].
    unfold path_join. destruct (is_absolute rest) eqn:Hr; [left; eauto|]. right.
    exists home, (pushed rest). split; [done|]. pose proof (pushed_proper rest Hd).
    split; [done|]. split; [by apply resolve_below|auto].
  - case_bool_decide as Hd; [done|]. case_bool_decide; [done|]. simpl.
    destruct (cwd process_cwd home_dir ctx) as [base|] eqn:Hc; [|done]. intros [= <-]. right.
    unfold path_join. rewrite Ha. exists base, (pushed raw).
    split; [done|]. pose proof (pushed_proper raw Hd).
    split; [done|]. split; [by apply resolve_below|auto].
Qed.

(** Entries of recursive uploads and of collections stay inside the
    destination: an accepted entry path is used as it is, and joined to any
    directory it resolves to a path below that directory; an entry with a
    [..] component, at either separator, is never accepted. *)
Theorem entry_path_contained raw entry :
  sanitize_relative_path raw = Ok entry ->
  entry = raw /\ (bs ".." ∉ split_separators raw) /\
  forall dest_root, exists q, path_join dest_root entry = q ++ dest_root /\ Forall proper q /\
    resolve (path_join dest_root entry) = q ++ resolve dest_root.
Proof.
  intros (-> & Ha & Hd & Hp)%sanitize_relative_ok. split; [done|]. split; [done|]. intros dest_root.
  unfold path_join. rewrite Ha. exists (pushed raw). split; [done|]. split; [done|].
  by apply resolve_below.
Qed.

(** ** Witnesses *)

Definition demo_home : path := [bs "u"; bs "home"].

Lemma resolve_path_contained_witness :
  resolve_path (fun _ => None) (Some demo_home) Stateless (bs "a/b") = Ok [bs "b"; bs "a"; bs "u"; bs "home"] /\
  exists rest, strip_home (bs "~//etc/shadow") = Some rest /\
    resolve_path (fun _ => None) (Some demo_home) Stateless (bs "~//etc/shadow") = Ok (pushed rest).
Proof.
  assert (resolve_path (fun _ => None) (Some demo_home) Stateless (bs "~//etc/shadow")
          = Ok [bs "shadow"; bs "etc"]) as E by (vm_compute; reflexivity).
  split; [vm_compute; reflexivity|].
  destruct (resolve_path_contained (fun _ => None) (Some demo_home) Stateless (bs "~//etc/shadow")
              [bs "shadow"; bs "etc"] E) as [[H _]|[(rest & Hs & _ & Hp)|(base & q & Hp & _ & _ & [Hb|Hb])]].
  - vm_compute in H. discriminate H.
  - exists rest. split; [exact Hs|]. rewrite E, Hp. reflexivity.
  - exfalso. injection Hb as <-. apply (f_equal reverse) in Hp. rewrite reverse_app in Hp.
    vm_compute in Hp. discriminate Hp.
  - exfalso. injection Hb as <-. apply (f_equal reverse) in Hp. rewrite reverse_app in Hp.
    vm_compute in Hp. discriminate Hp.
Defined.

Lemma entry_path_contained_witness :
  exists q, path_join demo_home (bs "d/f") = q ++ demo_home.
Proof.
  destruct (entry_path_contained (bs "d/f") (bs "d/f")) as (_ & _ & H); [vm_compute; reflexivity|].
  destruct (H demo_home) as (q & Hq & _). exists q. exact Hq.
Defined.
