(* ===== verification/Echo.v ===== *)
(** * Server-side echo: [filter_echo_bytes] of [src/server/handler/pty.rs]

    What the server echoes of the client's keystrokes when the shell does not.
    The index of the code is the rest of the input; every round of the outer
    loop consumes a byte, so the length of the input is enough fuel. *)

From S2P Require Import Prelude Text.

Definition ESC : ascii := ascii_of_N 27.
Definition BEL : ascii := ascii_of_N 7.

(** The inner loop behind [ESC \[]: up to and including the final byte. *)
Fixpoint skip_csi (data : bytes) : bytes :=
  match data with
  | [] => []
  | f :: rest => if byte_in 64 126 f || negb (byte_in 32 63 f) then rest else skip_csi rest
  end.

(** The inner loop behind [ESC \]]: up to BEL or the string terminator. *)
Fixpoint skip_osc (data : bytes) : bytes :=
  match data with
  | [] => []
  | f :: rest =>
      if decide (f = BEL) then rest
      else if decide (f = ESC) then
        match rest with
        | c :: rest' => if decide (c = "\"%char) then rest' else rest
        | [] => []
        end
      else skip_osc rest
  end.

(** The bytes behind an escape byte. *)
Definition skip_escape (data : bytes) : bytes :=
  match data with
  | [] => []
  | c :: rest =>
      if decide (c = "["%char) then skip_csi rest
      else if decide (c = "]"%char) then skip_osc rest
      else if decide (c = "("%char \/ c = ")"%char \/ c = "#"%char) then tail rest
      else rest
  end.

Definition echoes (b : ascii) : bool :=
  bool_decide (b = NL) || (N_of_ascii b =? 9)%N || (N_of_ascii b =? 32)%N || graphic b ||
  (128 <=? N_of_ascii b)%N.

Fixpoint filter_loop (fuel : nat) (data : bytes) : bytes :=
  match fuel, data with
  | O, _ | _, [] => []
  | S fuel, b :: rest =>
      if decide (b = ESC) then filter_loop fuel (skip_escape rest)
      else if decide (b = CR) then NL :: filter_loop fuel rest
      else if echoes b then b :: filter_loop fuel rest
      else filter_loop fuel rest
  end.

Definition filter_echo_bytes (data : bytes) : bytes := filter_loop (length data) data.

(** ** Lemmas *)

Lemma skip_csi_length data : length (skip_csi data) <= length data.
Proof. induction data as [|f data IH]; simpl; [lia|]. case_match; lia. Qed.

Lemma skip_osc_length data : length (skip_osc data) <= length data.
Proof.
  induction data as [|f data IH]; simpl; [lia|]. case_decide; [lia|]. case_decide; [|lia].
  destruct data; simpl; [lia|]. case_decide; simpl; lia.
Qed.

Lemma skip_escape_length data : length (skip_escape data) <= length data.
Proof.
  destruct data as [|c data]; simpl; [lia|].
  pose proof (skip_csi_length data). pose proof (skip_osc_length data).
  repeat case_decide; try lia. destruct data; simpl; lia.
Qed.

(** Fuel beyond the length changes nothing. *)
Lemma filter_loop_fuel n m data :
  length data <= n -> length data <= m -> filter_loop n data = filter_loop m data.
Proof.
  revert m data. induction n as [|n IH]; intros [|m] [|b data] Hn Hm; simpl in *; try done; try lia.
  pose proof (skip_escape_length data).
  repeat case_match; first [apply IH; lia|f_equal; apply IH; lia].
Qed.

Lemma filter_loop_step n b rest :
  length rest <= n ->
  filter_loop (S n) (b :: rest) =
  if decide (b = ESC) then filter_echo_bytes (skip_escape rest)
  else if decide (b = CR) then NL :: filter_echo_bytes rest
  else if echoes b then b :: filter_echo_bytes rest else filter_echo_bytes rest.
Proof.
  intros H. pose proof (skip_escape_length rest). unfold filter_echo_bytes. simpl.
  repeat case_match; first [apply filter_loop_fuel; lia|f_equal; apply filter_loop_fuel; lia].
Qed.

Lemma filter_echo_cons b rest :
  filter_echo_bytes (b :: rest) =
  if decide (b = ESC) then filter_echo_bytes (skip_escape rest)
  else if decide (b = CR) then NL :: filter_echo_bytes rest
  else if echoes b then b :: filter_echo_bytes rest else filter_echo_bytes rest.
Proof. by apply (filter_loop_step (length rest)). Qed.

Lemma filter_loop_echoes n data : Forall (fun b => echoes b = true) (filter_loop n data).
Proof.
  revert data. induction n as [|n IH]; intros [|b data]; simpl; try constructor.
  case_decide; [apply IH|]. case_decide; [by constructor|].
  destruct (echoes b) eqn:E; [by constructor|apply IH].
Qed.

(** The parameters and the final byte of a control sequence. *)
Lemma skip_csi_params params final rest :
  Forall (fun c => byte_in 32 63 c = true) params -> byte_in 64 126 final = true ->
  skip_csi (params ++ final :: rest) = rest.
Proof.
  intros Hp Hf. induction Hp as [|c params Hc _ IH]; simpl; [by rewrite Hf|].
  rewrite Hc. replace (byte_in 64 126 c) with false; [exact IH|]. symmetry.
  unfold byte_in in *. apply andb_prop in Hc as [_ Hc]. apply N.leb_le in Hc.
  apply andb_false_intro1, N.leb_gt. lia.
Qed.

(** The echo cannot drive the terminal, and is faithful to text. For any
    input the echo holds only newlines, tabs, blanks, visible characters and
    bytes of longer characters: no escape, no carriage return, no other
    control byte. Text is echoed byte for byte with carriage returns as
    newlines, and a complete control sequence between two inputs adds
    nothing. *)
Theorem echo_is_text data :
  Forall (fun b => echoes b = true) (filter_echo_bytes data) /\
  (Forall (fun b => b = CR \/ echoes b = true) data ->
   filter_echo_bytes data = (fun b => if decide (b = CR) then NL else b) <$> data) /\
  (forall params final, Forall (fun c => byte_in 32 63 c = true) params ->
   byte_in 64 126 final = true ->
   filter_echo_bytes ([ESC; "["%char] ++ params ++ final :: data) = filter_echo_bytes data).
Proof.
  split; [apply filter_loop_echoes|]. split.
  - induction 1 as [|b data Hb _ IH]; [done|]. rewrite filter_echo_cons, fmap_cons, IH.
    rewrite decide_False by (intros ->; by destruct Hb).
    case_decide; [done|]. destruct Hb as [?| ->]; done.
  - intros params final Hp Hf. simpl app. rewrite filter_echo_cons, decide_True by done.
    f_equal. by apply skip_csi_params.
Qed.

(** The function keeps no state between calls, so a control sequence cut after
    its escape byte is echoed in part. *)
Lemma split_sequence_is_echoed :
  filter_echo_bytes ([ESC] ++ bs "[A") = [] /\
  filter_echo_bytes [ESC] ++ filter_echo_bytes (bs "[A") = bs "[A".
Proof. split; vm_compute; reflexivity. Qed.
