(* ===== verification/Hoare.v ===== *)
(** * Triples and loops over stateful fallible code

    [hoare P m Q]: started where [P] holds, [m] ends with a result and a state
    for which [Q] holds, whether it succeeds or fails. A Rust [loop] is
    [loop]: its body ends a turn with the next accumulator ([inl]) or with the
    value of the loop ([inr]). The fuel of a loop is the measure of its start;
    [decreases] says that every turn lowers the measure, which is proved of
    each loop of the source, and then the loop is its own unfolding
    ([loop_eq]) and never runs out. *)

From S2P Require Import Prelude.

Definition hoare {St E A} (P : St -> Prop) (m : M St E A) (Q : result E A -> St -> Prop) : Prop :=
  forall s, P s -> Q (m s).1 (m s).2.

(** Postconditions that tell success from failure. *)
Definition post {St E A} (R : A -> St -> Prop) (F : E -> St -> Prop) : result E A -> St -> Prop :=
  fun r s => match r with Ok a => R a s | Err e => F e s end.

Section rules.
Context {St E : Type}.
Implicit Types (P : St -> Prop).

Lemma hoare_conseq {A} P P' (m : M St E A) (Q Q' : result E A -> St -> Prop) :
  hoare P' m Q' -> (forall s, P s -> P' s) -> (forall r s, Q' r s -> Q r s) -> hoare P m Q.
Proof. intros H HP HQ s Hs. apply HQ, H, HP, Hs. Qed.

Lemma hoare_pre {A} P P' (m : M St E A) Q :
  hoare P' m Q -> (forall s, P s -> P' s) -> hoare P m Q.
Proof. intros H HP. by eapply hoare_conseq. Qed.

Lemma hoare_post {A} P (m : M St E A) (Q Q' : result E A -> St -> Prop) :
  hoare P m Q' -> (forall r s, Q' r s -> Q r s) -> hoare P m Q.
Proof. intros H HQ. by eapply hoare_conseq. Qed.

Lemma hoare_ret {A} P (a : A) (Q : result E A -> St -> Prop) :
  (forall s, P s -> Q (Ok a) s) -> hoare P (mret a) Q.
Proof. intros H s Hs. by apply H. Qed.

Lemma hoare_throw {A} P (e : E) (Q : result E A -> St -> Prop) :
  (forall s, P s -> Q (Err e) s) -> hoare P (throw e) Q.
Proof. intros H s Hs. by apply H. Qed.

Lemma hoare_lift {A} P (r : result E A) (Q : result E A -> St -> Prop) :
  (forall s, P s -> Q r s) -> hoare P (lift r) Q.
Proof. intros H s Hs. by apply H. Qed.

Lemma hoare_bind {A B} P (m : M St E A) (k : A -> M St E B) (R : A -> St -> Prop) Q :
  hoare P m (post R (fun e => Q (Err e))) -> (forall a, hoare (R a) (k a) Q) ->
  hoare P (m ≫= k) Q.
Proof.
  intros Hm Hk s Hs. specialize (Hm s Hs). unfold mbind, M_bind.
  destruct (m s) as [[a|e] s1]; simpl in *; [|done]. by apply Hk.
Qed.

Lemma hoare_ensure {A} P (c : bool) (e : E) (k : M St E A) Q :
  (c = true -> hoare P k Q) -> (forall s, P s -> c = false -> Q (Err e) s) ->
  hoare P (ensure c e;; k) Q.
Proof.
  intros Hk He s Hs. rewrite bind_ensure. destruct c; [by apply Hk|by apply He].
Qed.

Lemma hoare_attempt {A F} P (m : M St F A) (Q : result E (result F A) -> St -> Prop) :
  hoare P m (fun r => Q (Ok r)) -> hoare P (attempt m) Q.
Proof. intros H s Hs. specialize (H s Hs). unfold attempt. by destruct (m s). Qed.

Lemma hoare_ignore {A F} P (m : M St F A) (Q : result E unit -> St -> Prop) :
  hoare P m (fun _ => Q (Ok tt)) -> hoare P (ignore m) Q.
Proof. intros H s Hs. exact (H s Hs). Qed.

Lemma hoare_map_err {A F} P (f : F -> E) (m : M St F A) (Q : result E A -> St -> Prop) :
  hoare P m (fun r => Q (map_err f r)) -> hoare P (M_map_err f m) Q.
Proof. intros H s Hs. specialize (H s Hs). unfold M_map_err. by destruct (m s). Qed.

Lemma hoare_and {A} P (m : M St E A) (Q1 Q2 : result E A -> St -> Prop) :
  hoare P m Q1 -> hoare P m Q2 -> hoare P m (fun r s => Q1 r s /\ Q2 r s).
Proof. intros H1 H2 s Hs. split; [by apply H1|by apply H2]. Qed.

(** Facts about the state that are facts about values move to the context. *)
Lemma hoare_prop {A} (p : Prop) P (m : M St E A) Q :
  (p -> hoare P m Q) -> hoare (fun s => p /\ P s) m Q.
Proof. intros H s [Hp Hs]. exact (H Hp s Hs). Qed.

Lemma hoare_ex {A B} (P : B -> St -> Prop) (m : M St E A) Q :
  (forall b, hoare (P b) m Q) -> hoare (fun s => exists b, P b s) m Q.
Proof. intros H s [b Hs]. exact (H b s Hs). Qed.

(** [?] after [match m { Ok(..) => .., Err(..) => { undo; return Err(..) } }] *)
Lemma hoare_on_error {A F} P (m : M St E A) (undo : M St F unit) (R : E -> St -> Prop)
    (Q : result E A -> St -> Prop) :
  hoare P m (post (fun a => Q (Ok a)) R) ->
  (forall e, hoare (R e) undo (fun _ => Q (Err e))) -> hoare P (on_error m undo) Q.
Proof.
  intros Hm Hu s Hs. specialize (Hm s Hs). unfold on_error.
  destruct (m s) as [[a|e] s1]; simpl in *; [done|]. exact (Hu e s1 Hm).
Qed.
End rules.

(** ** Loops *)

Fixpoint iterate {St E A B} (fuel : nat) (body : A -> M St E (A + B)) (a : A) :
    M St E (option B) :=
  match fuel with
  | O => mret None
  | S fuel =>
      r ← body a;
      match r with
      | inl a' => iterate fuel body a'
      | inr b => mret (Some b)
      end
  end.

Definition loop {St E A B} (measure : A -> St -> nat) (diverged : E)
    (body : A -> M St E (A + B)) (a : A) : M St E B := fun s =>
  match iterate (S (measure a s)) body a s with
  | (Ok (Some b), s') => (Ok b, s')
  | (Ok None, s') => (Err diverged, s')
  | (Err e, s') => (Err e, s')
  end.

Definition decreases {St E A B} (measure : A -> St -> nat) (body : A -> M St E (A + B)) : Prop :=
  forall a s a' s', body a s = (Ok (inl a'), s') -> measure a' s' < measure a s.

Section loops.
Context {St E A B : Type} (measure : A -> St -> nat) (diverged : E).
Context (body : A -> M St E (A + B)).
Hypothesis Hdec : decreases measure body.

Lemma iterate_fuel n a s :
  measure a s < n -> iterate n body a s = iterate (S (measure a s)) body a s.
Proof.
  remember (measure a s) as k eqn:Hk. revert n a s Hk.
  induction k as [k IH] using lt_wf_ind. intros n a s -> Hn.
  destruct n as [|n]; [lia|]. simpl. unfold mbind, M_bind.
  destruct (body a s) as [[[a'|b]|e] s'] eqn:Hb; try done.
  pose proof (Hdec _ _ _ _ Hb) as Hlt.
  rewrite (IH (measure a' s') Hlt n a' s' eq_refl) by lia.
  by rewrite (IH (measure a' s') Hlt (measure a s) a' s' eq_refl).
Qed.

(** A loop whose measure decreases is its first turn and then itself. *)
Lemma loop_eq a s :
  loop measure diverged body a s =
  match body a s with
  | (Ok (inl a'), s') => loop measure diverged body a' s'
  | (Ok (inr b), s') => (Ok b, s')
  | (Err e, s') => (Err e, s')
  end.
Proof.
  unfold loop at 1. simpl. unfold mbind, M_bind, mret, M_ret.
  destruct (body a s) as [[[a'|b]|e] s'] eqn:Hb; try done.
  rewrite iterate_fuel by (by eapply Hdec). done.
Qed.

(** The invariant rule: running out of fuel need not be considered. *)
Lemma hoare_loop (I : A -> St -> Prop) (Q : result E B -> St -> Prop) :
  (forall a, hoare (I a) (body a)
    (post (fun x s => match x with inl a' => I a' s | inr b => Q (Ok b) s end)
          (fun e => Q (Err e)))) ->
  forall a, hoare (I a) (loop measure diverged body a) Q.
Proof.
  intros Hb a s. remember (measure a s) as k eqn:Hk. revert a s Hk.
  induction k as [k IH] using lt_wf_ind. intros a s -> Hs.
  specialize (Hb a s Hs). rewrite loop_eq.
  destruct (body a s) as [[[a'|b]|e] s'] eqn:E1; simpl in *; try done.
  eapply IH; [by eapply Hdec|done|done].
Qed.
End loops.

(** ** Totality *)

(** [m] does not fail with [e]; with the error loops run out with, [m]
    terminates. *)
Definition avoids {St E A} (e : E) (m : M St E A) : Prop := forall s, (m s).1 <> Err e.

Section avoids.
Context {St E : Type} (e : E).

Lemma avoids_ret {A} (a : A) : avoids (St := St) e (mret a).
Proof. by intros s. Qed.

Lemma avoids_throw {A} (e' : E) : e' <> e -> avoids (St := St) (A := A) e (throw e').
Proof. intros H s [= ?]. congruence. Qed.

Lemma avoids_bind {A B} (m : M St E A) (k : A -> M St E B) :
  avoids e m -> (forall a, avoids e (k a)) -> avoids e (m ≫= k).
Proof.
  intros Hm Hk s. specialize (Hm s). unfold mbind, M_bind.
  destruct (m s) as [[a|e'] s']; simpl in *; [apply Hk|congruence].
Qed.

Lemma avoids_ensure (c : bool) (e' : E) : e' <> e -> avoids (St := St) e (ensure c e').
Proof. destruct c; [intros _; apply avoids_ret|apply avoids_throw]. Qed.

Lemma avoids_attempt {A F} (m : M St F A) : avoids e (attempt m).
Proof. intros s. unfold attempt. by destruct (m s). Qed.

Lemma avoids_ignore {A F} (m : M St F A) : avoids (St := St) e (ignore m).
Proof. by intros s. Qed.

Lemma avoids_map_err {A F} (f : F -> E) (m : M St F A) :
  (forall e', f e' <> e) -> avoids e (M_map_err f m).
Proof. intros H s. unfold M_map_err. destruct (m s) as [[a|e'] s']; simpl; [done|]. intros [= ?]. by eapply H. Qed.

Lemma avoids_lift {A} (r : result E A) : r <> Err e -> avoids (St := St) e (lift r).
Proof. by intros H s. Qed.

Lemma avoids_loop {A B} measure (body : A -> M St E (A + B)) a :
  decreases measure body -> (forall a, avoids e (body a)) -> avoids e (loop measure e body a).
Proof.
  intros Hd Hb s.
  pose proof (hoare_loop measure e body Hd (fun _ _ => True) (fun r _ => r <> Err e)) as H.
  apply H; [|done]. intros a' s' _. specialize (Hb a' s').
  destruct (body a' s') as [[[]|e'] s'']; simpl in *; [done..|].
  intros [= ->]. by apply Hb.
Qed.
End avoids.

Create HintDb total.
#[export] Hint Resolve avoids_ret avoids_bind avoids_attempt avoids_ignore : total.
#[export] Hint Extern 3 (avoids _ (throw _)) => apply avoids_throw; discriminate : total.
#[export] Hint Extern 3 (avoids _ (ensure _ _)) => apply avoids_ensure; discriminate : total.
#[export] Hint Extern 3 (avoids _ (M_map_err _ _)) => apply avoids_map_err; intros; discriminate : total.

(** Sequences of turns that each loop body takes. *)
Ltac hstep := first
  [ apply hoare_ret | apply hoare_throw | apply hoare_attempt | apply hoare_ignore
  | apply hoare_map_err | eapply hoare_bind ].
