(* ===== verification/Metrics.v ===== *)
(** * Runtime counters: [src/metrics.rs]

    Every counter is an [AtomicU64] whose [fetch_add] and [fetch_sub] wrap.
    The operations of one collector are atomic, so an execution of concurrent
    tasks is a sequence of [event]s; a [ConnectionGuard] is one registration
    that has not been dropped yet. *)

From S2P Require Import Prelude.

Definition add_u64 (x y : N) : N := (x + y) mod 2 ^ 64.
Definition sub_u64 (x y : N) : N := (x + 2 ^ 64 - y mod 2 ^ 64) mod 2 ^ 64.

(** [MetricsInner], and its [MetricsSnapshot] *)
Record Metrics : Type := mk_Metrics {
  total_connections : N;
  active_connections : N;
  bytes_sent : N;
  bytes_received : N;
  transfers_initiated : N;
  transfers_completed : N;
  transfers_failed : N;
  errors_total : N;
}.

Definition metrics_new : Metrics := mk_Metrics 0 0 0 0 0 0 0 0.

Definition register_connection (m : Metrics) : Metrics :=
  mk_Metrics (add_u64 (total_connections m) 1) (add_u64 (active_connections m) 1)
    (bytes_sent m) (bytes_received m) (transfers_initiated m) (transfers_completed m)
    (transfers_failed m) (errors_total m).

(** [impl Drop for ConnectionGuard] *)
Definition drop_guard (m : Metrics) : Metrics :=
  mk_Metrics (total_connections m) (sub_u64 (active_connections m) 1)
    (bytes_sent m) (bytes_received m) (transfers_initiated m) (transfers_completed m)
    (transfers_failed m) (errors_total m).

Definition record_bytes_sent (n : N) (m : Metrics) : Metrics :=
  mk_Metrics (total_connections m) (active_connections m)
    (add_u64 (bytes_sent m) n) (bytes_received m) (transfers_initiated m) (transfers_completed m)
    (transfers_failed m) (errors_total m).

Definition record_bytes_received (n : N) (m : Metrics) : Metrics :=
  mk_Metrics (total_connections m) (active_connections m)
    (bytes_sent m) (add_u64 (bytes_received m) n) (transfers_initiated m) (transfers_completed m)
    (transfers_failed m) (errors_total m).

Definition record_transfer_initiated (m : Metrics) : Metrics :=
  mk_Metrics (total_connections m) (active_connections m)
    (bytes_sent m) (bytes_received m) (add_u64 (transfers_initiated m) 1) (transfers_completed m)
    (transfers_failed m) (errors_total m).

Definition record_transfer_completed (m : Metrics) : Metrics :=
  mk_Metrics (total_connections m) (active_connections m)
    (bytes_sent m) (bytes_received m) (transfers_initiated m) (add_u64 (transfers_completed m) 1)
    (transfers_failed m) (errors_total m).

Definition record_transfer_failed (m : Metrics) : Metrics :=
  mk_Metrics (total_connections m) (active_connections m)
    (bytes_sent m) (bytes_received m) (transfers_initiated m) (transfers_completed m)
    (add_u64 (transfers_failed m) 1) (errors_total m).

Definition record_error (m : Metrics) : Metrics :=
  mk_Metrics (total_connections m) (active_connections m)
    (bytes_sent m) (bytes_received m) (transfers_initiated m) (transfers_completed m)
    (transfers_failed m) (add_u64 (errors_total m) 1).

(** ** Executions *)

Inductive event : Type :=
| Register
| DropGuard
| Sent (n : N)
| Received (n : N)
| Initiated
| Completed
| Failed
| Errored.

Definition apply_event (m : Metrics) (e : event) : Metrics :=
  match e with
  | Register => register_connection m
  | DropGuard => drop_guard m
  | Sent n => record_bytes_sent n m
  | Received n => record_bytes_received n m
  | Initiated => record_transfer_initiated m
  | Completed => record_transfer_completed m
  | Failed => record_transfer_failed m
  | Errored => record_error m
  end.

(** How many connections an execution accepted, and how many guards live. *)
Definition registered (es : list event) : N :=
  foldr (fun e n => match e with Register => n + 1 | _ => n end)%N 0%N es.

Definition dropped (es : list event) : N :=
  foldr (fun e n => match e with DropGuard => n + 1 | _ => n end)%N 0%N es.

(** ** Modular arithmetic *)

Lemma add_u64_small x y : (x + y < 2 ^ 64)%N -> add_u64 x y = (x + y)%N.
Proof. intros. by apply N.mod_small. Qed.

Lemma add_u64_mod x y : add_u64 (x mod 2 ^ 64) y = ((x + y) mod 2 ^ 64)%N.
Proof. unfold add_u64. by rewrite N.Div0.add_mod_idemp_l. Qed.

(** [fetch_sub] undoes [fetch_add] in any residue. *)
Lemma sub_u64_mod x : (0 < x)%N -> sub_u64 (x mod 2 ^ 64) 1 = ((x - 1) mod 2 ^ 64)%N.
Proof.
  intros Hx. unfold sub_u64. rewrite (N.mod_small 1) by done.
  rewrite <-N.add_sub_assoc by done. rewrite N.Div0.add_mod_idemp_l.
  replace (x + (2 ^ 64 - 1))%N with (x - 1 + 1 * 2 ^ 64)%N by lia.
  by rewrite N.Div0.mod_add.
Qed.

(** Guards are only dropped once created. *)
Fixpoint balanced (live : N) (es : list event) : Prop :=
  match es with
  | [] => True
  | Register :: es => balanced (live + 1) es
  | DropGuard :: es => (0 < live)%N /\ balanced (live - 1) es
  | _ :: es => balanced live es
  end.

Lemma balanced_count live es :
  balanced live es -> (dropped es <= live + registered es)%N.
Proof.
  revert live. induction es as [|e es IH]; intros live; simpl; [lia|].
  destruct e; try apply IH.
  - intros H%IH. lia.
  - intros [? H%IH]. lia.
Qed.

Lemma apply_events_active es m live :
  balanced live es -> active_connections m = (live mod 2 ^ 64)%N ->
  active_connections (foldl apply_event m es)
  = ((live + registered es - dropped es) mod 2 ^ 64)%N.
Proof.
  revert m live. induction es as [|e es IH]; intros m live Hb Hm.
  { unfold foldl. rewrite Hm. f_equal. unfold registered, dropped, foldr. lia. }
  change (foldl apply_event m (e :: es)) with (foldl apply_event (apply_event m e) es).
  destruct e; cbn [balanced registered dropped foldr] in *;
    try (apply IH; [done|exact Hm]).
  - rewrite (IH _ (live + 1)%N Hb) by (simpl; rewrite Hm; apply add_u64_mod).
    f_equal. fold (registered es) (dropped es). lia.
  - destruct Hb as [Hl Hb]. pose proof (balanced_count _ _ Hb).
    rewrite (IH _ (live - 1)%N Hb) by (simpl; rewrite Hm; by apply sub_u64_mod).
    f_equal. fold (registered es) (dropped es). lia.
Qed.

(** ** Property *)

(** The gauge of active connections is the number of live guards: in every
    interleaving of the recorded events in which a guard is dropped at most
    once and after it was created, [active_connections] is, modulo 2^64, the
    number of registrations minus the number of drops, whatever else is
    recorded between them; so once every guard is gone it is 0 again. *)
Theorem active_counts_live_guards es :
  balanced 0 es ->
  active_connections (foldl apply_event metrics_new es)
  = ((registered es - dropped es) mod 2 ^ 64)%N /\
  (dropped es = registered es -> active_connections (foldl apply_event metrics_new es) = 0%N).
Proof.
  intros Hb.
  assert (active_connections (foldl apply_event metrics_new es)
          = ((registered es - dropped es) mod 2 ^ 64)%N) as E.
  { by rewrite (apply_events_active es metrics_new 0 Hb). }
  split; [done|]. intros Hd. rewrite E, Hd. by rewrite N.sub_diag.
Qed.

Definition demo_events : list event := [Register; Sent 7; Register; DropGuard; Errored; DropGuard].

Lemma active_counts_live_guards_witness :
  active_connections (foldl apply_event metrics_new demo_events) = 0%N.
Proof.
  apply (active_counts_live_guards demo_events); [|reflexivity].
  unfold demo_events, balanced. repeat split.
Defined.
