(* ===== verification/Conn.v ===== *)
(** * A transfer stream and the machine behind it

    The state of a transfer handler, on either side: the [IrohDuplex] as the
    bytes still to be read and the bytes written, the handler's [frame_buf],
    and the local file system. [recv], [send] and [on_disk] run the codec and
    the system calls on their part of it.

    [SystemTexts] and [Machine] hold what the handlers use and the repository
    does not contain: the texts of foreign [Display] and [Debug]
    implementations, and the surroundings of the process. *)

From S2P Require Import Prelude Text Stream TransferTypes TransferCodec Fs Paths Hoare Metrics.

(** ** Errors *)

(** [ClientError], as far as the transfer code creates it; a path is its bytes. *)
Inductive ClientError : Type :=
| TransportUnavailable (details : bytes)
| StreamOpenFailed
| FileIo (operation : bytes) (path : bytes) (source : io_error)
| UploadFailed (details : bytes)
| DownloadFailed (details : bytes)
| TransferRejected (failure : TransferFailure)
| TransferTargetInvalid (reason : bytes)
| ClientTransferFailed (failure : TransferFailure).

(** [IroshError], as far as the transfer code creates it. [EDiverged] is not
    in the source: a loop of the model returns it when it runs out of fuel,
    and every handler is proved to avoid it. *)
Inductive IroshError : Type :=
| EServer (e : ServerError)
| EClient (e : ClientError)
| ETransport (e : TransferError)
| EIo (e : io_error)
| EDiverged.

Definition failed (code : TransferFailureCode) (detail : bytes) : IroshError :=
  EServer (TransferFailed (mk_TransferFailure code detail)).

(** ** Surroundings *)

Class SystemTexts : Type := {
  io_text : io_error -> bytes;               (** [Display for io::Error] *)
  frame_text : TransferFrame -> bytes;       (** [Debug for TransferFrame] *)
  context_text : ShellContext -> bytes;      (** [Debug for ShellContext] *)
  transfer_text : TransferError -> bytes;    (** [Display for TransferError], with its I/O errors *)
  error_chain : IroshError -> list bytes;    (** [to_string] of an error and its sources *)
}.

Class Machine : Type := {
  process_cwd : N -> option path;   (** [resolve_process_cwd] *)
  home_dir : option path;           (** [$HOME] *)
  working_dir : path;                (** the working directory of this process *)
  process_id : N;
  clock : nat -> N;                 (** nanoseconds since the epoch, by system call count *)
  deferred : bool;                  (** a [tokio::fs::File] reports a failed write at the
                                        next operation on it instead of on the spot *)
  short_read : nat -> nat;          (** how many bytes of those left a [read] returns *)
  can_reserve : N -> bool;          (** the allocator has this many bytes *)
}.

(** ** Connections *)

Record conn : Type := mk_conn {
  incoming : reader;
  frame_buf : bytes;
  outgoing : writer;
  local_fs : fs;
}.

Definition on_disk {E A} (m : M fs E A) : M conn E A := fun c =>
  let '(r, s) := m (local_fs c) in
  (r, mk_conn (incoming c) (frame_buf c) (outgoing c) s).

Definition to_peer {E A} (m : M writer E A) : M conn E A := fun c =>
  let '(r, w) := m (outgoing c) in
  (r, mk_conn (incoming c) (frame_buf c) w (local_fs c)).

(** [write_..(stream, ..).await.map_err(TransportError::from)?] *)
Definition send {A} (m : M writer TransferError A) : M conn IroshError A :=
  M_map_err ETransport (to_peer m).

Section frames.
Context {SJ : SerdeJson}.

(** [read_next_frame_into(stream, &mut frame_buf)] *)
Definition recv_raw : M conn TransferError TransferFrameBorrowed := fun c =>
  let '(r, (rd, buf)) := read_next_frame_into (incoming c, frame_buf c) in
  (r, mk_conn rd buf (outgoing c) (local_fs c)).

Definition recv_as (f : TransferError -> IroshError) : M conn IroshError TransferFrameBorrowed :=
  M_map_err f recv_raw.

Definition recv : M conn IroshError TransferFrameBorrowed := recv_as ETransport.

(** [read_next_frame(stream)] *)
Definition recv_frame : M conn IroshError TransferFrame := fun c =>
  let '(r, rd) := read_next_frame (incoming c) in
  (map_err ETransport r, mk_conn rd (frame_buf c) (outgoing c) (local_fs c)).

(** [let mut frame_buf = Vec::new()] *)
Definition fresh_buffer : M conn IroshError unit := fun c =>
  (Ok tt, mk_conn (incoming c) [] (outgoing c) (local_fs c)).
End frames.

(** What a loop over incoming frames consumes. *)
Definition unread {A} (_ : A) (c : conn) : nat := length (rd_data (incoming c)).

Definition frame_loop {A B} (body : A -> M conn IroshError (A + B)) (a : A) : M conn IroshError B :=
  loop unread EDiverged body a.

(** ** Lemmas *)

Section facts.
Context {SJ : SerdeJson}.

Lemma read_frame_into_consumes rb x rb' :
  read_frame_into rb = (Ok x, rb') -> length (rd_data rb'.1) < length (rd_data rb.1).
Proof.
  destruct rb as [r buf]. destruct (read_frame_into_spec r buf) as (buf' & -> & _).
  destruct (read_frame r) as [[[kind payload]|e] r'] eqn:E; [|done]. intros [= _ <-]. simpl.
  apply read_frame_inv in E as (_ & -> & _). unfold encode_frame. rewrite !length_app, !be_bytes_length.
  simpl. lia.
Qed.

Lemma recv_consumes g c f c' :
  recv_as g c = (Ok f, c') ->
  length (rd_data (incoming c')) < length (rd_data (incoming c)) /\
  outgoing c' = outgoing c /\ local_fs c' = local_fs c.
Proof.
  unfold recv_as, recv_raw, M_map_err.
  destruct (read_next_frame_into (incoming c, frame_buf c)) as [r [rd buf]] eqn:E.
  destruct r as [f'|]; [|done]. intros [= -> <-]. simpl. split; [|done].
  apply bind_ok_inv in E as ([k p] & rb & Hr & Hk).
  apply read_frame_into_consumes in Hr as Hlt. simpl in Hlt.
  destruct rb as [rd' buf']. simpl in Hlt.
  assert (rd = rd') as ->; [|done].
  revert Hk. unfold mret, M_ret, lift, mbind, M_bind. repeat case_match; congruence.
Qed.

Lemma recv_keeps g c :
  outgoing (recv_as g c).2 = outgoing c /\ local_fs (recv_as g c).2 = local_fs c.
Proof.
  unfold recv_as, recv_raw, M_map_err.
  by destruct (read_next_frame_into _) as [r [rd buf]].
Qed.

(** What [recv] returns, through the reader without a buffer. *)
Definition borrowed (f : TransferFrame) : TransferFrameBorrowed :=
  match f with
  | FPutChunk b => BPutChunk b
  | FGetChunk b => BGetChunk b
  | f => BOwned f
  end.

Lemma recv_spec g c :
  exists buf, recv_as g c =
    (map_err g (borrowed <$> (read_next_frame (incoming c)).1),
     mk_conn (read_next_frame (incoming c)).2 buf (outgoing c) (local_fs c)).
Proof.
  destruct (buffered_reader_equivalent (incoming c) (frame_buf c)) as (buf & E).
  exists buf. unfold recv_as, recv_raw, M_map_err. rewrite E.
  destruct (read_next_frame (incoming c)) as [[f|e] r']; simpl; [by destruct f|done].
Qed.

Lemma recv_frame_keeps c :
  outgoing (recv_frame c).2 = outgoing c /\ local_fs (recv_frame c).2 = local_fs c.
Proof. unfold recv_frame. by destruct (read_next_frame _). Qed.
End facts.

(** *** Progress *)

(** [m] only consumes its stream. *)
Definition shrinks {S E A} (size : S -> nat) (m : M S E A) : Prop :=
  forall s, size (m s).2 <= size s.

Section shrinks.
Context {S : Type} (size : S -> nat).

Lemma shrinks_ret {E A} (a : A) : shrinks size (mret (M := M S E) a).
Proof. by intros s. Qed.

Lemma shrinks_throw {E A} (e : E) : shrinks size (throw (A := A) e).
Proof. by intros s. Qed.

Lemma shrinks_lift {E A} (r : result E A) : shrinks size (lift r).
Proof. by intros s. Qed.

Lemma shrinks_ensure {E} (c : bool) (e : E) : shrinks size (ensure c e).
Proof. by destruct c; intros s. Qed.

Lemma shrinks_bind {E A B} (m : M S E A) (k : A -> M S E B) :
  shrinks size m -> (forall a, shrinks size (k a)) -> shrinks size (m ≫= k).
Proof.
  intros Hm Hk s. specialize (Hm s). unfold mbind, M_bind.
  destruct (m s) as [[a|e] s']; simpl in *; [|done]. specialize (Hk a s'). lia.
Qed.

Lemma shrinks_attempt {F E A} (m : M S F A) : shrinks size m -> shrinks size (attempt (E := F) (F := E) m).
Proof. intros Hm s. specialize (Hm s). unfold attempt. by destruct (m s). Qed.

Lemma shrinks_ignore {F E A} (m : M S F A) : shrinks size m -> shrinks size (ignore (E := E) m).
Proof. intros Hm s. exact (Hm s). Qed.

Lemma shrinks_map_err {F E A} (f : F -> E) (m : M S F A) :
  shrinks size m -> shrinks size (M_map_err f m).
Proof. intros Hm s. specialize (Hm s). unfold M_map_err. by destruct (m s). Qed.

Lemma shrinks_on_error {E F A} (m : M S E A) (undo : M S F unit) :
  shrinks size m -> shrinks size undo -> shrinks size (on_error m undo).
Proof.
  intros Hm Hu s. specialize (Hm s). unfold on_error.
  destruct (m s) as [[a|e] s']; simpl in *; [done|]. specialize (Hu s'). lia.
Qed.

Lemma shrinks_loop {E A B} measure (d : E) (body : A -> M S E (A + B)) a :
  (forall a, shrinks size (body a)) -> shrinks size (loop measure d body a).
Proof.
  intros Hb s. unfold loop. generalize (Datatypes.S (measure a s)). intros n.
  assert (forall s, size (iterate n body a s).2 <= size s) as H.
  { revert a. induction n as [|n IH]; intros a s'; [done|]. simpl.
    apply shrinks_bind; [apply Hb|]. intros [a'|b] s''; [apply IH|done]. }
  specialize (H s). by destruct (iterate n body a s) as [[[]|] s'].
Qed.
End shrinks.

Create HintDb shrinks.
#[export] Hint Resolve shrinks_ret shrinks_throw shrinks_lift shrinks_ensure shrinks_bind
  shrinks_attempt shrinks_ignore shrinks_map_err shrinks_on_error shrinks_loop : shrinks.

Definition backlog (c : conn) : nat := length (rd_data (incoming c)).

Lemma shrinks_read_exact n : shrinks (fun r => length (rd_data r)) (read_exact n).
Proof.
  intros r. unfold read_exact. case_decide; simpl; [|lia]. rewrite length_drop. lia.
Qed.

Lemma shrinks_read_frame : shrinks (fun r => length (rd_data r)) read_frame.
Proof.
  unfold read_frame, read_u8, read_u32, io, validate_payload_limit.
  repeat (apply shrinks_bind; [|intros]); auto using shrinks_read_exact with shrinks.
Qed.

Section progress.
Context {SJ : SerdeJson}.

Lemma shrinks_read_next_frame : shrinks (fun r => length (rd_data r)) read_next_frame.
Proof.
  assert (shrinks (fun r => length (rd_data r))
            ('(kind, payload) ← read_frame; lift (classify kind payload))) as H.
  { apply shrinks_bind; [apply shrinks_read_frame|]. intros [k p]. apply shrinks_lift. }
  intros r. rewrite read_next_frame_spec. apply H.
Qed.

Lemma recv_shrinks g : shrinks backlog (recv_as g).
Proof. intros c. destruct (recv_spec g c) as [buf ->]. apply shrinks_read_next_frame. Qed.

Lemma recv_frame_shrinks : shrinks backlog recv_frame.
Proof.
  intros c. pose proof (shrinks_read_next_frame (incoming c)) as H.
  unfold recv_frame, backlog. by destruct (read_next_frame (incoming c)).
Qed.

Lemma send_shrinks {A} (m : M writer TransferError A) : shrinks backlog (send m).
Proof. intros c. unfold send, M_map_err, to_peer. by destruct (m (outgoing c)). Qed.

Lemma on_disk_shrinks {E A} (m : M fs E A) : shrinks backlog (on_disk m).
Proof. intros c. unfold on_disk. by destruct (m (local_fs c)). Qed.

Lemma fresh_buffer_shrinks : shrinks backlog fresh_buffer.
Proof. by intros c. Qed.

(** A turn that starts by reading a frame lowers [unread]. *)
Lemma reads_first {A B} g (k : A -> TransferFrameBorrowed -> M conn IroshError (A + B)) :
  (forall a f, shrinks backlog (k a f)) -> decreases unread (fun a => f ← recv_as g; k a f).
Proof.
  intros Hk a c a' c' (f & c1 & Hr & E)%bind_ok_inv.
  apply recv_consumes in Hr as [Hlt _]. unfold unread.
  specialize (Hk a f c1). rewrite E in Hk. unfold backlog in Hk. simpl in Hk. lia.
Qed.

(** The same where a failed read ends the loop. *)
Lemma attempts_first {A B}
    (k : A -> result IroshError TransferFrameBorrowed -> M conn IroshError (A + B)) :
  (forall a f, shrinks backlog (k a (Ok f))) ->
  (forall a e c a', (k a (Err e) c).1 <> Ok (inl a')) ->
  decreases unread (fun a => f ← attempt recv; k a f).
Proof.
  intros Hk He a c a' c' (r & c1 & Hr & E)%bind_ok_inv.
  unfold attempt in Hr. destruct (recv c) as [r' c2] eqn:Hc. injection Hr as <- <-.
  destruct r' as [f|e]; [|exfalso; eapply He; by rewrite E].
  apply recv_consumes in Hc as [Hlt _]. unfold unread.
  specialize (Hk a f c2). rewrite E in Hk. unfold backlog in Hk. simpl in Hk. lia.
Qed.
End progress.

Lemma recv_shrinks' {SJ : SerdeJson} : shrinks backlog recv.
Proof. apply recv_shrinks. Qed.

#[export] Hint Resolve recv_shrinks recv_shrinks' recv_frame_shrinks send_shrinks on_disk_shrinks
  fresh_buffer_shrinks : shrinks.

(** Descend through a handler, splitting its matches. *)
Ltac shrinking := repeat first
  [ solve [auto with shrinks]
  | match goal with
    | |- shrinks _ (_ ≫= _) => apply shrinks_bind; [|intros]
    | |- shrinks _ (ignore _) => apply shrinks_ignore
    | |- shrinks _ (attempt _) => apply shrinks_attempt
    | |- shrinks _ (M_map_err _ _) => apply shrinks_map_err
    | |- shrinks _ (on_error _ _) => apply shrinks_on_error
    | |- shrinks _ (loop _ _ _ _) => apply shrinks_loop; intros
    end
  | case_match ].

(** *** Termination *)

Lemma on_disk_avoids {A} (m : M fs IroshError A) :
  avoids EDiverged m -> avoids EDiverged (on_disk m).
Proof.
  intros Hm c. specialize (Hm (local_fs c)). unfold on_disk. by destruct (m (local_fs c)).
Qed.

Lemma send_avoids {A} (m : M writer TransferError A) : avoids EDiverged (send m).
Proof. by apply avoids_map_err. Qed.

Lemma recv_avoids {SJ : SerdeJson} : avoids EDiverged recv.
Proof. by apply avoids_map_err. Qed.

Lemma recv_as_avoids {SJ : SerdeJson} g : (forall e, g e <> EDiverged) -> avoids EDiverged (recv_as g).
Proof. intros Hg. by apply avoids_map_err. Qed.

Lemma recv_frame_avoids {SJ : SerdeJson} : avoids EDiverged recv_frame.
Proof. intros c. unfold recv_frame. destruct (read_next_frame _) as [[]]; done. Qed.

Lemma fresh_buffer_avoids : avoids EDiverged fresh_buffer.
Proof. by intros c. Qed.

#[export] Hint Resolve send_avoids recv_avoids recv_frame_avoids fresh_buffer_avoids : total.

Lemma avoids_on_error {S E F A} (e : E) (m : M S E A) (undo : M S F unit) :
  avoids e m -> avoids e (on_error m undo).
Proof.
  intros Hm s. specialize (Hm s). unfold on_error. by destruct (m s) as [[]].
Qed.

Ltac terminating := repeat first
  [ solve [auto with total]
  | match goal with
    | |- avoids _ (_ ≫= _) => apply avoids_bind; [|intros]
    | |- avoids _ (ignore _) => apply avoids_ignore
    | |- avoids _ (attempt _) => apply avoids_attempt
    | |- avoids _ (on_error _ _) => apply avoids_on_error
    | |- avoids _ (on_disk _) => apply on_disk_avoids
    end
  | case_match ].

(** *** What leaves the disk alone *)

Definition diskless {E A} (m : M conn E A) : Prop := forall c, local_fs (m c).2 = local_fs c.

Lemma send_diskless {A} (m : M writer TransferError A) : diskless (send m).
Proof. intros c. unfold send, M_map_err, to_peer. by destruct (m (outgoing c)). Qed.

Lemma recv_diskless {SJ : SerdeJson} : diskless recv.
Proof. intros c. apply (recv_keeps ETransport). Qed.

Lemma hoare_diskless {E A} (P : fs -> Prop) (m : M conn E A) :
  diskless m -> hoare (fun c => P (local_fs c)) m (fun _ c => P (local_fs c)).
Proof. intros Hm c Hc. by rewrite Hm. Qed.

(** A triple about the disk is a triple about the connection. *)
Lemma hoare_on_disk {E A} (P : fs -> Prop) (m : M fs E A) Q :
  hoare P m Q -> hoare (fun c => P (local_fs c)) (on_disk m) (fun r c => Q r (local_fs c)).
Proof. intros H c Hc. specialize (H _ Hc). unfold on_disk. by destruct (m (local_fs c)). Qed.

Lemma hoare_send {A} (P : fs -> Prop) (m : M writer TransferError A) :
  hoare (fun c => P (local_fs c)) (send m) (fun _ c => P (local_fs c)).
Proof. apply hoare_diskless, send_diskless. Qed.

Section chunks.
Context {SJ : SerdeJson}.

(** A chunk was part of what was unread. *)
Lemma recv_chunk c b c' :
  recv c = (Ok (BPutChunk b), c') \/ recv c = (Ok (BGetChunk b), c') ->
  length b + backlog c' <= backlog c.
Proof.
  intros H. destruct (recv_spec ETransport c) as [buf E]. fold recv in E.
  destruct (read_next_frame (incoming c)) as [[f|e] r'] eqn:Hr; rewrite E in H; simpl in H;
    [|by destruct H].
  apply read_next_frame_inv in Hr as (payload & Hr & Hc).
  apply read_frame_inv in Hr as (_ & Hd & _).
  assert (payload = b /\ backlog c' = length (rd_data r')) as [<- Hb].
  { destruct f; destruct H as [[= <- <-]|[= <- <-]]; injection Hc as ->; done. }
  rewrite Hb. unfold backlog. rewrite Hd. unfold encode_frame. rewrite !length_app. lia.
Qed.

(** Reading leaves the disk alone, and the loop of an upload keeps count. *)
Lemma hoare_recv_chunks (P : fs -> Prop) (n bound : N) :
  hoare (fun c => P (local_fs c) /\ (n + N.of_nat (backlog c) <= bound)%N)
    (attempt (F := IroshError) recv)
    (post (fun r c => P (local_fs c) /\
             match r with
             | Ok (BPutChunk b) | Ok (BGetChunk b) => (n + blen b + N.of_nat (backlog c) <= bound)%N
             | _ => True
             end) (fun _ _ => False)).
Proof.
  intros c [Hp Hn]. unfold attempt. pose proof (recv_keeps ETransport c) as [_ Hfs]. fold recv in Hfs.
  pose proof (recv_chunk c) as Hc. destruct (recv c) as [r c'] eqn:E. simpl in *.
  rewrite Hfs. split; [done|]. unfold blen.
  destruct r as [[b|b|f]|e]; try done;
    [specialize (Hc b c' (or_introl eq_refl))|specialize (Hc b c' (or_intror eq_refl))]; lia.
Qed.
End chunks.

(** *** Loops over lists *)

Lemma collect_avoids {S E A B} (e : E) (f : A -> M S E (option B)) l :
  (forall x, avoids e (f x)) -> avoids e (collect f l).
Proof.
  intros Hf. induction l as [|x l IH]; [apply avoids_ret|]. cbn [collect].
  apply avoids_bind; [apply Hf|]. intros y. apply avoids_bind; [apply IH|]. intros ys. apply avoids_ret.
Qed.

Lemma for_each_avoids {S E A} (e : E) (f : A -> M S E unit) l :
  (forall x, avoids e (f x)) -> avoids e (for_each f l).
Proof.
  intros Hf. induction l as [|x l IH]; [apply avoids_ret|]. cbn [for_each].
  apply avoids_bind; [apply Hf|]. intros _. apply IH.
Qed.
