(* ===== verification/ShellOps.v ===== *)
(** * File operations of a request: [src/server/transfer/state.rs], [helpers.rs]

    A request runs in a [ShellContext]. With a live shell every operation is a
    helper program started in the shell's namespaces: [LiveShell] is what the
    source asks of [tokio::process]. Without one the operations are system
    calls of the server process, on the [&str] the source passes. The
    operating system resolves such a path component by component ([walk]), so
    that [..] needs its directory to exist. A trailing separator is not kept. *)

From stdpp Require Import sorting.
From S2P Require Import Prelude Text Stream TransferTypes TransferCodec Fs Paths Hoare Conn.

(** ** Paths as the operating system sees them *)

(** The bytes of an absolute [PathBuf], and its [display().to_string()]. *)
Definition os_str (p : path) : bytes :=
  match p with
  | [] => bs "/"
  | _ => reverse p ≫= fun c => "/"%char :: c
  end.

Definition display (p : path) : bytes := utf8_lossy (os_str p).

(** Name resolution: every directory on the way must exist. *)
Fixpoint walk (d : disk) (p : path) : result io_error path :=
  match p with
  | [] => Ok []
  | c :: q =>
      q ← walk d q;
      match d !! q with
      | Some (Dir _) => Ok (join_component q c)
      | Some (File _ _) => Err NotADirectory
      | None => Err NotFound
      end
  end.

(** A system call on the lexical path [p]. *)
Definition at_path {A} (p : path) (op : path -> M fs io_error A) : M fs io_error A := fun s =>
  match walk (nodes s) p with
  | Ok q => op q s
  | Err e => query (fun _ => Err e) s
  end.

(** [std::fs::create_dir_all], which recurses on [Path::parent]. *)
Fixpoint create_dir_all_at (p : path) : M fs io_error unit := fun s =>
  let or_dir (e : io_error) (s : fs) :=
    match attempt (F := io_error) (at_path p metadata) s with
    | (Ok (Ok (true, _)), s) => (Ok tt, s)
    | (_, s) => (Err e, s)
    end in
  match at_path p mkdir s with
  | (Ok _, s) => (Ok tt, s)
  | (Err NotFound, s) =>
      match p with
      | [] => (Err OtherError, s)
      | _ :: q =>
          match create_dir_all_at q s with
          | (Err e, s) => (Err e, s)
          | (Ok _, s) =>
              match at_path p mkdir s with
              | (Ok _, s) => (Ok tt, s)
              | (Err e, s) => or_dir e s
              end
          end
      end
  | (Err e, s) => or_dir e s
  end.

(** [Metadata]: [is_dir], the permission bits and [len]. *)
Definition metadata_len (p : path) : M fs io_error (bool * N * N) := query (fun d =>
  match d !! p with
  | Some (Dir m) => Ok (true, m, 0%N)
  | Some (File c m) => Ok (false, m, blen c)
  | None => Err NotFound
  end).

(** [File::open] and one [read] of at most [n] bytes at [offset], which may
    return fewer, but none only at the end of the file. *)
Definition file_open (p : path) : M fs io_error path := query (fun d =>
  match d !! p with Some _ => Ok p | None => Err NotFound end).

Definition file_read `{Machine} (p : path) (offset n : nat) : M fs io_error bytes := query (fun d =>
  match d !! p with
  | Some (File c _) => Ok (take (min n (max 1 (short_read (length c - offset)))) (drop offset c))
  | Some (Dir _) => Err IsADirectory
  | None => Err NotFound
  end).

(** ** [std::path] *)

Definition file_name (p : path) : option bytes :=
  match p with
  | c :: _ => if decide (c = bs "..") then None else Some c
  | [] => None
  end.

(** [.file_name().and_then(|n| n.to_str()).unwrap_or("transfer")] *)
Definition name_or_transfer (p : path) : bytes :=
  match file_name p with
  | Some n => if utf8_valid n then n else bs "transfer"
  | None => bs "transfer"
  end.

Definition set_file_name (p : path) (name : bytes) : path :=
  match file_name p with
  | Some _ => name :: tail p
  | None => name :: p
  end.

Definition parent (p : path) : option path :=
  match p with [] => None | _ :: q => Some q end.

(** ** Helper programs *)

Record command : Type := mk_command {
  program : bytes;
  arguments : list bytes;
  current_dir : option path;
}.

(** A shell fragment followed by its quoted first argument. *)
Definition quoted (fragment : string) : bytes :=
  let q := ascii_of_N 34 in bs fragment ++ [q] ++ bs "$1" ++ [q].

Definition cmd (prog : string) (args : list bytes) : command := mk_command (bs prog) args None.

Record output : Type := mk_output {
  success : bool;
  stdout : bytes;
  stderr : bytes;
}.

Class LiveShell : Type := {
  child : Type;
  run_status : N -> command -> M fs io_error bool;
  run_output : N -> command -> M fs io_error output;
  spawn : N -> command -> M fs io_error child;
  has_stdin : child -> bool;
  has_stdout : child -> bool;
  child_write : bytes -> M (fs * child) io_error unit;
  child_flush : M (fs * child) io_error unit;
  child_read : nat -> M (fs * child) io_error bytes;
  child_wait : child -> M fs io_error output;
  child_left : child -> nat;        (** how often its standard output can still be read *)
}.

(** [str::contains] *)
Fixpoint infix_of (b needle : bytes) : bool :=
  starts_with b needle || match b with [] => false | _ :: b => infix_of b needle end.

(** ** Numbers in program output *)

Definition digit_of (radix : N) (c : ascii) : option N :=
  let n := N_of_ascii c in
  if (48 <=? n)%N && (n <? 48 + radix)%N then Some (n - 48)%N else None.

(** [from_str_radix] for an unsigned type with maximum [bound - 1]. *)
Fixpoint parse_digits (radix bound acc : N) (b : bytes) : result bytes N :=
  match b with
  | [] => Ok acc
  | c :: b =>
      match digit_of radix c with
      | None => Err (bs "invalid digit found in string")
      | Some d =>
          let acc := (acc * radix + d)%N in
          if (acc <? bound)%N then parse_digits radix bound acc b
          else Err (bs "number too large to fit in target type")
      end
  end.

Definition parse_radix (radix bound : N) (b : bytes) : result bytes N :=
  match b with
  | [] => Err (bs "cannot parse integer from empty string")
  | "+"%char :: ([] as r) => Err (bs "invalid digit found in string")
  | "+"%char :: r => parse_digits radix bound 0 r
  | _ => parse_digits radix bound 0 b
  end.

Definition parse_u64 : bytes -> result bytes N := parse_radix 10 (2 ^ 64).

(** ** [impl ShellContext] *)

Section operations.
Context {ST : SystemTexts} {MA : Machine} {LS : LiveShell}.

Definition io_or_server {A} (m : M fs io_error A) : M fs IroshError A := M_map_err EIo m.

(** The absolute form of a [&str] path given to a system call. *)
Definition os_path (raw : bytes) : path := path_join working_dir raw.

Definition probe {A} (what : string) (m : M fs io_error A) : M fs IroshError A :=
  M_map_err (fun e => EServer (ShellError (bs what ++ io_text e))) m.

Definition path_exists (ctx : ShellContext) (raw : bytes) : M fs IroshError bool :=
  match ctx with
  | Live pid =>
      probe "failed to probe remote path existence: "
        (run_status pid (cmd "test" [bs "-e"; raw]))
  | Stateless =>
      r ← attempt (F := IroshError) (at_path (os_path raw) metadata);
      mret (is_ok r)
  end.

Definition path_missing_no_follow (ctx : ShellContext) (raw : bytes) : M fs IroshError bool :=
  match ctx with
  | Live pid =>
      ok ← probe "failed to probe remote path existence: "
             (run_status pid (cmd "test" [bs "-e"; raw; bs "-o"; bs "-L"; raw]));
      mret (negb ok)
  | Stateless =>
      r ← attempt (F := IroshError) (at_path (os_path raw) metadata);
      match r with
      | Ok _ => mret false
      | Err NotFound => mret true
      | Err e => throw (EIo e)
      end
  end.

Definition is_dir (ctx : ShellContext) (raw : bytes) : M fs IroshError bool :=
  match ctx with
  | Live pid =>
      probe "failed to probe remote path directory status: "
        (run_status pid (cmd "test" [bs "-d"; raw]))
  | Stateless =>
      r ← attempt (F := IroshError) (at_path (os_path raw) metadata);
      match r with
      | Ok (d, _) => mret d
      | Err NotFound => mret false
      | Err e => throw (EIo e)
      end
  end.

(** [status.is_ok_and(|s| s.success())] *)
Definition succeeded (pid : N) (c : command) : M fs IroshError bool :=
  r ← attempt (F := IroshError) (run_status pid c);
  mret (match r with Ok ok => ok | Err _ => false end).

Definition create_dir_all (ctx : ShellContext) (p : path) : M fs IroshError bool :=
  match ctx with
  | Live pid => succeeded pid (cmd "mkdir" [bs "-p"; os_str p])
  | Stateless => io_or_server (create_dir_all_at p);; mret true
  end.

Definition remove_file_if_present (ctx : ShellContext) (raw : bytes) : M fs IroshError unit :=
  match ctx with
  | Live pid => ignore (run_status pid (cmd "rm" [bs "-f"; raw]))
  | Stateless => ignore (at_path (os_path raw) remove_file)
  end.

Definition rename (ctx : ShellContext) (from to : bytes) : M fs IroshError bool :=
  match ctx with
  | Live pid => succeeded pid (cmd "mv" [from; to])
  | Stateless =>
      io_or_server (at_path (os_path from) (fun p => at_path (os_path to) (fun q => Fs.rename p q)));;
      mret true
  end.

(** [format!("{mode:o}")] *)
Fixpoint octal_fuel (fuel : nat) (x : N) : bytes :=
  match fuel with
  | O => []
  | S fuel =>
      (if (x <? 8)%N then [] else octal_fuel fuel (x / 8)) ++ [hex_digit (x mod 8)]
  end.

Definition octal (x : N) : bytes := octal_fuel (S (N.to_nat (N.log2 x))) x.

Definition chmod (ctx : ShellContext) (raw : bytes) (mode : N) : M fs IroshError unit :=
  match ctx with
  | Live pid => ignore (run_status pid (cmd "chmod" [octal mode; raw]))
  | Stateless =>
      ignore (at_path (os_path raw) (fun p => set_permissions p (N.land mode 4095)))
  end.

(** ** [helpers.rs] *)

Record PreparedPutDestination : Type := mk_Prepared {
  final_arg : bytes;
  part_arg : bytes;
}.

Definition part_name (dest : path) (unique : N) : bytes :=
  bs "." ++ name_or_transfer dest ++ bs "." ++ decimal process_id ++ bs "." ++ decimal unique
  ++ bs ".irosh_part".

Definition resolved (ctx : ShellContext) (raw : bytes) : M fs IroshError path :=
  lift (map_err EServer (resolve_path process_cwd home_dir ctx raw)).

Definition prepare_put_destination (ctx : ShellContext) (raw_path : bytes) :
    M fs IroshError (option PreparedPutDestination) :=
  dest_path ← resolved ctx raw_path;
  let final := display dest_path in
  missing ← path_missing_no_follow ctx final;
  if negb missing then mret None else
  let dir := default working_dir (parent dest_path) in
  let dir_text := match parent dest_path with Some q => display q | None => bs "." end in
  ok ← create_dir_all ctx dir;
  ensure ok (failed CreateDirectoryFailed
               (bs "failed to create destination directory: " ++ dir_text));;
  s ← read_state;
  let part_path := set_file_name dest_path (part_name dest_path (clock (ticks s))) in
  mret (Some (mk_Prepared final (display part_path))).

Definition target_exists_failure (p : path) : TransferFailure :=
  mk_TransferFailure TargetAlreadyExists (display p).

Definition atomic_rename_failure (p : bytes) : TransferFailure :=
  mk_TransferFailure AtomicRenameFailed p.

(** *** [tokio::fs::File] for writing *)

(** A handle is the path of its file and the error of a write that has not
    been reported yet. *)
Definition tokio_write (p : path) (pending : option io_error) (chunk : bytes) :
    M fs IroshError (result io_error unit * option io_error) :=
  match pending with
  | Some e => mret (Err e, None)
  | None =>
      r ← attempt (F := IroshError) (file_write_all p chunk);
      mret (match r with
            | Ok _ => (Ok tt, None)
            | Err e => if deferred then (Ok tt, Some e) else (Err e, None)
            end)
  end.

Definition tokio_flush (pending : option io_error) : result io_error unit :=
  match pending with Some e => Err e | None => Ok tt end.

(** *** [UploadSink] *)

Inductive UploadSink : Type :=
| SinkProcess (c : child)
| SinkFile (p : path) (pending : option io_error).

(** [sink.stdin()] *)
Definition sink_stdin (sink : UploadSink) : bool :=
  match sink with SinkProcess c => has_stdin c | SinkFile _ _ => true end.

Definition sink_write (sink : UploadSink) (chunk : bytes) :
    M fs IroshError (result io_error unit * UploadSink) :=
  match sink with
  | SinkProcess c => fun s =>
      let '(r, (s, c)) := child_write chunk (s, c) in (Ok (r, SinkProcess c), s)
  | SinkFile p pending =>
      '(r, pending) ← tokio_write p pending chunk;
      mret (r, SinkFile p pending)
  end.

(** [let _ = stdin.flush().await] *)
Definition sink_flush (sink : UploadSink) : M fs IroshError UploadSink :=
  match sink with
  | SinkProcess c => fun s =>
      let '(_, (s, c)) := child_flush (s, c) in (Ok (SinkProcess c), s)
  | SinkFile p _ => mret (SinkFile p None)
  end.

(** [sink.wait()] *)
Definition sink_wait (sink : UploadSink) : M fs IroshError unit :=
  match sink with
  | SinkProcess c =>
      out ← M_map_err (fun e => failed Internal (bs "waiting for upload helper failed: " ++ io_text e))
              (child_wait c);
      ensure (success out) (failed HelperFailed (trim (utf8_lossy (stderr out))))
  | SinkFile _ pending =>
      lift (map_err (fun e => failed Internal (bs "failed to flush upload file: " ++ io_text e))
              (tokio_flush pending))
  end.

Definition spawn_upload_helper (ctx : ShellContext) (dest : bytes) : M fs IroshError UploadSink :=
  match ctx with
  | Live pid =>
      c ← M_map_err (fun e => failed Internal (bs "failed to spawn upload helper: " ++ io_text e))
            (spawn pid (cmd "sh" [bs "-c"; quoted "cat > "; bs "sh"; dest]));
      mret (SinkProcess c)
  | Stateless =>
      p ← M_map_err (fun e => failed Internal (bs "failed to create upload file: " ++ io_text e))
            (at_path (os_path dest) (fun p => file_create p;; mret p));
      mret (SinkFile p None)
  end.

(** *** Downloads *)

Definition probe_download_size (ctx : ShellContext) (source_path : path) :
    M fs IroshError (result TransferFailure N) :=
  match ctx with
  | Live pid =>
      let helper_source := display source_path in
      size_probe ← M_map_err
        (fun e => failed Internal (bs "failed to probe download source size: " ++ io_text e))
        (run_output pid (cmd "sh" [bs "-c"; quoted "wc -c < "; bs "sh"; helper_source]));
      if negb (success size_probe) then
        let details := trim (utf8_lossy (stderr size_probe)) in
        let code := if infix_of details (bs "No such file or directory")
                       || infix_of details (bs "not found")
                    then CodeNotFound else HelperFailed in
        mret (Err (mk_TransferFailure code
          (bs "preflight failed: " ++ details ++ bs "; context=" ++ context_text ctx ++
           bs "; requested=" ++ display source_path ++ bs "; helper_arg=" ++ helper_source)))
      else
        let cleaned := filter (fun c => byte_in 48 57 c = true) (utf8_lossy (stdout size_probe)) in
        match parse_u64 cleaned with
        | Ok expected_size => mret (Ok expected_size)
        | Err e => throw (failed Internal (bs "failed to parse download source size: " ++ e))
        end
  | Stateless =>
      r ← attempt (F := IroshError) (at_path source_path metadata_len);
      mret (match r with
            | Err e =>
                let code := match e with
                            | NotFound => CodeNotFound
                            | PermissionDenied => Rejected
                            | _ => Internal
                            end in
                Err (mk_TransferFailure code (bs "metadata failed: " ++ io_text e))
            | Ok (true, _, _) => Err (mk_TransferFailure IsDirectory (display source_path))
            | Ok (false, _, len) => Ok len
            end)
  end.

Inductive DownloadSource : Type :=
| SourceProcess (c : child)
| SourceFile (p : path) (offset : nat).

(** [source.stdout()] *)
Definition source_stdout (source : DownloadSource) : bool :=
  match source with SourceProcess c => has_stdout c | SourceFile _ _ => true end.

(** [stdout.read(&mut buffer)] with a buffer of [n] bytes *)
Definition source_read (source : DownloadSource) (n : nat) :
    M fs io_error (bytes * DownloadSource) :=
  match source with
  | SourceProcess c => fun s =>
      let '(r, (s, c)) := child_read n (s, c) in ((fun b => (b, SourceProcess c)) <$> r, s)
  | SourceFile p offset =>
      b ← file_read p offset n;
      mret (b, SourceFile p (offset + length b))
  end.

Definition spawn_download_helper (ctx : ShellContext) (source_path : path) :
    M fs IroshError (DownloadSource * bytes) :=
  let helper_source := display source_path in
  match ctx with
  | Live pid =>
      c ← M_map_err (fun e => failed Internal (bs "failed to spawn download helper: " ++ io_text e))
            (spawn pid (cmd "cat" [bs "--"; helper_source]));
      mret (SourceProcess c, helper_source)
  | Stateless =>
      p ← M_map_err
            (fun e => match e with
                      | NotFound => failed CodeNotFound (display source_path)
                      | e => failed Internal (bs "failed to open download file: " ++ io_text e)
                      end)
            (at_path source_path file_open);
      mret (SourceFile p 0, helper_source)
  end.
End operations.
