(* ===== verification/Upload.v ===== *)
(** * Receiving uploads: [src/server/transfer/files/upload.rs]

    [handle_put_request] writes an upload to a part file next to its
    destination and renames it when the stream completes;
    [handle_recursive_put_request] does the same for every file of a tree. *)

From S2P Require Import Prelude Text Stream TransferTypes TransferCodec Fs Paths Hoare Metrics.
From S2P Require Import Conn ShellOps.

Section upload.
Context {SJ : SerdeJson} {ST : SystemTexts} {MA : Machine} {LS : LiveShell}.

Definition reject (code : TransferFailureCode) (detail : bytes) : M conn IroshError unit :=
  send (write_transfer_error (mk_TransferFailure code detail)).

(** [err.to_string()] *)
Definition to_string (e : IroshError) : bytes := default [] (head (error_chain e)).

(** ** One file *)

(** One turn of the receiving loop of [handle_put_request]; the loop ends with
    [received] and [transfer_failed]. *)
Definition upload_turn (request : PutRequest) (a : UploadSink * N)
    (frame : result IroshError TransferFrameBorrowed) :
    M conn IroshError ((UploadSink * N) + (UploadSink * N * bool)) :=
  let '(sink, received) := a in
  match frame with
  | Err _ => mret (inr (sink, received, true))
  | Ok (BPutChunk chunk) =>
      let received := add_u64 received (blen chunk) in
      if (put_size request <? received)%N then
        reject SizeMismatch (bs "received " ++ decimal received ++
          bs " bytes, exceeding the declared size of " ++ decimal (put_size request));;
        mret (inr (sink, received, true))
      else
        '(r, sink) ← on_disk (sink_write sink chunk);
        mret (match r with
              | Ok _ => inl (sink, received)
              | Err _ => inr (sink, received, true)
              end)
  | Ok (BOwned (FPutComplete complete)) =>
      if negb (complete_size complete =? received)%N || negb (received =? put_size request)%N then
        reject SizeMismatch (bs "received " ++ decimal received ++ bs " bytes, declared " ++
          decimal (put_size request) ++ bs ", client reported " ++ decimal (complete_size complete));;
        mret (inr (sink, received, true))
      else mret (inr (sink, received, false))
  | Ok (BOwned (FError _)) => mret (inr (sink, received, true))
  | Ok (BGetChunk _) =>
      ignore (reject UnexpectedFrame (bs "unexpected get chunk frame during upload"));;
      mret (inr (sink, received, true))
  | Ok (BOwned other) =>
      ignore (reject UnexpectedFrame (frame_text other));;
      mret (inr (sink, received, true))
  end.

Definition upload_loop (request : PutRequest) : UploadSink * N -> M conn IroshError (UploadSink * N * bool) :=
  frame_loop (fun a => frame ← attempt recv; upload_turn request a frame).

(** What follows the loop: keep or discard the part file. *)
Definition finish_upload (ctx : ShellContext) (request : PutRequest)
    (prepared : PreparedPutDestination) (received : N) (transfer_failed : bool)
    (helper_res : result IroshError unit) : M conn IroshError unit :=
  let discard := on_disk (remove_file_if_present ctx (part_arg prepared)) in
  if transfer_failed || negb (is_ok helper_res) then
    discard;;
    match helper_res with
    | Err err => if negb transfer_failed then reject HelperFailed (to_string err) else mret tt
    | Ok _ => mret tt
    end
  else
    renamed ← on_error (on_disk (rename ctx (part_arg prepared) (final_arg prepared))) discard;
    if negb renamed then
      discard;;
      send (write_transfer_error (atomic_rename_failure (final_arg prepared)))
    else
      match put_mode request with
      | Some mode => on_disk (chmod ctx (final_arg prepared) mode)
      | None => mret tt
      end;;
      send (write_put_complete (mk_TransferComplete received)).

Definition receive_upload (ctx : ShellContext) (request : PutRequest)
    (prepared : PreparedPutDestination) : M conn IroshError unit :=
  let discard := on_disk (remove_file_if_present ctx (part_arg prepared)) in
  sink ← on_disk (spawn_upload_helper ctx (part_arg prepared));
  if negb (sink_stdin sink) then
    discard;; throw (failed Internal (bs "upload helper sink unavailable"))
  else
    on_error (send (write_put_ready (mk_TransferReady (put_size request) (put_mode request)))) discard;;
    fresh_buffer;;
    '(sink, received, transfer_failed) ← upload_loop request (sink, 0%N);
    sink ← on_disk (sink_flush sink);
    helper_res ← attempt (F := IroshError) (on_disk (sink_wait sink));
    finish_upload ctx request prepared received transfer_failed helper_res.

(** ** A tree of files *)

(** One turn of the loop that receives the content of an entry; it ends with
    [file_received], [entry_failed] and [size_mismatch]. *)
Definition entry_turn (header : EntryHeader) (a : UploadSink * N)
    (frame : result IroshError TransferFrameBorrowed) :
    M conn IroshError ((UploadSink * N) + (UploadSink * N * bool * bool)) :=
  let '(sink, file_received) := a in
  match frame with
  | Err _ => mret (inr (sink, file_received, true, false))
  | Ok (BPutChunk chunk) =>
      let file_received := add_u64 file_received (blen chunk) in
      if (eh_size header <? file_received)%N then
        mret (inr (sink, file_received, true, true))
      else
        '(r, sink) ← on_disk (sink_write sink chunk);
        mret (match r with
              | Ok _ => inl (sink, file_received)
              | Err _ => inr (sink, file_received, true, false)
              end)
  | Ok (BOwned (FEntryComplete _)) =>
      if negb (file_received =? eh_size header)%N
      then mret (inr (sink, file_received, true, true))
      else mret (inr (sink, file_received, false, false))
  | Ok (BGetChunk _) => mret (inr (sink, file_received, true, false))
  | Ok (BOwned _) => mret (inr (sink, file_received, true, false))
  end.

Definition entry_loop (header : EntryHeader) :
    UploadSink * N -> M conn IroshError (UploadSink * N * bool * bool) :=
  frame_loop (fun a => frame ← attempt recv; entry_turn header a frame).

(** A file entry: the number of bytes it added, or [None] where the handler
    returns. *)
Definition receive_entry (ctx : ShellContext) (header : EntryHeader) (full_path : path) :
    M conn IroshError (option N) :=
  let full_path_str := display full_path in
  prepared ← on_disk (prepare_put_destination ctx full_path_str);
  match prepared with
  | None => send (write_transfer_error (target_exists_failure full_path));; mret None
  | Some prepared =>
      sink ← on_disk (spawn_upload_helper ctx (part_arg prepared));
      ensure (sink_stdin sink) (failed Internal (bs "upload helper sink unavailable"));;
      '(sink, file_received, entry_failed, size_mismatch) ← entry_loop header (sink, 0%N);
      sink ← on_disk (sink_flush sink);
      helper_res ← attempt (F := IroshError) (on_disk (sink_wait sink));
      if size_mismatch : bool then
        on_disk (remove_file_if_present ctx (part_arg prepared));;
        reject SizeMismatch (bs "entry '" ++ eh_path header ++ bs "' declared " ++
          decimal (eh_size header) ++ bs " bytes, received " ++ decimal file_received);;
        mret None
      else if (entry_failed : bool) || negb (is_ok helper_res) then
        on_disk (remove_file_if_present ctx (part_arg prepared));;
        throw (failed HelperFailed (bs "recursive entry upload failed: " ++
          match helper_res with Err e => to_string e | Ok _ => [] end))
      else
        renamed ← on_disk (rename ctx (part_arg prepared) (final_arg prepared));
        ensure renamed (failed AtomicRenameFailed
          (bs "atomic rename failed for " ++ final_arg prepared));;
        match eh_mode header with
        | Some mode => on_disk (chmod ctx (final_arg prepared) mode)
        | None => mret tt
        end;;
        mret (Some file_received)
  end.

Definition tree_turn (ctx : ShellContext) (dest_root : path) (total_received : N)
    (frame : TransferFrameBorrowed) : M conn IroshError (N + unit) :=
  match frame with
  | BOwned (FNewEntry header) =>
      match sanitize_relative_path (eh_path header) with
      | Err reason => throw (failed PathInvalid
          (bs "unsafe entry path '" ++ eh_path header ++ bs "': " ++ reason))
      | Ok entry_path =>
          let full_path := path_join dest_root entry_path in
          if eh_is_dir header then
            on_disk (create_dir_all ctx full_path);;
            match eh_mode header with
            | Some mode => on_disk (chmod ctx (display full_path) mode)
            | None => mret tt
            end;;
            mret (inl total_received)
          else
            r ← receive_entry ctx header full_path;
            mret (match r with
                  | Some file_received => inl (add_u64 total_received file_received)
                  | None => inr tt
                  end)
      end
  | BOwned (FPutComplete _) =>
      send (write_put_complete (mk_TransferComplete total_received));; mret (inr tt)
  | BOwned (FError e) => throw (EServer (TransferFailed e))
  | BPutChunk _ | BGetChunk _ =>
      throw (failed UnexpectedFrame (bs "unexpected chunk frame at recursive upload top level"))
  | BOwned other =>
      throw (failed UnexpectedFrame
        (bs "unexpected frame during recursive upload: " ++ frame_text other))
  end.

Definition handle_recursive_put_request (ctx : ShellContext) (request : PutRequest) :
    M conn IroshError unit :=
  dest_root ← on_disk (resolved ctx (put_path request));
  on_disk (create_dir_all ctx dest_root);;
  send (write_put_ready (mk_TransferReady 0 None));;
  fresh_buffer;;
  frame_loop (fun total => frame ← recv; tree_turn ctx dest_root total frame) 0%N.

Definition handle_put_request (ctx : ShellContext) (request : PutRequest) : M conn IroshError unit :=
  if put_recursive request then handle_recursive_put_request ctx request else
  prepared ← on_disk (prepare_put_destination ctx (put_path request));
  match prepared with
  | None =>
      dest_path ← on_disk (resolved ctx (put_path request));
      send (write_transfer_error (target_exists_failure dest_path))
  | Some prepared => receive_upload ctx request prepared
  end.
End upload.

(** ** Termination *)

Section terminate.
Context {SJ : SerdeJson} {ST : SystemTexts} {MA : Machine} {LS : LiveShell}.

Lemma upload_turn_shrinks request a f : shrinks backlog (upload_turn request a f).
Proof. unfold upload_turn, reject. shrinking. Qed.

Lemma upload_loop_decreases request :
  decreases unread (fun a => frame ← attempt recv; upload_turn request a frame).
Proof.
  apply attempts_first; [intros; apply upload_turn_shrinks|].
  intros [sink received] e c a'. done.
Qed.

Lemma entry_turn_shrinks header a f : shrinks backlog (entry_turn header a f).
Proof. unfold entry_turn. shrinking. Qed.

Lemma entry_loop_decreases header :
  decreases unread (fun a => frame ← attempt recv; entry_turn header a frame).
Proof.
  apply attempts_first; [intros; apply entry_turn_shrinks|].
  intros [sink received] e c a'. done.
Qed.

Lemma entry_loop_shrinks header a : shrinks backlog (entry_loop header a).
Proof.
  unfold entry_loop, frame_loop. apply shrinks_loop. intros a'.
  apply shrinks_bind; [auto with shrinks|]. intros. apply entry_turn_shrinks.
Qed.

#[local] Hint Resolve entry_loop_shrinks : shrinks.

Lemma receive_entry_shrinks ctx header p : shrinks backlog (receive_entry ctx header p).
Proof. unfold receive_entry, reject. shrinking. Qed.

Lemma tree_turn_shrinks ctx root total f : shrinks backlog (tree_turn ctx root total f).
Proof. pose proof receive_entry_shrinks. unfold tree_turn. shrinking. Qed.

Lemma tree_loop_decreases ctx root :
  decreases unread (fun total => frame ← recv; tree_turn ctx root total frame).
Proof. apply reads_first. intros. apply tree_turn_shrinks. Qed.

(** *** No operation runs out of fuel *)

Lemma resolved_total ctx raw : avoids EDiverged (resolved ctx raw).
Proof. apply avoids_lift. destruct (resolve_path _ _ _ _); simpl; congruence. Qed.

Lemma probe_total {A} what (m : M fs io_error A) : avoids EDiverged (probe what m).
Proof. by apply avoids_map_err. Qed.

Lemma io_or_server_total {A} (m : M fs io_error A) : avoids EDiverged (io_or_server m).
Proof. by apply avoids_map_err. Qed.

#[local] Hint Resolve resolved_total probe_total io_or_server_total : total.

Lemma prepare_total ctx raw : avoids EDiverged (prepare_put_destination ctx raw).
Proof.
  unfold prepare_put_destination, path_missing_no_follow, create_dir_all, succeeded.
  terminating. by intros s.
Qed.

Lemma spawn_upload_total ctx dest : avoids EDiverged (spawn_upload_helper ctx dest).
Proof. unfold spawn_upload_helper. terminating. Qed.

Lemma sink_write_total sink chunk : avoids EDiverged (sink_write sink chunk).
Proof.
  unfold sink_write, tokio_write. terminating. intros s. by destruct (child_write _ _) as [? []].
Qed.

Lemma sink_flush_total sink : avoids EDiverged (sink_flush sink).
Proof.
  unfold sink_flush. terminating. intros s. by destruct (child_flush _) as [? []].
Qed.

Lemma sink_wait_total sink : avoids EDiverged (sink_wait sink).
Proof. unfold sink_wait. terminating. apply avoids_lift. by destruct pending. Qed.

Lemma rename_total ctx from to : avoids EDiverged (rename ctx from to).
Proof. unfold rename, succeeded. terminating. Qed.

Lemma create_dir_total ctx p : avoids EDiverged (create_dir_all ctx p).
Proof. unfold create_dir_all, succeeded. terminating. Qed.

Lemma remove_total ctx p : avoids EDiverged (remove_file_if_present ctx p).
Proof. unfold remove_file_if_present. terminating. Qed.

Lemma chmod_total ctx p mode : avoids EDiverged (chmod ctx p mode).
Proof. unfold chmod. terminating. Qed.

#[local] Hint Resolve prepare_total spawn_upload_total sink_write_total sink_flush_total
  rename_total create_dir_total remove_total chmod_total : total.

Lemma upload_loop_total request a : avoids EDiverged (upload_loop request a).
Proof.
  apply avoids_loop; [apply upload_loop_decreases|]. intros a'. unfold upload_turn, reject. terminating.
Qed.

Lemma entry_loop_total header a : avoids EDiverged (entry_loop header a).
Proof.
  apply avoids_loop; [apply entry_loop_decreases|]. intros a'. unfold entry_turn. terminating.
Qed.

#[local] Hint Resolve upload_loop_total entry_loop_total : total.

Lemma receive_entry_total ctx header p : avoids EDiverged (receive_entry ctx header p).
Proof. unfold receive_entry, reject. terminating. Qed.

Lemma receive_upload_total ctx request prepared : avoids EDiverged (receive_upload ctx request prepared).
Proof. unfold receive_upload, finish_upload, reject. terminating. Qed.

#[local] Hint Resolve receive_entry_total receive_upload_total : total.

Lemma handle_put_total ctx request : avoids EDiverged (handle_put_request ctx request).
Proof.
  unfold handle_put_request, handle_recursive_put_request. terminating.
  apply avoids_loop; [apply tree_loop_decreases|]. intros total. unfold tree_turn. terminating.
Qed.
End terminate.
