(* ===== verification/ShellFacts.v ===== *)
(** * Facts about the native file operations

    What the operations of [ShellOps] do on a plain path: one whose components
    are proper UTF-8 names, so that the text the handlers pass around names
    the path they mean ([os_path_display]). *)

From S2P Require Import Prelude Text Stream TransferTypes TransferCodec Fs Paths Hoare Conn ShellOps.

(** ** Plain paths *)

Definition plain_name (c : bytes) : Prop := proper c /\ utf8_valid c = true.
Definition plain (p : path) : Prop := p <> [] /\ Forall plain_name p.

Lemma plain_proper p : Forall plain_name p -> Forall proper p.
Proof. intros H. eapply Forall_impl; [|exact H]. by intros c [? _]. Qed.

Lemma proper_no_slash p : Forall proper p -> Forall (fun c => "/"%char ∉ c) p.
Proof. intros H. eapply Forall_impl; [|exact H]. by intros c (_ & _ & _ & ?). Qed.

Lemma filter_proper l :
  Forall proper l -> filter (fun c => c <> [] /\ c <> bs ".") l = l.
Proof.
  induction 1 as [|c l (H1 & H2 & _) _ IH]; [done|].
  rewrite filter_cons_True by done. by rewrite IH.
Qed.

Lemma pushed_os_str p : p <> [] -> Forall proper p -> pushed (os_str p) = p.
Proof.
  intros Hne Hp. unfold pushed.
  assert (os_str p = reverse p ≫= fun c => "/"%char :: c) as -> by by destruct p.
  assert (Forall proper (reverse p)) as Hr by by apply Forall_reverse.
  rewrite split_on_words by by apply proper_no_slash.
  rewrite filter_cons_False by naive_solver. by rewrite filter_proper, reverse_involutive.
Qed.

Lemma os_str_absolute p : p <> [] -> is_absolute (os_str p) = true.
Proof.
  intros Hne. unfold is_absolute, starts_with. apply bool_decide_eq_true.
  assert (os_str p = reverse p ≫= fun c => "/"%char :: c) as -> by by destruct p.
  destruct (reverse p) as [|c r] eqn:E; [|done].
  apply (f_equal reverse) in E. by rewrite reverse_involutive in E.
Qed.

Lemma words_valid ws :
  Forall (fun w => utf8_valid w = true) ws -> utf8_valid (ws ≫= fun c => "/"%char :: c) = true.
Proof.
  induction 1 as [|w ws Hw _ IH]; [done|].
  change ((w :: ws) ≫= fun w => "/"%char :: w) with ("/"%char :: w ++ (ws ≫= fun w => "/"%char :: w)).
  cbn [utf8_valid]. by rewrite utf8_valid_app.
Qed.

Lemma display_plain p : Forall plain_name p -> display p = os_str p.
Proof.
  intros Hp. unfold display. apply utf8_lossy_valid. destruct p as [|c p]; [done|].
  apply words_valid, Forall_reverse. eapply Forall_impl; [|exact Hp]. by intros d [_ ?].
Qed.

Section native.
Context {ST : SystemTexts} {MA : Machine} {LS : LiveShell}.

(** The displayed path leads back to the path. *)
Lemma os_path_display p : plain p -> os_path (display p) = p.
Proof.
  intros [Hne Hp]. rewrite display_plain by done. unfold os_path, path_join.
  rewrite os_str_absolute by done. apply pushed_os_str; [done|by apply plain_proper].
Qed.

(** *** The part file *)

Lemma name_or_transfer_plain c q : plain_name c -> name_or_transfer (c :: q) = c.
Proof.
  intros [(_ & _ & Hd & _) Hu]. unfold name_or_transfer, file_name.
  rewrite decide_False by done. by rewrite Hu.
Qed.

Lemma name_or_transfer_proper p : Forall proper p -> proper (name_or_transfer p).
Proof.
  intros Hp. assert (proper (bs "transfer")) as Ht by (split_and!; [done..|]; vm_compute; set_solver).
  unfold name_or_transfer, file_name. destruct p as [|c q]; [done|].
  inversion Hp; subst. by repeat case_match; simplify_eq.
Qed.

(** Names made from a name and numbers. *)
Lemma dotted_proper n x : proper n -> ("/"%char ∉ x) -> proper (bs "." ++ n ++ x ++ bs ".irosh_part").
Proof.
  intros (H1 & _ & _ & H4) Hx. destruct n as [|c n]; [done|].
  split_and!; try (intros E; apply (f_equal length) in E; rewrite !length_app in E; simpl in E; lia).
  rewrite !elem_of_app. intros [H|[H|[H|H]]];
    first [by apply H4 | by apply Hx | revert H; vm_compute; set_solver].
Qed.

Lemma part_name_proper p u : Forall proper p -> proper (part_name p u).
Proof.
  intros Hp. unfold part_name.
  replace (bs "." ++ name_or_transfer p ++ bs "." ++ decimal process_id ++ bs "." ++ decimal u ++ bs ".irosh_part")
    with (bs "." ++ name_or_transfer p ++
          (bs "." ++ decimal process_id ++ bs "." ++ decimal u) ++ bs ".irosh_part")
    by by rewrite <-!app_assoc.
  apply dotted_proper; [by apply name_or_transfer_proper|].
  rewrite !elem_of_app. intros [H|[H|[H|H]]];
    first [by eapply decimal_no_slash | revert H; vm_compute; set_solver].
Qed.

Lemma part_name_longer c q u : plain_name c -> length c < length (part_name (c :: q) u).
Proof.
  intros Hc. unfold part_name. rewrite name_or_transfer_plain by done.
  rewrite !length_app. simpl. lia.
Qed.

Lemma part_name_plain c q u : plain_name c -> plain_name (part_name (c :: q) u).
Proof.
  intros Hc. pose proof (part_name_longer c q u Hc) as Hl.
  assert (name_or_transfer (c :: q) = c) as En by by apply name_or_transfer_plain.
  destruct Hc as [(H1 & H2 & H3 & Hs) Hu].
  assert (8 < length (part_name (c :: q) u)) as Hlen.
  { unfold part_name. rewrite !length_app. simpl. lia. }
  split; [split_and!|].
  - intros E. rewrite E in Hlen. simpl in Hlen. lia.
  - intros E. rewrite E in Hlen. simpl in Hlen. lia.
  - intros E. rewrite E in Hlen. simpl in Hlen. lia.
  - unfold part_name. rewrite En, !elem_of_app.
    intros [H|[H|[H|[H|[H|[H|H]]]]]];
      first [by apply Hs | by eapply decimal_no_slash | revert H; vm_compute; set_solver].
  - unfold part_name. rewrite En.
    repeat first [rewrite utf8_valid_app by (exact Hu || apply decimal_valid || reflexivity)].
    reflexivity.
Qed.

Lemma set_file_name_plain c q name : plain_name c -> set_file_name (c :: q) name = name :: q.
Proof.
  intros [(_ & _ & Hd & _) _]. unfold set_file_name, file_name. by rewrite decide_False.
Qed.
End native.

(** ** Name resolution *)

(** Every entry lies in a directory. *)
Definition tree (d : disk) : Prop := forall c q, is_Some (d !! (c :: q)) -> is_dir_node (d !! q) = true.

Lemma walk_proper d p q : Forall proper p -> walk d p = Ok q -> q = p.
Proof.
  intros Hp. revert q. induction Hp as [|c p (H1 & H2 & H3 & _) _ IH]; intros q; simpl.
  { by intros [= <-]. }
  destruct (walk d p) as [q'|]; [|done]. simpl. pose proof (IH q' eq_refl) as ->.
  destruct (d !! p) as [[]|]; [|done..]. intros [= <-]. unfold join_component.
  rewrite decide_False by naive_solver. by rewrite decide_False.
Qed.

Lemma walk_tree d p : tree d -> Forall proper p -> is_Some (d !! p) -> walk d p = Ok p.
Proof.
  intros Ht Hp. induction Hp as [|c p (H1 & H2 & H3 & _) _ IH]; intros Hd; [done|]. simpl.
  pose proof (Ht c p Hd) as Hdir. destruct (d !! p) as [[m|]|] eqn:E; try done.
  rewrite IH by done. simpl. rewrite E. unfold join_component.
  rewrite decide_False by naive_solver. by rewrite decide_False.
Qed.

(** What exists goes on existing when directories are added. *)
Lemma walk_adds p d d' q x : adds_dirs p d d' -> walk d q = Ok x -> walk d' q = Ok x.
Proof.
  intros Ha. revert x. induction q as [|c q IH]; intros x; [done|]. simpl.
  destruct (walk d q) as [y|]; [|done]. rewrite (IH y eq_refl). simpl.
  destruct (Ha y) as [->|(_ & -> & _)]; done.
Qed.

(** A call on a proper path is the call on that path, or fails without effect. *)
Lemma at_path_cases {A} p (op : path -> M fs io_error A) s r s' :
  Forall proper p -> at_path p op s = (r, s') ->
  op p s = (r, s') \/ ((exists e, r = Err e) /\ s' = tick s (nodes s)).
Proof.
  intros Hp. unfold at_path. destruct (walk (nodes s) p) as [q|e] eqn:E.
  - apply walk_proper in E as ->; [|done]. by left.
  - unfold query, syscall. intros H. right.
    destruct (oracle s (ticks s)) as [[]|]; injection H as <- <-; eauto.
Qed.

Lemma at_path_dir {A} c q (op : path -> M fs io_error A) s m :
  tree (nodes s) -> Forall proper (c :: q) -> nodes s !! q = Some (Dir m) ->
  at_path (c :: q) op s = op (c :: q) s.
Proof.
  intros Ht Hp Hq. unfold at_path. simpl. inversion Hp as [|?? (H1 & H2 & H3 & _) Hp']; subst.
  rewrite walk_tree by (done || by rewrite Hq). simpl. rewrite Hq. unfold join_component.
  rewrite decide_False by naive_solver. by rewrite decide_False.
Qed.

Lemma query_no_change {A} (f : disk -> result io_error A) s : nodes (query f s).2 = nodes s.
Proof. unfold query, syscall. by destruct (oracle s (ticks s)) as [[]|]. Qed.

(** [NotFound] means that there is nothing. *)
Lemma stat_not_found p s s' :
  tree (nodes s) -> Forall proper p -> (forall n k, oracle s n <> Some (k, NotFound)) ->
  at_path p metadata s = (Err NotFound, s') -> nodes s !! p = None.
Proof.
  intros Ht Hp Ho E. destruct (nodes s !! p) as [n|] eqn:Hn; [exfalso|done].
  unfold at_path in E. rewrite walk_tree in E by (done || by rewrite Hn).
  unfold metadata, query, syscall in E. destruct (oracle s (ticks s)) as [[k e]|] eqn:Ho'.
  - injection E as -> _. by eapply Ho.
  - rewrite Hn in E. by destruct n.
Qed.

Lemma at_path_stat_runs p s r s' : at_path p metadata s = (r, s') -> runs same s s'.
Proof.
  unfold at_path, metadata. destruct (walk (nodes s) p); intros E; by apply query_runs in E.
Qed.

(** ** What the calls may change *)

Lemma at_path_runs {A : Type} (P : disk -> disk -> Prop) p (op : path -> M fs io_error A) s r s' :
  Forall proper p -> P (nodes s) (nodes s) ->
  (op p s = (r, s') -> runs P s s') -> at_path p op s = (r, s') -> runs P s s'.
Proof.
  intros Hp Hr Hop E. apply at_path_cases in E as [E|[_ ->]]; [by apply Hop|by apply tick_runs|done].
Qed.

Lemma mkdir_at_runs p s r s' :
  Forall proper p -> at_path p mkdir s = (r, s') -> runs (adds_dirs p) s s'.
Proof. intros Hp. apply at_path_runs; [done|apply adds_dirs_refl|apply mkdir_runs]. Qed.

Lemma or_dir_runs p (e : io_error) s :
  runs (adds_dirs p) s
    (match attempt (F := io_error) (at_path p metadata) s with
     | (Ok (Ok (true, _)), s) => (Ok tt, s)
     | (_, s) => (Err e, s)
     end).2.
Proof.
  unfold attempt. destruct (at_path p metadata s) as [r s1] eqn:E.
  apply at_path_stat_runs, (same_runs p) in E. by destruct r as [[[] ?]|].
Qed.

Lemma create_dir_all_at_runs p s r s' :
  Forall proper p -> create_dir_all_at p s = (r, s') -> runs (adds_dirs p) s s'.
Proof.
  intros Hp. revert s r s'. induction Hp as [|c p Hc Hp IH]; intros s r s'; cbn [create_dir_all_at];
    destruct (at_path _ mkdir s) as [r1 s1] eqn:E1; apply mkdir_at_runs in E1; try by constructor.
  - pose proof (or_dir_runs []) as Hd. destruct r1 as [[]|e]; [by intros [= <- <-]|].
    intros H. assert (runs (adds_dirs []) s1 s' \/ s' = s1) as [H'| ->]; [|by eapply runs_trans; [apply adds_dirs_trans|..]|done].
    destruct e; try (injection H as <- <-; by right);
      left; specialize (Hd OtherError s1);
      destruct (attempt _ s1) as [[[[[] ?]|]|] s2]; injection H as <- <-; exact Hd.
  - pose proof (or_dir_runs (c :: p)) as Hd. destruct r1 as [[]|e]; [by intros [= <- <-]|].
    intros H. destruct (decide (e = NotFound)) as [->|Hne].
    + destruct (create_dir_all_at p s1) as [r2 s2] eqn:E2.
      apply IH, (runs_mono _ (adds_dirs (c :: p)) _ _ (adds_dirs_cons c p _)) in E2.
      pose proof (runs_trans _ _ _ _ (adds_dirs_trans _) E1 E2) as E12.
      destruct r2; [|by injection H as <- <-].
      destruct (at_path (c :: p) mkdir s2) as [r3 s3] eqn:E3.
      apply mkdir_at_runs in E3; [|by constructor].
      pose proof (runs_trans _ _ _ _ (adds_dirs_trans _) E12 E3) as E13.
      destruct r3 as [|e]; [by injection H as <- <-|].
      eapply runs_trans; [apply adds_dirs_trans|exact E13|]. specialize (Hd e s3).
      destruct (attempt _ s3) as [[[[[] ?]|]|] s4]; injection H as <- <-; exact Hd.
    + eapply runs_trans; [apply adds_dirs_trans|exact E1|]. specialize (Hd e s1).
      destruct e; try done;
        destruct (attempt _ s1) as [[[[[] ?]|]|] s4]; injection H as <- <-; exact Hd.
Qed.

(** After a success the path leads to a directory. *)
Definition dir_at (p : path) (s : fs) : Prop :=
  walk (nodes s) p = Ok p /\ is_dir_node (nodes s !! p) = true.

Lemma at_path_ok_walk {A} p (op : path -> M fs io_error A) s a s' :
  Forall proper p -> at_path p op s = (Ok a, s') -> walk (nodes s) p = Ok p /\ op p s = (Ok a, s').
Proof.
  intros Hp. unfold at_path. destruct (walk (nodes s) p) as [q|e] eqn:E.
  - by apply walk_proper in E as ->.
  - unfold query, syscall. by destruct (oracle s (ticks s)) as [[]|].
Qed.

Lemma or_dir_ok p (e : io_error) s u s' :
  Forall proper p ->
  match attempt (F := io_error) (at_path p metadata) s with
  | (Ok (Ok (true, _)), s) => (Ok tt, s)
  | (_, s) => (Err e, s)
  end = (Ok u, s') -> dir_at p s'.
Proof.
  intros Hp. unfold attempt. destruct (at_path p metadata s) as [r s1] eqn:E.
  destruct r as [[[] m]|]; intros H; try discriminate H. injection H as _ <-.
  apply at_path_ok_walk in E as [Hw E]; [|done].
  apply metadata_spec in E as [-> E]. split; simpl; [done|]. by rewrite E.
Qed.

Lemma mkdir_at_ok p s u s' :
  Forall proper p -> at_path p mkdir s = (Ok u, s') -> dir_at p s'.
Proof.
  intros Hp E. apply at_path_ok_walk in E as [Hw E]; [|done]. split.
  - apply mkdir_runs in E. eapply walk_adds; [|exact Hw].
    apply (runs_final _ _ _ (adds_dirs_refl p _) E).
  - apply mkdir_ok in E. by apply Is_true_true.
Qed.

Lemma create_dir_all_at_ok p s u s' :
  Forall proper p -> create_dir_all_at p s = (Ok u, s') -> dir_at p s'.
Proof.
  intros Hp. pose proof (fun s u s' => mkdir_at_ok p s u s' Hp) as Hm.
  pose proof (fun e s u s' => or_dir_ok p e s u s' Hp) as Hd.
  destruct p as [|c p]; cbn [create_dir_all_at].
  - destruct (at_path [] mkdir s) as [[|e] s1] eqn:E1; [intros [= _ <-]; by eapply Hm|].
    destruct e; try done; apply Hd.
  - destruct (at_path (c :: p) mkdir s) as [[|e] s1] eqn:E1; [intros [= _ <-]; by eapply Hm|].
    destruct (decide (e = NotFound)) as [->|Hne].
    + destruct (create_dir_all_at p s1) as [[|] s2]; [|done].
      destruct (at_path (c :: p) mkdir s2) as [[|e] s3] eqn:E3; [intros [= _ <-]; by eapply Hm|].
      apply Hd.
    + destruct e; try done; apply Hd.
Qed.
