(* ===== verification/Download.v ===== *)
(** * Serving downloads: [src/server/transfer/files/download.rs]

    [handle_get_request] announces the size it probed and streams the file in
    chunks; [handle_recursive_get_request] streams every entry of a tree, which
    it lists with walkdir, or with [find] inside a live shell. *)

From S2P Require Import Prelude Text Stream TransferTypes TransferCodec Fs Paths Hoare Metrics.
From S2P Require Import Conn ShellOps Upload.

(** One entry that walkdir yields: its path below the root and its kind, or
    the text of its error. *)
Record DirEntry : Type := mk_DirEntry {
  entry_path : path;        (** the full path *)
  entry_symlink : bool;
  entry_dir : bool;
}.

(** [walkdir::WalkDir], which the source iterates to the end. *)
Class WalkDir : Type := {
  walk_entries : path -> fs -> list (result bytes DirEntry) * fs;
  walk_metadata : DirEntry -> M fs bytes (N * N);    (** [len] and the permission bits *)
  walk_io_error : bytes -> io_error;                 (** [io::Error::from] *)
}.

(** [Path::strip_prefix] *)
Definition strip_prefix (p root : path) : option path :=
  if decide (root `suffix_of` p) then Some (take (length p - length root) p) else None.

(** The bytes of a relative [PathBuf]. *)
Definition relative_str (p : path) : bytes := join_with (bs "/") (reverse p).

(** What a source still has to give. *)
Definition source_left `{LiveShell} (source : DownloadSource) (c : conn) : nat :=
  match source with
  | SourceProcess ch => child_left ch
  | SourceFile p offset =>
      match nodes (local_fs c) !! p with
      | Some (File b _) => length b - offset
      | _ => 0
      end
  end.

(** The output of a helper ends. *)
Class LiveShellLaws `{LiveShell} : Prop := {
  child_read_progress n s ch b s' ch' :
    child_read n (s, ch) = (Ok b, (s', ch')) -> b <> [] -> child_left ch' < child_left ch;
}.

Section download.
Context {SJ : SerdeJson} {ST : SystemTexts} {MA : Machine} {LS : LiveShell} {WD : WalkDir}.

(** [reading download source failed], one [read] into the chunk buffer. *)
Definition read_source (source : DownloadSource) : M conn IroshError (bytes * DownloadSource) :=
  M_map_err (fun e => failed Internal (bs "reading download source failed: " ++ io_text e))
    (on_disk (source_read source (N.to_nat MAX_CHUNK_BYTES))).

Definition stream_turn (source : DownloadSource) : M conn IroshError (DownloadSource + DownloadSource) :=
  '(chunk, source) ← read_source source;
  if decide (chunk = []) then mret (inr source) else
  send (write_get_chunk chunk);;
  mret (inl source).

(** The streaming loop of [handle_get_request]. *)
Definition stream_loop : DownloadSource -> M conn IroshError DownloadSource :=
  loop source_left EDiverged stream_turn.

Definition handle_single_get_request (ctx : ShellContext) (request : GetRequest) :
    M conn IroshError unit :=
  source_path ← on_disk (resolved ctx (get_path request));
  probed ← on_disk (probe_download_size ctx source_path);
  match probed with
  | Err failure => send (write_transfer_error failure)
  | Ok expected_size =>
      '(source, helper_source) ← on_disk (spawn_download_helper ctx source_path);
      ensure (source_stdout source) (failed Internal (bs "download source pipe unavailable"));;
      send (write_get_ready (mk_TransferReady expected_size None));;
      source ← stream_loop source;
      done ← match source with
             | SourceProcess ch =>
                 out ← on_disk (M_map_err
                   (fun e => failed Internal (bs "waiting for download helper failed: " ++ io_text e))
                   (child_wait ch));
                 if negb (success out) then
                   reject HelperFailed
                     (trim (utf8_lossy (stderr out)) ++ bs "; context=" ++ context_text ctx ++
                      bs "; requested=" ++ display source_path ++ bs "; helper_arg=" ++ helper_source);;
                   mret true
                 else mret false
             | SourceFile _ _ => mret false
             end;
      if done : bool then mret tt
      else send (write_get_complete (mk_TransferComplete expected_size))
  end.

(** ** Trees *)

(** [stream_file_content]: the new [total_sent]. *)
Definition content_turn (a : DownloadSource * N) :
    M conn IroshError (DownloadSource * N + N) :=
  let '(source, total_sent) := a in
  '(chunk, source) ← read_source source;
  if decide (chunk = []) then mret (inr total_sent) else
  send (write_get_chunk chunk);;
  mret (inl (source, add_u64 total_sent (blen chunk))).

Definition stream_file_content (ctx : ShellContext) (p : path) (total_sent : N) :
    M conn IroshError N :=
  '(source, _) ← on_disk (spawn_download_helper ctx p);
  ensure (source_stdout source) (failed Internal (bs "download source pipe unavailable"));;
  total_sent ← loop (fun a => source_left a.1) EDiverged content_turn (source, total_sent);
  send (write_entry_complete mk_EntryComplete);;
  mret total_sent.

Record WalkEntry : Type := mk_WalkEntry {
  we_relative : path;
  we_full_path : path;
  we_is_dir : bool;
  we_size : N;
  we_mode : option N;
}.

(** One turn of the walk: what it collects. *)
Definition walk_turn (source_root : path) (entry : result bytes DirEntry) :
    M fs IroshError (option WalkEntry) :=
  match entry with
  | Err e => throw (failed Internal (bs "failed to walk remote directory: " ++ e))
  | Ok entry =>
      match strip_prefix (entry_path entry) source_root with
      | None => throw (failed Internal (bs "failed to resolve relative path during remote walk"))
      | Some relative =>
          if decide (relative = []) then mret None
          else if entry_symlink entry then mret None
          else
            '(len, mode) ← M_map_err
              (fun e => failed Internal (bs "failed to read remote metadata: " ++ e))
              (walk_metadata entry);
            mret (Some (mk_WalkEntry relative (relative ++ source_root) (entry_dir entry)
                          (if entry_dir entry then 0 else len)%N (Some (N.land mode 511))))
      end
  end.

Definition walk_tree_entries (source_root : path) : M fs IroshError (list WalkEntry) :=
  entries ← (fun s => let '(l, s) := walk_entries source_root s in (Ok l, s));
  collect (walk_turn source_root) entries.

Definition send_entry (ctx : ShellContext) (total_sent : N) (we : WalkEntry) :
    M conn IroshError N :=
  send (write_new_entry (mk_EntryHeader
    (normalize_path_separators false (utf8_lossy (relative_str (we_relative we))))
    (we_size we) (we_mode we) (we_is_dir we)));;
  if we_is_dir we then mret total_sent
  else stream_file_content ctx (we_full_path we) total_sent.

Fixpoint send_entries (ctx : ShellContext) (total_sent : N) (entries : list WalkEntry) :
    M conn IroshError N :=
  match entries with
  | [] => mret total_sent
  | we :: entries =>
      total_sent ← send_entry ctx total_sent we;
      send_entries ctx total_sent entries
  end.

(** *** The records of [find -printf '%y\0%P\0%s\0%m\0'] *)

(** [BufReader::read_until(0, ..)]: the field with its terminator, and the rest. *)
Fixpoint read_until_nul (b : bytes) : bytes * bytes :=
  match b with
  | [] => ([], [])
  | c :: b =>
      if decide (c = zero) then ([c], b)
      else let '(field, rest) := read_until_nul b in (c :: field, rest)
  end.

(** [&buf[..buf.len().saturating_sub(1)]], as text *)
Definition field_text (field : bytes) : bytes := utf8_lossy (take (length field - 1) field).

Record FindRecord : Type := mk_FindRecord {
  find_type : bytes;
  find_path : bytes;
  find_size : N;
  find_mode : option N;
}.

(** The loop that reads the records, up to the end of the output. *)
Fixpoint find_records (fuel : nat) (b : bytes) : list FindRecord :=
  match fuel with
  | O => []
  | S fuel =>
      let '(type_buf, b) := read_until_nul b in
      if decide (type_buf = []) then [] else
      let '(path_buf, b) := read_until_nul b in
      let '(size_buf, b) := read_until_nul b in
      let '(mode_buf, b) := read_until_nul b in
      mk_FindRecord (field_text type_buf) (field_text path_buf)
        (match parse_u64 (field_text size_buf) with Ok n => n | Err _ => 0%N end)
        (match parse_radix 8 (2 ^ 32) (field_text mode_buf) with Ok m => Some m | Err _ => None end)
      :: find_records fuel b
  end.

Fixpoint send_records (ctx : ShellContext) (source_root : path) (total_sent : N)
    (records : list FindRecord) : M conn IroshError N :=
  match records with
  | [] => mret total_sent
  | r :: records =>
      if decide (find_type r = bs "l") then send_records ctx source_root total_sent records else
      let dir := bool_decide (find_type r = bs "d") in
      send (write_new_entry (mk_EntryHeader (find_path r) (find_size r) (find_mode r) dir));;
      total_sent ← (if dir then mret total_sent
                    else stream_file_content ctx (path_join source_root (find_path r)) total_sent);
      send_records ctx source_root total_sent records
  end.

Definition find_command (source_root : path) : command :=
  mk_command (bs "sh")
    [bs "-c"; bs "find . -mindepth 1 -printf '%y\0%P\0%s\0%m\0'"] (Some source_root).

(** The output of [find], which is listed before the entries are sent: a file
    that changes while the listing still runs is not modelled. *)
Definition send_found (ctx : ShellContext) (pid : N) (source_root : path) (total_sent : N) :
    M conn IroshError N :=
  out ← on_disk (M_map_err
    (fun e => failed Internal (bs "failed to spawn find for recursive walk: " ++ io_text e))
    (run_output pid (find_command source_root)));
  send_records ctx source_root total_sent (find_records (S (length (stdout out))) (stdout out)).

Definition handle_recursive_get_request (ctx : ShellContext) (request : GetRequest) :
    M conn IroshError unit :=
  source_root ← on_disk (resolved ctx (get_path request));
  send (write_get_ready (mk_TransferReady 0 None));;
  total_sent ←
    match ctx with
    | Stateless =>
        walked ← on_disk (walk_tree_entries source_root);
        send_entries ctx 0%N walked
    | Live pid => send_found ctx pid source_root 0%N
    end;
  send (write_get_complete (mk_TransferComplete total_sent)).

Definition handle_get_request (ctx : ShellContext) (request : GetRequest) : M conn IroshError unit :=
  if get_recursive request then handle_recursive_get_request ctx request
  else handle_single_get_request ctx request.
End download.

(** ** Termination *)

Section terminate.
Context {SJ : SerdeJson} {ST : SystemTexts} {MA : Machine} {LS : LiveShell} {WD : WalkDir}.

Lemma file_read_spec p offset n s b s' :
  file_read p offset n s = (Ok b, s') ->
  nodes s' = nodes s /\ exists content m, nodes s !! p = Some (File content m) /\
    b `prefix_of` drop offset content.
Proof.
  unfold file_read, query, syscall. destruct (oracle s (ticks s)) as [[]|]; [done|].
  destruct (nodes s !! p) as [[|content m]|] eqn:E; try done. intros [= <- <-]. simpl.
  split; [done|]. exists content, m. split; [done|]. eexists. by rewrite take_drop.
Qed.

Lemma prefix_drop_nonempty {A} (b l : list A) k :
  b `prefix_of` drop k l -> b <> [] -> length b <= length l - k /\ k < length l.
Proof.
  intros [r E] Hne. apply (f_equal length) in E. rewrite length_drop, length_app in E.
  destruct b; [done|]. simpl in *. lia.
Qed.

Context {LL : LiveShellLaws}.

(** A read that returns something has consumed something. *)
Lemma source_read_progress source n c b source' s' :
  source_read source n (local_fs c) = (Ok (b, source'), s') -> b <> [] ->
  forall rd buf w, source_left source' (mk_conn rd buf w s') < source_left source c.
Proof.
  intros H Hne rd buf w. destruct source as [ch|p offset]; simpl in H.
  - destruct (child_read n (local_fs c, ch)) as [r [s1 ch1]] eqn:E.
    destruct r as [b1|e]; simplify_eq/=. by eapply child_read_progress.
  - apply bind_ok_inv in H as (b1 & s1 & Hr & [= <- <- <-]).
    apply file_read_spec in Hr as (Hn & content & m & Hp & Hpre). simpl. rewrite Hn, Hp.
    apply prefix_drop_nonempty in Hpre as [? ?]; [|done]. destruct b1; [done|]. simpl in *. lia.
Qed.

Lemma read_source_progress source c b source' c' :
  read_source source c = (Ok (b, source'), c') -> b <> [] ->
  source_left source' c' < source_left source c.
Proof.
  unfold read_source, M_map_err, on_disk.
  destruct (source_read source _ (local_fs c)) as [[[b1 source1]|e] s1] eqn:E; [|done].
  intros [= <- <- <-] Hne. by eapply source_read_progress.
Qed.

Lemma source_left_send {A} (m : M writer TransferError A) source c :
  source_left source (send m c).2 = source_left source c.
Proof. unfold source_left. by rewrite send_diskless. Qed.

Lemma stream_turn_decreases : decreases source_left stream_turn.
Proof.
  intros source c source' c' ([b source1] & c1 & Hr & H)%bind_ok_inv.
  case_decide as Hb; [done|].
  apply bind_ok_inv in H as (u & c2 & Hs & [= <- <-]).
  pose proof (source_left_send (write_get_chunk b) source1 c1) as E. rewrite Hs in E. simpl in E.
  rewrite E. by eapply read_source_progress.
Qed.

Lemma content_turn_decreases : decreases (fun a => source_left a.1) content_turn.
Proof.
  intros [source total] c [source' total'] c' ([b source1] & c1 & Hr & H)%bind_ok_inv.
  case_decide as Hb; [done|].
  apply bind_ok_inv in H as (u & c2 & Hs & [= <- <- <-]). cbn [fst].
  pose proof (source_left_send (write_get_chunk b) source1 c1) as E. rewrite Hs in E. simpl in E.
  rewrite E. by eapply read_source_progress.
Qed.

Lemma read_source_total source : avoids EDiverged (read_source source).
Proof. by apply avoids_map_err. Qed.

Lemma spawn_download_total ctx p : avoids EDiverged (spawn_download_helper ctx p).
Proof.
  unfold spawn_download_helper. destruct ctx; terminating.
  apply avoids_map_err. by intros [].
Qed.

Lemma probe_download_total ctx p : avoids EDiverged (probe_download_size ctx p).
Proof. unfold probe_download_size. destruct ctx; terminating. Qed.

Lemma reject_total code detail : avoids EDiverged (reject code detail).
Proof. apply send_avoids. Qed.

#[local] Hint Resolve read_source_total spawn_download_total probe_download_total resolved_total
  reject_total : total.

Lemma stream_loop_total source : avoids EDiverged (stream_loop source).
Proof.
  apply avoids_loop; [apply stream_turn_decreases|]. intros a. unfold stream_turn. terminating.
Qed.

Lemma stream_file_total ctx p total : avoids EDiverged (stream_file_content ctx p total).
Proof.
  unfold stream_file_content. terminating.
  apply avoids_loop; [apply content_turn_decreases|]. intros a'. unfold content_turn. terminating.
Qed.

#[local] Hint Resolve stream_loop_total stream_file_total : total.

Lemma walk_tree_total root : avoids EDiverged (walk_tree_entries root).
Proof.
  unfold walk_tree_entries. apply avoids_bind.
  - intros s. by destruct (walk_entries root s).
  - intros entries. apply collect_avoids. intros e. unfold walk_turn. terminating.
Qed.

Lemma send_entries_total ctx total entries : avoids EDiverged (send_entries ctx total entries).
Proof.
  revert total. induction entries as [|we entries IH]; intros total; [apply avoids_ret|].
  cbn [send_entries]. unfold send_entry. terminating; apply IH.
Qed.

Lemma send_records_total ctx root total records : avoids EDiverged (send_records ctx root total records).
Proof.
  revert total. induction records as [|r records IH]; intros total; [apply avoids_ret|].
  cbn [send_records]. case_match; [apply IH|]. terminating; apply IH.
Qed.

#[local] Hint Resolve walk_tree_total send_entries_total send_records_total : total.

Lemma handle_get_total ctx request : avoids EDiverged (handle_get_request ctx request).
Proof.
  unfold handle_get_request, handle_single_get_request, handle_recursive_get_request, send_found.
  terminating.
Qed.
End terminate.
