(* ===== verification/Control.v ===== *)
(** * Control requests: [src/server/transfer/control.rs]

    Existence, working directory and path completion. The completion of a
    request lists a directory itself, or with [find] inside a live shell. *)

From stdpp Require Import sorting.
From S2P Require Import Prelude Text Stream TransferTypes TransferCodec Fs Paths Hoare Metrics.
From S2P Require Import Conn ShellOps Upload Download.

(** ** Escaping and parsing *)

(** A byte that is special in a [find -name] pattern. *)
Definition is_glob (c : ascii) : bool :=
  bool_decide (c ∈ bs "*?[]\").

Definition glob_escape (input : bytes) : bytes :=
  input ≫= fun c => if is_glob c then ["["%char; c; "]"%char] else [c].

(** The NUL-separated fields, in pairs of a name and a kind. *)
Fixpoint parse_pairs (fields : list bytes) : list bytes :=
  match fields with
  | name :: kind :: fields =>
      if decide (name = []) then parse_pairs fields
      else (utf8_lossy name ++ (if decide (kind = bs "d") then bs "/" else [])) :: parse_pairs fields
  | _ => []
  end.

Definition parse_find_type_entries (b : bytes) : list bytes := parse_pairs (split_on zero b).

(** [Ord] of strings *)
Fixpoint bytes_le (x y : bytes) : bool :=
  match x, y with
  | [], _ => true
  | _ :: _, [] => false
  | c :: x, d :: y =>
      (N_of_ascii c <? N_of_ascii d)%N || (bool_decide (c = d) && bytes_le x y)
  end.

Definition str_le (x y : bytes) : Prop := bytes_le x y = true.

#[export] Instance str_le_dec x y : Decision (str_le x y).
Proof. unfold str_le. apply _. Defined.

Section control.
Context {SJ : SerdeJson} {ST : SystemTexts} {MA : Machine} {LS : LiveShell}.

Definition handle_exists_request (ctx : ShellContext) (request : ExistsRequest) :
    M conn IroshError unit :=
  p ← on_disk (resolved ctx (exists_path request));
  let path_str := display p in
  found ← on_disk (path_exists ctx path_str);
  directory ← on_disk (is_dir ctx path_str);
  send (write_exists_response (mk_ExistsResponse found directory)).

Definition handle_cwd_request (ctx : ShellContext) : M conn IroshError unit :=
  p ← lift (map_err EServer (cwd process_cwd home_dir ctx));
  send (write_cwd_response (mk_CwdResponse (display p))).

(** The search directory and the prefix of a completion. *)
Definition search_of (raw : bytes) (p : path) : path * bytes :=
  if ends_with raw (bs "/") || bool_decide (raw = []) then (p, [])
  else (default p (parent p),
        match file_name p with
        | Some n => if utf8_valid n then n else []
        | None => []
        end).

(** [while let Ok(Some(entry)) = entries.next_entry().await] *)
Fixpoint matching_entries (dir : path) (prefix : bytes) (names : list bytes) :
    M fs IroshError (list bytes) :=
  match names with
  | [] => mret []
  | n :: names =>
      entry ← attempt (F := IroshError) (next_entry n);
      match entry with
      | Err _ => mret []
      | Ok n =>
          let name := utf8_lossy n in
          if starts_with name prefix then
            meta ← attempt (F := IroshError) (at_path (n :: dir) metadata);
            let match_name := match meta with Ok (true, _) => name ++ bs "/" | _ => name end in
            rest ← matching_entries dir prefix names;
            mret (match_name :: rest)
          else matching_entries dir prefix names
      end
  end.

(** [prefix.replace('\'', "'\\''")] *)
Definition shell_quote_escape (b : bytes) : bytes :=
  replace_chars (bs "'") (bs "'\''") b.

Definition completion_command (search_dir : path) (prefix : bytes) : command :=
  let escaped := shell_quote_escape (glob_escape prefix) in
  mk_command (bs "sh")
    [bs "-c"; bs "find . -maxdepth 1 -name '" ++ escaped ++ bs "*' -printf '%P\0%y\0'"]
    (Some search_dir).

Definition completion_matches (ctx : ShellContext) (search_dir : path) (prefix : bytes) :
    M fs IroshError (list bytes) :=
  match ctx with
  | Stateless =>
      names ← attempt (F := IroshError) (at_path search_dir read_dir);
      match names with
      | Ok names => matching_entries search_dir prefix names
      | Err _ => mret []
      end
  | Live pid =>
      out ← attempt (F := IroshError) (run_output pid (completion_command search_dir prefix));
      mret (match out with
            | Ok out => if success out then parse_find_type_entries (stdout out) else []
            | Err _ => []
            end)
  end.

Definition handle_completion_request (ctx : ShellContext) (request : CompletionRequest) :
    M conn IroshError unit :=
  p ← on_disk (resolved ctx (completion_path request));
  let '(search_dir, prefix) := search_of (completion_path request) p in
  found ← on_disk (completion_matches ctx search_dir prefix);
  send (write_completion_response (mk_CompletionResponse (merge_sort str_le found))).
End control.

(** ** Termination *)

Section terminate.
Context {SJ : SerdeJson} {ST : SystemTexts} {MA : Machine} {LS : LiveShell}.

#[local] Hint Resolve resolved_total probe_total : total.

Lemma path_exists_total ctx p : avoids EDiverged (path_exists ctx p).
Proof. unfold path_exists. destruct ctx; terminating. Qed.

Lemma is_dir_total ctx p : avoids EDiverged (is_dir ctx p).
Proof. unfold is_dir. destruct ctx; terminating. Qed.

Lemma matching_entries_total dir prefix names : avoids EDiverged (matching_entries dir prefix names).
Proof.
  induction names as [|n names IH]; [apply avoids_ret|]. cbn [matching_entries].
  terminating; apply IH.
Qed.

Lemma completion_matches_total ctx dir prefix : avoids EDiverged (completion_matches ctx dir prefix).
Proof.
  unfold completion_matches. destruct ctx; terminating. apply matching_entries_total.
Qed.

#[local] Hint Resolve path_exists_total is_dir_total completion_matches_total : total.

Lemma handle_exists_total ctx request : avoids EDiverged (handle_exists_request ctx request).
Proof. unfold handle_exists_request. terminating. Qed.

Lemma handle_cwd_total ctx : avoids EDiverged (handle_cwd_request ctx).
Proof.
  unfold handle_cwd_request. terminating. apply avoids_lift.
  destruct (cwd _ _ _); simpl; congruence.
Qed.

Lemma handle_completion_total ctx request : avoids EDiverged (handle_completion_request ctx request).
Proof. unfold handle_completion_request. terminating. Qed.
End terminate.

(** ** What a completion returns *)

Lemma bytes_le_refl x : bytes_le x x = true.
Proof. induction x as [|c x IH]; [done|]. simpl. rewrite bool_decide_true by done. by rewrite IH, orb_true_r. Qed.

#[export] Instance str_le_total : Total str_le.
Proof.
  intros x. unfold str_le. induction x as [|c x IH]; intros [|d y]; simpl; [by left..|by right|].
  destruct (decide (c = d)) as [->|Hne].
  - rewrite bool_decide_true by done. rewrite N.ltb_irrefl. apply IH.
  - rewrite !bool_decide_false by congruence. rewrite !orb_false_r, !N.ltb_lt.
    assert (N_of_ascii c <> N_of_ascii d).
    { intros E. apply (f_equal ascii_of_N) in E. by rewrite !ascii_N_embedding in E. }
    lia.
Qed.

(** The names a find script may list: no NUL, not empty. *)
Definition find_output (es : list (bytes * bool)) : bytes :=
  es ≫= fun '(name, dir) => name ++ zero :: (if dir : bool then bs "d" else bs "f") ++ [zero].

Lemma split_on_cons c w b : c ∉ w -> split_on c (w ++ c :: b) = w :: split_on c b.
Proof.
  intros Hw. rewrite (split_on_app c w (c :: b) [] (split_on c b)); [by rewrite app_nil_r|done|].
  cbn [split_on]. destruct (split_on c b) as [|v vs] eqn:E; [by apply split_on_nonempty in E|].
  by rewrite decide_True.
Qed.

(** The listing of a live shell is read back exactly: whatever the names
    are (spaces, newlines, colons, anything but NUL), the completions are
    the names the helper listed, in order, with a slash behind directories. *)
Theorem find_listing_roundtrip es :
  Forall (fun '(name, _) => name <> [] /\ (zero ∉ name) /\ utf8_valid name = true) es ->
  parse_find_type_entries (find_output es)
  = (fun '(name, dir) => name ++ (if dir : bool then bs "/" else [])) <$> es.
Proof.
  unfold parse_find_type_entries. induction 1 as [|[name dir] es (Hne & Hz & Hu) _ IH]; [done|].
  assert (find_output ((name, dir) :: es)
    = name ++ zero :: ((if dir then bs "d" else bs "f") ++ zero :: find_output es)) as ->.
  { unfold find_output. simpl. by rewrite <-!app_assoc; simpl; rewrite <-!app_assoc. }
  rewrite split_on_cons by done. rewrite split_on_cons by by destruct dir; vm_compute; set_solver.
  cbn [parse_pairs fmap list_fmap]. rewrite decide_False by done. rewrite IH.
  rewrite utf8_lossy_valid by done. by destruct dir.
Qed.

Lemma find_listing_roundtrip_witness :
  parse_find_type_entries (find_output [(bs "weird:name.txt", false); (bs "with space", true)])
  = [bs "weird:name.txt"; bs "with space/"].
Proof.
  apply (find_listing_roundtrip [(bs "weird:name.txt", false); (bs "with space", true)]).
  repeat constructor; try discriminate; vm_compute; set_solver.
Defined.

(** ** Quoting *)

(** The next word of a POSIX shell command line, up to an unquoted space:
    single quotes protect everything but themselves, and outside them a
    backslash protects one character. *)
Fixpoint sh_word (quoted : bool) (b : bytes) : bytes * bytes :=
  match b with
  | [] => ([], [])
  | c :: r =>
      if decide (c = "'"%char) then sh_word (negb quoted) r
      else if quoted then let '(w, rest) := sh_word true r in (c :: w, rest)
      else if decide (c = " "%char) then ([], b)
      else if decide (c = "\"%char) then
        match r with
        | d :: r => let '(w, rest) := sh_word false r in (d :: w, rest)
        | [] => ([], [])
        end
      else let '(w, rest) := sh_word false r in (c :: w, rest)
  end.

Lemma sh_word_quoted p rest w t :
  sh_word true rest = (w, t) -> sh_word true (shell_quote_escape p ++ rest) = (p ++ w, t).
Proof.
  intros H. induction p as [|c p IH]; [done|].
  assert (shell_quote_escape (c :: p)
    = (if decide (c ∈ bs "'") then bs "'\''" else [c]) ++ shell_quote_escape p) as -> by done.
  case_decide as Hc.
  - apply list_elem_of_singleton in Hc as ->. simpl. by rewrite IH.
  - simpl. rewrite decide_False by (intros ->; apply Hc; left). by rewrite IH.
Qed.

(** No completion prefix can inject shell syntax: in the script that a
    completion runs in a live shell, the shell reads the argument of [-name] as
    one word, which is the escaped prefix followed by [*], and continues
    behind it with the fixed [-printf] option, whatever bytes the peer sent. *)
Theorem completion_is_quoted search_dir prefix :
  exists word script,
    arguments (completion_command search_dir prefix) = [bs "-c"; script] /\
    script = bs "find . -maxdepth 1 -name " ++ word ++ bs " -printf '%P\0%y\0'" /\
    sh_word false (word ++ bs " -printf '%P\0%y\0'")
    = (glob_escape prefix ++ bs "*", bs " -printf '%P\0%y\0'").
Proof.
  exists (bs "'" ++ shell_quote_escape (glob_escape prefix) ++ bs "*'"). eexists.
  split; [done|]. split.
  - simpl. by rewrite <-!app_assoc.
  - rewrite <-!app_assoc. simpl. by apply sh_word_quoted.
Qed.
