(* ===== verification/Blob.v ===== *)
(** * Content-addressed transfers: [src/server/transfer/files/blob.rs]

    A blob upload is accumulated in memory, added to the iroh-blobs store,
    checked against the announced hash and exported; a blob download adds the
    requested files to the store and announces their hash. [BlobStore] is what
    the source uses of iroh-blobs; the store keeps its data on the same file
    system, so its operations act on [fs].

    The in-memory budget is a semaphore shared by the streams of a connection;
    here a stream records the permits it holds, and [Budget] models how
    streams wait for each other. *)

From stdpp Require Import sorting.
From S2P Require Import Prelude Text Stream TransferTypes TransferCodec Fs Paths Hoare Metrics.
From S2P Require Import Conn ShellOps Upload Download Control.

Inductive BlobFormat : Type := HashSeq | Raw.

#[export] Instance format_eq_dec : EqDecision BlobFormat.
Proof. solve_decision. Defined.

(** [AddProgressItem] *)
Inductive AddProgressItem (hash : Type) : Type :=
| AddDone (h : hash)
| AddSize (size : N)
| AddError (e : bytes)
| AddOther.
Arguments AddDone {hash} h.
Arguments AddSize {hash} size.
Arguments AddError {hash} e.
Arguments AddOther {hash}.

(** [BlobStatus] *)
Inductive BlobStatus : Type :=
| StatusNotFound
| StatusPartial
| StatusComplete (size : N).

(** [GetProgressItem] *)
Inductive GetProgressItem : Type :=
| GetProgress (size : N)
| GetError (e : bytes)
| GetDone.

Class BlobStore : Type := {
  hash : Type;
  hash_eq_dec :: EqDecision hash;
  hash_from_str : bytes -> result bytes hash;
  hash_to_string : hash -> bytes;
  add_bytes : bytes -> fs -> list (AddProgressItem hash) * fs;
  add_path : path -> fs -> list (AddProgressItem hash) * fs;
  blob_status : hash -> M fs bytes BlobStatus;
  read_blob : hash -> M fs bytes bytes;                        (** [reader(..).read_to_end] *)
  read_blob_at : hash -> nat -> nat -> M fs bytes bytes;       (** [reader(..).read], after so many bytes *)
  blob_left : hash -> nat -> fs -> nat;                        (** how much of the blob is behind them *)
  load_collection : hash -> M fs bytes (list (bytes * hash));
  collection_blobs : list (bytes * hash) -> list bytes;        (** [Collection::to_blobs] *)
  export_blob : hash -> path -> M fs bytes unit;
  fetch_blob : hash -> fs -> list GetProgressItem * fs;        (** [remote().fetch] *)
}.

Definition MAX_IN_MEMORY_TRANSFER_BYTES : N := 512 * 1024 * 1024.
Definition MIB_BYTES : N := 1024 * 1024.

(** [ensure_within_cap] *)
Definition cap_text : bytes :=
  bs "transfer exceeds the in-memory limit of " ++ decimal MAX_IN_MEMORY_TRANSFER_BYTES ++
  bs " bytes; streaming file transfers are not supported yet".

Definition ensure_within_cap {S} (received : N) : M S IroshError unit :=
  ensure (negb (MAX_IN_MEMORY_TRANSFER_BYTES <? received)%N) (failed Internal cap_text).

(** [u64::div_ceil] *)
Definition div_ceil (x y : N) : N := if (x mod y =? 0)%N then (x / y)%N else (x / y + 1)%N.

Definition blob_memory_permits (size : N) : N :=
  div_ceil (N.min size MAX_IN_MEMORY_TRANSFER_BYTES) MIB_BYTES.

(** The permits of [BlobMemoryGuard::acquire], once it has waited for them. *)
Definition acquire (size : N) : option N :=
  let held := blob_memory_permits size in
  if (0 <? held)%N then Some held else None.

(** [u64::checked_sub] and [u64::checked_add] *)
Definition checked_sub (x y : N) : option N := if (y <=? x)%N then Some (x - y)%N else None.
Definition checked_add (x y : N) : option N := if (x + y <? 2 ^ 64)%N then Some (x + y)%N else None.

Section blob.
Context {SJ : SerdeJson} {ST : SystemTexts} {MA : Machine} {LS : LiveShell} {WD : WalkDir}
  {BS : BlobStore}.

(** A store operation on the state of the handler. *)
Definition store_op {A} (op : fs -> A * fs) : M fs IroshError A := fun s =>
  let '(a, s) := op s in (Ok a, s).

(** Reading the progress of an addition to its end: the last hash and size,
    or the first error. *)
Fixpoint add_result (context : bytes) (h : option hash) (size : N)
    (items : list (AddProgressItem hash)) : result IroshError (option hash * N) :=
  match items with
  | [] => Ok (h, size)
  | AddDone h' :: items => add_result context (Some h') size items
  | AddSize n :: items => add_result context h n items
  | AddError e :: _ => Err (failed Internal (context ++ e))
  | AddOther :: items => add_result context h size items
  end.

Definition receive : M conn IroshError TransferFrameBorrowed :=
  recv_as (fun e => failed Internal (bs "failed to read frame: " ++ transfer_text e)).

(** ** The blobs of a collection *)

(** The variables of the receiving loop; [bs_held] are the permits of
    [declared_memory]. *)
Record BlobSeq : Type := mk_BlobSeq {
  bs_remaining : N;       (** [expected_remaining] *)
  bs_current : bytes;     (** [current_blob] *)
  bs_count : N;           (** [blob_count] *)
  bs_started : bool;      (** [cur_blob_started] *)
  bs_held : option N;
  bs_received : N;
}.

Definition blob_seq_new : BlobSeq := mk_BlobSeq 0 [] 0 false None 0.

Definition exceeded {S A} : M S IroshError A :=
  throw (failed Internal (bs "declared blob length exceeded by received data")).

(** The part of a turn that accounts for the data of a chunk. *)
Definition accept_chunk (b : BlobSeq) (data : bytes) : M conn IroshError BlobSeq :=
  if (bs_remaining b =? 0)%N then
    ensure (negb (length data <? 8)%nat) (failed Internal (bs "truncated length prefix"));;
    let expected := be_val (take 8 data) in
    let blob_start := drop 8 data in
    ensure (negb (MAX_IN_MEMORY_TRANSFER_BYTES <? expected)%N)
      (failed Internal (bs "declared blob length " ++ decimal expected ++
         bs " exceeds the in-memory limit of " ++ decimal MAX_IN_MEMORY_TRANSFER_BYTES ++ bs " bytes"));;
    ensure_within_cap (add_u64 (bs_received b) expected);;
    ensure (can_reserve expected)
      (failed Internal (bs "failed to allocate declared blob size " ++ decimal expected));;
    match checked_sub expected (blen blob_start) with
    | None => exceeded
    | Some remaining =>
        mret (mk_BlobSeq remaining (bs_current b ++ blob_start) (bs_count b) true
                (acquire expected) (bs_received b))
    end
  else
    match checked_sub (bs_remaining b) (blen data) with
    | None => exceeded
    | Some remaining =>
        mret (mk_BlobSeq remaining (bs_current b ++ data) (bs_count b) (bs_started b)
                (bs_held b) (bs_received b))
    end.

(** The end of a turn: a complete blob goes to the store. *)
Definition store_complete (b : BlobSeq) : M conn IroshError BlobSeq :=
  if (bs_remaining b =? 0)%N && bs_started b then
    items ← on_disk (store_op (add_bytes (bs_current b)));
    _ ← lift (add_result (bs "failed to add blob to store: ") None 0 items);
    mret (mk_BlobSeq 0 [] (bs_count b + 1) false None (bs_received b))
  else mret b.

Definition blob_seq_turn (b : BlobSeq) (frame : TransferFrameBorrowed) :
    M conn IroshError (BlobSeq + BlobSeq) :=
  match frame with
  | BPutChunk data =>
      b ← accept_chunk b data;
      match checked_add (bs_received b) (blen data) with
      | None => throw (failed Internal (bs "transfer size overflow"))
      | Some received =>
          ensure_within_cap received;;
          b ← store_complete (mk_BlobSeq (bs_remaining b) (bs_current b) (bs_count b)
                 (bs_started b) (bs_held b) received);
          mret (inl b)
      end
  | BOwned (FPutComplete _) => mret (inr b)
  | BOwned (FError failure) => throw (EServer (TransferFailed failure))
  | BGetChunk _ =>
      throw (failed UnexpectedFrame (bs "unexpected chunk frame during hashseq blob data"))
  | BOwned other =>
      throw (failed UnexpectedFrame (bs "unexpected frame during blob data: " ++ frame_text other))
  end.

Definition blob_seq_loop : BlobSeq -> M conn IroshError BlobSeq :=
  frame_loop (fun b => frame ← receive; blob_seq_turn b frame).

(** [tokio::fs::create_dir_all] *)
Definition make_dirs (p : path) : M fs IroshError unit := io_or_server (create_dir_all_at p).

Definition export_entry (target_path : path) (entry : bytes * hash) : M fs IroshError unit :=
  let '(name, item_hash) := entry in
  match sanitize_relative_path name with
  | Err reason =>
      throw (failed PathInvalid (bs "unsafe collection entry '" ++ name ++ bs "': " ++ reason))
  | Ok safe_name =>
      let item_path := path_join target_path safe_name in
      match parent item_path with
      | Some dir => make_dirs dir
      | None => mret tt
      end;;
      M_map_err (fun e => failed Internal (bs "failed to export collection item " ++ name ++ bs ": " ++ e))
        (export_blob item_hash item_path)
  end.

Definition export_collection (h : hash) (target_path : path) : M fs IroshError unit :=
  make_dirs target_path;;
  M_map_err (fun e => failed Internal (bs "failed to read collection blob " ++ hash_to_string h ++ bs ": " ++ e))
    (read_blob h);;
  collection ← M_map_err
    (fun e => failed Internal (bs "failed to load collection " ++ hash_to_string h ++ bs ": " ++ e))
    (load_collection h);
  for_each (export_entry target_path) collection.

(** The [HashSeq] branch of [handle_blob_put_request]: the bytes received. *)
Definition receive_collection (expected_hash : hash) (target_path : path) : M conn IroshError N :=
  b ← blob_seq_loop blob_seq_new;
  ensure (negb (bs_count b =? 0)%N) (failed Internal (bs "no blobs received for hashseq"));;
  status ← on_disk (M_map_err (fun e => failed Internal (bs "failed to check blob status: " ++ e))
                     (blob_status expected_hash));
  ensure (match status with StatusNotFound => false | _ => true end) (failed Internal (bs "collection hash " ++ hash_to_string expected_hash ++
                                 bs " not found in store after upload"));;
  on_disk (export_collection expected_hash target_path);;
  mret (bs_received b).

(** ** One blob *)

Definition raw_turn (size : N) (a : N * bytes) (frame : TransferFrameBorrowed) :
    M conn IroshError (N * bytes + N * bytes) :=
  let '(received, all_data) := a in
  match frame with
  | BPutChunk data =>
      match checked_add received (blen data) with
      | None => throw (failed Internal (bs "transfer size overflow"))
      | Some received =>
          ensure_within_cap received;;
          ensure (negb (size <? received)%N)
            (failed Internal (bs "received " ++ decimal received ++
               bs " bytes, exceeding the declared size of " ++ decimal size));;
          mret (inl (received, all_data ++ data))
      end
  | BOwned (FPutComplete _) => mret (inr (received, all_data))
  | BOwned (FError failure) => throw (EServer (TransferFailed failure))
  | BGetChunk _ =>
      throw (failed UnexpectedFrame (bs "unexpected chunk frame during raw blob data"))
  | BOwned other =>
      throw (failed UnexpectedFrame (bs "unexpected frame during blob data: " ++ frame_text other))
  end.

Definition raw_loop (size : N) : N * bytes -> M conn IroshError (N * bytes) :=
  frame_loop (fun a => frame ← receive; raw_turn size a frame).

(** The [Raw] branch: the bytes received. *)
Definition receive_raw (request : BlobPutRequest) (expected_hash : hash) (target_path : path) :
    M conn IroshError N :=
  ensure (negb (MAX_IN_MEMORY_TRANSFER_BYTES <? bput_size request)%N)
    (failed Internal (bs "declared size " ++ decimal (bput_size request) ++
       bs " exceeds the in-memory limit of " ++ decimal MAX_IN_MEMORY_TRANSFER_BYTES ++ bs " bytes"));;
  '(received, all_data) ← raw_loop (bput_size request) (0%N, []);
  items ← on_disk (store_op (add_bytes all_data));
  '(actual, _) ← lift (add_result (bs "failed to add blob to store: ") None 0 items);
  match actual with
  | None => throw (failed Internal (bs "add_bytes finished without hash"))
  | Some actual_hash =>
      ensure (bool_decide (actual_hash = expected_hash))
        (failed Internal (bs "hash mismatch: expected " ++ hash_to_string expected_hash ++
           bs ", got " ++ hash_to_string actual_hash));;
      on_disk (M_map_err
        (fun e => failed Internal (bs "failed to export blob to " ++ display target_path ++ bs ": " ++ e))
        (export_blob actual_hash target_path));;
      mret received
  end.

Definition handle_blob_put_request (ctx : ShellContext) (request : BlobPutRequest) :
    M conn IroshError unit :=
  match hash_from_str (bput_hash request) with
  | Err e => throw (failed PathInvalid (bs "invalid hash: " ++ e))
  | Ok expected_hash =>
      let format := if decide (ascii_lowercase (bput_format request) = bs "hashseq")
                    then HashSeq else Raw in
      target_path ← on_disk (resolved ctx (bput_path request));
      missing ← on_disk (path_missing_no_follow ctx (display target_path));
      if negb missing then send (write_transfer_error (target_exists_failure target_path)) else
      M_map_err (fun e => failed Internal (bs "failed to send ready: " ++ transfer_text e))
        (to_peer (write_put_ready (mk_TransferReady (bput_size request) None)));;
      fresh_buffer;;
      received ← match format with
                 | HashSeq => receive_collection expected_hash target_path
                 | Raw => receive_raw request expected_hash target_path
                 end;
      M_map_err (fun e => failed Internal (bs "failed to send completion: " ++ transfer_text e))
        (to_peer (write_put_complete (mk_TransferComplete received)))
  end.

(** ** Downloads *)

(** One turn of the walk of [add_directory_to_store]. *)
Definition store_walk_turn (dir_path : path) (entry : result bytes DirEntry) :
    M fs IroshError (option bytes) :=
  match entry with
  | Err e => throw (failed Internal (bs "failed to walk directory " ++ display dir_path ++ bs ": " ++ e))
  | Ok entry =>
      if entry_symlink entry || entry_dir entry then mret None else
      match strip_prefix (entry_path entry) dir_path with
      | None => throw (failed Internal (bs "path prefix mismatch"))
      | Some relative =>
          mret (Some (normalize_path_separators false (utf8_lossy (relative_str relative))))
      end
  end.

(** [add_bytes(data)], and its hash. *)
Definition add_hashed (context : bytes) (data : bytes) : M fs IroshError (option hash) :=
  items ← store_op (add_bytes data);
  '(h, _) ← lift (add_result context None 0 items);
  mret h.

Definition add_file_to_store (dir_path : path) (relative : bytes) : M fs IroshError (bytes * hash) :=
  let file_path := path_join dir_path relative in
  '(_, _, len) ← M_map_err (fun e => failed Internal (bs "failed to stat " ++ display file_path ++ bs ": " ++ io_text e))
                   (at_path file_path metadata_len);
  ensure (negb (MAX_IN_MEMORY_TRANSFER_BYTES <? len)%N)
    (failed Internal (bs "file " ++ display file_path ++ bs " (" ++ decimal len ++
       bs " bytes) exceeds the in-memory transfer limit of " ++
       decimal MAX_IN_MEMORY_TRANSFER_BYTES ++ bs " bytes"));;
  data ← M_map_err (fun e => failed Internal (bs "failed to read " ++ display file_path ++ bs ": " ++ io_text e))
           (at_path file_path read_file);
  h ← add_hashed (bs "failed to add file to store: ") data;
  match h with
  | None => throw (failed Internal (bs "add_bytes finished without hash"))
  | Some file_hash => mret (relative, file_hash)
  end.

Fixpoint add_files (dir_path : path) (entries : list bytes) : M fs IroshError (list (bytes * hash)) :=
  match entries with
  | [] => mret []
  | relative :: entries =>
      x ← add_file_to_store dir_path relative;
      xs ← add_files dir_path entries;
      mret (x :: xs)
  end.

(** The collection's own blobs; the last hash is the root. *)
Fixpoint add_collection (root : option hash) (total_size : N) (blobs : list bytes) :
    M fs IroshError (option hash * N) :=
  match blobs with
  | [] => mret (root, total_size)
  | data :: blobs =>
      let total_size := add_u64 total_size (blen data) in
      items ← store_op (add_bytes data);
      '(h, _) ← lift (add_result (bs "failed to add collection blob: ") root 0 items);
      add_collection h total_size blobs
  end.

Definition add_directory_to_store (dir_path : path) : M fs IroshError (hash * N) :=
  entries ← store_op (walk_entries dir_path);
  names ← collect (store_walk_turn dir_path) entries;
  collection ← add_files dir_path (merge_sort str_le names);
  '(root, total_size) ← add_collection None 0 (collection_blobs collection);
  match root with
  | None => throw (failed Internal (bs "collection to_blobs produced no blobs"))
  | Some root_hash => mret (root_hash, total_size)
  end.

Definition handle_blob_get_request (ctx : ShellContext) (request : BlobGetRequest) :
    M conn IroshError unit :=
  target_path ← on_disk (resolved ctx (bget_path request));
  found ← on_disk (path_exists ctx (bget_path request));
  ensure found (failed CodeNotFound (bs "file not found: " ++ bget_path request));;
  directory ← on_disk (is_dir ctx (bget_path request));
  if directory : bool then
    '(h, total_size) ← on_disk (add_directory_to_store target_path);
    send (write_blob_get_ready (mk_BlobGetReady (hash_to_string h) (bs "hashseq") total_size))
  else
    items ← on_disk (store_op (add_path target_path));
    '(h, final_size) ← lift (add_result (bs "failed to add file to server blobs: ") None 0 items);
    match h with
    | None => throw (failed Internal (bs "add_path finished without hash"))
    | Some h => send (write_blob_get_ready (mk_BlobGetReady (hash_to_string h) (bs "raw") final_size))
    end.
End blob.

(** ** Termination *)

Section terminate.
Context {SJ : SerdeJson} {ST : SystemTexts} {MA : Machine} {LS : LiveShell} {WD : WalkDir}
  {BS : BlobStore}.

Lemma receive_total : avoids EDiverged receive.
Proof. by apply recv_as_avoids. Qed.

Lemma store_op_total {A} (op : fs -> A * fs) : avoids EDiverged (store_op op).
Proof. intros s. unfold store_op. by destruct (op s). Qed.

Lemma add_result_total context h size items :
  avoids (St := conn) EDiverged (lift (add_result context h size items)).
Proof.
  apply avoids_lift. revert h size. induction items as [|[] items IH]; intros h' n; simpl; auto; done.
Qed.

Lemma add_result_total_fs context h size items :
  avoids (St := fs) EDiverged (lift (add_result context h size items)).
Proof.
  apply avoids_lift. revert h size. induction items as [|[] items IH]; intros h' n; simpl; auto; done.
Qed.

Lemma cap_total {S} n : avoids (St := S) EDiverged (ensure_within_cap n).
Proof. by apply avoids_ensure. Qed.

Lemma exceeded_total {S A} : avoids EDiverged (exceeded (S := S) (A := A)).
Proof. by apply avoids_throw. Qed.

#[local] Hint Resolve receive_total store_op_total add_result_total add_result_total_fs cap_total
  exceeded_total resolved_total reject_total io_or_server_total probe_total path_exists_total
  is_dir_total : total.

Lemma accept_chunk_total b data : avoids EDiverged (accept_chunk b data).
Proof. unfold accept_chunk. terminating. Qed.

Lemma store_complete_total b : avoids EDiverged (store_complete b).
Proof. unfold store_complete. terminating. Qed.

#[local] Hint Resolve accept_chunk_total store_complete_total : total.

Lemma ensure_within_cap_shrinks n : shrinks backlog (ensure_within_cap n).
Proof. apply shrinks_ensure. Qed.

Lemma exceeded_shrinks {A} : shrinks backlog (exceeded (A := A)).
Proof. apply shrinks_throw. Qed.

#[local] Hint Resolve ensure_within_cap_shrinks exceeded_shrinks : shrinks.

Lemma blob_seq_loop_decreases :
  decreases unread (fun b => frame ← receive; blob_seq_turn b frame).
Proof.
  apply reads_first. intros b f. unfold blob_seq_turn, accept_chunk, store_complete. shrinking.
Qed.

Lemma raw_loop_decreases size :
  decreases unread (fun a => frame ← receive; raw_turn size a frame).
Proof. apply reads_first. intros a f. unfold raw_turn. shrinking. Qed.

Lemma blob_seq_loop_total b : avoids EDiverged (blob_seq_loop b).
Proof.
  apply avoids_loop; [apply blob_seq_loop_decreases|]. intros b'. unfold blob_seq_turn. terminating.
Qed.

Lemma raw_loop_total size a : avoids EDiverged (raw_loop size a).
Proof.
  apply avoids_loop; [apply raw_loop_decreases|]. intros a'. unfold raw_turn. terminating.
Qed.

#[local] Hint Resolve blob_seq_loop_total raw_loop_total : total.

Lemma export_collection_total h p : avoids EDiverged (export_collection h p).
Proof.
  unfold export_collection, make_dirs. terminating.
  apply for_each_avoids. intros x. unfold export_entry, make_dirs. terminating.
Qed.

#[local] Hint Resolve export_collection_total : total.

Lemma handle_blob_put_total ctx request : avoids EDiverged (handle_blob_put_request ctx request).
Proof.
  unfold handle_blob_put_request, path_missing_no_follow, receive_collection, receive_raw.
  terminating.
Qed.

Lemma add_files_total p entries : avoids EDiverged (add_files p entries).
Proof.
  induction entries as [|x l IH]; [apply avoids_ret|]. cbn [add_files].
  unfold add_file_to_store, add_hashed. terminating.
Qed.

Lemma add_collection_total root n blobs : avoids EDiverged (add_collection root n blobs).
Proof.
  revert root n. induction blobs as [|x l IH]; intros root n; [apply avoids_ret|]. cbn [add_collection].
  terminating.
Qed.

#[local] Hint Resolve add_files_total add_collection_total : total.

Lemma add_directory_total p : avoids EDiverged (add_directory_to_store p).
Proof.
  unfold add_directory_to_store. terminating.
  apply collect_avoids. intros x. unfold store_walk_turn. terminating.
Qed.

#[local] Hint Resolve add_directory_total : total.

Lemma handle_blob_get_total ctx request : avoids EDiverged (handle_blob_get_request ctx request).
Proof. unfold handle_blob_get_request. terminating. Qed.
End terminate.
