(* ===== verification/Demo.v ===== *)
(** * A concrete machine

    The machine, helpers, directory walks and blob store on which the
    witnesses of the transfer theorems run: the helpers are a program with
    empty output, and the store identifies a blob by its own bytes. *)

From S2P Require Import Prelude Text Stream TransferTypes TransferCodec Fs Paths Hoare Metrics.
From S2P Require Import Conn ShellOps Download Blob.

Definition demo_texts : SystemTexts := {|
  io_text _ := bs "io error";
  frame_text _ := bs "frame";
  context_text _ := bs "context";
  transfer_text _ := bs "transfer error";
  error_chain _ := [bs "error"];
|}.

Definition demo_machine : Machine := {|
  process_cwd _ := None;
  home_dir := Some [bs "srv"];
  working_dir := [];
  process_id := 7;
  clock n := N.of_nat n;
  deferred := false;
  short_read n := n;
  can_reserve _ := true;
|}.

Definition demo_shell : LiveShell := {|
  child := bytes;
  run_status _ _ := mret true;
  run_output _ _ := mret (mk_output true [] []);
  spawn _ _ := mret [];
  has_stdin _ := true;
  has_stdout _ := true;
  child_write _ := mret tt;
  child_flush := mret tt;
  child_read n := fun '(s, ch) => (Ok (take n ch), (s, drop n ch));
  child_wait _ := mret (mk_output true [] []);
  child_left := length (A := ascii);
|}.

Lemma demo_shell_laws : @LiveShellLaws demo_shell.
Proof.
  split. simpl. intros n s ch b s' ch' [= <- _ <-] Hne. rewrite length_drop.
  destruct n, ch; simpl in *; try done; lia.
Qed.

Definition demo_walk : WalkDir := {|
  walk_entries _ s := ([], s);
  walk_metadata _ := mret (0%N, 0%N);
  walk_io_error _ := OtherError;
|}.

Definition demo_io {A} (m : M fs io_error A) : M fs bytes A := M_map_err (fun _ => bs "io error") m.

Definition demo_store : BlobStore := {|
  hash := bytes;
  hash_eq_dec := _;
  hash_from_str := Ok;
  hash_to_string h := h;
  add_bytes data s := ([AddSize (blen data); AddDone data], s);
  add_path p s :=
    match read_file p s with
    | (Ok data, s) => ([AddSize (blen data); AddDone data], s)
    | (Err _, s) => ([AddError (bs "io error")], s)
    end;
  blob_status h := mret (StatusComplete (blen h));
  read_blob h := mret h;
  read_blob_at h n len := mret (take len (drop n h));
  blob_left h n _ := length h - n;
  load_collection h := mret [];
  collection_blobs c := [bs "header"; c ≫= fun e => e.2];
  export_blob h p := demo_io (file_create p;; file_write_all p h);
  fetch_blob _ s := ([GetDone], s);
|}.

(** What a peer has sent. *)
Definition sent (frames : list TransferFrame) : reader :=
  mk_reader (wr_out (@write_frames bit_json frames open_writer).2) UnexpectedEof.

(** A disk with the server's home directory. *)
Definition demo_disk (oracle : nat -> option (nat * io_error)) : fs :=
  mk_fs {[ [] := Dir 493; [bs "srv"] := Dir 493 ]} 18 oracle 0 [].

Definition demo_conn (frames : list TransferFrame) : conn :=
  mk_conn (sent frames) [] open_writer (demo_disk (fun _ => None)).
