(* ===== verification/UploadFacts.v ===== *)
(** * What an upload does to the disk

    Started by the server process itself (no live shell), whatever the peer
    sends and whichever system calls fail: the destination appears at once or
    not at all, and nothing else but the part file and missing parent
    directories changes. What appears is complete, unless the last write
    failed and [tokio::fs::File] deferred the error: the handler discards the
    result of the [flush] that reports it ([deferred_error_truncates]). *)

From S2P Require Import Prelude Text Stream TransferTypes TransferCodec Fs Paths Hoare Metrics.
From S2P Require Import Conn ShellOps ShellFacts Upload Demo.

(** The effect of an upload to [dest] whose contents satisfy [whole]. *)
Definition kept (dest part : path) (whole : bytes -> Prop) (d d' : disk) : Prop := forall q,
  q <> part ->
  d' !! q = d !! q \/
  (q `suffix_of` tail dest /\ d !! q = None /\ is_dir_node (d' !! q) = true) \/
  (q = dest /\ d !! q = None /\
   exists content mode, d' !! q = Some (File content mode) /\ whole content).

Lemma kept_refl dest part whole d : kept dest part whole d d.
Proof. intros q _. by left. Qed.

(** A change of the part file alone keeps what holds. *)
Lemma kept_part dest part whole d d1 d2 :
  kept dest part whole d d1 -> (forall q, q <> part -> d2 !! q = d1 !! q) -> kept dest part whole d d2.
Proof. intros H H2 q Hq. rewrite (H2 q Hq). by apply H. Qed.

(** What may appear for [size] declared bytes: all of them where a failed
    write is reported on the spot or no call fails, and never more. *)
Definition whole_upload `{Machine} (size : N) (s0 : fs) (content : bytes) : Prop :=
  (blen content <= size)%N /\ (deferred = false \/ reliable s0 -> blen content = size).

(** The contents [b] of the part file after [n] bytes, with the error a write
    has left. *)
Definition written `{Machine} (s0 : fs) (pending : option io_error) (b : bytes) (n : N) : Prop :=
  match pending with
  | None => blen b = n
  | Some _ => (blen b <= n)%N /\ deferred = true /\ ~ reliable s0
  end.

Lemma written_whole `{Machine} s0 pending b size :
  written s0 pending b size -> whole_upload size s0 b.
Proof.
  unfold whole_upload. destruct pending; simpl; [|intros ->; split; [lia|done]].
  intros (? & Hd & Hr). split; [done|]. rewrite Hd. by intros [|].
Qed.

Lemma written_le `{Machine} s0 pending b n : written s0 pending b n -> (blen b <= n)%N.
Proof. destruct pending; simpl; [by intros [? _]|lia]. Qed.

Section steps.
Context {ST : SystemTexts} {MA : Machine} {LS : LiveShell}.
Variables (c name : bytes) (q : path) (whole : bytes -> Prop) (s0 : fs).
Hypothesis Hplain : plain (c :: q).
Hypothesis Hname : plain_name name.
Hypothesis Hne : name <> c.

Let dest : path := c :: q.
Let part : path := name :: q.
Let R := kept dest part whole.

Lemma part_plain : plain part.
Proof. split; [done|]. constructor; [done|]. by destruct Hplain as [_ H]; inversion H. Qed.

Lemma part_ne_dest : dest <> part.
Proof. intros [= ?]. congruence. Qed.

Lemma part_path : os_path (display part) = part.
Proof. apply os_path_display, part_plain. Qed.

Lemma dest_path : os_path (display dest) = dest.
Proof. by apply os_path_display. Qed.

Lemma part_proper : Forall proper part.
Proof. apply plain_proper, part_plain. Qed.

Lemma dest_proper : Forall proper dest.
Proof. apply plain_proper, Hplain. Qed.

(** Between the steps: [dest] is not there, and the part file holds [b]. *)
Definition staged (b : option bytes) (s : fs) : Prop :=
  runs R s0 s /\ nodes s0 !! dest = None /\ nodes s !! dest = None /\
  match b with
  | Some b => exists m, nodes s !! part = Some (File b m)
  | None => True
  end.

(** After the rename. *)
Definition placed (s : fs) : Prop :=
  runs R s0 s /\ nodes s0 !! dest = None /\
  exists b m, nodes s !! dest = Some (File b m) /\ whole b.

Lemma staged_weaken b s : staged b s -> staged None s.
Proof. by intros (? & ? & ? & _). Qed.

Lemma staged_runs b s : staged b s -> runs R s0 s.
Proof. by intros [? _]. Qed.

Lemma runs_now s : runs R s0 s -> R (nodes s0) (nodes s).
Proof. apply runs_final, kept_refl. Qed.

(** A call that leaves everything alone, and one that only changes the part. *)
Lemma staged_tick b s : staged b s -> staged b (tick s (nodes s)).
Proof.
  intros (Hr & H). split; [|done]. by apply runs_snoc, runs_now.
Qed.

Lemma staged_part b s d :
  staged None s -> (forall p, p <> part -> d !! p = nodes s !! p) ->
  match b with Some b => exists m, d !! part = Some (File b m) | None => True end ->
  staged b (tick s d).
Proof.
  intros (Hr & H0 & Hd & _) Hsame Hb. split_and!; [|done| |done].
  - apply runs_snoc; [done|]. eapply kept_part; [by apply runs_now|done].
  - simpl. rewrite Hsame; [done|]. apply part_ne_dest.
Qed.

Lemma create_part :
  hoare (staged None) (spawn_upload_helper Stateless (display part))
    (post (fun sink s => sink = SinkFile part None /\ staged (Some []) s) (fun _ => staged None)).
Proof.
  intros s Hs. unfold spawn_upload_helper. rewrite part_path.
  unfold mbind, M_bind, M_map_err, mret, M_ret.
  destruct (at_path part _ s) as [r s1] eqn:E.
  apply at_path_cases in E as [E|[[e ->] ->]]; [|by apply staged_tick|apply part_proper].
  unfold mbind, M_bind in E. destruct (file_create part s) as [[u|e] s2] eqn:E2;
    apply file_create_spec in E2 as [[? [m E2]]|[[? ?] ->]]; simplify_eq/=; [|by apply staged_tick].
  split; [done|]. apply staged_part; [done| |].
  - intros p Hp. by rewrite lookup_insert_ne.
  - exists m. by rewrite lookup_insert_eq.
Qed.

Lemma write_part pending b n chunk :
  written s0 pending b n ->
  hoare (staged (Some b)) (sink_write (SinkFile part pending) chunk)
    (post (fun '(r, sink) s => exists pending', sink = SinkFile part pending' /\
             match r with
             | Ok _ => exists b', staged (Some b') s /\ written s0 pending' b' (n + blen chunk)
             | Err _ => staged None s
             end)
          (fun _ _ => False)).
Proof.
  intros Hw s Hs. unfold sink_write, tokio_write, mbind, M_bind, mret, M_ret, attempt.
  destruct pending as [e|]; simpl; [exists None; split; [done|by eapply staged_weaken]|].
  destruct (file_write_all part chunk s) as [r s1] eqn:E.
  assert (exists m, nodes s !! part = Some (File b m)) as [m Hp] by apply Hs.
  destruct (file_write_all_spec _ _ _ _ _ b m Hp E) as (b' & Hpre & Hs1 & Hr). subst s1.
  assert (staged (Some (b ++ b')) (tick s (<[part := File (b ++ b') m]> (nodes s)))) as H.
  { apply staged_part; [by eapply staged_weaken| |].
    - intros p Hq. by rewrite lookup_insert_ne.
    - exists m. by rewrite lookup_insert_eq. }
  assert (blen (b ++ b') <= n + blen chunk)%N as Hl.
  { apply prefix_length in Hpre. simpl in Hw. unfold blen in *. rewrite length_app. lia. }
  destruct r as [u|e]; simpl.
  - exists None. split; [done|]. exists (b ++ b'). split; [done|]. simpl in *. subst b'.
    unfold blen in *. rewrite length_app. lia.
  - assert (~ reliable s0) as Hrel.
    { intros Hrel. pose proof (runs_reliable _ _ _ (staged_runs _ _ Hs) Hrel) as Hrel'.
      unfold file_write_all in E. by rewrite Hrel' in E. }
    destruct deferred eqn:Hd; simpl; [|exists None; split; [done|by eapply staged_weaken]].
    exists (Some e). split; [done|]. exists (b ++ b'). split; [done|]. by split.
Qed.

Lemma remove_part b :
  hoare (staged b) (remove_file_if_present Stateless (display part))
    (post (fun _ => staged None) (fun _ _ => False)).
Proof.
  intros s Hs. unfold remove_file_if_present, ignore. rewrite part_path. simpl.
  destruct (at_path part remove_file s) as [r s1] eqn:E. simpl.
  apply at_path_cases in E as [E|[_ ->]]; [|by eapply staged_weaken, staged_tick|apply part_proper].
  apply remove_file_spec in E as [(_ & _ & ->)|(e & _ & ->)]; [|by eapply staged_weaken, staged_tick].
  apply staged_part; [by eapply staged_weaken| |done]. intros p Hp. by rewrite lookup_delete_ne.
Qed.

Lemma rename_part b :
  whole b ->
  hoare (staged (Some b)) (rename Stateless (display part) (display dest))
    (post (fun ok s => ok = true /\ placed s) (fun _ => staged None)).
Proof.
  intros Hb s Hs. unfold rename. rewrite part_path, dest_path.
  unfold io_or_server, mbind, M_bind, M_map_err, mret, M_ret.
  destruct (at_path part _ s) as [r s1] eqn:E.
  apply at_path_cases in E as [E|[[e ->] ->]];
    [|by eapply staged_weaken, staged_tick|apply part_proper].
  apply at_path_cases in E as [E|[[e ->] ->]];
    [|by eapply staged_weaken, staged_tick|apply dest_proper].
  assert (exists m, nodes s !! part = Some (File b m)) as [m Hp] by apply Hs.
  destruct (Hs) as (Hr & H0 & _ & _).
  destruct (rename_spec _ _ _ _ _ _ _ Hp E) as [(-> & ->)|([e ->] & ->)]; simpl;
    [|by eapply staged_weaken, staged_tick].
  split; [done|]. split_and!; [|done|].
  - apply runs_snoc; [done|]. intros p Hq. pose proof (runs_now _ Hr p Hq) as Hk.
    destruct (decide (p = dest)) as [->|Hpd].
    + right. right. split_and!; [done..|]. exists b, m. by rewrite lookup_insert_eq.
    + rewrite lookup_insert_ne, lookup_delete_ne by congruence. exact Hk.
  - exists b, m. simpl. by rewrite lookup_insert_eq.
Qed.

Lemma chmod_dest mode :
  hoare placed (chmod Stateless (display dest) mode) (post (fun _ => placed) (fun _ _ => False)).
Proof.
  intros s (Hr & H0 & b & m & Hd & Hb). unfold chmod, ignore. rewrite dest_path. simpl.
  assert (placed (tick s (nodes s))) as Ht.
  { split_and!; [by apply runs_snoc, runs_now|done|eauto]. }
  destruct (at_path dest _ s) as [r s1] eqn:E. simpl.
  apply at_path_cases in E as [E|[_ ->]]; [|done|apply dest_proper].
  destruct (set_permissions_spec _ _ _ _ _ _ Hd E) as [(_ & ->)|(_ & ->)]; [|done]. simpl.
  split_and!; [|done|].
  - apply runs_snoc; [done|]. intros p Hq. destruct (decide (p = dest)) as [->|Hpd].
    + right. right. split_and!; [done..|]. exists b. eexists. by rewrite lookup_insert_eq.
    + rewrite lookup_insert_ne by congruence. by apply runs_now.
  - exists b. eexists. simpl. by rewrite lookup_insert_eq.
Qed.
End steps.

(** ** The stages of [receive_upload] *)

Section receive.
Context {SJ : SerdeJson} {ST : SystemTexts} {MA : Machine} {LS : LiveShell}.
Variables (c name : bytes) (q : path) (request : PutRequest) (s0 : fs) (bound : N).
Hypothesis Hplain : plain (c :: q).
Hypothesis Hname : plain_name name.
Hypothesis Hne : name <> c.
Hypothesis Hbound : (bound < 2 ^ 64)%N.

#[local] Abbreviation dest := (c :: q).
#[local] Abbreviation part := (name :: q).
#[local] Abbreviation size := (put_size request).
#[local] Abbreviation whole := (whole_upload (put_size request) s0).
#[local] Abbreviation at_stage b cn := (staged c name q (whole_upload (put_size request) s0) s0 b (local_fs cn)).

(** Before a turn of the loop, and after the loop. *)
Definition receiving (a : UploadSink * N) (cn : conn) : Prop :=
  exists pending b, a.1 = SinkFile part pending /\
    at_stage (Some b) cn /\ written s0 pending b a.2 /\ (a.2 + N.of_nat (backlog cn) <= bound)%N.

Definition received_all (a : UploadSink * N * bool) (cn : conn) : Prop :=
  (exists pending, a.1.1 = SinkFile part pending) /\
  if a.2 then at_stage None cn
  else a.1.2 = size /\ exists b, at_stage (Some b) cn /\ whole b.

Definition after_turn : result IroshError ((UploadSink * N) + (UploadSink * N * bool)) -> conn -> Prop :=
  post (fun x cn => match x with inl a => receiving a cn | inr a => received_all a cn end)
       (fun _ cn => at_stage None cn).

Lemma hoare_reject (P : fs -> Prop) code detail :
  hoare (fun cn => P (local_fs cn)) (reject code detail) (fun _ cn => P (local_fs cn)).
Proof. apply hoare_send. Qed.

(** A turn that gives up, perhaps after reporting why. *)
Lemma gives_up pending b n :
  hoare (fun cn => at_stage (Some b) cn)
    (mret (inr (A := UploadSink * N) (SinkFile part pending, n, true))) after_turn.
Proof. apply hoare_ret. intros cn Hs. split; [by eexists|]. by apply staged_weaken in Hs. Qed.

Lemma reports pending b n code detail :
  hoare (fun cn => at_stage (Some b) cn)
    (reject code detail;; mret (inr (A := UploadSink * N) (SinkFile part pending, n, true))) after_turn.
Proof.
  apply hoare_bind with (R := fun _ cn => at_stage (Some b) cn).
  - eapply hoare_post; [apply (hoare_reject (staged c name q whole s0 (Some b)))|].
    intros [u|e] cn Hs; [exact Hs|]. by apply staged_weaken in Hs.
  - intros u. apply gives_up.
Qed.

Lemma mentions pending b n code detail :
  hoare (fun cn => at_stage (Some b) cn)
    (ignore (reject code detail);; mret (inr (A := UploadSink * N) (SinkFile part pending, n, true)))
    after_turn.
Proof.
  apply hoare_bind with (R := fun _ cn => at_stage (Some b) cn).
  - apply hoare_ignore. apply (hoare_reject (staged c name q whole s0 (Some b))).
  - intros u. apply gives_up.
Qed.

Lemma upload_turn_chunk pending b n chunk :
  written s0 pending b n ->
  hoare (fun cn => at_stage (Some b) cn /\ (n + blen chunk + N.of_nat (backlog cn) <= bound)%N)
    (upload_turn request (SinkFile part pending, n) (Ok (BPutChunk chunk))) after_turn.
Proof.
  unfold upload_turn. intros Hw cn [Hs Hn]. rewrite add_u64_small by lia. case_match; [by eapply reports|].
  pose proof (write_part c name q whole s0 Hne pending b n chunk Hw (local_fs cn) Hs) as Hp.
  unfold mbind, M_bind, on_disk.
  destruct (sink_write _ chunk (local_fs cn)) as [[[r sink]|e] s'] eqn:E; simpl in *; [|done].
  destruct Hp as (pending' & -> & Hp). destruct r as [u|e]; simpl; [|by split; [eexists|]].
  destruct Hp as (b' & Hs' & Hw'). exists pending', b'. split_and!; [done..|].
  unfold backlog in *. simpl in *. lia.
Qed.

Lemma upload_turn_other pending b n frame :
  written s0 pending b n ->
  match frame with Ok (BPutChunk _) => False | _ => True end ->
  hoare (fun cn => at_stage (Some b) cn)
    (upload_turn request (SinkFile part pending, n) frame) after_turn.
Proof.
  intros Hw Hf. destruct frame as [[chunk|chunk|f]|e]; [done| |destruct f|]; cbn [upload_turn];
    first [apply gives_up | apply mentions | idtac].
  destruct (_ || _) eqn:Hc; [apply reports|]. apply hoare_ret. intros cn Hs. split; [by eexists|].
  apply orb_false_iff in Hc as [_ Hc%negb_false_iff%N.eqb_eq]. simpl in *. split; [done|].
  exists b. split; [done|]. rewrite Hc in Hw. by eapply written_whole.
Qed.

Lemma upload_loop_stages :
  hoare (fun cn => at_stage (Some []) cn /\ (N.of_nat (backlog cn) <= bound)%N)
    (upload_loop request (SinkFile part None, 0%N))
    (post received_all (fun _ cn => at_stage None cn)).
Proof.
  eapply hoare_pre; [apply (hoare_loop _ _ _ (upload_loop_decreases request) receiving)|].
  - intros [sink n]. apply hoare_bind with (R := fun frame cn =>
      exists pending b, sink = SinkFile part pending /\ at_stage (Some b) cn /\ written s0 pending b n /\
        match frame with
        | Ok (BPutChunk chunk) => (n + blen chunk + N.of_nat (backlog cn) <= bound)%N
        | _ => True
        end).
    + intros cn (pending & b & Hk & Hs & Hb & Hn). simpl in *.
      pose proof (hoare_recv_chunks (staged c name q whole s0 (Some b)) n bound cn (conj Hs Hn)) as Hr.
      destruct (attempt recv cn) as [[r|e] cn']; simpl in *; [|done].
      exists pending, b. destruct Hr as [Hs' Hr]. split_and!; [done..|].
      by destruct r as [[]|].
    + intros frame cn (pending & b & -> & Hs & Hw & Hn).
      destruct frame as [[chunk|chunk|f]|e]; [by eapply upload_turn_chunk|by eapply upload_turn_other..].
  - intros cn [Hs Hn]. exists None, []. by split_and!.
Qed.

#[local] Abbreviation prepared := (mk_Prepared (display dest) (display part)).
#[local] Abbreviation bounded cn := (N.of_nat (backlog cn) <= bound)%N.

(** What holds at every exit. *)
#[local] Abbreviation safe cn := (runs (kept dest part whole) s0 (local_fs cn)).

Lemma at_stage_safe b cn : at_stage b cn -> safe cn.
Proof. apply staged_runs. Qed.

Lemma discard_part b :
  hoare (fun cn => at_stage b cn) (on_disk (remove_file_if_present Stateless (display part)))
    (fun _ cn => at_stage None cn).
Proof.
  eapply hoare_post; [apply hoare_on_disk, (remove_part c name q whole s0 Hplain Hname Hne b)|].
  by intros [u|e] cn.
Qed.

(** Whatever the end of the loop, the helper and the system say. *)
Lemma finish_upload_safe n failed helper_res :
  hoare (fun cn => received_all (SinkFile part None, n, failed) cn)
    (finish_upload Stateless request prepared n failed helper_res) (fun _ cn => safe cn).
Proof.
  unfold finish_upload. cbn [part_arg final_arg].
  assert (forall m : M conn IroshError unit,
    hoare (fun cn => at_stage None cn) m (fun _ cn => at_stage None cn) ->
    hoare (fun cn => at_stage None cn)
      (on_disk (remove_file_if_present Stateless (display part));; m) (fun _ cn => safe cn)) as Hdiscard.
  { intros m Hm. apply hoare_bind with (R := fun _ cn => at_stage None cn).
    - eapply hoare_post; [apply discard_part|]. intros [u|e] cn Hs; [done|by eapply at_stage_safe].
    - intros u. eapply hoare_post; [exact Hm|]. intros r cn. apply at_stage_safe. }
  destruct (failed || negb (is_ok helper_res)) eqn:Hc.
  - eapply hoare_pre; [apply Hdiscard|].
    + repeat case_match; first [apply (hoare_reject (staged c name q whole s0 None)) | by apply hoare_ret].
    + intros cn [_ Hs]. destruct failed; [done|]. destruct Hs as (_ & b & Hs & _).
      by apply staged_weaken in Hs.
  - apply orb_false_iff in Hc as [-> _].
    apply hoare_pre with (P' := fun cn => exists b, whole b /\ at_stage (Some b) cn);
      [|intros cn (_ & _ & b & Hs & Hb); eauto].
    apply hoare_ex. intros b. apply hoare_prop. intros Hb.
    apply hoare_bind with (R := fun ok cn => ok = true /\ placed c name q whole s0 (local_fs cn)).
    + apply hoare_on_error with (R := fun _ cn => at_stage None cn).
      * eapply hoare_post;
          [apply hoare_on_disk, (rename_part c name q whole s0 Hplain Hname b Hb)|].
        by intros [ok|e] cn.
      * intros e. eapply hoare_post; [apply discard_part|]. intros r cn. apply at_stage_safe.
    + intros ok. apply hoare_prop. intros ->. cbn [negb].
      apply hoare_bind with (R := fun _ cn => placed c name q whole s0 (local_fs cn)).
      * destruct (put_mode request) as [mode|]; [|by apply hoare_ret].
        eapply hoare_post; [apply hoare_on_disk, (chmod_dest c name q whole s0 Hplain)|].
        by intros [u|e] cn.
      * intros u. eapply hoare_post; [apply hoare_send with (P := placed c name q whole s0)|].
        by intros r cn [? _].
Qed.

Lemma receive_upload_safe :
  hoare (fun cn => at_stage None cn /\ bounded cn) (receive_upload Stateless request prepared)
    (fun _ cn => safe cn).
Proof.
  unfold receive_upload. cbn [part_arg].
  apply hoare_bind with (R := fun sink cn =>
    sink = SinkFile part None /\ at_stage (Some []) cn /\ bounded cn).
  { intros cn [Hs Hn].
    pose proof (create_part c name q whole s0 Hplain Hname Hne (local_fs cn) Hs) as Hp.
    unfold on_disk. destruct (spawn_upload_helper _ _ _) as [[sink|e] s']; simpl in *.
    - by destruct Hp as [-> Hp].
    - by eapply staged_runs. }
  intros sink. apply hoare_prop. intros ->. cbn [sink_stdin negb].
  apply hoare_bind with (R := fun _ cn => at_stage (Some []) cn /\ bounded cn).
  { apply hoare_on_error with (R := fun _ cn => at_stage (Some []) cn).
    - intros cn [Hs Hn]. unfold send, M_map_err, to_peer.
      destruct (write_put_ready _ _) as [[u|e] w]; simpl; done.
    - intros e. eapply hoare_post; [apply discard_part|]. intros r cn. apply at_stage_safe. }
  intros _. apply hoare_bind with (R := fun _ cn => at_stage (Some []) cn /\ bounded cn); [by intros cn|].
  intros _. apply hoare_bind with (R := received_all).
  { eapply hoare_post; [apply upload_loop_stages|]. intros [a|e] cn Hs; [done|by eapply at_stage_safe]. }
  intros [[sink n] failed] cn ([pending Hk] & H). simpl in Hk. subst sink.
  destruct cn. exact (finish_upload_safe n failed (Ok tt) _ (conj (ex_intro _ None eq_refl) H)).
Qed.
End receive.

(** ** The whole request *)

(** Chance failures are not mistaken for absence. *)
Definition honest (s : fs) : Prop := forall n k, oracle s n <> Some (k, NotFound).

Lemma adds_dirs_kept c q part whole d d' : adds_dirs q d d' -> kept (c :: q) part whole d d'.
Proof.
  intros H p _. destruct (H p) as [?|(? & ? & Hd)]; [by left|]. right. left.
  split_and!; [done..|]. by apply Is_true_true.
Qed.

Section request.
Context {SJ : SerdeJson} {ST : SystemTexts} {MA : Machine} {LS : LiveShell}.

Lemma path_missing_cases p s r s' :
  plain p -> tree (nodes s) -> honest s ->
  path_missing_no_follow Stateless (display p) s = (r, s') ->
  runs same s s' /\ (r = Ok true -> nodes s !! p = None).
Proof.
  intros Hp Ht Ho. unfold path_missing_no_follow. rewrite os_path_display by done.
  unfold mbind, M_bind, attempt. destruct (at_path p metadata s) as [r1 s1] eqn:E.
  pose proof (at_path_stat_runs _ _ _ _ E) as Hr.
  destruct r1 as [x|e]; [by intros [= <- <-]|].
  destruct e; intros [= <- <-]; split; try done. intros _.
  eapply stat_not_found; [done| |done|exact E]. apply plain_proper, Hp.
Qed.

Lemma prepare_cases c q raw s r s' :
  plain (c :: q) -> tree (nodes s) -> honest s ->
  resolve_path process_cwd home_dir Stateless raw = Ok (c :: q) ->
  prepare_put_destination Stateless raw s = (r, s') ->
  match r with
  | Ok (Some p) => runs (adds_dirs q) s s' /\ nodes s !! (c :: q) = None /\
      exists u, p = mk_Prepared (display (c :: q)) (display (part_name (c :: q) u :: q))
  | Ok None => runs same s s'
  | Err _ => runs (adds_dirs q) s s' /\ (is_Some (nodes s !! (c :: q)) -> runs same s s')
  end.
Proof.
  intros Hp Ht Ho Hres. unfold prepare_put_destination, resolved. rewrite Hres.
  rewrite (bind_ok _ _ _ (c :: q) s) by done. cbn [parent default from_option id].
  destruct (path_missing_no_follow Stateless (display (c :: q)) s) as [[missing|e] s1] eqn:E1;
    [rewrite (bind_ok _ _ _ _ _ E1)|rewrite (bind_err _ _ _ _ _ E1)];
    apply path_missing_cases in E1 as [H1 Habs]; try done;
    [|intros [= <- <-]; split; [by apply same_runs|done]].
  destruct missing; cbn [negb]; [|by intros [= <- <-]]. specialize (Habs eq_refl).
  destruct (create_dir_all Stateless q s1) as [r2 s2] eqn:E2.
  assert (runs (adds_dirs q) s s2) as H2.
  { eapply runs_trans; [apply adds_dirs_trans|by apply same_runs|].
    revert E2. unfold create_dir_all, io_or_server, mbind, M_bind, M_map_err, mret, M_ret.
    destruct (create_dir_all_at q s1) as [[u|e'] s3] eqn:E3; intros [= _ <-];
      (eapply create_dir_all_at_runs; [|exact E3]); apply plain_proper;
      destruct Hp as [_ Hp]; by inversion Hp. }
  destruct r2 as [ok|e].
  - rewrite (bind_ok _ _ _ _ _ E2), bind_ensure. destruct ok.
    + intros [= <- <-]. split_and!; [done..|]. eexists.
      rewrite set_file_name_plain; [done|]. destruct Hp as [_ Hp]. by inversion Hp.
    + intros [= <- <-]. split; [done|]. rewrite Habs. by intros [? ?].
  - rewrite (bind_err _ _ _ _ _ E2). intros [= <- <-]. split; [done|]. rewrite Habs. by intros [? ?].
Qed.
End request.


(** ** Witness *)

Definition demo_put : PutRequest := mk_PutRequest (bs "notes") 3 None false.

Definition demo_upload : conn :=
  demo_conn [FPutChunk (bs "abc"); FPutComplete (mk_TransferComplete 3)].

Lemma demo_tree o : tree (nodes (demo_disk o)).
Proof.
  intros c q. simpl. rewrite lookup_insert_is_Some. intros [E|[_ H]]; [done|].
  apply lookup_singleton_is_Some in H as [= <- <-]. by vm_compute.
Qed.

Lemma plain_of (p : path) :
  bool_decide (p <> [] /\ Forall (fun c => (c <> [] /\ c <> bs "." /\ c <> bs ".." /\ "/"%char ∉ c) /\
    utf8_valid c = true) p) = true -> plain p.
Proof. intros [H1 H2]%bool_decide_eq_true. split; [done|]. exact H2. Qed.


(** The machine of [Demo] with the files of tokio, which report the error of a
    write at the next operation. *)
Definition deferring_machine : Machine := {|
  process_cwd _ := None;
  home_dir := Some [bs "srv"];
  working_dir := [];
  process_id := 7;
  clock n := N.of_nat n;
  deferred := true;
  short_read n := n;
  can_reserve _ := true;
|}.

(** The disk is full in the middle of the only chunk: three bytes were
    declared and received, two are on the disk, and the client is told the same
    as on a disk that works. *)
Example deferred_error_truncates :
  exists n k : nat,
    let put oracle := @handle_put_request bit_json demo_texts deferring_machine demo_shell Stateless
      demo_put (mk_conn (sent [FPutChunk (bs "abc"); FPutComplete (mk_TransferComplete 3)]) []
                  open_writer (demo_disk oracle)) in
    let full := put (fun m => if decide (m = n) then Some (k, OtherError) else None) in
    let works := put (fun _ => None) in
    full.1 = Ok tt /\ outgoing full.2 = outgoing works.2 /\
    nodes (local_fs full.2) !! [bs "notes"; bs "srv"] = Some (File (bs "ab") 420) /\
    nodes (local_fs works.2) !! [bs "notes"; bs "srv"] = Some (File (bs "abc") 420).
Proof. exists 4, 2. vm_compute. repeat split. Qed.
