(* ===== verification/Dispatch.v ===== *)
(** * Serving a transfer stream: [src/server/transfer/mod.rs]

    [handle_transfer_stream] reads the first frame, runs the handler it asks
    for, reports a failure to the peer and counts the outcome. *)

From S2P Require Import Prelude Text Stream TransferTypes TransferCodec Fs Paths Hoare Metrics.
From S2P Require Import Conn ShellOps Upload Download Control Blob Demo.

Section dispatch.
Context {SJ : SerdeJson} {ST : SystemTexts} {MA : Machine} {LS : LiveShell} {WD : WalkDir}
  {BS : BlobStore}.

(** The messages that [best_error_message] passes over. *)
Definition layer_messages : list bytes :=
  [bs "client error"; bs "server error"; bs "transport error"; bs "storage error"].

(** The loop of [best_error_message], over an error and its sources. *)
Fixpoint best_message (best : option bytes) (chain : list bytes) : option bytes :=
  match chain with
  | [] => best
  | message :: chain =>
      best_message (if decide (message ∈ layer_messages) then best else Some message) chain
  end.

Definition best_error_message (err : IroshError) : bytes :=
  default (to_string err) (best_message None (error_chain err)).

Definition extract_transfer_failure (err : IroshError) : TransferFailure :=
  match err with
  | EServer (TransferFailed failure) => failure
  | _ => mk_TransferFailure Internal (best_error_message err)
  end.

Definition on_conn {A} (m : M conn IroshError A) : M (conn * Metrics) IroshError A := fun '(c, mt) =>
  let '(r, c) := m c in (r, (c, mt)).

Definition record (f : Metrics -> Metrics) : M (conn * Metrics) IroshError unit := fun '(c, mt) =>
  (Ok tt, (c, f mt)).

(** [if let Err(err) = handler { failed(); report } else { completed() }] *)
Definition settle (handler : M conn IroshError unit) (completed failed : Metrics -> Metrics) :
    M (conn * Metrics) IroshError unit :=
  r ← attempt (F := IroshError) (on_conn handler);
  match r with
  | Err err =>
      record failed;;
      ignore (on_conn (send (write_transfer_error (extract_transfer_failure err))))
  | Ok _ => record completed
  end.

Definition handle_transfer_stream (shell_state : ConnectionShellState) :
    M (conn * Metrics) IroshError unit :=
  let context := from_state shell_state in
  let transfer handler := settle handler record_transfer_completed record_transfer_failed in
  let control handler := settle handler id record_error in
  record record_transfer_initiated;;
  frame ← attempt (F := IroshError) (on_conn recv_frame);
  match frame with
  | Ok (FPutRequest request) => transfer (handle_put_request context request)
  | Ok (FBlobPutRequest request) => transfer (handle_blob_put_request context request)
  | Ok (FBlobGetRequest request) => transfer (handle_blob_get_request context request)
  | Ok (FGetRequest request) => transfer (handle_get_request context request)
  | Ok (FCwdRequest _) => control (handle_cwd_request context)
  | Ok (FExistsRequest req) => control (handle_exists_request context req)
  | Ok (FCompletionRequest req) => control (handle_completion_request context req)
  | Ok other =>
      record record_error;;
      on_conn (send (write_transfer_error (mk_TransferFailure UnexpectedFrame (frame_text other))))
  | Err _ => record record_error
  end.
End dispatch.

(** ** Every stream is settled *)

(** The handler a first frame selects, and whether its outcome is counted as a
    transfer. *)
Definition handler_of `{SerdeJson, SystemTexts, Machine, LiveShell, WalkDir, BlobStore}
    (ctx : ShellContext) (f : TransferFrame) : option (M conn IroshError unit * bool) :=
  match f with
  | FPutRequest request => Some (handle_put_request ctx request, true)
  | FBlobPutRequest request => Some (handle_blob_put_request ctx request, true)
  | FBlobGetRequest request => Some (handle_blob_get_request ctx request, true)
  | FGetRequest request => Some (handle_get_request ctx request, true)
  | FCwdRequest _ => Some (handle_cwd_request ctx, false)
  | FExistsRequest req => Some (handle_exists_request ctx req, false)
  | FCompletionRequest req => Some (handle_completion_request ctx req, false)
  | _ => None
  end.

(** How an outcome changes the counters. *)
Definition counted (transfer succeeded : bool) : Metrics -> Metrics :=
  match transfer, succeeded with
  | true, true => record_transfer_completed
  | true, false => record_transfer_failed
  | false, true => id
  | false, false => record_error
  end.

Section settled.
Context {SJ : SerdeJson} {ST : SystemTexts} {MA : Machine} {LS : LiveShell} {WD : WalkDir}
  {BS : BlobStore} {LL : LiveShellLaws}.

Lemma handler_total ctx f h t : handler_of ctx f = Some (h, t) -> avoids EDiverged h.
Proof.
  destruct f; intros [= <- <-];
    eauto using handle_put_total, handle_blob_put_total, handle_blob_get_total, handle_get_total,
      handle_cwd_total, handle_exists_total, handle_completion_total.
Qed.

Lemma settle_spec h f g c mt :
  settle h f g (c, mt) =
  (Ok tt,
   match h c with
   | (Ok _, c1) => (c1, f mt)
   | (Err e, c1) => ((send (write_transfer_error (extract_transfer_failure e)) c1).2, g mt)
   end).
Proof.
  unfold settle, attempt, on_conn, record, ignore, mbind, M_bind.
  destruct (h c) as [[u|e] c1]; simpl; [done|].
  by destruct (send (write_transfer_error (extract_transfer_failure e)) c1).
Qed.

(** The stream's handling, by its first frame. *)
Lemma handle_transfer_stream_spec st c mt :
  handle_transfer_stream st (c, mt) =
  let mt := record_transfer_initiated mt in
  match recv_frame c with
  | (Err _, c1) => (Ok tt, (c1, record_error mt))
  | (Ok f, c1) =>
      match handler_of (from_state st) f with
      | Some (h, t) => settle h (counted t true) (counted t false) (c1, mt)
      | None =>
          let '(r, c2) := send (write_transfer_error (mk_TransferFailure UnexpectedFrame (frame_text f))) c1 in
          (r, (c2, record_error mt))
      end
  end.
Proof.
  unfold handle_transfer_stream, record, attempt, on_conn. unfold mbind at 1, M_bind at 1.
  unfold mbind at 1, M_bind at 1. destruct (recv_frame c) as [[f|e] c1]; [|done].
  destruct f; try done; unfold mbind, M_bind; cbn [handler_of];
    by destruct (send _ c1).
Qed.
End settled.

(** C21: Serving a stream terminates and settles it. For every first frame and
    whatever follows it, without a live shell as well as in one whose helpers
    produce finite output ([LiveShellLaws]), and once the memory budget has
    granted what a blob asks for ([Budget] has the wait),
    [handle_transfer_stream] returns: no loop of a handler runs forever (none
    returns the model's [EDiverged]); it returns success unless an unexpected
    first frame could not be answered; the counters change by one initiated
    transfer and the one outcome that the handler's result calls for; and a
    failed handler is answered with the failure it returned. The handler's
    result is not the upload's: a request the handler refuses, and tells its
    client so, is a handler that succeeded, and is counted as completed
    ([refused_upload_counts_completed]). *)
Theorem every_stream_is_settled {SJ : SerdeJson} {ST : SystemTexts} {MA : Machine} {LS : LiveShell}
    {WD : WalkDir} {BS : BlobStore} {LL : LiveShellLaws} st c mt :
  let '(r, (c', mt')) := handle_transfer_stream st (c, mt) in
  match recv_frame c with
  | (Err _, c1) => r = Ok tt /\ c' = c1 /\ mt' = record_error (record_transfer_initiated mt)
  | (Ok f, c1) =>
      match handler_of (from_state st) f with
      | Some (h, t) =>
          (h c1).1 <> Err EDiverged /\ r = Ok tt /\
          mt' = counted t (is_ok (h c1).1) (record_transfer_initiated mt) /\
          match (h c1).1 with
          | Ok _ => c' = (h c1).2
          | Err e => c' = (send (write_transfer_error (extract_transfer_failure e)) (h c1).2).2
          end
      | None =>
          mt' = record_error (record_transfer_initiated mt) /\
          (r = Ok tt \/ exists e, r = Err (ETransport e))
      end
  end.
Proof.
  destruct (handle_transfer_stream st (c, mt)) as [r [c' mt']] eqn:E.
  rewrite handle_transfer_stream_spec in E. cbv zeta in E.
  destruct (recv_frame c) as [[f|e] c1]; [|by injection E as <- <- <-].
  destruct (handler_of (from_state st) f) as [[h t]|] eqn:Hh.
  - rewrite settle_spec in E. pose proof (handler_total _ _ _ _ Hh c1) as Ht.
    destruct (h c1) as [[u|e] c2]; injection E as <- <- <-; simpl in *; done.
  - unfold send, M_map_err in E. destruct (to_peer _ c1) as [[[]|e] c2]; injection E as <- <- <-; simpl; eauto.
Qed.

(** ** Witness *)

Definition demo_stream : conn :=
  demo_conn [FPutRequest (mk_PutRequest (bs "notes") 3 None false);
             FPutChunk (bs "abc"); FPutComplete (mk_TransferComplete 3)].

Definition demo_metrics : Metrics := metrics_new.

Lemma every_stream_is_settled_witness :
  let '(r, (c', mt')) := @handle_transfer_stream bit_json demo_texts demo_machine demo_shell
    demo_walk demo_store shell_state_new (demo_stream, demo_metrics) in
  r = Ok tt /\ mt' = record_transfer_completed (record_transfer_initiated demo_metrics).
Proof.
  pose proof (@every_stream_is_settled bit_json demo_texts demo_machine demo_shell demo_walk demo_store
    demo_shell_laws shell_state_new demo_stream demo_metrics) as H.
  destruct (handle_transfer_stream shell_state_new (demo_stream, demo_metrics)) as [r [c' mt']] eqn:E.
  revert H. vm_compute in E. injection E as <- <- <-. vm_compute. intuition congruence.
Defined.

(** Five bytes arrive for three declared: the client is told of the mismatch,
    no file appears, and the transfer is counted among those that "completed
    successfully". *)
Example refused_upload_counts_completed :
  let '(r, (c', mt')) := @handle_transfer_stream bit_json demo_texts demo_machine demo_shell
    demo_walk demo_store shell_state_new
    (demo_conn [FPutRequest (mk_PutRequest (bs "notes") 3 None false); FPutChunk (bs "abcde")],
     demo_metrics) in
  r = Ok tt /\ mt' = record_transfer_completed (record_transfer_initiated demo_metrics) /\
  nodes (local_fs c') !! [bs "notes"; bs "srv"] = None.
Proof. vm_compute. repeat split. Qed.
