(* ===== verification/Budget.v ===== *)
(** * Waiting for memory: [BlobMemoryGuard] and the connection's semaphore

    The streams of a connection share [in_memory_budget_permits] permits.
    [BlobMemoryGuard::acquire] waits in line until its permits are free, and
    dropping the guard returns them. A stream that asks for its next blob
    drops its guard first ([declared_memory.take()]) and then gets in line; in
    between it may be served, finish its blob, end, or wait for its peer for
    as long as the peer likes. A state of the semaphore is the free permits,
    the queue of waiting streams and the guards; the steps are those of the
    operations, interleaved in any order the line permits. *)

From S2P Require Import Prelude Blob.

(** [state.rs] *)
Definition MAX_IN_MEMORY_BLOB_BUDGET_BYTES : N := 512 * 1024 * 1024.
Definition in_memory_budget_permits : N := MAX_IN_MEMORY_BLOB_BUDGET_BYTES / (1024 * 1024).

Record budget : Type := mk_budget {
  available : N;
  queue : list (nat * N);     (** waiting streams, first come first *)
  guards : list (nat * N);    (** streams that hold permits *)
}.

Definition budget_new : budget := mk_budget in_memory_budget_permits [] [].

(** [declared_memory.take()]: a guard is dropped, and its permits return. *)
Definition take_guard (id : nat) (b : budget) : budget :=
  mk_budget (available b + foldr (fun x n => x.2 + n)%N 0%N (filter (fun x => x.1 = id) (guards b)))
    (queue b) (filter (fun x => x.1 <> id) (guards b)).

(** [acquire_many_owned]: the stream gets in line. A blob of size 0 needs no
    permits, and does not wait. *)
Definition enqueue (id : nat) (held : option N) (b : budget) : budget :=
  match held with
  | Some k => mk_budget (available b) (queue b ++ [(id, k)]) (guards b)
  | None => b
  end.

(** What the receiving loop does at the length prefix of a blob. *)
Definition swap_guard (id : nat) (size : N) (b : budget) : budget :=
  enqueue id (acquire size) (take_guard id b).

Inductive step : budget -> budget -> Prop :=
| NextBlob id size b :          (** of a stream that is not waiting in line *)
    (id ∉ (queue b).*1) -> step b (swap_guard id size b)
| Grant id k q b :              (** the semaphore serves the head of the line *)
    queue b = (id, k) :: q -> (k <= available b)%N ->
    step b (mk_budget (available b - k) q ((id, k) :: guards b))
| Finish id b :                 (** the blob is stored, or the handler returns *)
    (id ∉ (queue b).*1) -> step b (take_guard id b)
| Abandon id k q1 q2 b :        (** the task of a waiting stream is dropped *)
    queue b = q1 ++ (id, k) :: q2 ->
    step b (mk_budget (available b) (q1 ++ q2) (guards b)).

Definition total (l : list (nat * N)) : N := foldr (fun x n => x.2 + n)%N 0%N l.

(** ** Lemmas *)

Lemma total_app l1 l2 : total (l1 ++ l2) = (total l1 + total l2)%N.
Proof. induction l1 as [|x l IH]; [done|]. simpl. fold (total l) (total (l ++ l2)). lia. Qed.

Lemma div_ceil_bound x y : (0 < y)%N -> (x <= y * div_ceil x y)%N /\ (y * div_ceil x y < x + y)%N.
Proof.
  intros Hy. unfold div_ceil. pose proof (N.div_mod' x y) as E. pose proof (N.mod_lt x y) as Hm.
  generalize dependent (x mod y)%N. generalize (x / y)%N. intros q r E Hm.
  destruct (N.eqb_spec r 0%N); nia.
Qed.

Lemma permits_bound size : (blob_memory_permits size <= in_memory_budget_permits)%N.
Proof.
  unfold blob_memory_permits. pose proof (N.le_min_r size MAX_IN_MEMORY_TRANSFER_BYTES) as Hm.
  destruct (div_ceil_bound (N.min size MAX_IN_MEMORY_TRANSFER_BYTES) MIB_BYTES) as [_ Hc]; [done|].
  revert Hc Hm. generalize (div_ceil (N.min size MAX_IN_MEMORY_TRANSFER_BYTES) MIB_BYTES).
  generalize (N.min size MAX_IN_MEMORY_TRANSFER_BYTES).
  change in_memory_budget_permits with 512%N. unfold MIB_BYTES, MAX_IN_MEMORY_TRANSFER_BYTES. lia.
Qed.

Lemma acquire_bound size k : acquire size = Some k -> (0 < k <= in_memory_budget_permits)%N.
Proof.
  unfold acquire. destruct (N.ltb_spec 0 (blob_memory_permits size)); intros [= <-].
  split; [done|apply permits_bound].
Qed.

(** What a guard covers. *)
Lemma acquire_covers size : (size <= MAX_IN_MEMORY_TRANSFER_BYTES)%N ->
  (size <= MIB_BYTES * default 0 (acquire size))%N.
Proof.
  intros Hs. unfold acquire, blob_memory_permits. rewrite N.min_l by done.
  destruct (div_ceil_bound size MIB_BYTES) as [Hc _]; [done|].
  destruct (N.ltb_spec 0 (div_ceil size MIB_BYTES)) as [?|H0]; simpl; [done|].
  apply N.le_0_r in H0. rewrite H0 in Hc. exact Hc.
Qed.

(** ** Invariant *)

Record budget_ok (b : budget) : Prop := {
  ok_sum : (available b + total (guards b) = in_memory_budget_permits)%N;
  ok_queue : Forall (fun x => (0 < x.2 <= in_memory_budget_permits)%N) (queue b);
  ok_guards : Forall (fun x => (0 < x.2)%N) (guards b);
  ok_ids : NoDup ((queue b).*1 ++ (guards b).*1);
}.

Lemma budget_new_ok : budget_ok budget_new.
Proof. split; simpl; [reflexivity|constructor|constructor|constructor]. Qed.

Lemma total_filter id l :
  total l = (total (filter (fun x => x.1 = id) l) + total (filter (fun x => x.1 <> id) l))%N.
Proof.
  induction l as [|[i k] l IH]; [done|]. cbn [total foldr]. fold (total l). rewrite IH.
  destruct (decide (i = id)) as [->|Hne].
  - rewrite filter_cons_True by done. rewrite (filter_cons_False _ (id, k) l) by (intros H; by apply H).
    cbn [total foldr fst snd]. fold (total (filter (fun x => x.1 = id) l)). lia.
  - rewrite filter_cons_False by done. rewrite (filter_cons_True _ (i, k) l) by done.
    cbn [total foldr fst snd]. fold (total (filter (fun x => x.1 <> id) l)). lia.
Qed.

Lemma not_holding id l : id ∉ (filter (fun x : nat * N => x.1 <> id) l).*1.
Proof. rewrite list_elem_of_fmap. intros (x & -> & [Hne _]%list_elem_of_filter). done. Qed.

Lemma still_distinct id (l : list (nat * N)) :
  NoDup l.*1 -> NoDup (filter (fun x => x.1 <> id) l).*1.
Proof.
  induction l as [|[i k] l IH]; [done|]. simpl. intros [Hi Hl]%list.NoDup_cons.
  destruct (decide (i = id)) as [->|Hne].
  - rewrite filter_cons_False by (intros H; by apply H). by apply IH.
  - rewrite filter_cons_True by done. simpl. apply list.NoDup_cons. split; [|by apply IH].
    intros Hin. apply Hi. apply list_elem_of_fmap in Hin as (x & -> & [_ Hx]%list_elem_of_filter).
    by apply list_elem_of_fmap_2.
Qed.

(** Dropping a guard keeps the invariant, and the stream then holds nothing. *)
Lemma take_guard_ok id b : budget_ok b -> budget_ok (take_guard id b).
Proof.
  intros [H1 H2 H3 H4]. split; simpl.
  - rewrite (total_filter id) in H1. fold (total (filter (fun x => x.1 = id) (guards b))). lia.
  - done.
  - apply list.Forall_forall. intros x [_ Hx]%list_elem_of_filter. by apply (proj1 (list.Forall_forall _ _) H3).
  - apply list.NoDup_app in H4 as (Hq & Hd & Hg). apply list.NoDup_app. split_and!; [done| |].
    + intros i Hi Hin. apply (Hd i Hi). apply list_elem_of_fmap in Hin as (x & -> & [_ Hx]%list_elem_of_filter).
      by apply list_elem_of_fmap_2.
    + by apply still_distinct.
Qed.

Lemma enqueue_ok id size b :
  budget_ok b -> (id ∉ (queue b).*1) -> (id ∉ (guards b).*1) -> budget_ok (enqueue id (acquire size) b).
Proof.
  intros [H1 H2 H3 H4] Hq Hg. destruct (acquire size) as [k|] eqn:Ha; [|done]. split; simpl; try done.
  - apply Forall_app. split; [done|]. constructor; [|constructor]. by eapply acquire_bound.
  - rewrite fmap_app. simpl. rewrite <-app_assoc. simpl.
    rewrite <-Permutation_middle. constructor; [|done]. rewrite elem_of_app. naive_solver.
Qed.

Lemma step_ok b b' : step b b' -> budget_ok b -> budget_ok b'.
Proof.
  intros Hs Hok. destruct Hs as [id size b Hq|id k q b Hq Hk|id b Hq|id k q1 q2 b Hq].
  - apply enqueue_ok; [by apply take_guard_ok|done|apply not_holding].
  - destruct Hok as [H1 H2 H3 H4]. rewrite Hq in H2, H4. split; simpl in *.
    + fold (total (guards b)). lia.
    + by inversion H2.
    + inversion H2 as [|?? [? _] _]; subst. by constructor.
    + by rewrite <-Permutation_middle.
  - by apply take_guard_ok.
  - destruct Hok as [H1 H2 H3 H4]. rewrite Hq in H2, H4. split; simpl in *; [done| |done|].
    + apply Forall_app in H2 as [? H2]. apply Forall_app. split; [done|]. by inversion H2.
    + rewrite fmap_app in H4 |- *. simpl in H4. rewrite <-app_assoc in H4 |- *. simpl in H4.
      rewrite <-Permutation_middle in H4. by inversion H4.
Qed.

Lemma budget_reachable_ok b : rtc step budget_new b -> budget_ok b.
Proof.
  intros H. assert (budget_ok budget_new -> budget_ok b) as Hb; [|by apply Hb, budget_new_ok].
  induction H as [|b1 b2 b3 Hs _ IH]; [done|]. intros H1. by apply IH, (step_ok b1).
Qed.

(** ** Properties *)

(** What remains when streams that hold permits are through with their blobs. *)
Definition finish_all (ids : list nat) (b : budget) : budget :=
  foldl (fun b id => take_guard id b) b ids.

Lemma finish_all_queue ids b : queue (finish_all ids b) = queue b.
Proof. revert b. induction ids as [|id ids IH]; intros b; [done|]. simpl. by rewrite IH. Qed.

Lemma finish_all_ok ids b : budget_ok b -> budget_ok (finish_all ids b).
Proof. revert b. induction ids as [|id ids IH]; intros b Hb; [done|]. by apply IH, take_guard_ok. Qed.

Lemma finish_all_guards ids b x : x ∈ guards (finish_all ids b) -> x ∈ guards b /\ x.1 ∉ ids.
Proof.
  revert b. induction ids as [|id ids IH]; intros b; simpl; [intros; split; [done|apply not_elem_of_nil]|].
  intros [[Hne Hx]%list_elem_of_filter Hn]%IH. split; [done|]. by apply not_elem_of_cons.
Qed.

(** C38: The memory budget is exact and has no wait cycle. In every state that
    streams asking for memory blob after blob, finishing, stalling and being
    dropped can reach: the permits held and the free ones add up to 512, so
    that what streams were granted stays within 512 MiB whatever sizes the peer
    declares; a stream that waits in line holds nothing, so no stream waits for
    one that itself waits for the budget; and the first in line is served as
    soon as the streams that hold permits, none of which is in line, are
    through with the blobs they hold them for. (How long that takes is up to
    their peers: the code sets no limit.) *)
Theorem budget_has_no_wait_cycle b :
  rtc step budget_new b ->
  (available b + total (guards b) = 512)%N /\
  (MIB_BYTES * total (guards b) <= MAX_IN_MEMORY_BLOB_BUDGET_BYTES)%N /\
  (forall id, id ∈ (queue b).*1 -> id ∉ (guards b).*1) /\
  (forall id k q, queue b = (id, k) :: q ->
     let b' := finish_all (guards b).*1 b in
     rtc step b b' /\ exists b'', step b' b'' /\ (id, k) ∈ guards b'').
Proof.
  intros Hb%budget_reachable_ok. pose proof Hb as [H1 H2 H3 H4].
  change in_memory_budget_permits with 512%N in *. apply list.NoDup_app in H4 as (_ & Hd & _).
  split_and!; [done|unfold MIB_BYTES, MAX_IN_MEMORY_BLOB_BUDGET_BYTES; lia|exact Hd|].
  intros id k q Hq b'. split.
  - subst b'. assert (forall ids b1, (forall i, i ∈ ids -> i ∉ (queue b1).*1) -> rtc step b1 (finish_all ids b1)) as Hrun.
    { clear. intros ids. induction ids as [|i ids IH]; intros b1 Hi; [done|]. simpl.
      eapply rtc_l; [apply (Finish i); apply Hi; left|]. apply IH. intros j Hj. apply Hi. by right. }
    apply Hrun. intros i Hi Hin. by apply (Hd i).
  - assert (guards b' = []) as Hg.
    { destruct (guards b') as [|x g] eqn:E; [done|].
      destruct (finish_all_guards (guards b).*1 b x) as [Hin Hn]; [subst b'; rewrite E; left|].
      by destruct Hn; apply list_elem_of_fmap_2. }
    pose proof (finish_all_ok (guards b).*1 b Hb) as [E1 E2 _ _]. fold b' in E1, E2. rewrite Hg in E1.
    pose proof (finish_all_queue (guards b).*1 b) as Eq. fold b' in Eq. rewrite Hq in Eq. rewrite Eq in E2.
    inversion E2 as [|?? [_ Hk] _]; subst. eexists. split; [apply (Grant id k q b' Eq)|left].
    simpl in *. lia.
Qed.

(** ** Witness *)

(** One stream holds all but two permits, another waits for three. *)
Definition busy_budget : budget := mk_budget 2 [(1, 3%N)] [(0, 510%N)].

Lemma busy_budget_reachable : rtc step budget_new busy_budget.
Proof.
  eapply rtc_l; [apply (NextBlob 0 (510 * MIB_BYTES)); apply not_elem_of_nil|].
  eapply rtc_l; [apply (Grant 0 510 []); [reflexivity|by vm_compute]|].
  eapply rtc_l; [apply (NextBlob 1 (2 * MIB_BYTES + 1)); apply not_elem_of_nil|].
  replace (swap_guard 1 _ _) with busy_budget by (vm_compute; reflexivity). constructor.
Qed.

Lemma budget_has_no_wait_cycle_witness :
  exists b'', step (finish_all [0] busy_budget) b'' /\ (1, 3%N) ∈ guards b''.
Proof.
  destruct (budget_has_no_wait_cycle busy_budget busy_budget_reachable) as (_ & _ & _ & H).
  exact (proj2 (H 1 3%N [] eq_refl)).
Defined.
