(* ===== verification/BlobFacts.v ===== *)
(** * What a blob upload accounts for

    The invariant of the loop that receives a collection, and the check of a
    single blob against its announced hash. *)

From S2P Require Import Prelude Text Stream TransferTypes TransferCodec Fs Paths Hoare Metrics.
From S2P Require Import Conn ShellOps Upload Download Control Blob Demo Budget.

(** The bytes that the blobs took on the stream: each has an 8-byte prefix. *)
Definition framed_size (blobs : list bytes) : N := foldr (fun b n => 8 + blen b + n)%N 0%N blobs.

Lemma framed_size_app blobs1 blobs2 :
  framed_size (blobs1 ++ blobs2) = (framed_size blobs1 + framed_size blobs2)%N.
Proof.
  induction blobs1 as [|b blobs1 IH]; [done|]. simpl. fold (framed_size (blobs1 ++ blobs2)).
  fold (framed_size blobs1). lia.
Qed.

(** The state of the store after it was given these blobs, in this order. *)
Definition store_all {BS : BlobStore} (blobs : list bytes) (s : fs) : fs :=
  foldl (fun s data => (add_bytes data s).2) s blobs.

Lemma store_all_snoc {BS : BlobStore} blobs data s :
  store_all (blobs ++ [data]) s = (add_bytes data (store_all blobs s)).2.
Proof. unfold store_all. by rewrite foldl_app. Qed.

(** What the variables of the loop mean at the start of every turn, after
    the blobs [stored]. *)
Definition accounted (stored : list bytes) (b : BlobSeq) : Prop :=
  bs_count b = N.of_nat (length stored) /\
  (bs_received b <= MAX_IN_MEMORY_TRANSFER_BYTES)%N /\
  bs_received b = (framed_size stored +
                   if bs_started b then 8 + blen (bs_current b) else 0)%N /\
  if bs_started b then
    (0 < bs_remaining b)%N /\
    exists size, (size <= MAX_IN_MEMORY_TRANSFER_BYTES)%N /\ bs_held b = acquire size /\
      size = (blen (bs_current b) + bs_remaining b)%N
  else bs_remaining b = 0%N /\ bs_current b = [] /\ bs_held b = None.

Section facts.
Context {SJ : SerdeJson} {ST : SystemTexts} {MA : Machine} {LS : LiveShell} {WD : WalkDir}
  {BS : BlobStore}.

Lemma accounted_new : accounted [] blob_seq_new.
Proof. split_and!; done. Qed.

Lemma cap_ok {S} n (s : S) u s' :
  ensure_within_cap n s = (Ok u, s') -> (n <= MAX_IN_MEMORY_TRANSFER_BYTES)%N /\ s' = s.
Proof.
  unfold ensure_within_cap, ensure. destruct (N.ltb_spec MAX_IN_MEMORY_TRANSFER_BYTES n); [done|].
  by intros [= _ <-].
Qed.

Lemma checked_sub_some x y z : checked_sub x y = Some z -> x = (y + z)%N.
Proof. unfold checked_sub. destruct (N.leb_spec y x); [|done]. intros [= <-]. lia. Qed.

(** Between the two halves of a turn. *)
Definition accepted (b : BlobSeq) (data : bytes) (b' : BlobSeq) : Prop :=
  bs_count b' = bs_count b /\ bs_received b' = bs_received b /\
  bs_started b' = true /\
  (if bs_started b then blen (bs_current b') = blen (bs_current b) + blen data
   else 8 + blen (bs_current b') = blen data)%N /\
  exists size, (size <= MAX_IN_MEMORY_TRANSFER_BYTES)%N /\ bs_held b' = acquire size /\
    size = (blen (bs_current b') + bs_remaining b')%N.

Lemma accept_chunk_accounts stored b data c b' c' :
  accounted stored b -> accept_chunk b data c = (Ok b', c') -> accepted b data b' /\ c' = c.
Proof.
  intros (_ & _ & _ & Hst). unfold accept_chunk. destruct (N.eqb_spec (bs_remaining b) 0) as [H0|H0].
  - assert (bs_started b = false /\ bs_current b = []) as [Hns Hc].
    { destruct (bs_started b); [|tauto]. destruct Hst as [Hr _]. by rewrite H0 in Hr. }
    rewrite Hc. intros H. apply bind_ensure_inv in H as [Hl%negb_true_iff%Nat.ltb_ge H].
    apply bind_ensure_inv in H as [He%negb_true_iff%N.ltb_ge H].
    apply bind_ok_inv in H as (u & c1 & [_ ->]%cap_ok & H).
    apply bind_ensure_inv in H as [_ H].
    destruct (checked_sub _ _) as [remaining|] eqn:Hsub; [|done]. injection H as <- <-.
    apply checked_sub_some in Hsub. unfold accepted. simpl. rewrite Hns. split_and!; [done..| | |done].
    + unfold blen. rewrite length_drop. lia.
    + eexists. split; [exact He|]. by split.
  - destruct (checked_sub _ _) as [remaining|] eqn:Hsub; [|done]. intros [= <- <-].
    apply checked_sub_some in Hsub. unfold accepted. simpl.
    destruct (bs_started b) eqn:Hs; [|by destruct Hst].
    destruct Hst as (_ & size & Hle & Hh & Hsz). split_and!; [done..| | |done].
    + unfold blen. rewrite length_app. lia.
    + exists size. split_and!; [done..|]. rewrite Hsz. unfold blen in *. rewrite length_app. lia.
Qed.

Lemma store_complete_accounts b c b' c' :
  store_complete b c = (Ok b', c') ->
  if (bs_remaining b =? 0)%N && bs_started b
  then b' = mk_BlobSeq 0 [] (bs_count b + 1) false None (bs_received b) /\
       local_fs c' = (add_bytes (bs_current b) (local_fs c)).2
  else b' = b /\ c' = c.
Proof.
  unfold store_complete. destruct ((bs_remaining b =? 0)%N && bs_started b); [|by intros [= <- <-]].
  intros (items & c1 & Hi & H)%bind_ok_inv. apply bind_ok_inv in H as (x & c2 & Hx & [= <- <-]).
  unfold lift in Hx. injection Hx as _ <-. split; [done|].
  unfold on_disk, store_op in Hi. destruct (add_bytes _ _) as [items' s']. by injection Hi as _ <-.
Qed.

Lemma blob_seq_turn_accounted stored b frame c x c' :
  accounted stored b -> blob_seq_turn b frame c = (Ok x, c') ->
  match x with
  | inl b' | inr b' => exists more, accounted (stored ++ more) b' /\ local_fs c' = store_all more (local_fs c)
  end.
Proof.
  intros Hb. destruct frame as [data|data|f]; cbn [blob_seq_turn]; [|done|].
  2: { destruct f; try done. intros [= <- <-]. exists []. by rewrite app_nil_r. }
  intros (b1 & c1 & Ha & H)%bind_ok_inv.
  apply (accept_chunk_accounts stored) in Ha as [(Hcnt & Hrec & Hst & Hlen & size & Hle & Hh & Hsz) ->]; [|done].
  destruct (checked_add _ _) as [received|] eqn:Hadd; [|done].
  apply bind_ok_inv in H as (u & c2 & [Hcap ->]%cap_ok & H).
  apply bind_ok_inv in H as (b2 & c3 & Hc%store_complete_accounts & [= <- <-]).
  destruct Hb as (Bcnt & Bcap & Brec & Bst).
  unfold checked_add in Hadd. destruct (N.ltb_spec (bs_received b1 + blen data) (2 ^ 64)); [|done].
  injection Hadd as <-. simpl in Hc. rewrite Hst, andb_true_r in Hc.
  assert (bs_received b1 + blen data = framed_size stored + (8 + blen (bs_current b1)))%N as Hr.
  { rewrite Hrec, Brec. destruct (bs_started b); lia. }
  destruct (N.eqb_spec (bs_remaining b1) 0) as [H0|H0]; destruct Hc as [-> Hc].
  - exists [bs_current b1]. split; [|done]. unfold accounted. rewrite framed_size_app, length_app. simpl.
    split_and!; [lia|done|lia|done..].
  - exists []. rewrite app_nil_r, Hc. split; [|done]. unfold accounted. simpl.
    split_and!; [congruence|done|done|lia|by exists size].
Qed.

(** The blobs of a collection go to the store, and their memory is accounted
    for. Whatever frames arrive and whatever fails, when the receiving loop
    ends with success the store is that of the beginning after [add_bytes] of
    [stored], a list of blobs, in that order; the count is their number and the
    bytes received are those of these blobs and the one in progress with
    their prefixes, at most 512 MiB; and the blob in progress holds the budget
    permits of its declared size, of which it has not received more. *)
Theorem collection_upload_accounted s0 :
  hoare (fun c => local_fs c = s0) (blob_seq_loop blob_seq_new)
    (post (fun b c => exists stored, accounted stored b /\ local_fs c = store_all stored s0 /\
             (blen (bs_current b) <= MIB_BYTES * default 0 (bs_held b))%N /\
             (framed_size stored <= MAX_IN_MEMORY_TRANSFER_BYTES)%N)
          (fun _ _ => True)).
Proof.
  set (inv := fun (b : BlobSeq) (c : conn) =>
    exists stored, accounted stored b /\ local_fs c = store_all stored s0).
  assert (forall b stored, accounted stored b -> (blen (bs_current b) <= MIB_BYTES * default 0 (bs_held b))%N /\
            (framed_size stored <= MAX_IN_MEMORY_TRANSFER_BYTES)%N) as Hcov.
  { intros b stored (_ & Hcap & Hrec & Hst). split; [|rewrite Hrec in Hcap; lia].
    destruct (bs_started b).
    - destruct Hst as (_ & size & Hle & -> & Hsz). pose proof (acquire_covers size Hle). lia.
    - by destruct Hst as (_ & -> & ->). }
  eapply hoare_pre; [apply (hoare_loop _ _ _ blob_seq_loop_decreases inv)|].
  - intros b c0 (stored & Hb & Hs). unfold mbind, M_bind.
    destruct (receive c0) as [[frame|e] c1] eqn:Er; simpl; [|done].
    assert (local_fs c1 = local_fs c0) as E1.
    { pose proof (recv_keeps (fun e => failed Internal (bs "failed to read frame: " ++ transfer_text e)) c0) as [_ Hd].
      unfold receive in Er. by rewrite Er in Hd. }
    destruct (blob_seq_turn b frame c1) as [[x|e] c2] eqn:E; simpl; [|done].
    apply (blob_seq_turn_accounted stored) in E; [|done].
    destruct x as [b'|b']; destruct E as (more & Ha & Hf); exists (stored ++ more);
      (assert (local_fs c2 = store_all (stored ++ more) s0) as Hc;
        [unfold store_all in *; by rewrite foldl_app, <-Hs, Hf, E1|]); [done|].
    destruct (Hcov _ _ Ha). done.
  - intros c <-. exists []. split; [apply accounted_new|done].
Qed.
End facts.

(** ** One blob *)

(** The hash of the store is that of the data. *)
Class BlobStoreLaws `{BlobStore} : Type := {
  digest : bytes -> hash;
  add_bytes_digest data s items s' h :
    add_bytes data s = (items, s') -> AddDone h ∈ items -> h = digest data;
}.

Section raw.
Context {SJ : SerdeJson} {ST : SystemTexts} {MA : Machine} {LS : LiveShell} {WD : WalkDir}
  {BS : BlobStore} {BL : BlobStoreLaws}.

(** What the handler has checked of the data it exports. *)
Definition verified (request : BlobPutRequest) (expected : hash) (data : bytes) : Prop :=
  (blen data <= bput_size request)%N /\ (blen data <= MAX_IN_MEMORY_TRANSFER_BYTES)%N /\
  digest data = expected.

Lemma add_result_done context h0 n0 items h n :
  add_result context h0 n0 items = Ok (Some h, n) -> h0 = Some h \/ AddDone h ∈ items.
Proof.
  revert h0 n0. induction items as [|[h'|m|e|] items IH]; intros h0 n0; simpl.
  - intros [= -> _]. by left.
  - intros [[= ->]|?]%IH; right; [left|by right].
  - intros [?|?]%IH; [by left|right; by right].
  - done.
  - intros [?|?]%IH; [by left|right; by right].
Qed.

Lemma raw_turn_size size received all_data frame c x c' :
  received = blen all_data -> (received <= size)%N ->
  raw_turn size (received, all_data) frame c = (Ok x, c') ->
  match x with inl a | inr a => a.1 = blen a.2 /\ (a.1 <= size)%N end.
Proof.
  intros -> Hle. destruct frame as [data|data|f]; cbn [raw_turn]; [|done|].
  2: { destruct f; try done. by intros [= <- _]. }
  unfold checked_add. destruct (_ <? 2 ^ 64)%N; [|done].
  intros (u & c1 & [_ ->]%cap_ok & H)%bind_ok_inv.
  apply bind_ensure_inv in H as [Hs%negb_true_iff%N.ltb_ge [= <- _]]. simpl. split; [|done].
  unfold blen. rewrite length_app. lia.
Qed.

Lemma raw_loop_size size :
  hoare (fun _ => True) (raw_loop size (0%N, []))
    (post (fun a _ => a.1 = blen a.2 /\ (a.1 <= size)%N) (fun _ _ => True)).
Proof.
  eapply hoare_pre; [apply (hoare_loop _ _ _ (raw_loop_decreases size)
    (fun a _ => a.1 = blen a.2 /\ (a.1 <= size)%N))|].
  - intros [received all_data] c [Hr Hs]. simpl in Hr, Hs. unfold mbind, M_bind.
    destruct (receive c) as [[frame|e] c1]; [|done].
    destruct (raw_turn size (received, all_data) frame c1) as [[[a|a]|e] c2] eqn:E; simpl; [| |done];
      apply raw_turn_size in E; auto.
  - intros s _. simpl. split; [done|lia].
Qed.

(** A single blob is exported only after it was verified: when the handler
    reports success, the data it accumulated is at most the declared size,
    its hash is the one the peer announced, and that blob was exported to the
    target; a mismatch is an error before anything is exported. *)
Theorem raw_upload_verified request expected target c n c' :
  receive_raw request expected target c = (Ok n, c') ->
  exists data c1 s2,
    raw_loop (bput_size request) (0%N, []) c = (Ok (n, data), c1) /\
    n = blen data /\ verified request expected data /\
    export_blob expected target s2 = (Ok tt, local_fs c').
Proof.
  unfold receive_raw. intros H. apply bind_ensure_inv in H as [Hcap%negb_true_iff%N.ltb_ge H].
  apply bind_ok_inv in H as ([received data] & c1 & Hl & H).
  pose proof (raw_loop_size (bput_size request) c I) as Hs. rewrite Hl in Hs. simpl in Hs.
  destruct Hs as [Hs1 Hs2].
  apply bind_ok_inv in H as (items & c2 & Hi & H).
  apply bind_ok_inv in H as ([actual m] & c3 & Ha & H).
  destruct actual as [h|]; [|done].
  apply bind_ensure_inv in H as [->%bool_decide_eq_true H].
  apply bind_ok_inv in H as ([] & c4 & He & [= <- <-]).
  exists data, c1, (local_fs c3). split; [done|]. split; [done|]. split; [unfold verified; split; [lia|split; [lia|]]|].
  - injection Ha as Ha <-. apply add_result_done in Ha as [?|Hin]; [done|].
    unfold on_disk, store_op in Hi. destruct (add_bytes data (local_fs c1)) as [items' s1] eqn:E.
    injection Hi as <- <-. symmetry. by eapply add_bytes_digest.
  - unfold on_disk, M_map_err in He. destruct (export_blob expected target (local_fs c3)) as [[[]|e] s2];
      [|done]. by injection He as <-.
Qed.
End raw.

(** ** Which path a blob download looks at *)

(** The path, as the server process sees it, names nothing. *)
Definition names_nothing {MA : Machine} (raw : bytes) (s : fs) : Prop :=
  is_ok (at_path (os_path raw) metadata s).1 = false.

(** A blob download looks up the path as the peer wrote it, not the path
    it resolved: without a live shell the request is refused as not found
    whenever the raw path names nothing from the server's own working
    directory, also when the path resolved against the home directory exists. *)
Theorem blob_get_checks_raw_path {SJ : SerdeJson} {ST : SystemTexts} {MA : Machine} {LS : LiveShell}
    {WD : WalkDir} {BS : BlobStore} request c p :
  resolve_path process_cwd home_dir Stateless (bget_path request) = Ok p ->
  names_nothing (bget_path request) (local_fs c) ->
  (handle_blob_get_request Stateless request c).1
  = Err (failed CodeNotFound (bs "file not found: " ++ bget_path request)).
Proof.
  unfold names_nothing. intros Hres Hm.
  destruct (at_path _ metadata (local_fs c)) as [[x|e] s'] eqn:E; [done|]. clear Hm.
  assert (on_disk (resolved Stateless (bget_path request)) c = (Ok p, c)) as H1.
  { unfold on_disk, resolved, lift. rewrite Hres. by destruct c. }
  assert (exists c', on_disk (path_exists Stateless (bget_path request)) c = (Ok false, c')) as [c' H2].
  { eexists. unfold on_disk, path_exists, mbind, M_bind, attempt. by rewrite E. }
  unfold handle_blob_get_request. rewrite (bind_ok _ _ _ _ _ H1), (bind_ok _ _ _ _ _ H2).
  by rewrite bind_ensure.
Qed.

(** ** Witnesses *)

Definition demo_store_laws : @BlobStoreLaws demo_store.
Proof.
  refine {| digest := fun data : bytes => (data : @hash demo_store) |}.
  simpl. intros data s items s' h [= <- <-] H.
  apply elem_of_cons in H as [?|[[= ->]|?%elem_of_nil]%elem_of_cons]; done.
Defined.

Definition demo_blob_request : BlobPutRequest :=
  mk_BlobPutRequest (bs "notes") (bs "abc") (bs "raw") 3.

Definition demo_blob_conn : conn :=
  demo_conn [FPutChunk (bs "ab"); FPutChunk (bs "c"); FPutComplete (mk_TransferComplete 3)].

Lemma raw_upload_verified_witness :
  let target := [bs "notes"; bs "srv"] in
  let r := @receive_raw bit_json demo_texts demo_store demo_blob_request (bs "abc") target
             demo_blob_conn in
  nodes (local_fs r.2) !! target = Some (File (bs "abc") 420) /\
  exists data c1, @raw_loop bit_json demo_texts 3 (0%N, []) demo_blob_conn = (Ok (3%N, data), c1) /\
    data = bs "abc".
Proof.
  intros target r. split; [vm_compute; reflexivity|].
  destruct (@raw_upload_verified bit_json demo_texts demo_store demo_store_laws
    demo_blob_request (bs "abc") target demo_blob_conn 3%N r.2) as (data & c1 & s2 & Hl & _ & (_ & _ & Hd) & _).
  - refine (pair_fst (@receive_raw bit_json demo_texts demo_store demo_blob_request _ _ _) _ _).
    vm_compute. reflexivity.
  - exists data, c1. split; [exact Hl|exact Hd].
Defined.

Lemma blob_get_checks_raw_path_witness :
  let c := mk_conn (sent []) [] open_writer
             (mk_fs (<[[bs "notes"; bs "srv"] := File (bs "abc") 420]> (nodes (demo_disk (fun _ => None))))
                18 (fun _ => None) 0 []) in
  nodes (local_fs c) !! [bs "notes"; bs "srv"] = Some (File (bs "abc") 420) /\
  @resolve_path (@process_cwd demo_machine) (@home_dir demo_machine) Stateless (bs "notes")
    = Ok [bs "notes"; bs "srv"] /\
  (@handle_blob_get_request bit_json demo_texts demo_machine demo_shell demo_walk demo_store Stateless
    (mk_BlobGetRequest (bs "notes")) c).1
  = Err (failed CodeNotFound (bs "file not found: notes")).
Proof.
  split; [vm_compute; reflexivity|]. split; [vm_compute; reflexivity|].
  apply (@blob_get_checks_raw_path bit_json demo_texts demo_machine demo_shell demo_walk demo_store
    (mk_BlobGetRequest (bs "notes")) _ [bs "notes"; bs "srv"]); vm_compute; reflexivity.
Defined.
