(* ===== verification/ClientTransfer.v ===== *)
(** * Transfers on the client: [src/client/transfer/]

    [upload_file] and [upload_dir] send local files, [download_file] and
    [download_dir] write what the server sends to a temporary file and move it
    into place. The state is the client's end of a transfer stream and the
    client's disk. [connection] says whether the session has a connection and
    whether it opens another stream. A local path is made absolute before it
    is used; the progress callback, an argument of the caller, is left out. *)

From stdpp Require Import sorting.
From S2P Require Import Prelude Text Stream TransferTypes TransferCodec Fs Paths Hoare Metrics.
From S2P Require Import Conn ShellOps Download Control Blob.

Section client.
Context {SJ : SerdeJson} {ST : SystemTexts} {MA : Machine} {WD : WalkDir} {BS : BlobStore}.
Variable connection : option bool.

Definition client {S A} (e : ClientError) : M S IroshError A := throw (EClient e).

Definition file_io {A} (operation : string) (p : path) (m : M fs io_error A) : M conn IroshError A :=
  on_disk (M_map_err (fun e => EClient (FileIo (bs operation) (os_str p) e)) m).

(** ** [control.rs] *)

Definition open_transfer_stream (unavailable_context : string) : M conn IroshError unit :=
  match connection with
  | None => client (TransportUnavailable (bs unavailable_context))
  | Some false => client StreamOpenFailed
  | Some true => mret tt
  end.

(** The path of a request, [&remote.display().to_string()] *)
Definition request_path (remote : bytes) : bytes :=
  normalize_path_separators false (utf8_lossy remote).

Definition remote_cwd : M conn IroshError bytes :=
  open_transfer_stream "remote cwd unavailable";;
  send (write_cwd_request mk_CwdRequest);;
  res ← recv_frame;
  match res with
  | FCwdResponse res => mret (cwd_path res)
  | FError failure => client (TransferRejected failure)
  | other => client (ClientTransferFailed (mk_TransferFailure UnexpectedFrame
               (bs "remote cwd failed with unexpected frame: " ++ frame_text other)))
  end.

Definition remote_exists (p : bytes) : M conn IroshError bool :=
  open_transfer_stream "remote exists unavailable";;
  send (write_exists_request (mk_ExistsRequest (request_path p)));;
  res ← recv_frame;
  match res with
  | FExistsResponse res => mret (ex_exists res)
  | FError failure => client (TransferRejected failure)
  | other => client (ClientTransferFailed (mk_TransferFailure UnexpectedFrame
               (bs "remote exists failed with unexpected frame: " ++ frame_text other)))
  end.

(** [is_remote_dir] *)
Definition is_remote_dir (p : bytes) : M conn IroshError bool :=
  open_transfer_stream "directory check unavailable";;
  send (write_exists_request (mk_ExistsRequest (request_path p)));;
  res ← recv_frame;
  match res with
  | FExistsResponse res => mret (ex_is_dir res)
  | FError failure => client (TransferRejected failure)
  | other => client (DownloadFailed (bs "unexpected frame during is_dir check: " ++ frame_text other))
  end.

(** ** [store.rs] *)

Definition temp_transfer_path (dest : path) : M fs IroshError path := fun s =>
  let unique := (clock (ticks s) / 1000)%N in
  (Ok ((bs "." ++ name_or_transfer dest ++ bs "." ++ decimal unique ++ bs ".irosh_part")
       :: default working_dir (parent dest)), s).

(** [replace_file] outside Windows *)
Definition replace_file (temp_path final_path : path) : M fs io_error unit :=
  at_path temp_path (fun p => at_path final_path (fun q => Fs.rename p q)).

(** [tokio::fs::copy]: content and permissions *)
Definition copy_file (from to : path) : M fs io_error unit :=
  content ← at_path from read_file;
  '(_, mode, _) ← at_path from metadata_len;
  at_path to file_create;;
  at_path to (fun p => file_write_all p content);;
  at_path to (fun p => set_permissions p mode).

Definition persist_temp_file (temp_path final_path : path) : M conn IroshError unit :=
  match parent final_path with
  | Some dir => file_io "create destination directory" dir (create_dir_all_at dir)
  | None => mret tt
  end;;
  r ← attempt (F := IroshError) (on_disk (replace_file temp_path final_path));
  match r with
  | Ok _ => mret tt
  | Err _ =>
      file_io "persist temp file" final_path (copy_file temp_path final_path);;
      ignore (on_disk (at_path temp_path remove_file))
  end.

(** ** Uploads *)

(** One turn of a loop that reads a local file and sends its content. *)
Definition chunk_turn (operation : string) (local : path) (p : path) (a : nat * N) :
    M conn IroshError (nat * N + N) :=
  let '(offset, sent) := a in
  chunk ← file_io operation local (file_read p offset (N.to_nat MAX_CHUNK_BYTES));
  if decide (chunk = []) then mret (inr sent) else
  let sent := add_u64 sent (blen chunk) in
  send (write_put_chunk chunk);;
  mret (inl ((offset + length chunk)%nat, sent)).

(** What is left of the file behind the offset. *)
Definition left_of {A} (p : path) (a : nat * A) (c : conn) : nat :=
  match nodes (local_fs c) !! p with
  | Some (File b _) => length b - a.1
  | _ => 0
  end.

Definition chunk_loop (operation : string) (local p : path) : nat * N -> M conn IroshError N :=
  loop (left_of p) EDiverged (chunk_turn operation local p).

(** The answer to a request to send. *)
Definition expect_ready (size : N) : M conn IroshError unit :=
  frame ← recv_frame;
  match frame with
  | FPutReady ready =>
      ensure (ready_size ready =? size)%N
        (EClient (UploadFailed (bs "remote acknowledged unexpected size " ++
           decimal (ready_size ready) ++ bs ", expected " ++ decimal size)))
  | FError failure => client (TransferRejected failure)
  | other => client (UploadFailed (bs "unexpected preflight frame: " ++ frame_text other))
  end.

(** The answer to [PutComplete]. *)
Definition expect_complete (sent : N) : M conn IroshError unit :=
  frame ← recv_frame;
  match frame with
  | FPutComplete complete =>
      ensure (complete_size complete =? sent)%N
        (EClient (UploadFailed (bs "remote reported " ++ decimal (complete_size complete) ++
           bs " bytes saved, expected " ++ decimal sent)))
  | FError failure => client (TransferRejected failure)
  | other => client (UploadFailed (bs "unexpected completion frame: " ++ frame_text other))
  end.

Definition upload_file (local remote : bytes) : M conn IroshError unit :=
  ensure (negb (bool_decide (remote = []))) (EClient (TransferTargetInvalid (bs "remote path is empty")));;
  open_transfer_stream "upload unavailable";;
  let local := os_path local in
  p ← file_io "open local source file" local (at_path local file_open);
  '(_, permissions, size) ← file_io "read local source metadata" local (metadata_len p);
  let mode := Some (N.land permissions 511) in
  send (write_put_request (mk_PutRequest (request_path remote) size mode false));;
  expect_ready size;;
  sent ← chunk_loop "read local source file" local p (0, 0%N);
  send (write_put_complete (mk_TransferComplete sent));;
  expect_complete sent.

(** The walk of [upload_dir_with_progress]. *)
Definition upload_walk_turn (local_root : path) (entry : result bytes DirEntry) :
    M fs IroshError (option WalkEntry) :=
  match entry with
  | Err e => client (FileIo (bs "walk local directory") (os_str local_root) (walk_io_error e))
  | Ok entry =>
      ensure (negb (entry_symlink entry))
        (EClient (UploadFailed (bs "recursive upload does not support symbolic links: " ++
                                display (entry_path entry))));;
      match strip_prefix (entry_path entry) local_root with
      | None => client (TransferTargetInvalid
                  (bs "failed to resolve relative path during directory walk"))
      | Some relative =>
          if decide (relative = []) then mret None else
          '(len, mode) ← M_map_err
            (fun e => EClient (FileIo (bs "read entry metadata") (os_str (entry_path entry))
                                 (walk_io_error e)))
            (walk_metadata entry);
          mret (Some (mk_WalkEntry relative (entry_path entry) (entry_dir entry)
                        (if entry_dir entry then 0 else len)%N (Some (N.land mode 511))))
      end
  end.

Definition upload_entry (total_sent : N) (we : WalkEntry) : M conn IroshError N :=
  send (write_new_entry (mk_EntryHeader
    (normalize_path_separators false (utf8_lossy (relative_str (we_relative we))))
    (we_size we) (we_mode we) (we_is_dir we)));;
  if we_is_dir we then mret total_sent else
  p ← file_io "open file for streaming" (we_full_path we) (at_path (we_full_path we) file_open);
  total_sent ← chunk_loop "read file chunk" (we_full_path we) p (0, total_sent);
  send (write_entry_complete mk_EntryComplete);;
  mret total_sent.

Fixpoint upload_entries (total_sent : N) (entries : list WalkEntry) : M conn IroshError N :=
  match entries with
  | [] => mret total_sent
  | we :: entries =>
      total_sent ← upload_entry total_sent we;
      upload_entries total_sent entries
  end.

Definition upload_dir (local remote : bytes) : M conn IroshError unit :=
  let local_root := os_path local in
  open_transfer_stream "recursive upload unavailable";;
  send (write_put_request (mk_PutRequest (request_path remote) 0 None true));;
  frame ← recv_frame;
  match frame with
  | FPutReady _ => mret tt
  | FError failure => client (TransferRejected failure)
  | other => client (UploadFailed (bs "unexpected preflight frame: " ++ frame_text other))
  end;;
  entries ← on_disk (store_op (walk_entries local_root));
  walked ← on_disk (collect (upload_walk_turn local_root) entries);
  total_sent ← upload_entries 0%N walked;
  send (write_put_complete (mk_TransferComplete total_sent));;
  expect_complete total_sent.

(** [local.is_dir()] *)
Definition is_local_dir (p : path) : M conn IroshError bool :=
  r ← attempt (F := IroshError) (on_disk (at_path p metadata));
  mret (match r with Ok (d, _) => d | Err _ => false end).

Definition upload (local remote : bytes) (recursive : bool) : M conn IroshError unit :=
  directory ← is_local_dir (os_path local);
  if directory : bool then
    ensure recursive (EClient (TransferTargetInvalid
      (bs "source is a directory, but recursive flag not set")));;
    upload_dir local remote
  else upload_file local remote.

(** ** Downloads *)

(** The handle of a temporary file. *)
Abbreviation handle := (path * option io_error)%type.

Definition write_dest (temp_path : path) (dest : handle) (chunk : bytes) : M conn IroshError handle :=
  '(r, pending) ← on_disk (tokio_write dest.1 dest.2 chunk);
  match r with
  | Ok _ => mret (dest.1, pending)
  | Err e => client (FileIo (bs "write to temp download file") (os_str temp_path) e)
  end.

Definition flush_dest (temp_path : path) (dest : handle) : M conn IroshError unit :=
  match tokio_flush dest.2 with
  | Ok _ => mret tt
  | Err e => client (FileIo (bs "flush temp download file") (os_str temp_path) e)
  end.

Definition create_temp (temp_path : path) : M conn IroshError handle :=
  p ← file_io "create temp download file" temp_path
        (at_path temp_path (fun p => file_create p;; mret p));
  mret (p, None).

(** [if let Some(parent) = local.parent() { let _ = create_dir_all(parent).await; }] *)
Definition make_parent (local : path) : M conn IroshError unit :=
  match parent local with
  | Some dir => ignore (on_disk (create_dir_all_at dir))
  | None => mret tt
  end.

Definition download_turn (remote : bytes) (temp_path : path) (expected_size : N) (a : handle * N)
    (frame : TransferFrameBorrowed) : M conn IroshError (handle * N + handle) :=
  let '(dest, received) := a in
  match frame with
  | BGetChunk chunk =>
      let received := add_u64 received (blen chunk) in
      dest ← write_dest temp_path dest chunk;
      mret (inl (dest, received))
  | BOwned (FGetComplete complete) =>
      if negb (complete_size complete =? expected_size)%N || negb (received =? expected_size)%N
      then client (DownloadFailed (bs "expected " ++ decimal expected_size ++ bs " bytes, received " ++
             decimal received ++ bs ", completion reported " ++ decimal (complete_size complete)))
      else mret (inr dest)
  | BOwned (FError failure) => client (TransferRejected failure)
  | BPutChunk _ => client (DownloadFailed (bs "unexpected upload chunk during download"))
  | BOwned other => client (DownloadFailed (bs "unexpected data stream frame for " ++
                      utf8_lossy remote ++ bs ": " ++ frame_text other))
  end.

(** The [async] block that fills the temporary file. *)
Definition fill_temp (remote : bytes) (temp_path : path) (expected_size : N) (dest : handle) :
    M conn IroshError unit :=
  fresh_buffer;;
  dest ← frame_loop (fun a => frame ← recv; download_turn remote temp_path expected_size a frame)
           (dest, 0%N);
  flush_dest temp_path dest.

(** [warn!] on failure *)
Definition apply_mode (local : path) (mode : option N) : M conn IroshError unit :=
  match mode with
  | Some mode => ignore (on_disk (at_path local (fun p => set_permissions p (N.land mode 511))))
  | None => mret tt
  end.

Definition download_file (remote local : bytes) : M conn IroshError unit :=
  ensure (negb (bool_decide (remote = []))) (EClient (TransferTargetInvalid (bs "remote path is empty")));;
  ensure (negb (bool_decide (local = []))) (EClient (TransferTargetInvalid (bs "local path is empty")));;
  let local := os_path local in
  open_transfer_stream "download unavailable";;
  send (write_get_request (mk_GetRequest (request_path remote) false));;
  frame ← recv_frame;
  '(expected_size, expected_mode) ←
    match frame with
    | FGetReady ready => mret (ready_size ready, ready_mode ready)
    | FError failure => client (TransferRejected failure)
    | other => client (DownloadFailed (bs "unexpected preflight frame for " ++ utf8_lossy remote ++
                                       bs ": " ++ frame_text other))
    end;
  temp_path ← on_disk (temp_transfer_path local);
  make_parent local;;
  dest ← create_temp temp_path;
  on_error (fill_temp remote temp_path expected_size dest)
    (on_disk (at_path temp_path remove_file));;
  persist_temp_file temp_path local;;
  apply_mode local expected_mode.

(** *** Trees *)

Definition entry_turn (temp_path : path) (a : handle * N) (frame : TransferFrameBorrowed) :
    M conn IroshError (handle * N + handle * N) :=
  let '(dest, total_received) := a in
  match frame with
  | BGetChunk chunk =>
      dest ← write_dest temp_path dest chunk;
      mret (inl (dest, add_u64 total_received (blen chunk)))
  | BOwned (FEntryComplete _) => mret (inr (dest, total_received))
  | BPutChunk _ => client (DownloadFailed (bs "unexpected upload chunk during recursive download"))
  | BOwned other => client (DownloadFailed
      (bs "unexpected frame during recursive download stream: " ++ frame_text other))
  end.

Definition fill_entry (temp_path : path) (dest : handle) (total_received : N) :
    M conn IroshError N :=
  '(dest, total_received) ← frame_loop (fun a => frame ← recv; entry_turn temp_path a frame)
                              (dest, total_received);
  flush_dest temp_path dest;;
  mret total_received.

Definition download_entry (local_root : path) (header : EntryHeader) (total_received : N) :
    M conn IroshError N :=
  match sanitize_remote_path (eh_path header) with
  | Err e => throw (ETransport e)
  | Ok sanitized_rel =>
      let local_path := sanitized_rel ++ local_root in
      if eh_is_dir header then
        file_io "create local directory" local_path (create_dir_all_at local_path);;
        mret total_received
      else
        make_parent local_path;;
        temp_path ← on_disk (temp_transfer_path local_path);
        dest ← create_temp temp_path;
        total_received ← on_error (fill_entry temp_path dest total_received)
                           (on_disk (at_path temp_path remove_file));
        persist_temp_file temp_path local_path;;
        apply_mode local_path (eh_mode header);;
        mret total_received
  end.

Definition tree_turn (local_root : path) (total_received : N) (frame : TransferFrameBorrowed) :
    M conn IroshError (N + unit) :=
  match frame with
  | BOwned (FNewEntry header) =>
      total_received ← download_entry local_root header total_received;
      mret (inl total_received)
  | BOwned (FGetComplete _) => mret (inr tt)
  | BOwned (FError failure) => client (TransferRejected failure)
  | BPutChunk _ => client (DownloadFailed (bs "unexpected upload chunk during recursive download"))
  | BGetChunk _ => client (DownloadFailed
      (bs "unexpected chunk outside entry stream during recursive download"))
  | BOwned other => client (DownloadFailed
      (bs "unexpected frame during recursive download: " ++ frame_text other))
  end.

Definition download_dir (remote local : bytes) : M conn IroshError unit :=
  let local_root := os_path local in
  open_transfer_stream "recursive download unavailable";;
  send (write_get_request (mk_GetRequest (request_path remote) true));;
  frame ← recv_frame;
  match frame with
  | FGetReady _ => mret tt
  | FError failure => client (TransferRejected failure)
  | other => client (DownloadFailed (bs "unexpected preflight frame: " ++ frame_text other))
  end;;
  fresh_buffer;;
  frame_loop (fun total => frame ← recv; tree_turn local_root total frame) 0%N.

Definition download (remote local : bytes) (recursive : bool) : M conn IroshError unit :=
  directory ← is_remote_dir remote;
  if directory : bool then
    ensure recursive (EClient (TransferTargetInvalid
      (bs "remote is a directory, but recursive flag not set")));;
    download_dir remote local
  else download_file remote local.
End client.
