(* ===== verification/ClientBlob.v ===== *)
(** * Content-addressed transfers on the client: [src/client/transfer/files/]

    [upload_blob] and [upload_blob_dir] add local files to the client's store
    and send the blobs; [download_blob] asks for a hash, fetches it over the
    blobs connection and exports it. *)

From stdpp Require Import sorting.
From S2P Require Import Prelude Text Stream TransferTypes TransferCodec Fs Paths Hoare Metrics.
From S2P Require Import Conn ShellOps Download Control Blob ClientTransfer.

Section client_blob.
Context {SJ : SerdeJson} {ST : SystemTexts} {MA : Machine} {WD : WalkDir} {BS : BlobStore}.
Variable connection : option bool.
Variable blobs_connection : bool.

Definition upload_failed {A} (e : bytes) : M fs IroshError A := client (UploadFailed e).

(** ** Sending *)

Definition slice_turn (data : bytes) (offset : nat) : M conn IroshError (nat + unit) :=
  if decide (offset < length data) then
    let stop := min (offset + N.to_nat MAX_CHUNK_BYTES) (length data) in
    send (write_put_chunk (take (stop - offset) (drop offset data)));;
    mret (inl stop)
  else mret (inr tt).

(** The chunks of [send_raw_blob]. *)
Definition send_slices (data : bytes) : M conn IroshError unit :=
  loop (fun offset (_ : conn) => length data - offset) EDiverged (slice_turn data) 0.

Definition send_raw_blob (data : bytes) : M conn IroshError N :=
  send (write_put_chunk (be_bytes 8 (blen data)));;
  send_slices data;;
  mret (8 + blen data)%N.

Definition send_blob_from_store (h : hash) : M conn IroshError N :=
  data ← on_disk (M_map_err
    (fun e => EClient (UploadFailed (bs "failed to read blob from store: " ++ e))) (read_blob h));
  send_raw_blob data.

Fixpoint send_children (sent : N) (collection : list (bytes * hash)) : M conn IroshError N :=
  match collection with
  | [] => mret sent
  | (_, child_hash) :: collection =>
      n ← send_blob_from_store child_hash;
      send_children (add_u64 sent n) collection
  end.

Fixpoint send_blobs (sent : N) (blobs : list bytes) : M conn IroshError N :=
  match blobs with
  | [] => mret sent
  | data :: blobs =>
      n ← send_raw_blob data;
      send_blobs (add_u64 sent n) blobs
  end.

(** The answer to [PutComplete]. *)
Definition expect_confirmed (sent : N) : M conn IroshError unit :=
  frame ← recv_frame;
  match frame with
  | FPutComplete complete =>
      ensure (complete_size complete =? sent)%N
        (EClient (UploadFailed (bs "server confirmed " ++ decimal (complete_size complete) ++
           bs " bytes but we sent " ++ decimal sent)))
  | FError failure => client (TransferRejected failure)
  | other => client (UploadFailed (bs "unexpected completion frame: " ++ frame_text other))
  end.

(** ** A directory *)

(** [collect_files_recursive]: symbolic links count as files. *)
Definition collect_turn (dir : path) (entry : result bytes DirEntry) : M fs io_error (option bytes) :=
  match entry with
  | Err e => throw (walk_io_error e)
  | Ok entry =>
      if entry_dir entry then mret None else
      match strip_prefix (entry_path entry) dir with
      | None => throw OtherError
      | Some relative =>
          mret (Some (normalize_path_separators false (utf8_lossy (relative_str relative))))
      end
  end.

Definition collect_files_recursive (dir : path) : M fs io_error (list bytes) := fun s =>
  let '(entries, s) := walk_entries dir s in collect (collect_turn dir) entries s.

Fixpoint client_add_result (context : bytes) (h : option hash) (items : list (AddProgressItem hash)) :
    result IroshError (option hash) :=
  match items with
  | [] => Ok h
  | AddDone h' :: items => client_add_result context (Some h') items
  | AddError e :: _ => Err (EClient (UploadFailed (context ++ e)))
  | _ :: items => client_add_result context h items
  end.

Definition client_add_file (local : path) (relative : bytes) : M fs IroshError (bytes * hash) :=
  let file_path := path_join local relative in
  data ← M_map_err (fun e => EClient (FileIo (bs "read file") (os_str file_path) e))
           (at_path file_path read_file);
  items ← store_op (add_bytes data);
  h ← lift (client_add_result (bs "failed to add file to store: ") None items);
  match h with
  | Some file_hash => mret (relative, file_hash)
  | None => upload_failed (bs "add_bytes finished without hash")
  end.

Fixpoint client_add_files (local : path) (entries : list bytes) : M fs IroshError (list (bytes * hash)) :=
  match entries with
  | [] => mret []
  | relative :: entries =>
      x ← client_add_file local relative;
      xs ← client_add_files local entries;
      mret (x :: xs)
  end.

Fixpoint client_add_collection (root : option hash) (total_size : N) (blobs : list bytes) :
    M fs IroshError (option hash * N) :=
  match blobs with
  | [] => mret (root, total_size)
  | data :: blobs =>
      items ← store_op (add_bytes data);
      h ← lift (client_add_result (bs "failed to add collection blob: ") root items);
      client_add_collection h (add_u64 total_size (blen data)) blobs
  end.

Definition upload_blob_dir (local : path) (remote : bytes) : M conn IroshError hash :=
  entries ← file_io "read directory recursively" local (collect_files_recursive local);
  collection ← on_disk (client_add_files local (merge_sort str_le entries));
  '(root, total_size) ← on_disk (client_add_collection None 0 (collection_blobs collection));
  root_hash ← match root with
              | Some h => mret h
              | None => client (UploadFailed (bs "collection to_blobs produced no blobs"))
              end;
  open_transfer_stream connection "blob dir upload";;
  send (write_blob_put_request (mk_BlobPutRequest (request_path remote) (hash_to_string root_hash)
          (bs "hashseq") total_size));;
  frame ← recv_frame;
  match frame with
  | FPutReady _ => mret tt
  | FError failure => client (TransferRejected failure)
  | other => client (UploadFailed (bs "unexpected frame: " ++ frame_text other))
  end;;
  sent ← send_children 0 collection;
  sent ← send_blobs sent (collection_blobs collection);
  send (write_put_complete (mk_TransferComplete sent));;
  expect_confirmed sent;;
  mret root_hash.

(** ** One file *)

(** The additions of [add_path_with_opts], with the size of each result. *)
Fixpoint path_added (h : option hash) (total_size : N) (items : list (AddProgressItem hash)) :
    M fs IroshError (option hash * N) :=
  match items with
  | [] => mret (h, total_size)
  | AddDone h' :: items =>
      status ← M_map_err (fun e => EClient (UploadFailed (bs "failed to get blob status: " ++ e)))
                 (blob_status h');
      path_added (Some h') (match status with StatusComplete size => size | _ => 0%N end) items
  | AddError e :: _ => upload_failed (bs "failed to add file to blobs store: " ++ e)
  | _ :: items => path_added h total_size items
  end.

Definition blob_turn (h : hash) (a : nat * N) : M conn IroshError (nat * N + N) :=
  let '(offset, sent) := a in
  chunk ← on_disk (M_map_err
    (fun e => EClient (UploadFailed (bs "failed to read blob from store: " ++ e)))
    (read_blob_at h offset (N.to_nat MAX_CHUNK_BYTES)));
  if decide (chunk = []) then mret (inr sent) else
  let sent := add_u64 sent (blen chunk) in
  send (write_put_chunk chunk);;
  mret (inl ((offset + length chunk)%nat, sent)).

Definition blob_loop (h : hash) : nat * N -> M conn IroshError N :=
  loop (fun a c => blob_left h a.1 (local_fs c)) EDiverged (blob_turn h).

Definition expect_blob_ready (total_size : N) : M conn IroshError unit :=
  frame ← recv_frame;
  match frame with
  | FPutReady ready =>
      ensure (ready_size ready =? total_size)%N
        (EClient (UploadFailed (bs "server acknowledged size " ++ decimal (ready_size ready) ++
           bs " but we have " ++ decimal total_size)))
  | FError failure => client (TransferRejected failure)
  | other => client (UploadFailed (bs "unexpected frame: " ++ frame_text other))
  end.

Definition upload_blob (local remote : bytes) : M conn IroshError hash :=
  let local := os_path local in
  directory ← is_local_dir local;
  if directory : bool then upload_blob_dir local remote else
  items ← on_disk (store_op (add_path local));
  '(h, total_size) ← on_disk (path_added None 0 items);
  h ← match h with
      | Some h => mret h
      | None => client (UploadFailed (bs "add_path finished without hash"))
      end;
  open_transfer_stream connection "blob upload unavailable";;
  send (write_blob_put_request (mk_BlobPutRequest (request_path remote) (hash_to_string h)
          (bs "raw") total_size));;
  expect_blob_ready total_size;;
  sent ← blob_loop h (0, 0%N);
  send (write_put_complete (mk_TransferComplete sent));;
  expect_confirmed sent;;
  mret h.

(** ** [download_blob] *)

Fixpoint fetch_result (items : list GetProgressItem) : result IroshError unit :=
  match items with
  | [] => Ok tt
  | GetError e :: _ => Err (EClient (DownloadFailed (bs "blob download failed: " ++ e)))
  | _ :: items => fetch_result items
  end.

Definition export_item (local : path) (entry : bytes * hash) : M fs IroshError unit :=
  let '(name, item_hash) := entry in
  let item_path := path_join local name in
  match parent item_path with
  | Some dir => make_dirs dir
  | None => mret tt
  end;;
  M_map_err (fun _ => EClient (FileIo (bs "export collection item") (os_str item_path) OtherError))
    (export_blob item_hash item_path).

Definition download_blob (remote local : bytes) : M conn IroshError hash :=
  let local := os_path local in
  open_transfer_stream connection "blob download unavailable";;
  send (write_blob_get_request (mk_BlobGetRequest (request_path remote)));;
  frame ← recv_frame;
  '(hash_str, format_str) ←
    match frame with
    | FBlobGetReady ready => mret (bready_hash ready, bready_format ready)
    | FError failure => client (TransferRejected failure)
    | other => client (DownloadFailed (bs "unexpected preflight frame: " ++ frame_text other))
    end;
  h ← lift (map_err (fun e => EClient (DownloadFailed (bs "invalid hash from server: " ++ e)))
              (hash_from_str hash_str));
  ensure blobs_connection (EClient (DownloadFailed (bs "no blobs connection available")));;
  items ← on_disk (store_op (fetch_blob h));
  lift (fetch_result items);;
  if decide (format_str = bs "hashseq") then
    on_disk (make_dirs local);;
    collection ← on_disk (M_map_err
      (fun e => EClient (DownloadFailed (bs "failed to parse collection " ++ hash_to_string h ++ bs ": " ++ e)))
      (load_collection h));
    on_disk (for_each (export_item local) collection);;
    mret h
  else
    on_disk (M_map_err (fun _ => EClient (FileIo (bs "export blob to local file") (os_str local) OtherError))
      (export_blob h local));;
    mret h.
End client_blob.
