(* ===== verification/Confine.v ===== *)
(** * Trees stay in their directory

    A peer names the entries of a recursive transfer. Here is what a handler
    can change on disk when it runs below a directory [root]: everything
    strictly below it, and above it only directories that are made. *)

From S2P Require Import Prelude Text Stream TransferTypes TransferCodec Fs Paths Hoare Metrics.
From S2P Require Import Conn ShellOps ShellFacts.

(** ** Confined computations *)

(** Started where [I] holds, [m] changes the disk only as [R] allows, and a
    value it returns satisfies [V]. [view] is the file system in the state. *)
Definition confined {S E A : Type} (view : S -> fs) (R : disk -> disk -> Prop) (I : fs -> Prop)
    (V : A -> Prop) (m : M S E A) : Prop := forall s,
  I (view s) ->
  runs R (view s) (view (m s).2) /\ match (m s).1 with Ok a => V a | Err _ => True end.

Section confined.
Context {S : Type} (view : S -> fs) (R : disk -> disk -> Prop) (I : fs -> Prop).
Context `{!PreOrder R}.
Hypothesis Hstable : forall s s', I s -> runs R s s' -> I s'.
Abbreviation conf := (confined view R I).

Lemma runs_R_trans s1 s2 s3 : runs R s1 s2 -> runs R s2 s3 -> runs R s1 s3.
Proof. apply runs_trans. intros d1 d2 d3. apply transitivity. Qed.

Lemma conf_ret {E A : Type} (V : A -> Prop) (a : A) : V a -> conf V (mret (M := M S E) a).
Proof. intros Hv s _. split; [apply runs_refl|done]. Qed.

Lemma conf_throw {E A : Type} (V : A -> Prop) (e : E) : conf V (throw e).
Proof. intros s _. split; [apply runs_refl|done]. Qed.

Lemma conf_lift {E A : Type} (V : A -> Prop) (r : result E A) :
  (forall a, r = Ok a -> V a) -> conf V (lift r).
Proof. intros Hv s _. split; [apply runs_refl|]. unfold lift. destruct r; simpl; auto. Qed.

Lemma conf_ensure {E} (c : bool) (e : E) : conf (fun _ => True) (ensure c e).
Proof. destruct c; [by apply conf_ret|apply conf_throw]. Qed.

Lemma conf_weaken {E A : Type} (V W : A -> Prop) (m : M S E A) :
  conf V m -> (forall a, V a -> W a) -> conf W m.
Proof. intros Hm Hw s Hs. destruct (Hm s Hs) as [Hr Hv]. split; [done|]. destruct (m s).1; auto. Qed.

Lemma conf_bind {E A B : Type} (V : A -> Prop) (W : B -> Prop) (m : M S E A) (k : A -> M S E B) :
  conf V m -> (forall a, V a -> conf W (k a)) -> conf W (m ≫= k).
Proof.
  intros Hm Hk s Hs. destruct (Hm s Hs) as [Hr Hv]. unfold mbind, M_bind.
  destruct (m s) as [[a|e] s1]; simpl in *; [|done].
  destruct (Hk a Hv s1) as [Hr2 Hv2]; [by eapply Hstable|]. split; [by eapply runs_R_trans|done].
Qed.

Lemma conf_seq {E A B : Type} (W : B -> Prop) (m : M S E A) (k : M S E B) :
  conf (fun _ => True) m -> conf W k -> conf W (m;; k).
Proof. intros Hm Hk. eapply conf_bind; [exact Hm|]. by intros. Qed.

Lemma conf_attempt {F E A : Type} (V : result F A -> Prop) (m : M S F A) :
  conf (fun a => V (Ok a)) m -> (forall e, V (Err e)) -> conf V (attempt (E := F) (F := E) m).
Proof.
  intros Hm He s Hs. destruct (Hm s Hs) as [Hr Hv]. unfold attempt.
  destruct (m s) as [[a|e] s1]; simpl in *; [done|]. split; [done|apply He].
Qed.

Lemma conf_ignore {F E A : Type} (V : A -> Prop) (m : M S F A) :
  conf V m -> conf (fun _ => True) (ignore (E := E) m).
Proof. intros Hm s Hs. destruct (Hm s Hs) as [Hr _]. by split. Qed.

Lemma conf_map_err {F E A : Type} (V : A -> Prop) (f : F -> E) (m : M S F A) :
  conf V m -> conf V (M_map_err f m).
Proof.
  intros Hm s Hs. destruct (Hm s Hs) as [Hr Hv]. unfold M_map_err. by destruct (m s) as [[]].
Qed.

Lemma conf_on_error {E F A : Type} (V : A -> Prop) (m : M S E A) (undo : M S F unit) :
  conf V m -> conf (fun _ => True) undo -> conf V (on_error m undo).
Proof.
  intros Hm Hu s Hs. destruct (Hm s Hs) as [Hr Hv]. unfold on_error.
  destruct (m s) as [[a|e] s1]; simpl in *; [done|].
  destruct (Hu s1) as [Hr2 _]; [by eapply Hstable|]. split; [by eapply runs_R_trans|done].
Qed.

Lemma conf_loop {E A B : Type} measure (d : E) (body : A -> M S E (A + B)) (V : A -> Prop) (W : B -> Prop) a :
  V a ->
  (forall a, V a -> conf (fun x => match x with inl a => V a | inr b => W b end) (body a)) ->
  conf W (loop measure d body a).
Proof.
  intros Ha Hb.
  assert (forall n a, V a -> conf (fun o => match o with Some b => W b | None => True end)
            (iterate n body a)) as H.
  { intros n. induction n as [|n IH]; intros a' Ha'; [by apply conf_ret|]. cbn [iterate].
    eapply conf_bind; [by apply Hb|]. intros [a''|b] Hx; [by apply IH|by apply conf_ret]. }
  intros s Hs. unfold loop. destruct (H (Datatypes.S (measure a s)) a Ha s Hs) as [Hr Hv].
  by destruct (iterate _ body a s) as [[[]|] s1].
Qed.
End confined.

Lemma conf_on_disk {E A : Type} R I (V : A -> Prop) (m : M fs E A) :
  confined id R I V m -> confined local_fs R I V (on_disk m).
Proof.
  intros Hm c Hc. destruct (Hm (local_fs c) Hc) as [Hr Hv]. unfold on_disk, id in *.
  by destruct (m (local_fs c)) as [[]].
Qed.

Lemma conf_diskless {E A : Type} R I (m : M conn E A) :
  diskless m -> confined local_fs R I (fun _ => True) m.
Proof.
  intros Hm c _. rewrite Hm. split; [apply runs_refl|]. by destruct (m c).1.
Qed.

(** ** Below a directory *)

Definition strictly_below (root q : path) : Prop := exists x, x <> [] /\ q = x ++ root.

Definition contained (root : path) (d d' : disk) : Prop := forall q,
  d' !! q = d !! q \/ strictly_below root q \/
  (q `suffix_of` root /\ (d !! q = None \/ is_dir_node (d !! q) = true) /\
   is_dir_node (d' !! q) = true).

#[export] Instance contained_preorder root : PreOrder (contained root).
Proof.
  split; [by intros d q; left|]. intros d1 d2 d3 H1 H2 q.
  destruct (H1 q) as [E1|[?|(S1 & N1 & D1)]]; [|by right; left|].
  - destruct (H2 q) as [E2|[?|(S2 & N2 & D2)]]; [left; congruence|by right; left|].
    right. right. rewrite <-E1. auto.
  - destruct (H2 q) as [E2|[?|(S2 & N2 & D2)]]; [|by right; left|right; right; auto].
    right. right. rewrite E2. auto.
Qed.

Lemma suffix_cases (q x root : path) :
  q `suffix_of` x ++ root -> q `suffix_of` root \/ strictly_below root q.
Proof.
  intros [k Hk]. apply app_eq_inv in Hk as [(l & Hx & Hq)|(l & Hk & Hr)].
  - destruct l as [|c l]; [left; by exists []; rewrite Hq|]. right. by exists (c :: l).
  - left. by exists l.
Qed.

Lemma adds_dirs_contained x root d d' : adds_dirs (x ++ root) d d' -> contained root d d'.
Proof.
  intros H q. destruct (H q) as [?|(Hs & Hn & Hd)]; [by left|].
  destruct (suffix_cases _ _ _ Hs) as [?|?]; [|by right; left].
  right. right. split_and!; [done|by left|by apply Is_true_true].
Qed.

(** One path below. *)
Lemma only_contained root p d d' :
  strictly_below root p -> only (fun q => q = p) d d' -> contained root d d'.
Proof.
  intros Hp Ho q. destruct (decide (q = p)) as [->|Hne]; [by right; left|]. left. by apply Ho.
Qed.

(** *** System calls *)

Section calls.
Variables (root : path) (I : fs -> Prop).
Abbreviation R := (contained root).
Abbreviation keeps := (confined id R I (fun _ => True)).

Lemma conf_runs {E A : Type} (m : M fs E A) :
  (forall s r s', m s = (r, s') -> runs R s s') -> keeps m.
Proof.
  intros H s _. unfold id. destruct (m s) as [r s'] eqn:Em. split; [by eapply H|]. by destruct r.
Qed.

Lemma conf_query {A : Type} (f : disk -> result io_error A) : keeps (query f).
Proof.
  apply conf_runs. intros s r s' H%query_runs. eapply runs_mono; [|exact H]. by intros d ->.
Qed.

(** A call on a proper path is as confined as the call itself. *)
Lemma conf_at_path {A : Type} (V : A -> Prop) p (op : path -> M fs io_error A) :
  Forall proper p -> confined id R I V (op p) -> confined id R I V (at_path p op).
Proof.
  intros Hp Hop s Hs. unfold id. destruct (at_path p op s) as [r s'] eqn:E.
  apply at_path_cases in E as [E|[[e ->] ->]]; [| |done].
  - specialize (Hop s Hs). unfold id in Hop. by rewrite E in Hop.
  - split; [|done]. by apply tick_runs.
Qed.

Lemma conf_syscall {A : Type} (p : path) (op : fs -> result io_error A * disk) :
  strictly_below root p ->
  (forall s, only (fun q => q = p) (nodes s) (op s).2) -> keeps (syscall op).
Proof.
  intros Hp Hop. apply conf_runs. intros s r s'. unfold syscall.
  destruct (oracle s (ticks s)) as [[k e]|]; [intros [= <- <-]; by apply tick_runs|].
  specialize (Hop s). destruct (op s) as [r1 d]. intros [= <- <-].
  by apply tick_runs, (only_contained root p).
Qed.

Lemma conf_file_create p : strictly_below root p -> keeps (file_create p).
Proof.
  intros Hp. apply (conf_syscall p); [done|]. intros s.
  repeat case_match; simpl; first [apply only_refl | by apply only_insert].
Qed.

Lemma conf_remove_file p : strictly_below root p -> keeps (remove_file p).
Proof.
  intros Hp. apply (conf_syscall p); [done|]. intros s.
  repeat case_match; simpl; first [apply only_refl | by apply only_delete].
Qed.

Lemma conf_set_permissions p mode : strictly_below root p -> keeps (set_permissions p mode).
Proof.
  intros Hp. apply (conf_syscall p); [done|]. intros s.
  repeat case_match; simpl; first [apply only_refl | by apply only_insert].
Qed.

(** The root stays a directory when its mode changes. *)
Lemma conf_chmod_root mode :
  (forall s, I s -> is_dir_node (nodes s !! root) = true) -> keeps (set_permissions root mode).
Proof.
  intros Hd s Hs. specialize (Hd s Hs). unfold id, set_permissions, syscall.
  destruct (oracle s (ticks s)) as [[k e]|]; [split; [by apply tick_runs|done]|].
  destruct (nodes s !! root) as [[m|]|] eqn:E; try done. split; [|done]. apply tick_runs. intros q.
  destruct (decide (q = root)) as [->|Hne]; [|left; by apply lookup_insert_ne].
  right. right. rewrite lookup_insert_eq, E. split_and!; [done|by right|done].
Qed.

Lemma conf_write p b : strictly_below root p -> keeps (file_write_all p b).
Proof.
  intros Hp. apply conf_runs. intros s r s'. unfold file_write_all, append.
  assert (forall c m, runs R s (tick s (<[p := File c m]> (nodes s)))) as Hi.
  { intros c m. apply tick_runs, (only_contained root p); [done|]. by apply only_insert. }
  assert (runs R s (tick s (nodes s))) as Hn by by apply tick_runs.
  repeat case_match; intros; simplify_eq; done.
Qed.

Lemma conf_rename p q : strictly_below root p -> strictly_below root q -> keeps (Fs.rename p q).
Proof.
  intros Hp Hq. apply conf_runs. intros s r s'. unfold Fs.rename, syscall.
  assert (forall c m, runs R s (tick s (<[q := File c m]> (delete p (nodes s))))) as Hi.
  { intros c m. apply tick_runs.
    transitivity (delete p (nodes s)).
    - apply (only_contained root p); [done|]. by apply only_delete.
    - apply (only_contained root q); [done|]. by apply only_insert. }
  assert (runs R s (tick s (nodes s))) as Hn by by apply tick_runs.
  repeat case_match; intros; simplify_eq; done.
Qed.

Lemma conf_create_dir_all x : Forall proper (x ++ root) -> keeps (create_dir_all_at (x ++ root)).
Proof.
  intros Hp. apply conf_runs. intros s r s' H%create_dir_all_at_runs; [|done].
  eapply runs_mono; [|exact H]. intros d'. apply adds_dirs_contained.
Qed.
End calls.

(** ** Names with broken text *)

Lemma lossy_proper c : proper c -> proper (utf8_lossy c).
Proof.
  intros (H1 & H2 & H3 & H4). split_and!.
  - intros E. by apply utf8_lossy_nil in E.
  - intros E. apply utf8_lossy_ascii_cons in E as (r & -> & E); [|done].
    apply utf8_lossy_nil in E as ->. done.
  - intros E. apply utf8_lossy_ascii_cons in E as (r & -> & E); [|done].
    apply utf8_lossy_ascii_cons in E as (r' & -> & E); [|done].
    apply utf8_lossy_nil in E as ->. done.
  - intros [?|H]%utf8_lossy_elem; [done|]. revert H. vm_compute. set_solver.
Qed.

Lemma words_lossy ws :
  utf8_lossy (ws ≫= fun c => "/"%char :: c) = (utf8_lossy <$> ws) ≫= fun c => "/"%char :: c.
Proof.
  induction ws as [|w ws IH]; [done|].
  change ((w :: ws) ≫= fun c => "/"%char :: c) with ("/"%char :: w ++ (ws ≫= fun c => "/"%char :: c)).
  change ((utf8_lossy <$> w :: ws) ≫= fun c => "/"%char :: c)
    with ("/"%char :: utf8_lossy w ++ ((utf8_lossy <$> ws) ≫= fun c => "/"%char :: c)).
  rewrite <-IH. cbn [utf8_lossy byte_in]. simpl. f_equal.
  destruct ws as [|v vs]; simpl; [by rewrite !app_nil_r|]. by rewrite utf8_lossy_ascii_sep.
Qed.

Lemma pushed_display p : Forall proper p -> pushed (display p) = utf8_lossy <$> p.
Proof.
  intros Hp. destruct p as [|c q]; [done|].
  assert (display (c :: q) = os_str (utf8_lossy <$> c :: q)) as ->.
  { unfold display. cbn [os_str fmap list_fmap]. rewrite words_lossy.
    by rewrite (fmap_reverse utf8_lossy (c :: q)). }
  apply pushed_os_str; [done|]. apply Forall_fmap. eapply Forall_impl; [|exact Hp].
  intros d. apply lossy_proper.
Qed.

Lemma display_absolute p : is_absolute (display p) = true.
Proof.
  destruct p as [|c q]; [done|]. unfold display. cbn [os_str]. rewrite words_lossy.
  destruct (utf8_lossy <$> reverse (c :: q)) as [|w ws] eqn:E; [|done].
  apply fmap_nil_inv in E. apply (f_equal length) in E. by rewrite length_reverse in E.
Qed.
