(* ===== verification/TreeFacts.v ===== *)
(** * Recursive transfers stay in their directory

    Whatever entry names a peer sends: a recursive download changes the
    client's disk only below the local directory, a recursive upload the
    server's only below the destination. *)

From S2P Require Import Prelude Text Stream TransferTypes TransferCodec Fs Paths Hoare Metrics.
From S2P Require Import Conn ShellOps ShellFacts Upload UploadFacts Download Control Blob Demo.
From S2P Require Import ClientTransfer Confine.

(** Every intermediate state of the disk while [m] runs differs from the initial
    one only strictly below [root], apart from directories made above it. *)
Definition stays_in {E A} (root : path) (c : conn) (m : M conn E A) : Prop :=
  runs (contained root) (local_fs c) (local_fs (m c).2).

(** ** A path strictly below a proper directory *)

Definition inside (root p : path) : Prop := strictly_below root p /\ Forall proper p.

Lemma inside_app root x : x <> [] -> Forall proper x -> Forall proper root -> inside root (x ++ root).
Proof. intros Hx Hp Hr. split; [by exists x|]. by apply Forall_app. Qed.

Lemma inside_sibling root x name :
  x <> [] -> proper name -> Forall proper x -> Forall proper root ->
  inside root (name :: tail (x ++ root)).
Proof.
  intros Hx Hn Hp Hr. destruct x as [|c x]; [done|]. inversion Hp; subst.
  change (name :: tail ((c :: x) ++ root)) with ((name :: x) ++ root).
  apply inside_app; [done|by constructor|done].
Qed.

Lemma inside_parent root x : x <> [] -> exists y, tail (x ++ root) = y ++ root /\ (Forall proper x -> Forall proper y).
Proof. destruct x as [|c x]; [done|]. intros _. exists x. split; [done|]. by inversion 1. Qed.

Lemma temp_name_proper p u :
  Forall proper p -> proper (bs "." ++ name_or_transfer p ++ bs "." ++ decimal u ++ bs ".irosh_part").
Proof.
  intros Hp.
  replace (bs "." ++ name_or_transfer p ++ bs "." ++ decimal u ++ bs ".irosh_part")
    with (bs "." ++ name_or_transfer p ++ (bs "." ++ decimal u) ++ bs ".irosh_part")
    by by rewrite <-!app_assoc.
  apply dotted_proper; [by apply name_or_transfer_proper|].
  rewrite elem_of_app. intros [H|H]; [revert H; vm_compute; set_solver|by eapply decimal_no_slash].
Qed.

(** ** Downloads *)

Section client.
Context {SJ : SerdeJson} {ST : SystemTexts} {MA : Machine} {WD : WalkDir} {BS : BlobStore}.
Variable root : path.
Hypothesis Hroot : Forall proper root.

Abbreviation any := (fun _ : fs => True).
Abbreviation quiet := (fun _ => True).
Abbreviation disk_keeps := (confined id (contained root) any).
Abbreviation keeps := (confined local_fs (contained root) any).

Lemma keeps_bind {S E A B : Type} (view : S -> fs) (V : A -> Prop) (W : B -> Prop)
    (m : M S E A) (k : A -> M S E B) :
  confined view (contained root) any V m ->
  (forall a, V a -> confined view (contained root) any W (k a)) ->
  confined view (contained root) any W (m ≫= k).
Proof. by apply conf_bind; [apply _|]. Qed.

Lemma keeps_seq {S E A B : Type} (view : S -> fs) (W : B -> Prop) (m : M S E A) (k : M S E B) :
  confined view (contained root) any quiet m -> confined view (contained root) any W k ->
  confined view (contained root) any W (m;; k).
Proof. by apply conf_seq; [apply _|]. Qed.

Lemma keeps_file_io {A : Type} (V : A -> Prop) what p (m : M fs io_error A) :
  disk_keeps V m -> keeps V (file_io what p m).
Proof. intros Hm. apply conf_on_disk. by apply conf_map_err. Qed.

Lemma keeps_dirs x : Forall proper x -> disk_keeps quiet (create_dir_all_at (x ++ root)).
Proof. intros Hx. apply conf_create_dir_all. by apply Forall_app. Qed.

Lemma keeps_at {A : Type} (V : A -> Prop) p (op : path -> M fs io_error A) :
  inside root p -> disk_keeps V (op p) -> disk_keeps V (at_path p op).
Proof. intros [_ Hp]. by apply conf_at_path. Qed.

(** *** The temporary file *)

Lemma keeps_temp x :
  x <> [] -> Forall proper x -> disk_keeps (inside root) (temp_transfer_path (x ++ root)).
Proof.
  intros Hx Hp s _. unfold temp_transfer_path. cbn [fst snd]. split; [apply runs_refl|].
  assert (default working_dir (parent (x ++ root)) = tail (x ++ root)) as -> by by destruct x.
  apply inside_sibling; [done| |done..]. by apply temp_name_proper, Forall_app.
Qed.

Lemma keeps_create_temp temp :
  inside root temp -> keeps (fun h => h.1 = temp) (create_temp temp).
Proof.
  intros Ht. unfold create_temp. eapply keeps_bind.
  - apply keeps_file_io, (keeps_at (fun p => p = temp)); [done|].
    apply keeps_seq; [apply conf_file_create, Ht|by apply conf_ret].
  - intros p ->. by apply conf_ret.
Qed.

Lemma keeps_write_dest temp dest chunk :
  inside root temp -> dest.1 = temp -> keeps (fun h => h.1 = temp) (write_dest temp dest chunk).
Proof.
  intros Ht Hd. unfold write_dest. eapply keeps_bind.
  - apply conf_on_disk with (V := quiet). unfold tokio_write. destruct dest.2 as [e|]; [by apply conf_ret|].
    eapply keeps_bind; [|by intros; apply conf_ret].
    apply conf_attempt with (V := quiet); [|done]. rewrite Hd. apply conf_write, Ht.
  - intros [[u|e] pending] _; [by apply conf_ret|apply conf_throw].
Qed.

Lemma keeps_persist temp x :
  inside root temp -> x <> [] -> Forall proper x -> keeps quiet (persist_temp_file temp (x ++ root)).
Proof.
  intros Ht Hx Hp. pose proof (inside_app root x Hx Hp Hroot) as Hf. unfold persist_temp_file.
  apply keeps_seq.
  { destruct x as [|c x]; [done|]. inversion Hp; subst. cbn [app parent].
    by apply keeps_file_io, keeps_dirs. }
  eapply keeps_bind.
  - apply conf_attempt with (V := quiet); [|done]. apply conf_on_disk, keeps_at; [done|].
    apply keeps_at; [done|]. apply conf_rename; [apply Ht|apply Hf].
  - intros [u|e] _; [by apply conf_ret|]. apply keeps_seq.
    + apply keeps_file_io. unfold copy_file.
      eapply keeps_bind with (V := quiet); [apply keeps_at, conf_query; done|]. intros content _.
      eapply keeps_bind with (V := quiet); [apply keeps_at, conf_query; done|]. intros [[u mode] n] _.
      apply keeps_seq; [apply keeps_at, conf_file_create; [done|apply Hf]|].
      apply keeps_seq; [apply keeps_at, conf_write; [done|apply Hf]|].
      apply keeps_at, conf_set_permissions; [done|apply Hf].
    + eapply conf_ignore, conf_on_disk, keeps_at; [done|]. apply conf_remove_file, Ht.
Qed.

Lemma keeps_apply_mode p mode : inside root p -> keeps quiet (apply_mode p mode).
Proof.
  intros Hp. destruct mode as [mode|]; [|by apply conf_ret]. eapply conf_ignore, conf_on_disk, keeps_at; [done|].
  apply conf_set_permissions, Hp.
Qed.

(** *** The loops *)

Lemma keeps_recv : keeps quiet recv.
Proof. apply conf_diskless, recv_diskless. Qed.

Lemma keeps_entry_turn temp dest total frame :
  inside root temp -> dest.1 = temp ->
  keeps (fun x => match x with inl a | inr a => a.1.1 = temp end) (entry_turn temp (dest, total) frame).
Proof.
  intros Ht Hd. destruct frame as [b|b|f]; cbn [entry_turn]; [apply conf_throw| |].
  - eapply keeps_bind; [by apply keeps_write_dest|]. intros dest' Hd'. by apply conf_ret.
  - destruct f; first [by apply conf_throw | by apply conf_ret].
Qed.

Lemma keeps_fill_entry temp dest total :
  inside root temp -> dest.1 = temp -> keeps quiet (fill_entry temp dest total).
Proof.
  intros Ht Hd. unfold fill_entry. eapply keeps_bind.
  - apply (conf_loop _ _ _ (fun _ _ _ _ => I)) with (V := fun a => a.1.1 = temp) (W := fun _ => True); [done|].
    intros [dest' total'] Hd'. eapply keeps_bind; [apply keeps_recv|]. intros frame _.
    eapply conf_weaken; [by apply keeps_entry_turn|]. by intros [].
  - intros [dest' total'] _. apply keeps_seq; [|by apply conf_ret].
    unfold flush_dest. destruct (tokio_flush _); [by apply conf_ret|apply conf_throw].
Qed.

Lemma keeps_download_entry header total : keeps quiet (download_entry root header total).
Proof.
  unfold download_entry. pose proof (sanitize_remote_path_contained (eh_path header)) as Hs.
  destruct (sanitize_remote_path (eh_path header)) as [x|e]; [|apply conf_throw].
  destruct Hs as (Hx & Hp & _). pose proof (inside_app root x Hx Hp Hroot) as Hin.
  destruct (eh_is_dir header).
  { apply keeps_seq; [by apply keeps_file_io, keeps_dirs|by apply conf_ret]. }
  apply keeps_seq.
  { destruct x as [|c x]; [done|]. inversion Hp; subst. unfold make_parent. cbn [app parent].
    by eapply conf_ignore, conf_on_disk, keeps_dirs. }
  eapply keeps_bind; [by apply conf_on_disk, keeps_temp|]. intros temp Ht.
  eapply keeps_bind; [by apply keeps_create_temp|]. intros dest Hd.
  eapply keeps_bind with (V := quiet).
  { apply conf_on_error; [apply _|done|by apply keeps_fill_entry|].
    apply conf_on_disk, keeps_at; [done|]. apply conf_remove_file, Ht. }
  intros total' _. apply keeps_seq; [by apply keeps_persist|].
  apply keeps_seq; [by apply keeps_apply_mode|by apply conf_ret].
Qed.

Lemma keeps_tree_turn total frame : keeps quiet (tree_turn root total frame).
Proof.
  destruct frame as [b|b|f]; cbn [tree_turn]; [apply conf_throw..|].
  destruct f; try (by apply conf_throw); try (by apply conf_ret).
  eapply keeps_bind; [apply keeps_download_entry|]. intros n _. by apply conf_ret.
Qed.
End client.

(** C32: A recursive download stays in its directory. Whatever entries the
    server sends, in whatever order, and whichever system calls fail, every
    intermediate state of the client's disk differs from the initial one only
    strictly below the local directory, apart from directories made above it:
    temporary files, created directories, the files moved or copied into place
    and the modes set all have paths below it. *)
Theorem recursive_download_contained {SJ : SerdeJson} {ST : SystemTexts} {MA : Machine} {WD : WalkDir}
    {BS : BlobStore} connection remote local (c : conn) :
  Forall proper (os_path local) ->
  stays_in (os_path local) c (download_dir connection remote local).
Proof.
  intros Hroot. unfold stays_in.
  assert (confined local_fs (contained (os_path local)) (fun _ => True) (fun _ => True)
            (download_dir connection remote local)) as H; [|by apply H].
  pose proof (@keeps_seq (os_path local)) as Hseq. unfold download_dir.
  apply Hseq; [apply conf_diskless; by destruct connection as [[]|]|].
  apply Hseq; [apply conf_diskless, send_diskless|].
  eapply keeps_bind with (V := fun _ => True).
  { apply conf_diskless. intros s. apply recv_frame_keeps. }
  intros frame _. apply Hseq.
  { apply conf_diskless. destruct frame; by intros s. }
  apply Hseq; [apply conf_diskless; by intros s|].
  apply (conf_loop _ _ _ (fun _ _ _ _ => I)) with (V := fun _ => True) (W := fun _ => True); [done|].
  intros total _. eapply keeps_bind; [apply keeps_recv|]. intros f _.
  eapply conf_weaken; [by apply keeps_tree_turn|]. by intros [].
Qed.

(** ** Uploads *)

(** What the server relies on while it works below the destination: chance
    failures are not mistaken for absence, and the destination is there. *)
Definition rooted (root : path) (s : fs) : Prop := honest s /\ dir_at root s.

Lemma walk_contained root q d d' :
  Forall proper root -> q `suffix_of` root -> contained root d d' ->
  walk d q = Ok q -> walk d' q = Ok q.
Proof.
  intros Hp Hs Hc. induction q as [|c q IH]; [done|]. intros Hw.
  assert (q `suffix_of` root) as Hs' by (etrans; [|exact Hs]; by exists [c]).
  assert (Forall proper q) as Hq by (destruct Hs' as [k ->]; by apply Forall_app in Hp as [_ ?]).
  cbn [walk] in Hw |- *. destruct (walk d q) as [y|] eqn:E; [|done].
  apply walk_proper in E as E'; [|done]. subst y. rewrite IH by done. simpl in Hw |- *.
  destruct (Hc q) as [->|[(x & Hx & E')|(_ & _ & Hd)]]; [done| |].
  - exfalso. destruct Hs as [k ->]. apply (f_equal length) in E'.
    rewrite !length_app in E'. simpl in E'. destruct x; [done|]. simpl in E'. lia.
  - destruct (d !! q) as [[m|]|]; try done. by destruct (d' !! q) as [[]|].
Qed.

Lemma rooted_stable root s s' :
  Forall proper root -> rooted root s -> runs (contained root) s s' -> rooted root s'.
Proof.
  intros Hp [Ho [Hw Hd]] Hr. split.
  - destruct Hr as (_ & E & _). intros n k. rewrite E. apply Ho.
  - apply runs_final in Hr; [|reflexivity]. split; [by eapply walk_contained|].
    destruct (Hr root) as [->|[(x & Hx & E)|(_ & _ & ?)]]; [done| |done].
    apply (f_equal length) in E. rewrite length_app in E. destruct x; [done|]. simpl in E. lia.
Qed.

Lemma lossy_plain p : Forall plain_name p -> utf8_lossy <$> p = p.
Proof.
  induction 1 as [|c p [_ Hc] _ IH]; [done|]. by rewrite fmap_cons, IH, utf8_lossy_valid.
Qed.

Lemma whitespace_no_slash w : w ∈ whitespace -> w <> [] /\ "/"%char ∉ w.
Proof.
  assert (Forall (fun w => w <> [] /\ "/"%char ∉ w) whitespace) as H.
  { apply (bool_decide_eq_true_1 _). by vm_compute. }
  intros Hw%list_elem_of_In. by apply (proj1 (List.Forall_forall _ _) H).
Qed.

Lemma trim_end_slash n r : exists r', trim_end_fuel n ("/"%char :: r) = "/"%char :: r'.
Proof.
  revert r. induction n as [|n IH]; intros r; cbn [trim_end_fuel]; [by eexists|].
  destruct (List.find _ whitespace) as [w|] eqn:E; [|by eexists].
  apply List.find_some in E as [Hw%list_elem_of_In%whitespace_no_slash E].
  apply bool_decide_eq_true in E. destruct Hw as [Hne Hs].
  destruct (length ("/"%char :: r) - length w) as [|k] eqn:Hk; [|apply IH].
  simpl in E. rewrite <-E in Hs. by destruct Hs; left.
Qed.

Lemma absolute_trim b : is_absolute b = true -> trim b <> [].
Proof.
  intros Ha%bool_decide_eq_true. destruct b as [|c r]; [done|]. injection Ha as Hc. subst c.
  assert (trim_start ("/"%char :: r) = "/"%char :: r) as E.
  { unfold trim_start. cbn [length trim_start_fuel].
    destruct (List.find _ whitespace) as [w|] eqn:E; [exfalso|done].
    apply List.find_some in E as [Hw%list_elem_of_In%whitespace_no_slash E].
    apply bool_decide_eq_true in E. destruct Hw as [Hne Hs]. destruct w as [|d w]; [done|].
    injection E as Hd _. subst d. by apply Hs; left. }
  unfold trim. rewrite E. unfold trim_end. by destruct (trim_end_slash (length ("/"%char :: r)) r) as [r' ->].
Qed.

Section server.
Context {SJ : SerdeJson} {ST : SystemTexts} {MA : Machine} {LS : LiveShell}.
Variable root : path.
Hypothesis Hplain : Forall plain_name root.

Abbreviation disk_keeps := (confined id (contained root) (rooted root)).
Abbreviation keeps := (confined local_fs (contained root) (rooted root)).
Abbreviation quiet := (fun _ => True).

Lemma root_proper : Forall proper root.
Proof. by apply plain_proper. Qed.

Lemma stays_bind {S E A B : Type} (view : S -> fs) (V : A -> Prop) (W : B -> Prop)
    (m : M S E A) (k : A -> M S E B) :
  confined view (contained root) (rooted root) V m ->
  (forall a, V a -> confined view (contained root) (rooted root) W (k a)) ->
  confined view (contained root) (rooted root) W (m ≫= k).
Proof. apply conf_bind; [apply _|]. intros s s'. apply rooted_stable, root_proper. Qed.

Lemma stays_seq {S E A B : Type} (view : S -> fs) (W : B -> Prop) (m : M S E A) (k : M S E B) :
  confined view (contained root) (rooted root) quiet m ->
  confined view (contained root) (rooted root) W k ->
  confined view (contained root) (rooted root) W (m;; k).
Proof. intros Hm Hk. by eapply stays_bind. Qed.

Lemma stays_at {A : Type} (V : A -> Prop) p (op : path -> M fs io_error A) :
  Forall proper p -> disk_keeps V (op p) -> disk_keeps V (at_path p op).
Proof. apply conf_at_path. Qed.

(** The text of a path below the root names a path below the root. *)
Lemma os_path_text x :
  Forall proper x -> os_path (display (x ++ root)) = (utf8_lossy <$> x) ++ root.
Proof.
  intros Hx. unfold os_path, path_join. rewrite display_absolute, pushed_display, fmap_app, (lossy_plain root); [done..|].
  apply Forall_app. split; [done|apply root_proper].
Qed.

Lemma lossy_all x : Forall proper x -> Forall proper (utf8_lossy <$> x).
Proof. intros Hx. apply Forall_fmap. eapply Forall_impl; [|exact Hx]. intros c. apply lossy_proper. Qed.

Lemma inside_text x : x <> [] -> Forall proper x -> inside root (os_path (display (x ++ root))).
Proof.
  intros Hne Hx. rewrite os_path_text by done. apply inside_app; [|by apply lossy_all|apply root_proper].
  by destruct x.
Qed.

(** *** The destination of an entry *)

Definition prepared_inside (r : option PreparedPutDestination) : Prop :=
  match r with
  | Some p => inside root (os_path (final_arg p)) /\ inside root (os_path (part_arg p))
  | None => True
  end.

Lemma resolved_display x :
  Forall proper x ->
  resolve_path process_cwd home_dir Stateless (display (x ++ root)) = Ok ((utf8_lossy <$> x) ++ root).
Proof.
  intros Hx. unfold resolve_path.
  pose proof (display_absolute (x ++ root)) as Ha. rewrite decide_False, Ha by by apply absolute_trim.
  rewrite pushed_display, fmap_app, (lossy_plain root); [done..|].
  apply Forall_app. split; [done|apply root_proper].
Qed.

(** The root itself is never reported missing. *)
Lemma missing_inside x :
  Forall proper x ->
  disk_keeps (fun missing => missing = true -> x <> [])
    (path_missing_no_follow Stateless (display (x ++ root))).
Proof.
  intros Hx s [Ho [Hw Hd]]. unfold id in *. unfold path_missing_no_follow. rewrite os_path_text by done.
  unfold mbind, M_bind, attempt.
  destruct (at_path ((utf8_lossy <$> x) ++ root) metadata s) as [r s'] eqn:E.
  assert (runs (contained root) s s') as Hr.
  { apply at_path_stat_runs in E. eapply runs_mono; [|exact E]. by intros d ->. }
  assert (r = Err NotFound -> x <> []) as Hn.
  { intros -> ->. simpl in E. unfold at_path in E. rewrite Hw in E. unfold metadata, query, syscall in E.
    destruct (oracle s (ticks s)) as [[k e]|] eqn:Eo.
    - injection E as -> _. by eapply Ho.
    - by destruct (nodes s !! root) as [[]|]. }
  destruct r as [a|e]; [done|]. destruct e; simpl; auto.
Qed.

Lemma keeps_prepare x :
  Forall proper x -> disk_keeps prepared_inside (prepare_put_destination Stateless (display (x ++ root))).
Proof.
  intros Hx. unfold prepare_put_destination, resolved.
  eapply stays_bind with (V := fun p => p = (utf8_lossy <$> x) ++ root).
  { apply conf_lift. intros p. rewrite resolved_display by done. by intros [= <-]. }
  intros p ->. pose proof (lossy_all x Hx) as Hy. remember (utf8_lossy <$> x) as y eqn:Ey. clear x Hx Ey.
  eapply stays_bind; [by apply missing_inside|]. intros missing Hm.
  destruct missing; cbn [negb]; [|by apply conf_ret]. specialize (Hm eq_refl).
  destruct y as [|c y]; [done|]. cbn [app parent default from_option id]. inversion Hy as [|?? Hc Hy']; subst.
  eapply stays_bind with (V := quiet).
  { apply stays_seq; [|by apply conf_ret]. apply conf_map_err, conf_create_dir_all.
    apply Forall_app. split; [done|apply root_proper]. }
  intros ok _. apply stays_seq; [apply conf_ensure|].
  intros s _. split; [apply runs_refl|]. cbn. split.
  - by apply (inside_text (c :: y)).
  - assert (proper (part_name (c :: y ++ root) (clock (ticks s)))) as Hn.
    { apply part_name_proper. constructor; [done|]. apply Forall_app. split; [done|apply root_proper]. }
    unfold set_file_name, file_name. rewrite decide_False by by destruct Hc as (_ & _ & ? & _).
    cbn [tail]. apply (inside_text (_ :: y)); [done|]. by constructor.
Qed.

(** *** The part file *)

Definition sink_inside (sink : UploadSink) : Prop :=
  exists p pending, sink = SinkFile p pending /\ inside root p.

Lemma keeps_spawn part :
  inside root (os_path part) -> disk_keeps sink_inside (spawn_upload_helper Stateless part).
Proof.
  intros Hp. unfold spawn_upload_helper. eapply stays_bind with (V := inside root).
  - apply conf_map_err, stays_at; [apply Hp|].
    apply stays_seq; [apply conf_file_create, Hp|by apply conf_ret].
  - intros p Hin. apply conf_ret. by exists p, None.
Qed.

Lemma keeps_sink_write sink chunk :
  sink_inside sink -> disk_keeps (fun r => sink_inside r.2) (sink_write sink chunk).
Proof.
  intros (p & pending & -> & Hp). unfold sink_write, tokio_write. eapply stays_bind with (V := quiet).
  - destruct pending as [e|]; [by apply conf_ret|]. eapply stays_bind; [|by intros; apply conf_ret].
    apply conf_attempt with (V := quiet); [|done]. apply conf_write, Hp.
  - intros [r pending'] _. apply conf_ret. by exists p, pending'.
Qed.

Lemma keeps_sink_flush sink : sink_inside sink -> disk_keeps sink_inside (sink_flush sink).
Proof. intros (p & pending & -> & Hp). apply conf_ret. by exists p, None. Qed.

Lemma keeps_sink_wait sink : sink_inside sink -> disk_keeps quiet (sink_wait sink).
Proof. intros (p & pending & -> & Hp). by apply conf_lift. Qed.

Lemma keeps_remove part :
  inside root (os_path part) -> disk_keeps quiet (remove_file_if_present Stateless part).
Proof. intros Hp. eapply conf_ignore, stays_at; [apply Hp|]. apply conf_remove_file, Hp. Qed.

Lemma keeps_rename part final :
  inside root (os_path part) -> inside root (os_path final) ->
  disk_keeps quiet (ShellOps.rename Stateless part final).
Proof.
  intros Hp Hf. apply stays_seq; [|by apply conf_ret]. apply conf_map_err, stays_at; [apply Hp|].
  apply stays_at; [apply Hf|]. apply conf_rename; [apply Hp|apply Hf].
Qed.

Lemma keeps_chmod x mode :
  Forall proper x -> disk_keeps quiet (chmod Stateless (display (x ++ root)) mode).
Proof.
  intros Hx. eapply conf_ignore, stays_at; rewrite os_path_text by done.
  - apply Forall_app. split; [by apply lossy_all|apply root_proper].
  - destruct x as [|c x].
    + apply conf_chmod_root. by intros s [_ [_ ?]].
    + apply conf_set_permissions. by exists (utf8_lossy <$> c :: x).
Qed.

(** *** The loops *)

Lemma stays_recv : keeps quiet (attempt (F := IroshError) recv).
Proof. apply conf_diskless. intros c. unfold attempt. pose proof (recv_diskless c). by destruct (recv c). Qed.

Lemma keeps_upload_entry_turn header sink n frame :
  sink_inside sink ->
  keeps (fun x => match x with inl a => sink_inside a.1 | inr a => sink_inside a.1.1.1 end)
    (Upload.entry_turn header (sink, n) frame).
Proof.
  intros Hs. destruct frame as [[b|b|f]|e]; cbn [Upload.entry_turn]; try (by apply conf_ret).
  - case_match; [by apply conf_ret|]. eapply stays_bind; [by apply conf_on_disk, keeps_sink_write|].
    intros [[u|e] sink'] Hs'; by apply conf_ret.
  - destruct f; try (by apply conf_ret). case_match; by apply conf_ret.
Qed.

Lemma keeps_entry_loop header sink :
  sink_inside sink -> keeps (fun a => sink_inside a.1.1.1) (entry_loop header (sink, 0%N)).
Proof.
  intros Hs. unfold entry_loop, frame_loop. eapply conf_loop with (V := fun a => sink_inside a.1); [apply _|..].
  - intros s s'. apply rooted_stable, root_proper.
  - done.
  - intros [sink' n] Hs'. eapply stays_bind; [apply stays_recv|]. intros frame _.
    by apply keeps_upload_entry_turn.
Qed.

Lemma keeps_receive_entry header x :
  Forall proper x -> keeps quiet (receive_entry Stateless header (x ++ root)).
Proof.
  intros Hx. unfold receive_entry.
  eapply stays_bind; [by apply conf_on_disk, keeps_prepare|]. intros [prepared|] Hp.
  2: { apply stays_seq; [apply conf_diskless, send_diskless|by apply conf_ret]. }
  destruct Hp as [Hfinal Hpart].
  eapply stays_bind; [by apply conf_on_disk, keeps_spawn|]. intros sink Hs.
  apply stays_seq; [apply conf_ensure|].
  eapply stays_bind; [by apply keeps_entry_loop|]. intros [[[sink' received] failed'] mismatch] Hs'.
  eapply stays_bind; [by apply conf_on_disk, keeps_sink_flush|]. intros sink2 Hs2.
  eapply stays_bind with (V := quiet).
  { apply conf_attempt with (V := quiet); [|done]. by apply conf_on_disk, keeps_sink_wait. }
  intros res _. pose proof (conf_on_disk _ _ _ _ (keeps_remove _ Hpart)) as Hrm.
  destruct mismatch.
  { apply stays_seq; [done|]. apply stays_seq; [apply conf_diskless, send_diskless|by apply conf_ret]. }
  destruct (failed' || negb (is_ok res)); [apply stays_seq; [done|apply conf_throw]|].
  eapply stays_bind; [by apply conf_on_disk, keeps_rename|]. intros renamed _.
  apply stays_seq; [apply conf_ensure|]. apply stays_seq; [|by apply conf_ret].
  destruct (eh_mode header) as [mode|]; [|by apply conf_ret]. apply conf_on_disk.
  eapply conf_ignore, stays_at; [apply Hfinal|]. apply conf_set_permissions, Hfinal.
Qed.

Lemma keeps_upload_tree_turn total frame : keeps quiet (Upload.tree_turn Stateless root total frame).
Proof.
  destruct frame as [b|b|f]; cbn [Upload.tree_turn]; [apply conf_throw..|].
  destruct f; try (by apply conf_throw).
  { apply stays_seq; [apply conf_diskless, send_diskless|by apply conf_ret]. }
  destruct (sanitize_relative_path (eh_path h)) as [entry|reason] eqn:E; [|apply conf_throw].
  apply sanitize_relative_ok in E as (-> & Ha & _ & Hp).
  assert (path_join root (eh_path h) = pushed (eh_path h) ++ root) as ->.
  { unfold path_join. by rewrite Ha. }
  destruct (eh_is_dir h).
  - apply stays_seq.
    { apply conf_on_disk, stays_seq; [|by apply conf_ret]. apply conf_map_err, conf_create_dir_all.
      apply Forall_app. split; [done|apply root_proper]. }
    apply stays_seq; [|by apply conf_ret].
    destruct (eh_mode h) as [mode|]; [|by apply conf_ret]. by apply conf_on_disk, keeps_chmod.
  - eapply stays_bind; [by apply keeps_receive_entry|]. intros r _. by apply conf_ret.
Qed.
End server.

(** C22: A recursive upload stays in its destination. In the server's own
    process, whatever entries the peer names and sends, in whatever order, and
    whichever system calls fail, every intermediate state of the server's disk
    (on which the model has no symbolic links) differs from the initial one
    only strictly below the destination, apart from directories: those made
    above it, and the mode of the destination itself. *)
Theorem recursive_upload_contained {SJ : SerdeJson} {ST : SystemTexts} {MA : Machine} {LS : LiveShell}
    request root (cn : conn) :
  honest (local_fs cn) -> put_recursive request = true ->
  resolve_path process_cwd home_dir Stateless (put_path request) = Ok root ->
  Forall plain_name root ->
  stays_in root cn (handle_put_request Stateless request).
Proof.
  intros Ho Hrec Hres Hplain. unfold stays_in, handle_put_request, handle_recursive_put_request. rewrite Hrec.
  assert (on_disk (resolved Stateless (put_path request)) cn = (Ok root, cn)) as H1.
  { unfold on_disk, resolved, lift. rewrite Hres. by destruct cn. }
  rewrite (bind_ok _ _ _ _ _ H1). clear H1. pose proof (plain_proper root Hplain) as Hp.
  destruct (create_dir_all_at root (local_fs cn)) as [r s1] eqn:E.
  assert (on_disk (create_dir_all Stateless root) cn
          = (map_err EIo (const true <$> r), mk_conn (incoming cn) (frame_buf cn) (outgoing cn) s1)) as H2.
  { unfold on_disk, create_dir_all, io_or_server, mbind, M_bind, M_map_err. rewrite E. by destruct r. }
  pose proof E as Hd. apply create_dir_all_at_runs in E; [|done].
  apply (runs_mono _ (contained root) _ _ (fun d' => adds_dirs_contained [] root _ d')) in E.
  destruct r as [u|e]; [rewrite (bind_ok _ _ _ _ _ H2)|by rewrite (bind_err _ _ _ _ _ H2)].
  apply create_dir_all_at_ok in Hd; [|done].
  eapply runs_trans; [intros d1 d2 d3; apply transitivity|exact E|].
  refine (proj1 ((_ : confined local_fs (contained root) (rooted root) (fun _ : unit => True) _)
            (mk_conn _ _ _ s1) _)).
  - apply stays_seq; [done|apply conf_diskless, send_diskless|].
    apply stays_seq; [done|apply conf_diskless; by intros c|].
    apply conf_loop with (V := fun _ => True); [apply _| |done|].
    + intros s2 s3. by apply rooted_stable.
    + intros total _. eapply stays_bind; [done|apply conf_diskless, recv_diskless|].
      intros f _. eapply conf_weaken; [by apply keeps_upload_tree_turn|]. by intros [].
  - split; [|done]. destruct E as (_ & Eo & _). intros n k. cbn [local_fs]. rewrite Eo. apply Ho.
Qed.

(** ** Witnesses *)

Definition demo_entries : conn := demo_conn
  [FGetReady (mk_TransferReady 0 None); FNewEntry (mk_EntryHeader (bs "a/b") 3 None false);
   FGetChunk (bs "abc"); FEntryComplete mk_EntryComplete; FGetComplete (mk_TransferComplete 3)].

Lemma recursive_download_contained_witness :
  let s' := local_fs (@download_dir bit_json demo_texts demo_machine (Some true)
              (bs "src") (bs "dl") demo_entries).2 in
  nodes s' !! [bs "b"; bs "a"; bs "dl"] = Some (File (bs "abc") 420) /\
  stays_in [bs "dl"] demo_entries (@download_dir bit_json demo_texts demo_machine (Some true)
              (bs "src") (bs "dl")).
Proof.
  split; [vm_compute; reflexivity|].
  apply (@recursive_download_contained bit_json demo_texts demo_machine demo_walk demo_store (Some true)
           (bs "src") (bs "dl") demo_entries).
  apply (bool_decide_eq_true_1 _). vm_compute. reflexivity.
Defined.

Definition demo_tree_upload : conn := demo_conn
  [FNewEntry (mk_EntryHeader (bs "a/b") 3 (Some 384%N) false);
   FPutChunk (bs "abc"); FEntryComplete mk_EntryComplete; FPutComplete (mk_TransferComplete 3)].

Lemma recursive_upload_contained_witness :
  let request := mk_PutRequest (bs "tree") 0 None true in
  let s' := local_fs (@handle_put_request bit_json demo_texts demo_machine demo_shell Stateless
              request demo_tree_upload).2 in
  nodes s' !! [bs "b"; bs "a"; bs "tree"; bs "srv"] = Some (File (bs "abc") 384) /\
  stays_in [bs "tree"; bs "srv"] demo_tree_upload
    (@handle_put_request bit_json demo_texts demo_machine demo_shell Stateless request).
Proof.
  intros request s'. split; [vm_compute; reflexivity|].
  apply (@recursive_upload_contained bit_json demo_texts demo_machine demo_shell request
           [bs "tree"; bs "srv"] demo_tree_upload).
  - intros n k. discriminate.
  - reflexivity.
  - vm_compute. reflexivity.
  - apply (bool_decide_eq_true_1 _). vm_compute. reflexivity.
Defined.
