(* ===== verification/Protocol.v ===== *)
(** * Conversations of the two ends of a stream

    [talks m ins outs P Q]: on a stream that brings the frames [ins], with a
    peer that takes everything sent, [m] succeeds, having read exactly [ins]
    and sent exactly [outs], and takes a disk where [P] holds to one where [Q]
    does. The rules compose conversations the way the code composes the
    operations; a client and a server whose conversations are mirror images
    complete their transfer. *)

From S2P Require Import Prelude Text Stream TransferTypes TransferCodec Fs Paths Hoare Metrics.
From S2P Require Import Conn ShellOps ShellFacts.

Section wire.
Context {SJ : SerdeJson}.

(** The frame can be serialized within the limits. *)
Definition fits (f : TransferFrame) : Prop :=
  exists payload, frame_payload f = Ok payload /\ (blen payload <= max_len (frame_kind f))%N.

Definition wire (f : TransferFrame) : bytes :=
  match frame_payload f with
  | Ok payload => encode_frame (frame_kind f) payload
  | Err _ => []
  end.

Definition wires (fs : list TransferFrame) : bytes := fs ≫= wire.

Lemma wires_cons f gs : wires (f :: gs) = wire f ++ wires gs.
Proof. done. Qed.

Lemma wires_app fs gs : wires (fs ++ gs) = wires fs ++ wires gs.
Proof. apply bind_app. Qed.

Lemma fits_chunk b : (blen b <= MAX_CHUNK_BYTES)%N -> fits (FPutChunk b) /\ fits (FGetChunk b).
Proof. intros Hb. by split; exists b. Qed.

Lemma fits_of f :
  match frame_payload f with
  | Ok payload => (blen payload <=? max_len (frame_kind f))%N
  | Err _ => false
  end = true -> fits f.
Proof. intros H. unfold fits. destruct (frame_payload f) as [b|]; [|done]. exists b. by apply N.leb_le in H. Qed.

Lemma write_any_wire f o e :
  fits f -> write_any f (mk_writer o None e) = (Ok tt, mk_writer (o ++ wire f) None e).
Proof.
  intros (payload & Hp & Hl). rewrite write_any_spec. unfold json, lift, wire. rewrite Hp.
  rewrite (bind_ok _ _ _ payload (mk_writer o None e)) by done. by apply write_frame_open.
Qed.

Lemma read_wire {SL : SerdeJsonLaws} f rest e :
  fits f -> read_next_frame (mk_reader (wire f ++ rest) e) = (Ok f, mk_reader rest e).
Proof.
  intros (payload & Hp & Hl). unfold wire. rewrite Hp. apply read_next_frame_encode; [done|].
  split; [apply frame_kind_known|done].
Qed.

(** ** Conversations *)

Definition talks {A : Type} (m : M conn IroshError A) (ins outs : list TransferFrame)
    (P : fs -> Prop) (Q : A -> fs -> Prop) : Prop :=
  forall rest e buf o we s, P s -> exists a buf' s',
    m (mk_conn (mk_reader (wires ins ++ rest) e) buf (mk_writer o None we) s)
    = (Ok a, mk_conn (mk_reader rest e) buf' (mk_writer (o ++ wires outs) None we) s') /\ Q a s'.

Lemma talks_ret {A : Type} (a : A) P (Q : A -> fs -> Prop) :
  (forall s, P s -> Q a s) -> talks (mret a) [] [] P Q.
Proof. intros H rest e buf o we s Hs. exists a, buf, s. rewrite app_nil_r. by split; [|apply H]. Qed.

Lemma talks_bind {A B : Type} (m : M conn IroshError A) (k : A -> M conn IroshError B)
    i1 i2 o1 o2 P R Q :
  talks m i1 o1 P R -> (forall a, talks (k a) i2 o2 (R a) Q) ->
  talks (m ≫= k) (i1 ++ i2) (o1 ++ o2) P Q.
Proof.
  intros Hm Hk rest e buf o we s Hs. rewrite wires_app, <-app_assoc.
  destruct (Hm (wires i2 ++ rest) e buf o we s Hs) as (a & buf1 & s1 & E1 & H1).
  destruct (Hk a rest e buf1 (o ++ wires o1) we s1 H1) as (b & buf2 & s2 & E2 & H2).
  exists b, buf2, s2. split; [|done]. rewrite (bind_ok _ _ _ _ _ E1), E2.
  by rewrite wires_app, app_assoc.
Qed.

(** A step that reads and sends nothing. *)
Lemma talks_quiet {A B : Type} (m : M conn IroshError A) (k : A -> M conn IroshError B) i o P R Q :
  talks m [] [] P R -> (forall a, talks (k a) i o (R a) Q) -> talks (m ≫= k) i o P Q.
Proof. apply (talks_bind m k [] i [] o). Qed.

Lemma talks_conseq {A : Type} (m : M conn IroshError A) i o P P' (Q Q' : A -> fs -> Prop) :
  talks m i o P' Q' -> (forall s, P s -> P' s) -> (forall a s, Q' a s -> Q a s) -> talks m i o P Q.
Proof.
  intros H HP HQ rest e buf o' we s Hs. destruct (H rest e buf o' we s (HP _ Hs)) as (a & b & s' & E & Hq).
  exists a, b, s'. split; [done|by apply HQ].
Qed.

Lemma talks_send {A : Type} f (k : M conn IroshError A) i o P Q :
  fits f -> talks k i o P Q -> talks (send (write_any f);; k) i (f :: o) P Q.
Proof.
  intros Hf Hk rest e buf o' we s Hs.
  destruct (Hk rest e buf (o' ++ wire f) we s Hs) as (a & buf1 & s1 & E1 & H1).
  exists a, buf1, s1. split; [|done].
  erewrite bind_ok.
  2: { unfold send, M_map_err, to_peer. cbn [outgoing incoming frame_buf local_fs].
       by rewrite write_any_wire. }
  rewrite E1. by rewrite <-app_assoc.
Qed.

Lemma talks_send_last f P : fits f -> talks (send (write_any f)) [] [f] P (fun _ => P).
Proof.
  intros Hf rest e buf o we s Hs. exists tt, buf, s. split; [|done].
  unfold send, M_map_err, to_peer. cbn [outgoing incoming frame_buf local_fs].
  rewrite write_any_wire by done. unfold wires. simpl. by rewrite app_nil_r.
Qed.

Context {SL : SerdeJsonLaws}.

Lemma talks_recv_frame {A : Type} f (k : TransferFrame -> M conn IroshError A) i o P Q :
  fits f -> talks (k f) i o P Q -> talks (frame ← recv_frame; k frame) (f :: i) o P Q.
Proof.
  intros Hf Hk rest e buf o' we s Hs. rewrite wires_cons, <-app_assoc.
  erewrite bind_ok; [apply (Hk rest e buf o' we s Hs)|].
  unfold recv_frame. cbn [outgoing incoming frame_buf local_fs]. by rewrite read_wire.
Qed.

Lemma recv_wire g f rest e buf o we s :
  fits f -> exists buf',
    recv_as g (mk_conn (mk_reader (wire f ++ rest) e) buf (mk_writer o None we) s)
    = (Ok (borrowed f), mk_conn (mk_reader rest e) buf' (mk_writer o None we) s).
Proof.
  intros Hf. destruct (recv_spec g (mk_conn (mk_reader (wire f ++ rest) e) buf (mk_writer o None we) s))
    as [buf' E]. exists buf'. cbn [outgoing incoming frame_buf local_fs] in E. by rewrite read_wire in E.
Qed.

Lemma talks_recv {A : Type} g f (k : TransferFrameBorrowed -> M conn IroshError A) i o P Q :
  fits f -> talks (k (borrowed f)) i o P Q -> talks (frame ← recv_as g; k frame) (f :: i) o P Q.
Proof.
  intros Hf Hk rest e buf o' we s Hs. rewrite wires_cons, <-app_assoc.
  destruct (recv_wire g f (wires i ++ rest) e buf o' we s Hf) as [buf' E].
  destruct (Hk rest e buf' o' we s Hs) as (a & buf2 & s2 & E2 & H2). exists a, buf2, s2.
  split; [|done]. by rewrite (bind_ok _ _ _ _ _ E).
Qed.

Lemma talks_attempt_recv {A : Type} f (k : result IroshError TransferFrameBorrowed -> M conn IroshError A)
    i o P Q :
  fits f -> talks (k (Ok (borrowed f))) i o P Q ->
  talks (frame ← attempt recv; k frame) (f :: i) o P Q.
Proof.
  intros Hf Hk rest e buf o' we s Hs. rewrite wires_cons, <-app_assoc.
  destruct (recv_wire ETransport f (wires i ++ rest) e buf o' we s Hf) as [buf' E].
  destruct (Hk rest e buf' o' we s Hs) as (a & buf2 & s2 & E2 & H2). exists a, buf2, s2.
  split; [|done]. erewrite bind_ok; [exact E2|]. unfold attempt, recv. by rewrite E.
Qed.

(** Disk operations *)
Definition works {E A : Type} (m : M fs E A) (P : fs -> Prop) (Q : A -> fs -> Prop) : Prop :=
  forall s, P s -> exists a s', m s = (Ok a, s') /\ Q a s'.

Lemma talks_disk {A : Type} (m : M fs IroshError A) P Q : works m P Q -> talks (on_disk m) [] [] P Q.
Proof.
  intros Hm rest e buf o we s Hs. destruct (Hm s Hs) as (a & s' & E & Hq). exists a, buf, s'.
  split; [|done]. unfold on_disk. cbn [local_fs]. rewrite E. by rewrite app_nil_r.
Qed.

Lemma talks_map_disk {F A : Type} (f : F -> IroshError) (m : M fs F A) P Q :
  works m P Q -> talks (M_map_err f (on_disk m)) [] [] P Q.
Proof.
  intros Hm rest e buf o we s Hs. destruct (Hm s Hs) as (a & s' & E & Hq). exists a, buf, s'.
  split; [|done]. unfold M_map_err, on_disk. cbn [local_fs]. rewrite E. by rewrite app_nil_r.
Qed.

Lemma talks_attempt_disk {F A : Type} (m : M fs F A) P Q :
  works m P Q ->
  talks (attempt (F := IroshError) (on_disk m)) [] [] P
    (fun r s => exists a, r = Ok a /\ Q a s).
Proof.
  intros Hm rest e buf o we s Hs. destruct (Hm s Hs) as (a & s' & E & Hq). exists (Ok a), buf, s'.
  split; [|by exists a]. unfold attempt, on_disk. cbn [local_fs]. rewrite E. by rewrite app_nil_r.
Qed.

Lemma talks_ignore_disk {F A : Type} (m : M fs F A) P (Q : fs -> Prop) :
  works m P (fun _ => Q) -> talks (ignore (on_disk m)) [] [] P (fun _ => Q).
Proof.
  intros Hm rest e buf o we s Hs. destruct (Hm s Hs) as (a & s' & E & Hq). exists tt, buf, s'.
  split; [|done]. unfold ignore, on_disk. cbn [local_fs]. rewrite E. by rewrite app_nil_r.
Qed.

Lemma talks_ensure {A : Type} (c : bool) e (k : M conn IroshError A) i o P Q :
  c = true -> talks k i o P Q -> talks (ensure c e;; k) i o P Q.
Proof. intros -> Hk rest e' buf o' we s Hs. rewrite bind_ensure. by apply Hk. Qed.

Lemma talks_fresh P : talks fresh_buffer [] [] P (fun _ => P).
Proof. intros rest e buf o we s Hs. exists tt, [], s. by rewrite app_nil_r. Qed.

(** What succeeds needs no undoing. *)
Lemma talks_on_error {A F : Type} (m : M conn IroshError A) (undo : M conn F unit) i o P Q :
  talks m i o P Q -> talks (on_error m undo) i o P Q.
Proof.
  intros Hm rest e buf o' we s Hs. destruct (Hm rest e buf o' we s Hs) as (a & b & s' & E & Hq).
  exists a, b, s'. split; [|done]. unfold on_error. by rewrite E.
Qed.

(** One turn of a loop *)
Lemma talks_loop_next {A B : Type} measure (body : A -> M conn IroshError (A + B)) a a' i1 i2 o1 o2 P R Q :
  decreases measure body ->
  talks (body a) i1 o1 P (fun x s => x = inl a' /\ R s) ->
  talks (loop measure EDiverged body a') i2 o2 R Q ->
  talks (loop measure EDiverged body a) (i1 ++ i2) (o1 ++ o2) P Q.
Proof.
  intros Hd Hb Hl rest e buf o we s Hs. rewrite wires_app, <-app_assoc.
  destruct (Hb (wires i2 ++ rest) e buf o we s Hs) as (x & buf1 & s1 & E1 & -> & H1).
  destruct (Hl rest e buf1 (o ++ wires o1) we s1 H1) as (b & buf2 & s2 & E2 & H2).
  exists b, buf2, s2. split; [|done]. rewrite (loop_eq measure EDiverged body Hd), E1, E2.
  by rewrite wires_app, app_assoc.
Qed.

Lemma talks_loop_done {A B : Type} measure (body : A -> M conn IroshError (A + B)) a i o P Q :
  decreases measure body ->
  talks (body a) i o P (fun x s => exists b, x = inr b /\ Q b s) ->
  talks (loop measure EDiverged body a) i o P Q.
Proof.
  intros Hd Hb rest e buf o' we s Hs.
  destruct (Hb rest e buf o' we s Hs) as (x & buf1 & s1 & E1 & b & -> & H1).
  exists b, buf1, s1. split; [|done]. by rewrite (loop_eq measure EDiverged body Hd), E1.
Qed.
End wire.

(** ** Disk operations that succeed *)

Section works.
Context {E : Type}.

Lemma works_ret {A : Type} (a : A) P (Q : A -> fs -> Prop) :
  (forall s, P s -> Q a s) -> works (mret (M := M fs E) a) P Q.
Proof. intros H s Hs. exists a, s. by split; [|apply H]. Qed.

Lemma works_bind {A B : Type} (m : M fs E A) (k : A -> M fs E B) P R Q :
  works m P R -> (forall a, works (k a) (R a) Q) -> works (m ≫= k) P Q.
Proof.
  intros Hm Hk s Hs. destruct (Hm s Hs) as (a & s1 & E1 & H1).
  destruct (Hk a s1 H1) as (b & s2 & E2 & H2). exists b, s2. by rewrite (bind_ok _ _ _ _ _ E1).
Qed.

Lemma works_map_err {F A : Type} (f : F -> E) (m : M fs F A) P Q :
  works m P Q -> works (M_map_err f m) P Q.
Proof.
  intros Hm s Hs. destruct (Hm s Hs) as (a & s1 & E1 & H1). exists a, s1. unfold M_map_err. by rewrite E1.
Qed.

Lemma works_attempt {F A : Type} (m : M fs F A) P Q :
  works m P Q -> works (attempt (E := F) (F := E) m) P (fun r s => exists a, r = Ok a /\ Q a s).
Proof.
  intros Hm s Hs. destruct (Hm s Hs) as (a & s1 & E1 & H1). exists (Ok a), s1. unfold attempt. rewrite E1.
  split; [done|by exists a].
Qed.

Lemma works_ignore {F A : Type} (m : M fs F A) P Q :
  works m P Q -> works (ignore (E := E) m) P (fun _ s => exists a, Q a s).
Proof.
  intros Hm s Hs. destruct (Hm s Hs) as (a & s1 & E1 & H1). exists tt, s1. unfold ignore. rewrite E1.
  split; [done|by exists a].
Qed.

Lemma works_conseq {A : Type} (m : M fs E A) P P' (Q Q' : A -> fs -> Prop) :
  works m P' Q' -> (forall s, P s -> P' s) -> (forall a s, Q' a s -> Q a s) -> works m P Q.
Proof.
  intros H HP HQ s Hs. destruct (H s (HP _ Hs)) as (a & s' & E1 & Hq). exists a, s'. split; [done|by apply HQ].
Qed.
End works.

(** ** A reliable disk with known contents *)

Definition disk_at (mask : N) (d : disk) (s : fs) : Prop :=
  reliable s /\ umask s = mask /\ nodes s = d.

(** Resolution looks at the directories of a path only. *)
Lemma walk_ext d d' p :
  Forall proper p -> (forall q, q `suffix_of` tail p -> d' !! q = d !! q) ->
  walk d p = Ok p -> walk d' p = Ok p.
Proof.
  induction 1 as [|c p (H1 & H2 & H3 & _) Hp IH]; intros Hd; [done|]. cbn [tail] in Hd. cbn [walk].
  destruct (walk d p) as [x|] eqn:E; [|done]. apply walk_proper in E as E'; [|done]. subst x.
  rewrite IH; [|intros q Hq; apply Hd; etrans; [exact Hq|]; destruct p as [|c2 p2]; [done|by exists [c2]]|done].
  simpl. by rewrite Hd.
Qed.

Lemma walk_child d c q m :
  proper c -> walk d q = Ok q -> d !! q = Some (Dir m) -> walk d (c :: q) = Ok (c :: q).
Proof.
  intros (H1 & H2 & H3 & _) Hw Hd. cbn [walk]. rewrite Hw. simpl. rewrite Hd. unfold join_component.
  rewrite decide_False by naive_solver. by rewrite decide_False.
Qed.

(** Adding entries to a directory does not change the way to it. *)
Lemma walk_insert d c q n p :
  Forall proper p -> length p <= length q -> walk d p = Ok p -> walk (<[c :: q := n]> d) p = Ok p.
Proof.
  intros Hp Hl. apply walk_ext; [done|]. intros x Hx. apply lookup_insert_ne. intros <-.
  apply suffix_length in Hx. destruct p; simpl in *; lia.
Qed.

Section disk.
Variable mask : N.
Abbreviation at_ := (disk_at mask).

Lemma works_syscall {A : Type} (op : fs -> result io_error A * disk) d a d' :
  (forall s, at_ d s -> op s = (Ok a, d')) ->
  works (syscall op) (at_ d) (fun x s => x = a /\ at_ d' s).
Proof.
  intros Hop s Hs. exists a, (tick s d'). unfold syscall. rewrite (proj1 Hs), (Hop s Hs).
  split; [done|]. split; [done|]. by destruct Hs as (? & ? & _).
Qed.

Lemma works_query {A : Type} (f : disk -> result io_error A) d a :
  f d = Ok a -> works (query f) (at_ d) (fun x s => x = a /\ at_ d s).
Proof. intros Hf. apply works_syscall. intros s (_ & _ & ->). by rewrite Hf. Qed.

Lemma works_at_path {A : Type} p (op : path -> M fs io_error A) d Q :
  walk d p = Ok p -> works (op p) (at_ d) Q -> works (at_path p op) (at_ d) Q.
Proof.
  intros Hw Hop s Hs. destruct (Hop s Hs) as (a & s' & E & Hq). exists a, s'. unfold at_path.
  destruct Hs as (_ & _ & ->). by rewrite Hw.
Qed.

Lemma works_create d c q m :
  d !! (c :: q) = None -> d !! q = Some (Dir m) ->
  works (file_create (c :: q)) (at_ d)
    (fun _ s => at_ (<[c :: q := File [] (N.ldiff 438 mask)]> d) s).
Proof.
  intros Hn Hd. eapply works_conseq; [apply (works_syscall _ d tt)|done|by intros a s [_ ?]].
  intros s (_ & Hm & ->). cbn [parent_check]. rewrite Hn, Hd. unfold masked. by rewrite Hm.
Qed.

Lemma works_write d p b content m :
  d !! p = Some (File content m) ->
  works (file_write_all p b) (at_ d) (fun _ s => at_ (<[p := File (content ++ b) m]> d) s).
Proof.
  intros Hp s (Hr & Hm & Hn). eexists tt, _. unfold file_write_all. rewrite Hr. split; [done|].
  split_and!; [done..|]. simpl. unfold append. by rewrite Hn, Hp.
Qed.

Lemma works_rename d p c q content m m' :
  d !! p = Some (File content m) -> d !! q = Some (Dir m') -> is_dir_node (d !! (c :: q)) = false ->
  works (Fs.rename p (c :: q)) (at_ d)
    (fun _ s => at_ (<[c :: q := File content m]> (delete p d)) s).
Proof.
  intros Hp Hq Hc. eapply works_conseq; [apply (works_syscall _ d tt)|done|by intros a s [_ ?]].
  intros s (_ & _ & ->). cbn [parent_check]. rewrite Hp, Hq. by destruct (d !! (c :: q)) as [[]|].
Qed.

Lemma works_chmod d p content m mode :
  d !! p = Some (File content m) ->
  works (set_permissions p mode) (at_ d) (fun _ s => at_ (<[p := File content mode]> d) s).
Proof.
  intros Hp. eapply works_conseq; [apply (works_syscall _ d tt)|done|by intros a s [_ ?]].
  intros s (_ & _ & ->). by rewrite Hp.
Qed.

(** An existing directory needs no making. *)
Lemma works_existing d q m :
  walk d q = Ok q -> d !! q = Some (Dir m) ->
  works (create_dir_all_at q) (at_ d) (fun _ s => at_ d s).
Proof.
  intros Hw Hd s (Hr & Hm & Hn). exists tt, (tick (tick s d) d).
  assert (at_path q mkdir s = (Err AlreadyExists, tick s d)) as E1.
  { unfold at_path. rewrite Hn, Hw. unfold mkdir, syscall. by rewrite Hr, Hn, Hd. }
  assert (attempt (F := io_error) (at_path q metadata) (tick s d)
          = (Ok (Ok (true, m)), tick (tick s d) d)) as E2.
  { unfold attempt, at_path. cbn [nodes tick]. rewrite Hw. unfold metadata, query, syscall.
    cbn [oracle ticks tick nodes]. by rewrite Hr, Hd. }
  split; [|done]. by destruct q; cbn [create_dir_all_at]; rewrite E1, E2.
Qed.
End disk.

(** ** Facts about values found on the way *)

Lemma talks_prop {SJ : SerdeJson} {A : Type} (phi : Prop) (m : M conn IroshError A) i o P Q :
  (phi -> talks m i o P Q) -> talks m i o (fun s => phi /\ P s) Q.
Proof. intros H rest e buf o' we s [Hp Hs]. by apply H. Qed.

Lemma talks_prop' {SJ : SerdeJson} {A : Type} (phi : Prop) (m : M conn IroshError A) i o Q :
  (phi -> talks m i o (fun _ => True) Q) -> talks m i o (fun _ => phi) Q.
Proof. intros H rest e buf o' we s Hp. by apply H. Qed.

Lemma talks_ex {SJ : SerdeJson} {A B : Type} (m : M conn IroshError A) i o (P : B -> fs -> Prop) Q :
  (forall b, talks m i o (P b) Q) -> talks m i o (fun s => exists b, P b s) Q.
Proof. intros H rest e buf o' we s [b Hs]. by apply (H b). Qed.

Lemma works_prop {E A : Type} (phi : Prop) (m : M fs E A) P Q :
  (phi -> works m P Q) -> works m (fun s => phi /\ P s) Q.
Proof. intros H s [Hp Hs]. by apply H. Qed.

(** ** Staging a file

    Both sides fill a file with a name of its own and rename it to the
    destination in the same directory. *)

Section staging.
Context {MA : Machine}.
Variables (mask : N) (c : bytes) (q : path) (m : N) (d : disk) (n : bytes).
Hypothesis Hc : proper c.
Hypothesis Hn : proper n.
Hypothesis Hne : n <> c.
Hypothesis Hwalk : walk d q = Ok q.
Hypothesis Hproper : Forall proper q.
Hypothesis Hdir : d !! q = Some (Dir m).
Hypothesis Hdest : is_dir_node (d !! (c :: q)) = false.
Hypothesis Habs : d !! (n :: q) = None.

Abbreviation at_ := (disk_at mask).
Abbreviation fresh_mode := (N.ldiff 438 mask).

Definition staging (content : bytes) : disk := <[n :: q := File content fresh_mode]> d.

Lemma staging_dir content : walk (staging content) q = Ok q /\ staging content !! q = Some (Dir m).
Proof.
  split; [by apply walk_insert|]. unfold staging. rewrite lookup_insert_ne; [done|].
  intros E. apply (f_equal length) in E. simpl in E. lia.
Qed.

Lemma works_stage :
  works (at_path (n :: q) (fun p => file_create p;; mret p)) (at_ d)
    (fun p s => p = n :: q /\ at_ (staging []) s).
Proof.
  apply works_at_path; [by eapply walk_child|].
  eapply works_bind; [by eapply works_create|]. intros ?. by apply works_ret.
Qed.

Lemma works_fill pre b :
  works (tokio_write (n :: q) None b) (at_ (staging pre))
    (fun x s => x = (Ok tt, None) /\ at_ (staging (pre ++ b)) s).
Proof.
  unfold tokio_write. eapply works_bind; [apply works_attempt, works_write, lookup_insert_eq|].
  intros r s (a & -> & Hs). exists (Ok tt, None), s. split; [done|]. split; [done|].
  unfold staging in *. by rewrite insert_insert_eq in Hs.
Qed.

Lemma works_unstage content :
  works (at_path (n :: q) (fun p => at_path (c :: q) (fun p' => Fs.rename p p'))) (at_ (staging content))
    (fun _ s => at_ (<[c :: q := File content fresh_mode]> d) s).
Proof.
  destruct (staging_dir content) as [Hw Hd].
  apply works_at_path; [by eapply walk_child|]. apply works_at_path; [by eapply walk_child|].
  eapply works_conseq; [eapply (works_rename mask (staging content)); [apply lookup_insert_eq|exact Hd|]|done|].
  - unfold staging. rewrite lookup_insert_ne by congruence. exact Hdest.
  - intros a s Hs. unfold staging in Hs. by rewrite delete_insert_id in Hs.
Qed.

(** The directory goes on leading to the destination. *)
Lemma placed_walk content mode : walk (<[c :: q := File content mode]> d) (c :: q) = Ok (c :: q).
Proof.
  eapply walk_child; [done|by apply walk_insert|].
  rewrite lookup_insert_ne; [done|]. intros E. apply (f_equal length) in E. simpl in E. lia.
Qed.
End staging.

(** ** Reading a file in chunks *)

Definition chunked (chunks : list bytes) : Prop :=
  Forall (fun b => (blen b <= MAX_CHUNK_BYTES)%N) chunks.

Lemma max_chunk_positive : 0 < N.to_nat MAX_CHUNK_BYTES.
Proof. unfold MAX_CHUNK_BYTES. lia. Qed.

#[local] Opaque MAX_CHUNK_BYTES.

Lemma take_drop_length {A : Type} k (l : list A) : take k l ++ drop (length (take k l)) l = l.
Proof.
  rewrite length_take. destruct (Nat.le_ge_cases k (length l)).
  - by rewrite Nat.min_l, take_drop by done.
  - by rewrite Nat.min_r, drop_all, take_ge, app_nil_r by done.
Qed.

Section reading.
Context {SJ : SerdeJson} {SL : SerdeJsonLaws} {MA : Machine}.
Variables (mask : N) (d : disk) (data : bytes).
Abbreviation at_ := (disk_at mask).

(** What a read into a chunk buffer returns. *)
Definition next_chunk (offset : nat) : bytes :=
  take (min (N.to_nat MAX_CHUNK_BYTES) (max 1 (short_read (length data - offset)))) (drop offset data).

Lemma next_chunk_length offset :
  length (next_chunk offset) <= N.to_nat MAX_CHUNK_BYTES /\
  (offset < length data -> 0 < length (next_chunk offset)) /\
  length (next_chunk offset) <= length data - offset.
Proof.
  unfold next_chunk. rewrite length_take, length_drop. pose proof max_chunk_positive. split_and!; lia.
Qed.

Lemma works_read p perm offset :
  d !! p = Some (File data perm) ->
  works (file_read p offset (N.to_nat MAX_CHUNK_BYTES)) (at_ d)
    (fun b s => b = next_chunk offset /\ at_ d s).
Proof. intros Hp. apply works_query. by rewrite Hp. Qed.

(** A loop that sends the file chunk by chunk: [at_offset] is its state and
    [done_at] its value when the file is read up to there. *)
Lemma talks_file_loop {A B : Type} measure (body : A -> M conn IroshError (A + B))
    (at_offset : nat -> A) (done_at : nat -> B) (frame : bytes -> TransferFrame) offset :
  decreases measure body ->
  (forall b, (blen b <= MAX_CHUNK_BYTES)%N -> fits (frame b)) ->
  (forall offset, offset <= length data -> next_chunk offset = [] ->
     talks (body (at_offset offset)) [] [] (at_ d) (fun x s => x = inr (done_at offset) /\ at_ d s)) ->
  (forall offset, offset <= length data -> next_chunk offset <> [] ->
     talks (body (at_offset offset)) [] [frame (next_chunk offset)] (at_ d)
       (fun x s => x = inl (at_offset (offset + length (next_chunk offset))) /\ at_ d s)) ->
  offset <= length data ->
  exists chunks, chunked chunks /\ concat chunks = drop offset data /\
    talks (loop measure EDiverged body (at_offset offset)) [] (frame <$> chunks) (at_ d)
      (fun b s => b = done_at (length data) /\ at_ d s).
Proof.
  intros Hdec Hfits Hdone Hnext Ho. remember (length data - offset) as k eqn:Hk. revert offset Ho Hk.
  induction k as [k IH] using lt_wf_ind. intros offset Ho ->.
  destruct (next_chunk_length offset) as (Hmax & Hpos & Hleft).
  destruct (decide (next_chunk offset = [])) as [E|E].
  - exists []. specialize (Hdone offset Ho E). rewrite E in Hpos. simpl in Hpos.
    assert (offset = length data) as -> by lia. rewrite drop_all. split_and!; [constructor|done|].
    apply talks_loop_done; [done|]. eapply talks_conseq; [exact Hdone|done|].
    intros x s [-> Hs]. eauto.
  - set (offset' := offset + length (next_chunk offset)).
    destruct (IH (length data - offset')) with (offset := offset') as (chunks & Hc & Hcat & Ht);
      [destruct (next_chunk offset); [done|]; simpl in *; lia|lia|done|].
    exists (next_chunk offset :: chunks). split_and!.
    + constructor; [|done]. unfold blen. lia.
    + cbn [concat]. rewrite Hcat. unfold offset'. rewrite <-drop_drop. apply take_drop_length.
    + refine (talks_loop_next measure body _ (at_offset offset') [] [] [frame (next_chunk offset)]
               (frame <$> chunks) _ (at_ d) _ Hdec _ Ht). by apply Hnext.
Qed.
End reading.
