(* ===== verification/UploadTrip.v ===== *)
(** * An upload from end to end

    What the client's [upload_file] and the server's [handle_put_request] do
    on a reliable connection and disk: their conversations mirror each other,
    and the file arrives. *)

From S2P Require Import Prelude Text Stream TransferTypes TransferCodec Fs Paths Hoare Metrics.
From S2P Require Import Conn ShellOps ShellFacts Upload Download Control Blob Demo Dispatch.
From S2P Require Import ClientTransfer UploadFacts Protocol.

Definition chunk_frames (chunks : list bytes) : list TransferFrame := FPutChunk <$> chunks.

Lemma blen_app (a b : bytes) : blen (a ++ b) = (blen a + blen b)%N.
Proof. unfold blen. rewrite length_app. lia. Qed.

(** ** The server *)

Section server.
Context {SJ : SerdeJson} {SL : SerdeJsonLaws} {ST : SystemTexts} {MA : Machine} {LS : LiveShell}.
Variables (mask : N) (c : bytes) (q : path) (m : N) (d0 : disk).
Hypothesis Hplain : plain (c :: q).
Hypothesis Hwalk : walk d0 q = Ok q.
Hypothesis Hdir : d0 !! q = Some (Dir m).
Hypothesis Habs : d0 !! (c :: q) = None.
Hypothesis Hpart : forall u, d0 !! (part_name (c :: q) u :: q) = None.

Abbreviation at_ := (disk_at mask).
Abbreviation dest := (c :: q).

Lemma name_plain : plain_name c.
Proof. destruct Hplain as [_ H]. by inversion H. Qed.

Lemma target_proper : Forall proper dest.
Proof. apply plain_proper, Hplain. Qed.

Lemma dir_proper : Forall proper q.
Proof. pose proof target_proper as H. by inversion H. Qed.

Lemma unique_part_plain u : plain (part_name dest u :: q).
Proof.
  split; [done|]. constructor; [apply part_name_plain, name_plain|].
  destruct Hplain as [_ H]. by inversion H.
Qed.

Lemma part_not_dest u : part_name dest u <> c.
Proof. intros E. pose proof (part_name_longer c q u name_plain) as H. rewrite E in H. lia. Qed.

Lemma unique_part_proper u : proper (part_name dest u).
Proof. apply (part_name_plain _ _ _ name_plain). Qed.

Lemma dest_absent : is_dir_node (d0 !! dest) = false.
Proof. by rewrite Habs. Qed.

Lemma works_missing :
  works (path_missing_no_follow Stateless (display dest)) (at_ d0) (fun r s => r = true /\ at_ d0 s).
Proof.
  intros s (Hr & Hm & Hn). exists true, (tick s d0). unfold path_missing_no_follow, mbind, M_bind, attempt.
  rewrite os_path_display by done. unfold at_path. rewrite Hn.
  rewrite (walk_child d0 c q m) by (done || apply name_plain).
  unfold metadata, query, syscall. by rewrite Hr, Hn, Habs.
Qed.

Lemma works_prepare raw :
  resolve_path process_cwd home_dir Stateless raw = Ok dest ->
  works (prepare_put_destination Stateless raw) (at_ d0)
    (fun r s => exists u,
       r = Some (mk_Prepared (display dest) (display (part_name dest u :: q))) /\ at_ d0 s).
Proof.
  intros Hres. unfold prepare_put_destination, resolved. rewrite Hres.
  eapply (works_bind _ _ _ (fun p s => p = dest /\ at_ d0 s)); [intros s Hs; by exists dest, s|].
  intros p. apply works_prop. intros ->.
  eapply works_bind; [apply works_missing|]. intros missing. apply works_prop. intros ->. cbn [negb].
  cbn [parent default from_option id].
  eapply (works_bind _ _ _ (fun ok s => ok = true /\ at_ d0 s)).
  { unfold create_dir_all, io_or_server. eapply works_bind; [by eapply works_map_err, works_existing|].
    intros ?. by apply works_ret. }
  intros ok. apply works_prop. intros ->. intros s Hs. rewrite bind_ensure.
  eexists _, s. split; [done|]. exists (clock (ticks s)). split; [|done].
  rewrite set_file_name_plain; [done|apply name_plain].
Qed.

(** *** Receiving *)

Section part.
Variable u : N.
Abbreviation part := (part_name dest u :: q).
Abbreviation filled := (staging mask q d0 (part_name dest u)).

Lemma works_spawn :
  works (spawn_upload_helper Stateless (display part)) (at_ d0)
    (fun sink s => sink = SinkFile part None /\ at_ (filled []) s).
Proof.
  unfold spawn_upload_helper. rewrite os_path_display by apply unique_part_plain.
  eapply works_bind; [by eapply works_map_err, works_stage; eauto using unique_part_proper|].
  intros p. apply works_prop. intros ->. by apply works_ret.
Qed.

Lemma works_sink_write pre b :
  works (sink_write (SinkFile part None) b) (at_ (filled pre))
    (fun x s => x = (Ok tt, SinkFile part None) /\ at_ (filled (pre ++ b)) s).
Proof.
  unfold sink_write. eapply works_bind; [apply works_fill|].
  intros x. apply works_prop. intros ->. by apply works_ret.
Qed.

Variable request : PutRequest.

Lemma talks_upload_loop chunks pre :
  chunked chunks -> (blen (pre ++ concat chunks) < 2 ^ 64)%N ->
  put_size request = blen (pre ++ concat chunks) ->
  fits (FPutComplete (mk_TransferComplete (put_size request))) ->
  talks (upload_loop request (SinkFile part None, blen pre))
    (chunk_frames chunks ++ [FPutComplete (mk_TransferComplete (put_size request))]) []
    (at_ (filled pre))
    (fun a s => a = (SinkFile part None, put_size request, false) /\
                at_ (filled (pre ++ concat chunks)) s).
Proof.
  intros Hc Hlt Hsize Hfit. revert pre Hlt Hsize. induction Hc as [|b chunks Hb Hc IH]; intros pre Hlt Hsize.
  - simpl in *. rewrite app_nil_r in *.
    apply (talks_loop_done _ _ _ _ _ _ _ (upload_loop_decreases request)).
    apply talks_attempt_recv; [done|]. cbn [borrowed upload_turn complete_size].
    rewrite Hsize, N.eqb_refl. cbn [negb orb]. apply talks_ret. eauto.
  - cbn [concat] in *. rewrite app_assoc in *.
    apply (talks_loop_next _ _ _ (SinkFile part None, blen (pre ++ b)) [FPutChunk b] _ [] []
             _ (at_ (filled (pre ++ b))) _ (upload_loop_decreases request)); [|by apply IH].
    apply talks_attempt_recv; [by apply fits_chunk|]. cbn [borrowed upload_turn].
    rewrite !blen_app in *.
    rewrite Hsize, (add_u64_small (blen pre)) by lia.
    rewrite (proj2 (N.ltb_ge _ _)) by lia.
    eapply talks_quiet; [apply talks_disk, works_sink_write|]. intros x. apply talks_prop. intros ->.
    by apply talks_ret.
Qed.

(** *** The end *)

Lemma works_into_place content :
  works (ShellOps.rename Stateless (display part) (display dest)) (at_ (filled content))
    (fun r s => r = true /\ at_ (<[dest := File content (N.ldiff 438 mask)]> d0) s).
Proof.
  unfold ShellOps.rename. rewrite !os_path_display by (done || apply unique_part_plain).
  eapply works_bind; [eapply works_map_err, works_unstage; eauto using unique_part_proper, part_not_dest, dir_proper, dest_absent|].
  - apply name_plain.
  - intros ?. by apply works_ret.
Qed.

Definition placed_mode : N :=
  match put_mode request with Some mode => N.land mode 4095 | None => N.ldiff 438 mask end.

Lemma works_mode content :
  talks (match put_mode request with
         | Some mode => on_disk (chmod Stateless (display dest) mode)
         | None => mret tt
         end) [] [] (at_ (<[dest := File content (N.ldiff 438 mask)]> d0))
    (fun _ s => at_ (<[dest := File content placed_mode]> d0) s).
Proof.
  unfold placed_mode. destruct (put_mode request) as [mode|]; [|by apply talks_ret].
  apply talks_disk. unfold chmod. rewrite os_path_display by done.
  eapply works_conseq; [apply works_ignore, works_at_path| |].
  - eapply placed_walk; eauto using dir_proper. apply name_plain.
  - eapply works_chmod, lookup_insert_eq.
  - done.
  - intros a s [_ Hs]. by rewrite insert_insert_eq in Hs.
Qed.
End part.

(** *** The whole request *)

Lemma talks_put request chunks :
  put_recursive request = false ->
  resolve_path process_cwd home_dir Stateless (put_path request) = Ok dest ->
  chunked chunks -> (blen (concat chunks) < 2 ^ 64)%N -> put_size request = blen (concat chunks) ->
  let ready := FPutReady (mk_TransferReady (put_size request) (put_mode request)) in
  let complete := FPutComplete (mk_TransferComplete (put_size request)) in
  fits ready -> fits complete ->
  talks (handle_put_request Stateless request) (chunk_frames chunks ++ [complete]) [ready; complete]
    (at_ d0) (fun _ s => at_ (<[dest := File (concat chunks) (placed_mode request)]> d0) s).
Proof.
  intros Hrec Hres Hc Hlt Hsize ready complete Hready Hcomplete.
  unfold handle_put_request. rewrite Hrec.
  eapply talks_quiet; [by apply talks_disk, works_prepare|]. intros prepared. apply talks_ex. intros u.
  apply talks_prop. intros ->. unfold receive_upload. cbn [part_arg].
  eapply talks_quiet; [apply talks_disk, works_spawn|]. intros sink. apply talks_prop. intros ->.
  cbn [sink_stdin negb].
  apply (talks_bind _ _ [] (chunk_frames chunks ++ [complete]) [ready] [complete] _
           (fun _ => at_ (staging mask q d0 (part_name dest u) [])));
    [by apply talks_on_error, (talks_send_last ready)|intros _].
  eapply talks_quiet; [apply talks_fresh|]. intros ?.
  rewrite <-(app_nil_r (chunk_frames chunks ++ [complete])).
  eapply (talks_bind _ _ _ [] [] [complete]).
  { by apply (talks_upload_loop u request chunks []). }
  intros x. apply talks_prop. intros ->. rewrite app_nil_l.
  eapply talks_quiet with (R := fun sink s => sink = SinkFile (part_name dest u :: q) None /\
                                              at_ (staging mask q d0 (part_name dest u) (concat chunks)) s).
  { apply talks_disk. by apply works_ret. }
  intros sink. apply talks_prop. intros ->.
  eapply talks_quiet with (R := fun r s => r = Ok tt /\ at_ (staging mask q d0 (part_name dest u) (concat chunks)) s).
  { eapply talks_conseq; [apply talks_attempt_disk with (Q := fun _ => at_ (staging mask q d0 (part_name dest u) (concat chunks)))|done|].
    - by apply (works_ret tt).
    - by intros r s ([] & -> & Hs). }
  intros res. apply talks_prop. intros ->. cbn [is_ok negb orb].
  unfold finish_upload. cbn [is_ok negb orb part_arg final_arg].
  eapply talks_quiet; [apply talks_on_error, talks_disk, works_into_place|].
  intros renamed. apply talks_prop. intros ->. cbn [negb].
  eapply talks_quiet; [apply works_mode|]. intros ?. by apply (talks_send_last complete).
Qed.
End server.

(** ** The client *)

Section client.
Context {SJ : SerdeJson} {SL : SerdeJsonLaws} {ST : SystemTexts} {MA : Machine}.

#[local] Opaque MAX_CHUNK_BYTES.

(** A turn that sends something has read it. *)
Lemma chunk_loop_decreases operation local p :
  decreases (left_of p) (chunk_turn operation local p).
Proof.
  intros [offset sent] c a' c'. unfold chunk_turn.
  intros (chunk & c1 & H1 & H)%bind_ok_inv. unfold file_io, on_disk, M_map_err in H1.
  destruct (file_read p offset (N.to_nat MAX_CHUNK_BYTES) (local_fs c)) as [[b|e] s1] eqn:E; [|done].
  injection H1 as -> <-. apply file_read_spec in E as (Hn & content & m & Hp & Hpre).
  case_decide as Hne; [done|].
  apply bind_ok_inv in H as (u & c2 & H2 & [= <- <-]).
  assert (local_fs c2 = s1) as Hfs.
  { pose proof (send_diskless (write_put_chunk chunk) (mk_conn (incoming c) (frame_buf c) (outgoing c) s1)) as H.
    rewrite H2 in H. exact H. }
  unfold left_of. rewrite Hfs, Hn, Hp. cbn [fst].
  apply prefix_drop_nonempty in Hpre as [? ?]; [|done]. destruct chunk; [done|]. simpl in *. lia.
Qed.

Variables (mask : N) (d : disk) (data : bytes) (perm : N) (p : path).
Hypothesis Hp : d !! p = Some (File data perm).
Abbreviation at_ := (disk_at mask).

Lemma works_chunk offset :
  works (file_read p offset (N.to_nat MAX_CHUNK_BYTES)) (at_ d)
    (fun b s => b = next_chunk data offset /\ at_ d s).
Proof. by eapply works_read. Qed.

Lemma talks_chunk_loop operation local :
  (blen data < 2 ^ 64)%N ->
  exists chunks, chunked chunks /\ concat chunks = data /\
    talks (chunk_loop operation local p (0, 0%N)) [] (chunk_frames chunks) (at_ d)
      (fun n s => n = blen data /\ at_ d s).
Proof.
  intros Hb. apply (talks_file_loop mask d data (left_of p) (chunk_turn operation local p)
    (fun offset => (offset, N.of_nat offset)) N.of_nat FPutChunk 0).
  - apply chunk_loop_decreases.
  - intros b Hb'. by apply fits_chunk.
  - intros offset Ho E. unfold chunk_turn.
    eapply talks_quiet; [apply talks_disk, works_map_err, works_chunk|]. intros chunk. apply talks_prop.
    intros ->. rewrite decide_True by done. by apply talks_ret.
  - intros offset Ho E. unfold chunk_turn.
    eapply talks_quiet; [apply talks_disk, works_map_err, works_chunk|]. intros chunk. apply talks_prop.
    intros ->. rewrite decide_False by done.
    pose proof (next_chunk_length data offset) as (Hmax & _ & Hle).
    apply (talks_send (FPutChunk _)); [apply fits_chunk; unfold blen; lia|].
    apply talks_ret. intros s Hs. split; [|done]. unfold blen in *.
    rewrite add_u64_small by lia. repeat f_equal. lia.
  - lia.
Qed.

Lemma works_open_metadata :
  works (metadata_len p) (at_ d) (fun r s => r = (false, perm, blen data) /\ at_ d s).
Proof. apply works_query. by rewrite Hp. Qed.

Lemma talks_upload_file local remote :
  os_path local = p -> walk d p = Ok p -> remote <> [] -> (blen data < 2 ^ 64)%N ->
  let mode := Some (N.land perm 511) in
  let request := mk_PutRequest (request_path remote) (blen data) mode false in
  let ready := FPutReady (mk_TransferReady (blen data) mode) in
  let complete := FPutComplete (mk_TransferComplete (blen data)) in
  fits (FPutRequest request) -> fits ready -> fits complete ->
  exists chunks, chunked chunks /\ concat chunks = data /\
    talks (upload_file (Some true) local remote) [ready; complete]
      (FPutRequest request :: chunk_frames chunks ++ [complete]) (at_ d) (fun _ s => at_ d s).
Proof.
  intros Hl Hw Hne Hb mode request ready complete Hreq Hready Hcomplete.
  destruct (talks_chunk_loop "read local source file" p Hb) as (chunks & Hc & Hcat & Ht).
  exists chunks. split; [done|]. split; [done|]. unfold upload_file.
  apply talks_ensure; [by rewrite bool_decide_eq_false_2|].
  eapply talks_quiet with (R := fun _ => at_ d); [by apply talks_ret|]. intros ?. rewrite Hl.
  eapply talks_quiet with (R := fun x s => x = p /\ at_ d s).
  { apply talks_disk, works_map_err, works_at_path; [done|]. apply works_query. by rewrite Hp. }
  intros x. apply talks_prop. intros ->.
  eapply talks_quiet; [apply talks_disk, works_map_err, works_open_metadata|].
  intros x. apply talks_prop. intros ->.
  apply (talks_send (FPutRequest _)); [done|].
  apply (talks_bind _ _ [ready] [complete] [] _ _ (fun _ => at_ d)).
  { apply talks_recv_frame; [done|]. unfold ready. cbn [ready_size].
    unfold ensure. rewrite N.eqb_refl. by apply talks_ret. }
  intros ?. apply (talks_bind _ _ [] [complete] (chunk_frames chunks) [complete] _
    (fun n s => n = blen data /\ at_ d s)); [exact Ht|].
  intros n. apply talks_prop. intros ->. apply (talks_send complete); [done|].
  apply talks_recv_frame; [done|]. unfold complete. cbn [complete_size].
  unfold ensure. rewrite N.eqb_refl. by apply talks_ret.
Qed.
End client.

(** ** Both ends *)

(** The server's side of a stream, from its first frame. *)
Definition serve `{SerdeJson, SystemTexts, Machine, LiveShell, WalkDir, BlobStore}
    (st : ConnectionShellState) (mt : Metrics) : M conn IroshError Metrics := fun c =>
  let '(r, (c, mt)) := handle_transfer_stream st (c, mt) in ((fun _ => mt) <$> r, c).

Lemma talks_serve {SJ : SerdeJson} {SL : SerdeJsonLaws} {ST : SystemTexts} {MA : Machine} {LS : LiveShell}
    {WD : WalkDir} {BS : BlobStore} st mt f h i o P (Q : unit -> fs -> Prop) :
  fits f -> handler_of (from_state st) f = Some (h, true) -> talks h i o P Q ->
  talks (serve st mt) (f :: i) o P
    (fun mt' s => mt' = record_transfer_completed (record_transfer_initiated mt) /\ Q tt s).
Proof.
  intros Hf Hh Ht rest e buf o' we s Hs. rewrite wires_cons, <-app_assoc.
  destruct (Ht rest e buf o' we s Hs) as ([] & buf' & s' & E & Hq).
  eexists _, buf', s'. split; [|done]. unfold serve. rewrite handle_transfer_stream_spec.
  assert (recv_frame (mk_conn (mk_reader (wire f ++ wires i ++ rest) e) buf (mk_writer o' None we) s)
          = (Ok f, mk_conn (mk_reader (wires i ++ rest) e) buf (mk_writer o' None we) s)) as ->.
  { unfold recv_frame. cbn [incoming frame_buf outgoing local_fs]. by rewrite read_wire. }
  cbv zeta. rewrite Hh, settle_spec, E. done.
Qed.

(** C10: An upload arrives. Let the client's [upload_file] read a regular file
    of fewer than 2^64 bytes, and the server resolve the requested path to an
    absent file of an existing directory, both disks being reliable and the
    control frames within their limits. Then the two ends' conversations are
    mirror images: there are chunks such that the client, given the server's
    answers, succeeds having sent its request, the chunks and the completion;
    and the server, given exactly these frames, succeeds having sent exactly
    those answers, counts one completed transfer, and its disk is the old one
    with the file's content under the destination, with the permission bits
    of the local file; the client's disk is unchanged. *)
Theorem upload_arrives {SJ : SerdeJson} {SL : SerdeJsonLaws} {ST : SystemTexts} {MA : Machine}
    {LS : LiveShell} {WD : WalkDir} {BS : BlobStore}
    local remote data perm cmask cd smask sd c q m mt :
  let request := mk_PutRequest (request_path remote) (blen data) (Some (N.land perm 511)) false in
  let ready := FPutReady (mk_TransferReady (blen data) (Some (N.land perm 511))) in
  let complete := FPutComplete (mk_TransferComplete (blen data)) in
  fits (FPutRequest request) -> fits ready -> fits complete ->
  remote <> [] -> (blen data < 2 ^ 64)%N ->
  cd !! os_path local = Some (File data perm) -> walk cd (os_path local) = Ok (os_path local) ->
  resolve_path process_cwd home_dir Stateless (request_path remote) = Ok (c :: q) ->
  plain (c :: q) -> walk sd q = Ok q -> sd !! q = Some (Dir m) -> sd !! (c :: q) = None ->
  (forall u, sd !! (part_name (c :: q) u :: q) = None) ->
  exists chunks, concat chunks = data /\
    let up := FPutRequest request :: chunk_frames chunks ++ [complete] in
    let down := [ready; complete] in
    talks (upload_file (Some true) local remote) down up (disk_at cmask cd) (fun _ => disk_at cmask cd) /\
    talks (serve shell_state_new mt) up down (disk_at smask sd) (fun mt' s =>
      mt' = record_transfer_completed (record_transfer_initiated mt) /\
      disk_at smask (<[c :: q := File data (N.land perm 511)]> sd) s).
Proof.
  intros request ready complete Hreq Hready Hcomplete Hne Hb Hfile Hw Hres Hplain Hwalk Hdir Habs Hpart.
  destruct (talks_upload_file cmask cd data perm (os_path local) Hfile local remote eq_refl Hw Hne Hb
              Hreq Hready Hcomplete) as (chunks & Hc & Hcat & Ht).
  exists chunks. split; [done|]. split; [exact Ht|].
  subst data.
  apply (talks_serve _ mt (FPutRequest request) (handle_put_request Stateless request) _ _ _
           (fun _ => disk_at smask (<[c :: q := File (concat chunks) (N.land perm 511)]> sd))); [done..|].
  assert (placed_mode smask request = N.land perm 511) as <-.
  { unfold placed_mode. cbn [put_mode request]. by rewrite <-N.land_assoc. }
  by apply (talks_put smask c q m sd).
Qed.

(** ** Witness *)

Definition demo_home : disk := {[ [] := Dir 493; [bs "srv"] := Dir 493 ]}.

Definition demo_local : disk := <[[bs "f"; bs "srv"] := File (bs "abc") 420]> demo_home.

Lemma upload_arrives_witness :
  exists up down,
    @talks bit_json unit (@upload_file bit_json demo_texts demo_machine (Some true) (bs "srv/f") (bs "notes"))
      down up (disk_at 18 demo_local) (fun _ => disk_at 18 demo_local) /\
    @talks bit_json Metrics (@serve bit_json demo_texts demo_machine demo_shell demo_walk demo_store
        shell_state_new metrics_new)
      up down (disk_at 18 demo_home) (fun mt' s =>
        mt' = record_transfer_completed (record_transfer_initiated metrics_new) /\
        disk_at 18 (<[[bs "notes"; bs "srv"] := File (bs "abc") 420]> demo_home) s).
Proof.
  destruct (@upload_arrives bit_json bit_json_laws demo_texts demo_machine demo_shell demo_walk demo_store
    (bs "srv/f") (bs "notes") (bs "abc") 420 18 demo_local 18 demo_home (bs "notes") [bs "srv"] 493 metrics_new)
    as (chunks & _ & Hc & Hs).
  - apply fits_of. vm_compute. reflexivity.
  - apply fits_of. vm_compute. reflexivity.
  - apply fits_of. vm_compute. reflexivity.
  - discriminate.
  - apply N.ltb_lt. vm_compute. reflexivity.
  - vm_compute. reflexivity.
  - vm_compute. reflexivity.
  - vm_compute. reflexivity.
  - apply plain_of. vm_compute. reflexivity.
  - vm_compute. reflexivity.
  - vm_compute. reflexivity.
  - vm_compute. reflexivity.
  - intros u. unfold demo_home. apply lookup_insert_None. split; [|discriminate].
    apply lookup_singleton_None. discriminate.
  - eexists _, _. split; [exact Hc|exact Hs].
Defined.
