(* ===== verification/DownloadTrip.v ===== *)
(** * A download from end to end

    The conversations of [handle_get_request] and [download_file] on reliable
    disks: mirror images, after which the client's disk holds the file. *)

From S2P Require Import Prelude Text Stream TransferTypes TransferCodec Fs Paths Hoare Metrics.
From S2P Require Import Conn ShellOps ShellFacts Upload UploadFacts Download Control Blob Demo.
From S2P Require Import Dispatch ClientTransfer Confine TreeFacts Protocol UploadTrip.

#[local] Opaque MAX_CHUNK_BYTES.

(** ** The server *)

Section server.
Context {SJ : SerdeJson} {SL : SerdeJsonLaws} {ST : SystemTexts} {MA : Machine} {LS : LiveShell}
  {LL : LiveShellLaws} {WD : WalkDir}.
Variables (mask : N) (d : disk) (data : bytes) (perm : N) (p : path).
Hypothesis Hp : d !! p = Some (File data perm).
Hypothesis Hwalk : walk d p = Ok p.
Abbreviation at_ := (disk_at mask).

Lemma works_probe :
  works (probe_download_size Stateless p) (at_ d) (fun r s => r = Ok (blen data) /\ at_ d s).
Proof.
  unfold probe_download_size. eapply works_bind.
  - apply works_attempt, works_at_path; [done|]. apply works_query. by rewrite Hp.
  - intros r s (a & -> & -> & Hs). by exists (Ok (blen data)), s.
Qed.

Lemma works_source :
  works (spawn_download_helper Stateless p) (at_ d)
    (fun r s => r = (SourceFile p 0, display p) /\ at_ d s).
Proof.
  unfold spawn_download_helper. eapply works_bind.
  - apply works_map_err, works_at_path; [done|]. apply (works_query _ _ _ p). by rewrite Hp.
  - intros x. apply works_prop. intros ->. by apply works_ret.
Qed.

Lemma works_source_read offset :
  works (source_read (SourceFile p offset) (N.to_nat MAX_CHUNK_BYTES)) (at_ d)
    (fun r s => r = (next_chunk data offset, SourceFile p (offset + length (next_chunk data offset))) /\
                at_ d s).
Proof.
  unfold source_read. eapply works_bind; [by eapply works_read|]. intros b. apply works_prop. intros ->.
  by apply works_ret.
Qed.

Lemma talks_stream_loop :
  exists chunks, chunked chunks /\ concat chunks = data /\
    talks (stream_loop (SourceFile p 0)) [] (FGetChunk <$> chunks) (at_ d)
      (fun source s => source = SourceFile p (length data) /\ at_ d s).
Proof.
  apply (talks_file_loop mask d data source_left stream_turn (SourceFile p) (SourceFile p) FGetChunk 0).
  - apply stream_turn_decreases.
  - intros b Hb. by apply fits_chunk.
  - intros offset Ho E. unfold stream_turn, read_source.
    eapply talks_quiet; [apply talks_map_disk, works_source_read|].
    intros x. apply talks_prop. intros ->. rewrite decide_True by done. rewrite E. apply talks_ret.
    intros s Hs. split; [|done]. by rewrite Nat.add_0_r.
  - intros offset Ho E. unfold stream_turn, read_source.
    eapply talks_quiet; [apply talks_map_disk, works_source_read|].
    intros x. apply talks_prop. intros ->. rewrite decide_False by done.
    pose proof (next_chunk_length data offset) as (Hmax & _ & _).
    apply (talks_send (FGetChunk _)); [apply fits_chunk; unfold blen; lia|]. by apply talks_ret.
  - lia.
Qed.

Lemma talks_get request :
  get_recursive request = false ->
  resolve_path process_cwd home_dir Stateless (get_path request) = Ok p ->
  let ready := FGetReady (mk_TransferReady (blen data) None) in
  let complete := FGetComplete (mk_TransferComplete (blen data)) in
  fits ready -> fits complete ->
  exists chunks, chunked chunks /\ concat chunks = data /\
    talks (handle_get_request Stateless request) []
      (ready :: (FGetChunk <$> chunks) ++ [complete]) (at_ d) (fun _ s => at_ d s).
Proof.
  intros Hrec Hres ready complete Hready Hcomplete.
  destruct talks_stream_loop as (chunks & Hc & Hcat & Ht). exists chunks. split; [done|]. split; [done|].
  unfold handle_get_request, handle_single_get_request, resolved. rewrite Hrec, Hres.
  eapply talks_quiet with (R := fun x s => x = p /\ at_ d s).
  { apply talks_disk. intros s Hs. by exists p, s. }
  intros x. apply talks_prop. intros ->.
  eapply talks_quiet; [apply talks_disk, works_probe|]. intros x. apply talks_prop. intros ->.
  eapply talks_quiet; [apply talks_disk, works_source|]. intros x. apply talks_prop. intros ->.
  apply talks_ensure; [done|]. apply (talks_send ready); [done|].
  apply (talks_bind _ _ [] [] (FGetChunk <$> chunks) [complete] _ _ _ Ht).
  intros source. apply talks_prop. intros ->.
  eapply talks_quiet with (R := fun x s => x = false /\ at_ d s); [by apply talks_ret|].
  intros x. apply talks_prop. intros ->. by apply (talks_send_last complete).
Qed.
End server.

(** ** The client *)

Section client.
Context {SJ : SerdeJson} {SL : SerdeJsonLaws} {ST : SystemTexts} {MA : Machine} {WD : WalkDir}.
Variables (mask : N) (c : bytes) (q : path) (m : N) (d : disk).
Hypothesis Hplain : plain (c :: q).
Hypothesis Hwalk : walk d q = Ok q.
Hypothesis Hdir : d !! q = Some (Dir m).
Hypothesis Hdest : is_dir_node (d !! (c :: q)) = false.
Abbreviation at_ := (disk_at mask).
Abbreviation dest := (c :: q).
Abbreviation fresh_mode := (N.ldiff 438 mask).

(** The name of the temporary file. *)
Definition temp_name (u : N) : bytes := bs "." ++ c ++ bs "." ++ decimal u ++ bs ".irosh_part".
Hypothesis Htemp : forall u, d !! (temp_name u :: q) = None.

Lemma c_plain : plain_name c.
Proof. destruct Hplain as [_ H]. by inversion H. Qed.

Lemma q_proper : Forall proper q.
Proof. destruct Hplain as [_ H]. inversion H. by apply plain_proper. Qed.

Lemma temp_proper u : proper (temp_name u).
Proof.
  pose proof (temp_name_proper dest u) as H. rewrite name_or_transfer_plain in H by apply c_plain.
  apply H. constructor; [apply c_plain|apply q_proper].
Qed.

Lemma temp_not_dest u : temp_name u <> c.
Proof.
  intros E. apply (f_equal length) in E. unfold temp_name in E. rewrite !length_app in E. simpl in E. lia.
Qed.

Lemma works_temp :
  works (temp_transfer_path dest) (at_ d) (fun t s => exists u, t = temp_name u :: q /\ at_ d s).
Proof.
  intros s Hs. eexists _, s. split; [done|]. exists (clock (ticks s) / 1000)%N.
  split; [|done]. cbn [parent default from_option id]. by rewrite name_or_transfer_plain by apply c_plain.
Qed.

Section temp.
Variable u : N.
Abbreviation temp := (temp_name u :: q).
Abbreviation filled := (staging mask q d (temp_name u)).

Lemma talks_create_temp :
  talks (create_temp temp) [] [] (at_ d) (fun h s => h = (temp, None) /\ at_ (filled []) s).
Proof.
  unfold create_temp. eapply talks_quiet.
  - eapply talks_disk, works_map_err, works_stage; eauto using temp_proper.
  - intros x. apply talks_prop. intros ->. by apply talks_ret.
Qed.

Lemma talks_write_dest pre b :
  talks (write_dest temp (temp, None) b) [] [] (at_ (filled pre))
    (fun h s => h = (temp, None) /\ at_ (filled (pre ++ b)) s).
Proof.
  unfold write_dest. eapply talks_quiet; [apply talks_disk, works_fill|].
  intros x. apply talks_prop. intros ->. by apply talks_ret.
Qed.

Lemma download_turn_shrinks remote size a f : shrinks backlog (download_turn remote temp size a f).
Proof. unfold download_turn, write_dest, client. shrinking. Qed.

Lemma talks_download_loop remote size chunks pre :
  chunked chunks -> (blen (pre ++ concat chunks) < 2 ^ 64)%N -> size = blen (pre ++ concat chunks) ->
  fits (FGetComplete (mk_TransferComplete size)) ->
  talks (frame_loop (fun a => frame ← recv; download_turn remote temp size a frame)
           ((temp, None), blen pre))
    ((FGetChunk <$> chunks) ++ [FGetComplete (mk_TransferComplete size)]) []
    (at_ (filled pre))
    (fun h s => h = (temp, None) /\ at_ (filled (pre ++ concat chunks)) s).
Proof.
  intros Hc Hlt Hsize Hfit.
  assert (decreases unread (fun a => frame ← recv; download_turn remote temp size a frame)) as Hdec.
  { apply reads_first. intros. apply download_turn_shrinks. }
  revert pre Hlt Hsize. induction Hc as [|b chunks Hb Hc IH]; intros pre Hlt Hsize.
  - cbn [concat fmap list_fmap app] in *. rewrite app_nil_r in *.
    apply (talks_loop_done _ _ _ _ _ _ _ Hdec).
    apply talks_recv; [done|]. cbn [borrowed download_turn complete_size].
    rewrite <-Hsize, N.eqb_refl. cbn [negb orb]. apply talks_ret. eauto.
  - cbn [concat] in *. rewrite app_assoc in *.
    apply (talks_loop_next _ _ _ ((temp, None), blen (pre ++ b)) [FGetChunk b] _ [] []
             _ (at_ (filled (pre ++ b))) _ Hdec); [|by apply IH].
    apply talks_recv; [by apply fits_chunk|]. cbn [borrowed download_turn].
    rewrite !blen_app in *. rewrite (add_u64_small (blen pre)) by lia.
    eapply talks_quiet; [apply talks_write_dest|]. intros x. apply talks_prop. intros ->.
    by apply talks_ret.
Qed.

Lemma talks_persist content :
  talks (persist_temp_file temp dest) [] [] (at_ (filled content))
    (fun _ s => at_ (<[dest := File content fresh_mode]> d) s).
Proof.
  destruct (staging_dir mask q m d (temp_name u) Hwalk q_proper Hdir content) as [Hw Hd].
  unfold persist_temp_file. cbn [parent].
  eapply talks_quiet; [by eapply talks_disk, works_map_err, works_existing|]. intros ?.
  eapply talks_quiet.
  - eapply talks_attempt_disk, works_unstage; eauto using temp_proper, temp_not_dest, q_proper.
    apply c_plain.
  - intros r. apply talks_ex. intros x. apply talks_prop. intros ->. by apply talks_ret.
Qed.
End temp.

Lemma talks_download_file chunks local remote :
  os_path local = dest -> local <> [] -> remote <> [] -> chunked chunks ->
  (blen (concat chunks) < 2 ^ 64)%N ->
  let request := FGetRequest (mk_GetRequest (request_path remote) false) in
  let ready := FGetReady (mk_TransferReady (blen (concat chunks)) None) in
  let complete := FGetComplete (mk_TransferComplete (blen (concat chunks))) in
  fits request -> fits ready -> fits complete ->
  talks (download_file (Some true) remote local)
    (ready :: (FGetChunk <$> chunks) ++ [complete]) [request] (at_ d)
    (fun _ s => at_ (<[dest := File (concat chunks) fresh_mode]> d) s).
Proof.
  intros Hl Hlne Hrne Hc Hb request ready complete Hreq Hready Hcomplete. unfold download_file.
  apply talks_ensure; [by rewrite bool_decide_eq_false_2|].
  apply talks_ensure; [by rewrite bool_decide_eq_false_2|].
  eapply talks_quiet with (R := fun _ => at_ d); [by apply talks_ret|]. intros ?. rewrite Hl.
  apply (talks_send request); [done|]. apply talks_recv_frame; [done|].
  eapply talks_quiet with (R := fun x s => x = (blen (concat chunks), None) /\ at_ d s);
    [by apply talks_ret|].
  intros x. apply talks_prop. intros ->.
  eapply talks_quiet; [apply talks_disk, works_temp|]. intros temp. apply talks_ex. intros u.
  apply talks_prop. intros ->.
  eapply talks_quiet with (R := fun _ => at_ d).
  { unfold make_parent. cbn [parent]. eapply talks_ignore_disk. by eapply works_existing. }
  intros ?. eapply talks_quiet; [apply talks_create_temp|]. intros x. apply talks_prop. intros ->.
  rewrite <-(app_nil_r ((FGetChunk <$> chunks) ++ [complete])).
  apply (talks_bind _ _ _ [] [] [] _
           (fun _ => at_ (staging mask q d (temp_name u) (concat chunks)))).
  - apply talks_on_error. unfold fill_temp. eapply talks_quiet; [apply talks_fresh|]. intros ?.
    rewrite <-(app_nil_r ((FGetChunk <$> chunks) ++ [complete])).
    eapply (talks_bind _ _ _ [] [] []); [by apply (talks_download_loop u remote _ chunks [])|].
    intros h. apply talks_prop. intros ->. by apply talks_ret.
  - intros ?. eapply talks_quiet; [apply talks_persist|]. intros ?. by apply talks_ret.
Qed.
End client.

(** C31: A download arrives. Let the requested path resolve to a regular file
    of fewer than 2^64 bytes on the server, and the local path name an absent
    or regular file of an existing directory, on reliable disks and with
    control frames within their limits. Then the conversations of
    [handle_transfer_stream] and [download_file] are mirror images: the server
    answers the request with the size, the content in chunks and the
    completion, and counts one completed transfer; the client, given exactly
    these frames, succeeds, and its disk is the old one with exactly the
    file's content under the local path. *)
Theorem download_arrives {SJ : SerdeJson} {SL : SerdeJsonLaws} {ST : SystemTexts} {MA : Machine}
    {LS : LiveShell} {LL : LiveShellLaws} {WD : WalkDir} {BS : BlobStore}
    local remote data perm cmask cd smask sd p c q m mt :
  let request := FGetRequest (mk_GetRequest (request_path remote) false) in
  let ready := FGetReady (mk_TransferReady (blen data) None) in
  let complete := FGetComplete (mk_TransferComplete (blen data)) in
  fits request -> fits ready -> fits complete ->
  remote <> [] -> local <> [] -> (blen data < 2 ^ 64)%N ->
  resolve_path process_cwd home_dir Stateless (request_path remote) = Ok p ->
  sd !! p = Some (File data perm) -> walk sd p = Ok p ->
  os_path local = c :: q -> plain (c :: q) -> walk cd q = Ok q -> cd !! q = Some (Dir m) ->
  is_dir_node (cd !! (c :: q)) = false -> (forall u, cd !! (temp_name c u :: q) = None) ->
  exists chunks, concat chunks = data /\
    let down := ready :: (FGetChunk <$> chunks) ++ [complete] in
    talks (download_file (Some true) remote local) down [request] (disk_at cmask cd)
      (fun _ => disk_at cmask (<[c :: q := File data (N.ldiff 438 cmask)]> cd)) /\
    talks (serve shell_state_new mt) [request] down (disk_at smask sd) (fun mt' s =>
      mt' = record_transfer_completed (record_transfer_initiated mt) /\ disk_at smask sd s).
Proof.
  intros request ready complete Hreq Hready Hcomplete Hr Hl Hb Hres Hfile Hw Hos Hp Hwalk Hdir Hdest Htemp.
  destruct (talks_get smask sd data perm p Hfile Hw (mk_GetRequest (request_path remote) false) eq_refl Hres
              Hready Hcomplete) as (chunks & Hc & Hcat & Ht).
  exists chunks. split; [done|]. split.
  - subst data. by eapply talks_download_file.
  - by apply (talks_serve _ mt request
      (handle_get_request Stateless (mk_GetRequest (request_path remote) false)) _ _ _
      (fun _ => disk_at smask sd)).
Qed.

(** ** Witness *)

Lemma download_arrives_witness :
  let request := FGetRequest (mk_GetRequest (bs "f") false) in
  exists down,
    @talks bit_json unit (@download_file bit_json demo_texts demo_machine (Some true) (bs "f") (bs "srv/g"))
      down [request] (disk_at 18 demo_home)
      (fun _ => disk_at 18 (<[[bs "g"; bs "srv"] := File (bs "abc") 420]> demo_home)) /\
    @talks bit_json Metrics (@serve bit_json demo_texts demo_machine demo_shell demo_walk demo_store
        shell_state_new metrics_new)
      [request] down (disk_at 18 demo_local) (fun mt' s =>
        mt' = record_transfer_completed (record_transfer_initiated metrics_new) /\
        disk_at 18 demo_local s).
Proof.
  intros request.
  destruct (@download_arrives bit_json bit_json_laws demo_texts demo_machine demo_shell demo_shell_laws
    demo_walk demo_store (bs "srv/g") (bs "f") (bs "abc") 420 18 demo_home 18 demo_local
    [bs "f"; bs "srv"] (bs "g") [bs "srv"] 493 metrics_new) as (chunks & _ & Hc & Hs).
  - apply fits_of. vm_compute. reflexivity.
  - apply fits_of. vm_compute. reflexivity.
  - apply fits_of. vm_compute. reflexivity.
  - discriminate.
  - discriminate.
  - apply N.ltb_lt. vm_compute. reflexivity.
  - vm_compute. reflexivity.
  - vm_compute. reflexivity.
  - vm_compute. reflexivity.
  - vm_compute. reflexivity.
  - apply plain_of. vm_compute. reflexivity.
  - vm_compute. reflexivity.
  - vm_compute. reflexivity.
  - vm_compute. reflexivity.
  - intros u. unfold demo_home. apply lookup_insert_None. split; [|discriminate].
    apply lookup_singleton_None. discriminate.
  - eexists. split; [exact Hc|exact Hs].
Defined.
