(* ===== verification/BlobTrip.v ===== *)
(** * A collection from end to end

    The framing of collections: what [send_blobs] sends, blob by blob behind an
    eight-byte length, is what the loop of [handle_blob_put_request] passes to
    [add_bytes], so the server's store ends as if it had been given these
    blobs one after the other. *)

From S2P Require Import Prelude Text Stream TransferTypes TransferCodec Fs Paths Hoare Metrics.
From S2P Require Import Conn ShellOps ShellFacts Upload UploadFacts Download Control Blob Demo.
From S2P Require Import BlobFacts ClientTransfer ClientBlob Protocol UploadTrip.

#[local] Opaque MAX_CHUNK_BYTES.

Abbreviation anywhere := (fun _ : fs => True).
Abbreviation exactly s := (fun s' : fs => s' = s).

(** Chunks that carry something. *)
Definition pieces (data : bytes) (chunks : list bytes) : Prop :=
  chunked chunks /\ Forall (fun b => b <> []) chunks /\ concat chunks = data.

(** ** Sending *)

Section sender.
Context {SJ : SerdeJson} {SL : SerdeJsonLaws} {ST : SystemTexts} {MA : Machine} {BS : BlobStore}.

Lemma slice_decreases (data : bytes) :
  decreases (fun offset (_ : conn) => length data - offset) (slice_turn data).
Proof.
  intros offset c offset' c'. unfold slice_turn. case_decide; [|done].
  intros (u & c1 & _ & [= <- _])%bind_ok_inv. pose proof max_chunk_positive. lia.
Qed.

Lemma talks_slices data offset :
  offset <= length data ->
  exists chunks, pieces (drop offset data) chunks /\
    talks (loop (fun offset (_ : conn) => length data - offset) EDiverged (slice_turn data) offset)
      [] (chunk_frames chunks) anywhere (fun _ => anywhere).
Proof.
  intros Ho. remember (length data - offset) as k eqn:Hk. revert offset Ho Hk.
  induction k as [k IH] using lt_wf_ind. intros offset Ho ->.
  destruct (decide (offset < length data)) as [Hlt|Hge].
  - set (stop := min (offset + N.to_nat MAX_CHUNK_BYTES) (length data)).
    pose proof max_chunk_positive as Hpos.
    destruct (IH (length data - stop)) with (offset := stop) as (chunks & (Hc & Hn & Hcat) & Ht); [lia..|].
    set (b := take (stop - offset) (drop offset data)).
    assert (length b = stop - offset) as Hb by (unfold b; rewrite length_take, length_drop; lia).
    exists (b :: chunks). split; [split_and!|].
    + constructor; [|done]. unfold blen. lia.
    + constructor; [|done]. destruct b; [simpl in Hb; lia|done].
    + cbn [concat]. rewrite Hcat. replace stop with (offset + length b) by lia.
      rewrite <-drop_drop. apply take_drop_length.
    + refine (talks_loop_next _ _ _ stop [] [] [FPutChunk b] (chunk_frames chunks) _ anywhere _
                (slice_decreases data) _ Ht).
      unfold slice_turn. rewrite decide_True by done.
      apply (talks_send (FPutChunk b)); [apply fits_chunk; unfold blen; lia|]. by apply talks_ret.
  - exists []. assert (offset = length data) as -> by lia. rewrite drop_all.
    split; [by repeat constructor|]. apply (talks_loop_done _ _ _ _ _ _ _ (slice_decreases data)).
    unfold slice_turn. rewrite decide_False by done. apply talks_ret. eauto.
Qed.

(** One blob: its length and its pieces. *)
Definition blob_frames (data : bytes) (chunks : list bytes) : list TransferFrame :=
  FPutChunk (be_bytes 8 (blen data)) :: chunk_frames chunks.

Lemma talks_send_raw_blob data :
  exists chunks, pieces data chunks /\
    talks (send_raw_blob data) [] (blob_frames data chunks) anywhere
      (fun n _ => n = (8 + blen data)%N).
Proof.
  destruct (talks_slices data 0) as (chunks & Hp & Ht); [lia|]. exists chunks. split; [done|].
  unfold send_raw_blob. apply (talks_send (FPutChunk _)).
  { apply fits_chunk. unfold blen. rewrite be_bytes_length. by vm_compute. }
  rewrite <-(app_nil_r (chunk_frames chunks)).
  apply (talks_bind _ _ [] [] _ [] _ (fun _ => anywhere)); [exact Ht|]. intros ?. by apply talks_ret.
Qed.
End sender.

(** ** Receiving *)

(** The store takes what it is given. *)
Definition store_takes {BS : BlobStore} : Prop :=
  forall data s, existsb (fun i => match i with AddError _ => true | _ => false end)
                   (add_bytes data s).1 = false.

Section receiver.
Context {SJ : SerdeJson} {SL : SerdeJsonLaws} {ST : SystemTexts} {MA : Machine} {BS : BlobStore}.
Hypothesis Hstore : store_takes.
Hypothesis Hmemory : forall n, (n <= MAX_IN_MEMORY_TRANSFER_BYTES)%N -> can_reserve n = true.

Lemma add_result_taken context h n items :
  existsb (fun i => match i with AddError _ => true | _ => false end) items = false ->
  is_ok (add_result context h n items) = true.
Proof.
  revert h n. induction items as [|i items IH]; intros h n; [done|]. cbn [existsb].
  intros [Hi Hr]%orb_false_iff. destruct i; simpl; [by apply IH|by apply IH|done|by apply IH].
Qed.

(** Between blobs, after [n] of them, and midway one. *)
Definition between (received n : N) : BlobSeq := mk_BlobSeq 0 [] n false None received.

Definition midway (size received : N) (got : bytes) (n : N) : BlobSeq :=
  mk_BlobSeq (size - blen got) got n true (acquire size) received.

Lemma talks_store received n data size s :
  talks (store_complete (mk_BlobSeq 0 data n true (acquire size) received))
    [] [] (exactly s) (fun b s' => b = between received (n + 1) /\ s' = (add_bytes data s).2).
Proof.
  unfold store_complete. cbn [bs_remaining bs_started N.eqb andb bs_current].
  eapply talks_quiet with (R := fun items s' => items = (add_bytes data s).1 /\ s' = (add_bytes data s).2).
  { apply talks_disk. intros s' ->. unfold store_op. destruct (add_bytes data s) as [items s2]. by eexists _, _. }
  intros items rest e buf o we s' [-> ->].
  pose proof (add_result_taken (bs "failed to add blob to store: ") None 0 _ (Hstore data s)) as Ha.
  unfold lift, mbind, M_bind. destruct (add_result _ _ _ _) as [x|]; [|done].
  eexists _, buf, _. split; [by rewrite app_nil_r|done].
Qed.

Lemma cap_passes n P :
  (n <= MAX_IN_MEMORY_TRANSFER_BYTES)%N -> talks (ensure_within_cap n) [] [] P (fun _ => P).
Proof.
  intros Hn. unfold ensure_within_cap, ensure. rewrite (proj2 (N.ltb_ge _ _)) by done. by apply talks_ret.
Qed.

(** The state after the accepted data: a complete blob has gone to the store. *)
Definition after (size received : N) (got : bytes) (n : N) : BlobSeq :=
  if (size =? blen got)%N then between received (n + 1) else midway size received got n.

Definition store_after (size : N) (got : bytes) (s : fs) : fs :=
  if (size =? blen got)%N then (add_bytes got s).2 else s.

(** The end of a turn that has accepted its data. *)
Lemma talks_accepted received n got size k s :
  (blen got <= size)%N -> (received + k < 2 ^ 64)%N -> (received + k <= MAX_IN_MEMORY_TRANSFER_BYTES)%N ->
  talks (match checked_add received k with
         | None => throw (failed Internal (bs "transfer size overflow"))
         | Some received =>
             ensure_within_cap received;;
             b ← store_complete (mk_BlobSeq (size - blen got) got n true (acquire size) received);
             mret (inl b)
         end) [] [] (exactly s)
    (fun x s' => x = inl (B := BlobSeq) (after size (received + k) got n) /\ s' = store_after size got s).
Proof.
  intros Hle Hlt Hcap. unfold checked_add. rewrite (proj2 (N.ltb_lt _ _)) by done.
  eapply talks_quiet; [by apply cap_passes|]. intros ?. unfold after, store_after.
  destruct (N.eqb_spec size (blen got)) as [E|E].
  - rewrite E, N.sub_diag. eapply talks_quiet; [apply talks_store|].
    intros b. apply talks_prop. intros ->. apply talks_ret. by intros s' ->.
  - unfold store_complete. cbn [bs_remaining bs_started].
    rewrite (proj2 (N.eqb_neq _ _)) by lia. cbn [andb].
    eapply talks_quiet with (R := fun b s' => b = midway size (received + k) got n /\ s' = s);
      [by apply talks_ret|].
    intros b. apply talks_prop. intros ->. apply talks_ret. by intros s' ->.
Qed.

Lemma talks_prefix received n size s :
  (received + 8 <= MAX_IN_MEMORY_TRANSFER_BYTES)%N -> (received + size <= MAX_IN_MEMORY_TRANSFER_BYTES)%N ->
  talks (frame ← receive; blob_seq_turn (between received n) frame)
    [FPutChunk (be_bytes 8 size)] [] (exactly s)
    (fun x s' => x = inl (B := BlobSeq) (after size (received + 8) [] n) /\ s' = store_after size [] s).
Proof.
  intros H8 Hs. assert (MAX_IN_MEMORY_TRANSFER_BYTES < 2 ^ 64)%N as Hmax by done.
  assert (length (be_bytes 8 size) = 8) as Hlen by apply be_bytes_length.
  assert (be_val (be_bytes 8 size) = size) as Hval by (apply be_val_bytes; change (256 ^ N.of_nat 8)%N with (2 ^ 64)%N; lia).
  unfold receive. apply talks_recv; [by apply fits_chunk; unfold blen; rewrite Hlen|].
  unfold blob_seq_turn. cbn [borrowed].
  eapply talks_quiet with (R := fun b s' => b = mk_BlobSeq size [] n true (acquire size) received /\ s' = s).
  - unfold accept_chunk. cbn [bs_remaining between N.eqb]. rewrite Hlen.
    apply talks_ensure; [done|]. rewrite take_ge, drop_ge, Hval by lia.
    apply talks_ensure; [apply negb_true_iff, N.ltb_ge; lia|].
    eapply talks_quiet; [apply cap_passes; cbn [bs_received between]; unfold add_u64; rewrite N.mod_small; lia|]. intros ?.
    apply talks_ensure; [apply Hmemory; lia|].
    unfold checked_sub. cbn [blen length N.of_nat N.leb]. rewrite (proj2 (N.leb_le _ _)) by apply N.le_0_l.
    apply talks_ret. intros s' ->. unfold blen. cbn [length N.of_nat]. by rewrite N.sub_0_r.
  - intros b. apply talks_prop. intros ->. cbn [bs_received bs_remaining bs_current bs_count bs_started bs_held].
    assert (blen (be_bytes 8 size) = 8%N) as -> by (unfold blen; by rewrite Hlen).
    pose proof (talks_accepted received n [] size 8 s) as H.
    replace (size - blen [])%N with size in H by (unfold blen; simpl; lia).
    apply H; [unfold blen; simpl; lia|lia|done].
Qed.

Lemma talks_piece received n got size b s :
  b <> [] -> (blen b <= MAX_CHUNK_BYTES)%N -> (blen got + blen b <= size)%N ->
  (received + blen b <= MAX_IN_MEMORY_TRANSFER_BYTES)%N ->
  talks (frame ← receive; blob_seq_turn (midway size received got n) frame)
    [FPutChunk b] [] (exactly s)
    (fun x s' => x = inl (B := BlobSeq) (after size (received + blen b) (got ++ b) n) /\
       s' = store_after size (got ++ b) s).
Proof.
  intros Hne Hb Hs Hcap. assert (MAX_IN_MEMORY_TRANSFER_BYTES < 2 ^ 64)%N as Hmax by done.
  assert (0 < blen b)%N as Hpos by (unfold blen; destruct b; simpl; [done|lia]).
  unfold receive. apply talks_recv; [by apply fits_chunk|]. unfold blob_seq_turn. cbn [borrowed].
  eapply talks_quiet with (R := fun x s' => x = mk_BlobSeq (size - blen (got ++ b)) (got ++ b)
    n true (acquire size) received /\ s' = s).
  - unfold accept_chunk. cbn [bs_remaining midway]. rewrite (proj2 (N.eqb_neq _ _)) by lia.
    unfold checked_sub. rewrite (proj2 (N.leb_le _ _)) by lia.
    apply talks_ret. intros s' ->. cbn [bs_current bs_count bs_started bs_held bs_received midway].
    split; [|done]. rewrite blen_app. f_equal. lia.
  - intros x. apply talks_prop. intros ->.
    cbn [bs_received bs_remaining bs_current bs_count bs_started bs_held].
    apply talks_accepted; rewrite ?blen_app; lia.
Qed.

Lemma talks_rest_of_blob rest Q n size s chunks : forall got received,
  chunked chunks -> Forall (fun b => b <> []) chunks -> (blen got + blen (concat chunks) = size)%N ->
  (received + blen (concat chunks) <= MAX_IN_MEMORY_TRANSFER_BYTES)%N ->
  talks (blob_seq_loop (between (received + blen (concat chunks)) (n + 1)))
    rest [] (exactly (add_bytes (got ++ concat chunks) s).2) Q ->
  talks (blob_seq_loop (after size received got n)) (chunk_frames chunks ++ rest) []
    (exactly (store_after size got s)) Q.
Proof.
  induction chunks as [|b chunks IH]; intros got received Hc Hne Hs Hcap Hrest; cbn [concat] in *.
  - rewrite app_nil_r in Hrest. unfold blen in Hs, Hrest. cbn [length N.of_nat] in Hs, Hrest.
    rewrite N.add_0_r in Hs, Hrest. unfold after, store_after, blen. by rewrite (proj2 (N.eqb_eq _ _)).
  - rewrite blen_app in Hs, Hcap, Hrest.
    apply Forall_cons_1 in Hc as [Hb Hc]. apply Forall_cons_1 in Hne as [Hb0 Hne].
    assert (0 < blen b)%N as Hpos by (unfold blen; destruct b; simpl; [done|lia]).
    unfold after, store_after. rewrite (proj2 (N.eqb_neq _ _)) by lia.
    refine (talks_loop_next _ _ _ (after size (received + blen b) (got ++ b) n) [FPutChunk b]
              (chunk_frames chunks ++ rest) [] [] _ (exactly (store_after size (got ++ b) s)) _
              blob_seq_loop_decreases _ _).
    + apply talks_piece; [done..|lia|lia].
    + apply IH; [done|done|rewrite blen_app; lia|lia|]. by rewrite <-app_assoc, <-N.add_assoc.
Qed.

Lemma talks_one_blob rest Q n data chunks received s :
  pieces data chunks -> (received + (8 + blen data) <= MAX_IN_MEMORY_TRANSFER_BYTES)%N ->
  talks (blob_seq_loop (between (received + (8 + blen data)) (n + 1))) rest []
    (exactly (add_bytes data s).2) Q ->
  talks (blob_seq_loop (between received n)) (blob_frames data chunks ++ rest) [] (exactly s) Q.
Proof.
  intros (Hc & Hne & Hd) Hcap Hrest.
  refine (talks_loop_next _ _ _ (after (blen data) (received + 8) [] n) [FPutChunk (be_bytes 8 (blen data))]
            (chunk_frames chunks ++ rest) [] [] _ (exactly (store_after (blen data) [] s)) _
            blob_seq_loop_decreases _ _).
  - apply talks_prefix; lia.
  - apply talks_rest_of_blob; [done|done|by rewrite Hd|rewrite Hd; lia|].
    by rewrite Hd, <-N.add_assoc.
Qed.

Lemma framed_size_cons data blobs :
  framed_size (data :: blobs) = (8 + blen data + framed_size blobs)%N.
Proof. done. Qed.

#[local] Opaque framed_size.

(** Blob after blob. *)
Fixpoint collection_frames (blobs : list bytes) (chunks : list (list bytes)) : list TransferFrame :=
  match blobs, chunks with
  | data :: blobs, c :: chunks => blob_frames data c ++ collection_frames blobs chunks
  | _, _ => []
  end.

Lemma talks_blobs rest Q blobs chunks : Forall2 pieces blobs chunks -> forall received n s,
  (received + framed_size blobs <= MAX_IN_MEMORY_TRANSFER_BYTES)%N ->
  talks (blob_seq_loop (between (received + framed_size blobs) (n + N.of_nat (length blobs)))) rest []
    (exactly (store_all blobs s)) Q ->
  talks (blob_seq_loop (between received n)) (collection_frames blobs chunks ++ rest) [] (exactly s) Q.
Proof.
  induction 1 as [|data c blobs chunks Hp _ IH]; intros received n s Hcap Hrest.
  - change (framed_size []) with 0%N in Hrest. cbn [length N.of_nat] in Hrest. by rewrite !N.add_0_r in Hrest.
  - rewrite framed_size_cons in *. cbn [collection_frames length] in *. rewrite <-app_assoc.
    apply talks_one_blob; [done|lia|]. apply IH; [lia|].
    rewrite <-N.add_assoc. replace (n + 1 + N.of_nat (length blobs))%N with (n + N.of_nat (S (length blobs)))%N by lia.
    exact Hrest.
Qed.

Lemma collection_frames_app blobs1 blobs2 chunks1 chunks2 :
  Forall2 pieces blobs1 chunks1 ->
  collection_frames (blobs1 ++ blobs2) (chunks1 ++ chunks2)
  = collection_frames blobs1 chunks1 ++ collection_frames blobs2 chunks2.
Proof. induction 1 as [|d c b ch _ _ IH]; [done|]. simpl. by rewrite IH, <-app_assoc. Qed.

Lemma talks_send_blobs blobs : forall n,
  (n + framed_size blobs < 2 ^ 64)%N ->
  exists chunks, Forall2 pieces blobs chunks /\
    talks (send_blobs n blobs) [] (collection_frames blobs chunks) anywhere
      (fun x _ => x = (n + framed_size blobs)%N).
Proof.
  induction blobs as [|data blobs IH]; intros n Hn.
  - exists []. split; [constructor|]. apply talks_ret. intros s _. change (framed_size []) with 0%N. lia.
  - rewrite framed_size_cons in *. destruct (talks_send_raw_blob data) as (c & Hc & Ht).
    destruct (IH (n + (8 + blen data))%N) as (chunks & Hcs & Hts); [lia|].
    exists (c :: chunks). split; [by constructor|]. cbn [collection_frames send_blobs].
    apply (talks_bind _ _ [] [] _ _ _ _ _ Ht). intros x. apply (talks_prop' (x = _)). intros ->.
    unfold add_u64. rewrite N.mod_small by lia.
    eapply talks_conseq; [exact Hts|done|]. intros x s ->. lia.
Qed.

Lemma talks_send_children collection files :
  Forall2 (fun entry data => works (read_blob entry.2) anywhere (fun x _ => x = data)) collection files ->
  forall n, (n + framed_size files < 2 ^ 64)%N ->
  exists chunks, Forall2 pieces files chunks /\
    talks (send_children n collection) [] (collection_frames files chunks) anywhere
      (fun x _ => x = (n + framed_size files)%N).
Proof.
  induction 1 as [|[name h] data collection files Hread _ IH]; intros n Hn.
  - exists []. split; [constructor|]. apply talks_ret. intros s _. change (framed_size []) with 0%N. lia.
  - rewrite framed_size_cons in *. destruct (talks_send_raw_blob data) as (c & Hc & Ht).
    destruct (IH (n + (8 + blen data))%N) as (chunks & Hcs & Hts); [lia|].
    exists (c :: chunks). split; [by constructor|]. cbn [collection_frames send_children].
    apply (talks_bind _ _ [] [] _ _ _ (fun x _ => x = (8 + blen data)%N)).
    + unfold send_blob_from_store. eapply talks_quiet; [apply talks_disk, works_map_err, Hread|].
      intros x. apply (talks_prop' (x = _)). intros ->. exact Ht.
    + intros x. apply (talks_prop' (x = _)). intros ->.
      unfold add_u64. rewrite N.mod_small by lia.
      eapply talks_conseq; [exact Hts|done|]. intros x s ->. lia.
Qed.
End receiver.

(** C37: A collection arrives as it was sent. When the files of a collection can
    be read from the client's store, its blobs with their length prefixes stay
    within the in-memory limit, the server can allocate such sizes and its
    store reports no error, there is a sequence of chunk frames such that the
    client, sending the files and then the collection's own blobs, sends
    exactly these frames and counts their framed size; and the server's
    receiving loop, given these frames and a completion, leaves its store
    exactly as calling [add_bytes] on each of those blobs, in that order,
    leaves it, whatever [add_bytes] does, and has counted the blobs and their
    bytes, with nothing else in progress. Empty blobs and blobs of several
    chunks included. *)
Theorem collection_arrives {SJ : SerdeJson} {SL : SerdeJsonLaws} {ST : SystemTexts} {MA : Machine}
    {BS : BlobStore} collection files complete :
  let blobs := files ++ collection_blobs collection in
  store_takes ->
  (forall n, (n <= MAX_IN_MEMORY_TRANSFER_BYTES)%N -> can_reserve n = true) ->
  fits (FPutComplete complete) ->
  Forall2 (fun entry data => works (read_blob entry.2) anywhere (fun x _ => x = data)) collection files ->
  (framed_size blobs <= MAX_IN_MEMORY_TRANSFER_BYTES)%N ->
  exists frames,
    talks (sent ← send_children 0 collection; send_blobs sent (collection_blobs collection))
      [] frames anywhere (fun n _ => n = framed_size blobs) /\
    forall s, talks (blob_seq_loop blob_seq_new) (frames ++ [FPutComplete complete]) [] (exactly s)
      (fun b s' => b = between (framed_size blobs) (N.of_nat (length blobs)) /\ s' = store_all blobs s).
Proof.
  intros blobs Hst Hmem Hfit Hfiles Hcap. assert (MAX_IN_MEMORY_TRANSFER_BYTES < 2 ^ 64)%N as Hmax by done.
  pose proof (framed_size_app files (collection_blobs collection)) as Hsum. fold blobs in Hsum.
  destruct (talks_send_children _ _ Hfiles 0) as (ch1 & Hp1 & Ht1); [lia|].
  destruct (talks_send_blobs (collection_blobs collection) (framed_size files)) as (ch2 & Hp2 & Ht2); [lia|].
  exists (collection_frames blobs (ch1 ++ ch2)). unfold blobs at 1. split.
  - rewrite collection_frames_app by done. apply (talks_bind _ _ [] [] _ _ _ _ _ Ht1).
    intros x. apply (talks_prop' (x = _)). intros ->.
    eapply talks_conseq; [exact Ht2|done|]. by intros x s ->.
  - intros s. apply (talks_blobs Hst Hmem _ _ blobs (ch1 ++ ch2)) with (received := 0%N) (n := 0%N);
      [by apply Forall2_app|done|].
    rewrite !N.add_0_l. apply talks_loop_done; [apply blob_seq_loop_decreases|].
    unfold receive. apply talks_recv; [done|]. apply talks_ret. intros s' ->. by eexists.
Qed.

(** A store that keeps what it is given in a directory of the server. *)
Definition shelf (data : bytes) : path := [data; bs "blobs"; bs "srv"].

Definition shelf_store : BlobStore := {|
  hash := bytes;
  hash_eq_dec := _;
  hash_from_str := Ok;
  hash_to_string h := h;
  add_bytes data s := ([AddSize (blen data); AddDone data],
                       tick s (<[shelf data := File data 420]> (nodes s)));
  add_path p s := ([AddError (bs "not used")], s);
  blob_status h := mret (StatusComplete (blen h));
  read_blob h := mret h;
  read_blob_at h n len := mret (take len (drop n h));
  blob_left h n _ := length h - n;
  load_collection h := mret [];
  collection_blobs c := [bs "header"; c ≫= fun e => e.2];
  export_blob h p := demo_io (file_create p;; file_write_all p h);
  fetch_blob _ s := ([GetDone], s);
|}.

(** Two files, one of them empty, on that store. *)
Lemma collection_arrives_witness :
  let collection := [(bs "a", bs "abc"); (bs "b", [])] in
  let blobs := [bs "abc"; []; bs "header"; bs "abc"] in
  let empty := demo_disk (fun _ => None) in
  nodes (@store_all shelf_store blobs empty) !! shelf (bs "header") = Some (File (bs "header") 420) /\
  exists frames,
    @talks bit_json N (sent ← @send_children shelf_store 0 collection;
                       send_blobs sent [bs "header"; bs "abc"]) [] frames anywhere (fun n _ => n = 44%N) /\
    forall s, @talks bit_json BlobSeq (@blob_seq_loop bit_json demo_texts demo_machine shelf_store blob_seq_new)
      (frames ++ [FPutComplete (mk_TransferComplete 44)]) [] (exactly s)
      (fun b s' => b = between 44 4 /\ s' = @store_all shelf_store blobs s).
Proof.
  intros collection blobs empty. split; [vm_compute; reflexivity|].
  apply (@collection_arrives bit_json bit_json_laws demo_texts demo_machine shelf_store
           collection [bs "abc"; []] (mk_TransferComplete 44)).
  - intros data s. reflexivity.
  - reflexivity.
  - apply fits_of. vm_compute. reflexivity.
  - repeat constructor; by apply works_ret.
  - vm_compute. discriminate.
Defined.
