(* ===== verification/ClientFacts.v ===== *)
(** * The client's transfers end

    Whatever the server sends and whatever the disks and stores answer, every
    transfer operation of the client returns: no loop of it depends on the
    peer's good will. *)

From stdpp Require Import sorting.
From S2P Require Import Prelude Text Stream TransferTypes TransferCodec Fs Paths Hoare Metrics.
From S2P Require Import Conn ShellOps ShellFacts Upload Download Control Blob Demo.
From S2P Require Import ClientTransfer ClientBlob Protocol UploadTrip BlobTrip.

(** Reading a blob makes progress until there is nothing left. *)
Definition reads_end {BS : BlobStore} : Prop :=
  forall h offset len s b s',
    read_blob_at h offset len s = (Ok b, s') -> b <> [] ->
    blob_left h (offset + length b) s' < blob_left h offset s.

Section client_facts.
Context {SJ : SerdeJson} {ST : SystemTexts} {MA : Machine} {WD : WalkDir} {BS : BlobStore}.
Variable connection : option bool.
Variable blobs_connection : bool.
Hypothesis Hreads : reads_end.

Lemma client_total {S A} e : avoids EDiverged (client (S := S) (A := A) e).
Proof. by apply avoids_throw. Qed.

Lemma upload_failed_total {A} e : avoids EDiverged (upload_failed (A := A) e).
Proof. by apply avoids_throw. Qed.

Lemma file_io_total {A} operation p (m : M fs io_error A) : avoids EDiverged (file_io operation p m).
Proof. by apply on_disk_avoids, avoids_map_err. Qed.

Lemma open_total context : avoids EDiverged (open_transfer_stream connection context).
Proof. unfold open_transfer_stream. destruct connection as [[]|]; auto using client_total with total. Qed.

Lemma store_op_total' {A} (op : fs -> A * fs) : avoids EDiverged (store_op op).
Proof. apply store_op_total. Qed.

#[local] Hint Resolve client_total upload_failed_total file_io_total open_total store_op_total' : total.

Lemma chunk_loop_total operation local p a : avoids EDiverged (chunk_loop operation local p a).
Proof. apply avoids_loop; [apply chunk_loop_decreases|]. intros []. unfold chunk_turn. terminating. Qed.

Lemma expect_ready_total n : avoids EDiverged (expect_ready n).
Proof. unfold expect_ready. terminating. Qed.

Lemma expect_complete_total n : avoids EDiverged (expect_complete n).
Proof. unfold expect_complete. terminating. Qed.

#[local] Hint Resolve chunk_loop_total expect_ready_total expect_complete_total : total.

Lemma upload_file_total local remote : avoids EDiverged (upload_file connection local remote).
Proof. unfold upload_file. terminating. Qed.

Lemma upload_entries_total entries n : avoids EDiverged (upload_entries n entries).
Proof.
  revert n. induction entries as [|x l IH]; intros n; cbn [upload_entries]; [auto with total|].
  unfold upload_entry. terminating.
Qed.

#[local] Hint Resolve upload_file_total upload_entries_total : total.

Lemma upload_dir_total local remote : avoids EDiverged (upload_dir connection local remote).
Proof.
  unfold upload_dir. terminating. apply collect_avoids. intros e. unfold upload_walk_turn. terminating.
Qed.

#[local] Hint Resolve upload_dir_total : total.

Lemma upload_total local remote recursive : avoids EDiverged (upload connection local remote recursive).
Proof. unfold upload, is_local_dir. terminating. Qed.

(** *** Blobs *)

Lemma slices_total data : avoids EDiverged (send_slices data).
Proof. apply avoids_loop; [apply slice_decreases|]. intros a. unfold slice_turn. terminating. Qed.

Lemma blob_turn_decreases h : decreases (fun a c => blob_left h a.1 (local_fs c)) (blob_turn h).
Proof.
  intros [offset sent] c a' c'. unfold blob_turn.
  intros (chunk & c1 & H1 & H)%bind_ok_inv. unfold on_disk, M_map_err in H1.
  destruct (read_blob_at h offset (N.to_nat MAX_CHUNK_BYTES) (local_fs c)) as [[b|e] s1] eqn:E; [|done].
  injection H1 as -> <-. case_decide as Hne; [done|].
  apply bind_ok_inv in H as (u & c2 & H2 & [= <- <-]).
  pose proof (send_diskless (write_put_chunk chunk) (mk_conn (incoming c) (frame_buf c) (outgoing c) s1)) as Hfs.
  rewrite H2 in Hfs. cbn [fst]. simpl in Hfs. rewrite Hfs. by eapply Hreads.
Qed.

Lemma blob_loop_total h a : avoids EDiverged (blob_loop h a).
Proof. apply avoids_loop; [apply blob_turn_decreases|]. intros []. unfold blob_turn. terminating. Qed.

Lemma client_add_result_total {S} context h items :
  avoids (St := S) EDiverged (lift (client_add_result context h items)).
Proof. apply avoids_lift. revert h. induction items as [|[] items IH]; intros h'; simpl; auto; done. Qed.

Lemma expect_confirmed_total n : avoids EDiverged (expect_confirmed n).
Proof. unfold expect_confirmed. terminating. Qed.

Lemma expect_blob_ready_total n : avoids EDiverged (expect_blob_ready n).
Proof. unfold expect_blob_ready. terminating. Qed.

Lemma is_local_dir_total p : avoids EDiverged (is_local_dir p).
Proof. unfold is_local_dir. terminating. Qed.

#[local] Hint Resolve slices_total blob_loop_total client_add_result_total expect_confirmed_total
  expect_blob_ready_total is_local_dir_total : total.

Lemma send_raw_blob_total data : avoids EDiverged (send_raw_blob data).
Proof. unfold send_raw_blob. terminating. Qed.

#[local] Hint Resolve send_raw_blob_total : total.

Lemma send_blobs_total blobs n : avoids EDiverged (send_blobs n blobs).
Proof. revert n. induction blobs as [|x l IH]; intros n; cbn [send_blobs]; terminating. Qed.

Lemma send_children_total collection n : avoids EDiverged (send_children n collection).
Proof.
  revert n. induction collection as [|[name h] l IH]; intros n; cbn [send_children]; [terminating|].
  unfold send_blob_from_store. terminating.
Qed.

Lemma client_add_files_total local entries : avoids EDiverged (client_add_files local entries).
Proof.
  induction entries as [|x l IH]; cbn [client_add_files]; [terminating|].
  unfold client_add_file. terminating.
Qed.

Lemma client_add_collection_total blobs root n : avoids EDiverged (client_add_collection root n blobs).
Proof. revert root n. induction blobs as [|x l IH]; intros root n; cbn [client_add_collection]; terminating. Qed.

Lemma path_added_total items h n : avoids EDiverged (path_added h n items).
Proof. revert h n. induction items as [|[] l IH]; intros h' n; cbn [path_added]; terminating. Qed.

#[local] Hint Resolve send_blobs_total send_children_total client_add_files_total
  client_add_collection_total path_added_total : total.

Lemma upload_blob_total local remote : avoids EDiverged (upload_blob connection local remote).
Proof. unfold upload_blob, upload_blob_dir. terminating. Qed.

Lemma fetch_result_total {S} items : avoids (St := S) EDiverged (lift (fetch_result items)).
Proof. apply avoids_lift. induction items as [|[] items IH]; simpl; auto; done. Qed.

Lemma make_dirs_total p : avoids EDiverged (make_dirs p).
Proof. unfold make_dirs. auto using io_or_server_total. Qed.

Lemma hash_total {S} f s : (forall e, f e <> EDiverged) ->
  avoids (St := S) EDiverged (lift (map_err f (hash_from_str s))).
Proof. intros Hf. apply avoids_lift. destruct (hash_from_str s); simpl; congruence. Qed.

#[local] Hint Resolve fetch_result_total make_dirs_total : total.

Lemma download_blob_total remote local :
  avoids EDiverged (download_blob connection blobs_connection remote local).
Proof.
  unfold download_blob. terminating; try (by apply hash_total).
  apply for_each_avoids. intros x. unfold export_item. terminating.
Qed.

(** *** Downloads *)

Lemma temp_path_total p : avoids EDiverged (temp_transfer_path p).
Proof. by intros s. Qed.

Lemma write_dest_total temp_path dest chunk : avoids EDiverged (write_dest temp_path dest chunk).
Proof. unfold write_dest, tokio_write. terminating. Qed.

Lemma flush_dest_total temp_path dest : avoids EDiverged (flush_dest temp_path dest).
Proof. unfold flush_dest. terminating. Qed.

Lemma create_temp_total temp_path : avoids EDiverged (create_temp temp_path).
Proof. unfold create_temp. terminating. Qed.

Lemma make_parent_total p : avoids EDiverged (make_parent p).
Proof. unfold make_parent. terminating. Qed.

Lemma persist_total temp_path p : avoids EDiverged (persist_temp_file temp_path p).
Proof. unfold persist_temp_file. terminating. Qed.

Lemma apply_mode_total p mode : avoids EDiverged (apply_mode p mode).
Proof. unfold apply_mode. terminating. Qed.

#[local] Hint Resolve temp_path_total write_dest_total flush_dest_total create_temp_total
  make_parent_total persist_total apply_mode_total : total.

Lemma fill_temp_total remote temp_path size dest : avoids EDiverged (fill_temp remote temp_path size dest).
Proof.
  unfold fill_temp. terminating. apply avoids_loop; [|intros a'; unfold download_turn; terminating].
  apply reads_first. intros. unfold download_turn, write_dest, client. shrinking.
Qed.

Lemma fill_entry_total temp_path dest n : avoids EDiverged (fill_entry temp_path dest n).
Proof.
  unfold fill_entry. terminating. apply avoids_loop; [|intros a'; unfold entry_turn; terminating].
  apply reads_first. intros. unfold entry_turn, write_dest, client. shrinking.
Qed.

#[local] Hint Resolve fill_temp_total fill_entry_total : total.

Lemma download_file_total remote local : avoids EDiverged (download_file connection remote local).
Proof. unfold download_file. terminating. Qed.

Lemma download_entry_shrinks root header n : shrinks backlog (download_entry root header n).
Proof.
  unfold download_entry, make_parent, create_temp, fill_entry, flush_dest, persist_temp_file,
    apply_mode, frame_loop, entry_turn, write_dest, file_io, client. shrinking.
Qed.

Lemma download_entry_total root header n : avoids EDiverged (download_entry root header n).
Proof. unfold download_entry. terminating. Qed.

#[local] Hint Resolve download_file_total download_entry_total : total.
#[local] Hint Resolve download_entry_shrinks : shrinks.

Lemma download_dir_total remote local : avoids EDiverged (download_dir connection remote local).
Proof.
  unfold download_dir. terminating. apply avoids_loop; [|intros a'; unfold ClientTransfer.tree_turn; terminating].
  apply reads_first. intros. unfold ClientTransfer.tree_turn, client. shrinking.
Qed.

#[local] Hint Resolve download_dir_total : total.

Lemma download_total remote local recursive : avoids EDiverged (download connection remote local recursive).
Proof. unfold download, is_remote_dir. terminating. Qed.

Lemma remote_cwd_total : avoids EDiverged (remote_cwd connection).
Proof. unfold remote_cwd. terminating. Qed.

Lemma remote_exists_total p : avoids EDiverged (remote_exists connection p).
Proof. unfold remote_exists. terminating. Qed.
End client_facts.

(** The transfer operations of a session. *)
Inductive ClientOp : Type :=
| OpUpload (local remote : bytes) (recursive : bool)
| OpDownload (remote local : bytes) (recursive : bool)
| OpUploadBlob (local remote : bytes)
| OpDownloadBlob (remote local : bytes)
| OpCwd
| OpExists (remote : bytes).

(** Whether one succeeds. *)
Definition perform {SJ : SerdeJson} {ST : SystemTexts} {MA : Machine} {WD : WalkDir} {BS : BlobStore}
    (connection : option bool) (blobs_connection : bool) (op : ClientOp) : M conn IroshError unit :=
  match op with
  | OpUpload local remote recursive => upload connection local remote recursive
  | OpDownload remote local recursive => download connection remote local recursive
  | OpUploadBlob local remote => upload_blob connection local remote;; mret tt
  | OpDownloadBlob remote local => download_blob connection blobs_connection remote local;; mret tt
  | OpCwd => remote_cwd connection;; mret tt
  | OpExists p => remote_exists connection p;; mret tt
  end.

(** Every transfer operation of the client returns. Whatever bytes the
    server sends, wherever the stream breaks off, and whatever the disk and
    the stores answer, an upload, a download, a blob transfer or a query
    ends with a result or an error of its own; the only thing asked of the
    store is that reading a blob makes progress. *)
Theorem client_operations_end {SJ : SerdeJson} {ST : SystemTexts} {MA : Machine} {WD : WalkDir}
    {BS : BlobStore} connection blobs_connection op :
  reads_end -> avoids EDiverged (perform connection blobs_connection op).
Proof.
  intros Hreads. destruct op; cbn [perform].
  - apply upload_total.
  - apply download_total.
  - apply avoids_bind; [by apply upload_blob_total|]. intros h. apply avoids_ret.
  - apply avoids_bind; [apply download_blob_total|]. intros h. apply avoids_ret.
  - apply avoids_bind; [apply remote_cwd_total|]. intros p. apply avoids_ret.
  - apply avoids_bind; [apply remote_exists_total|]. intros b. apply avoids_ret.
Qed.

(** A blob upload on the concrete store, to a server that says nothing. *)
Lemma client_operations_end_witness :
  (@perform bit_json demo_texts demo_machine demo_walk demo_store (Some true) true
     (OpUploadBlob (bs "srv/f") (bs "notes")) (demo_conn [])).1 <> Err EDiverged.
Proof.
  apply (@client_operations_end bit_json demo_texts demo_machine demo_walk demo_store (Some true) true
           (OpUploadBlob (bs "srv/f") (bs "notes"))).
  intros h offset len s b s' [= <- <-] Hne. simpl. rewrite length_take, length_drop.
  assert (offset < length h) as Hlt.
  { destruct (le_lt_dec (length h) offset) as [Hge|]; [|done]. by rewrite drop_ge, take_nil in Hne. }
  destruct len; [by rewrite take_0 in Hne|]. lia.
Defined.
