(* ===== verification/ServerLoop.v ===== *)
(** * The server's control loop: [src/server/mod.rs], [protocol.rs], [session_tracker.rs]

    [Server::run] is one [select!] over four channels, around which tasks come
    and go: connections that count themselves in [active_sessions], the
    broadcast and the expiry of a wormhole, and the tasks that unpublish a
    code. A state holds all of it; an event is one step of the loop or of its
    surroundings, and [exec] says what it does, or that it cannot happen. The
    loop is at the check on top of its body ([Top]), waiting in [select!]
    ([Select]), waiting inside an arm for room in the IPC channel
    ([Sending]), at the check after it ([Bottom]), or past the loop.

    Commands wait for room in their channels, so the queue of the control
    channel is a list; the one-slot failure channel takes a message only when
    it is empty ([try_send]). *)

From S2P Require Import Prelude Text Config Metrics.

(** ** [SessionTracker] *)

Record ActiveSession : Type := mk_ActiveSession {
  session_peer : bytes;
  started_at : bytes;
  session_sent : N;
  session_received : N;
}.

Record SessionTracker : Type := mk_SessionTracker {
  tracked : gmap N ActiveSession;
  next_id : N;
}.

Definition tracker_new : SessionTracker := mk_SessionTracker ∅ 0.

Definition register (peer now : bytes) (t : SessionTracker) : N * SessionTracker :=
  let id := next_id t in
  (id, mk_SessionTracker (<[id := mk_ActiveSession peer now 0 0]> (tracked t)) (add_u64 id 1)).

Definition unregister (id : N) (t : SessionTracker) : SessionTracker :=
  mk_SessionTracker (delete id (tracked t)) (next_id t).

(** The counters of [IrohDuplex::with_stats]. *)
Definition count_traffic (id sent received : N) (t : SessionTracker) : SessionTracker :=
  mk_SessionTracker
    (alter (fun a => mk_ActiveSession (session_peer a) (started_at a)
                       (add_u64 (session_sent a) sent) (add_u64 (session_received a) received))
       id (tracked t)) (next_id t).

Record SessionStatus : Type := mk_SessionStatus {
  status_peer : bytes;
  status_started : bytes;
  status_sent : N;
  status_received : N;
}.

Definition snapshot (t : SessionTracker) : list SessionStatus :=
  (fun x => mk_SessionStatus (session_peer x.2) (started_at x.2) (session_sent x.2) (session_received x.2))
    <$> map_to_list (tracked t).

(** ** Commands *)

Record DaemonStatus : Type := mk_DaemonStatus {
  ds_endpoint_id : bytes;
  ds_ticket : bytes;
  ds_wormhole_active : bool;
  ds_wormhole_code : option WormholeCode;
  ds_active_sessions : N;
  ds_sessions : list SessionStatus;
}.

Inductive IpcResponse : Type :=
| ResponseOk
| ResponseError (e : bytes)
| ResponseStatus (s : DaemonStatus).

(** The response channel of a command is its number; [None] when its receiver
    was dropped at once. *)
Inductive InternalCommand : Type :=
| EnableWormhole (code : bytes) (password : option bytes) (persistent : bool) (tx : option nat)
| DisableWormhole (tx : option nat)
| GetStatus (tx : option nat)
| Shutdown (tx : option nat).

(** ** State *)

(** A wormhole; its flags and counter live in the monitor it is shared by. *)
Record ActiveWormhole : Type := mk_ActiveWormhole {
  wh_code : bytes;
  wh_password : option bytes;
  wh_persistent : bool;
  wh_task : nat;
  wh_expiry : nat;
}.

Inductive Task : Type := Broadcast (code : bytes) | Expiry | Unpublish (code : bytes).

Inductive Phase : Type :=
| Top
| Select
| Sending (reply : option (option nat))   (** and whom to answer then *)
| Bottom
| Draining
| Exited.

(** [enabled] has the codes of all wormholes so far, and [unpublished] those
    whose [unpublish_ticket] call has returned; the detached task that makes the
    call is in [tasks] until then. *)
Record Server : Type := mk_Server {
  wormhole : option ActiveWormhole;
  tasks : gmap nat Task;
  next_task : nat;
  enabled : list bytes;
  unpublished : list bytes;
  shutdown_queue : bool;
  control_queue : list InternalCommand;
  success_queue : nat;
  failure_queue : bool;
  ipc_buffered : bool;        (** a message in the one-slot channel to the IPC server *)
  ipc_receiver : bool;        (** its receiver still exists *)
  active_sessions : N;
  live : list N;              (** the sessions whose guard is alive *)
  registry : SessionTracker;  (** the protocol handlers' tracker *)
  session_tracker : SessionTracker;  (** [self.session_tracker] *)
  shutdown_requested : bool;
  replies : list (nat * IpcResponse);
  phase : Phase;
}.

Definition server_new : Server :=
  mk_Server None ∅ 0 [] [] false [] 0 false false true 0 [] tracker_new tracker_new false [] Top.

Section setters.
Context (s : Server).

Definition with_wormhole (w : option ActiveWormhole) : Server :=
  mk_Server w (tasks s) (next_task s) (enabled s) (unpublished s) (shutdown_queue s) (control_queue s)
    (success_queue s) (failure_queue s) (ipc_buffered s) (ipc_receiver s) (active_sessions s) (live s)
    (registry s) (session_tracker s) (shutdown_requested s) (replies s) (phase s).

Definition with_tasks (t : gmap nat Task) (n : nat) (en un : list bytes) : Server :=
  mk_Server (wormhole s) t n en un (shutdown_queue s) (control_queue s)
    (success_queue s) (failure_queue s) (ipc_buffered s) (ipc_receiver s) (active_sessions s) (live s)
    (registry s) (session_tracker s) (shutdown_requested s) (replies s) (phase s).

Definition with_queues (sh : bool) (co : list InternalCommand) (su : nat) (fa : bool) : Server :=
  mk_Server (wormhole s) (tasks s) (next_task s) (enabled s) (unpublished s) sh co su fa
    (ipc_buffered s) (ipc_receiver s) (active_sessions s) (live s)
    (registry s) (session_tracker s) (shutdown_requested s) (replies s) (phase s).

Definition with_ipc (b r : bool) : Server :=
  mk_Server (wormhole s) (tasks s) (next_task s) (enabled s) (unpublished s) (shutdown_queue s)
    (control_queue s) (success_queue s) (failure_queue s) b r (active_sessions s) (live s)
    (registry s) (session_tracker s) (shutdown_requested s) (replies s) (phase s).

Definition with_sessions (n : N) (l : list N) (t : SessionTracker) : Server :=
  mk_Server (wormhole s) (tasks s) (next_task s) (enabled s) (unpublished s) (shutdown_queue s)
    (control_queue s) (success_queue s) (failure_queue s) (ipc_buffered s) (ipc_receiver s) n l
    t (session_tracker s) (shutdown_requested s) (replies s) (phase s).

Definition with_request : Server :=
  mk_Server (wormhole s) (tasks s) (next_task s) (enabled s) (unpublished s) (shutdown_queue s)
    (control_queue s) (success_queue s) (failure_queue s) (ipc_buffered s) (ipc_receiver s)
    (active_sessions s) (live s) (registry s) (session_tracker s) true (replies s) (phase s).

Definition with_phase (p : Phase) : Server :=
  mk_Server (wormhole s) (tasks s) (next_task s) (enabled s) (unpublished s) (shutdown_queue s)
    (control_queue s) (success_queue s) (failure_queue s) (ipc_buffered s) (ipc_receiver s)
    (active_sessions s) (live s) (registry s) (session_tracker s) (shutdown_requested s) (replies s) p.

(** [tx.send(response)] *)
Definition answer (tx : option nat) (r : IpcResponse) : Server :=
  mk_Server (wormhole s) (tasks s) (next_task s) (enabled s) (unpublished s) (shutdown_queue s)
    (control_queue s) (success_queue s) (failure_queue s) (ipc_buffered s) (ipc_receiver s)
    (active_sessions s) (live s) (registry s) (session_tracker s) (shutdown_requested s)
    (replies s ++ match tx with Some tx => [(tx, r)] | None => [] end) (phase s).
End setters.

(** ** Tasks *)

Definition spawn (t : Task) (s : Server) : nat * Server :=
  (next_task s,
   with_tasks s (<[next_task s := t]> (tasks s)) (S (next_task s)) (enabled s) (unpublished s)).

(** [JoinHandle::abort]; also a task that ends by itself. *)
Definition abort (id : nat) (s : Server) : Server :=
  with_tasks s (delete id (tasks s)) (next_task s) (enabled s) (unpublished s).

(** [tokio::spawn(async move { let _ = unpublish_ticket(&code).await; })], whose
    handle nobody keeps, and the end of that task. *)
Definition unpublish (code : bytes) (s : Server) : Server := (spawn (Unpublish code) s).2.

Definition unpublish_returns (id : nat) (code : bytes) (s : Server) : Server :=
  with_tasks s (delete id (tasks s)) (next_task s) (enabled s) (code :: unpublished s).

(** [if let Some(wh) = wh_lock.take() { .. }] *)
Definition take_wormhole (s : Server) : Server :=
  match wormhole s with
  | Some wh =>
      with_wormhole (unpublish (wh_code wh) (abort (wh_expiry wh) (abort (wh_task wh) s))) None
  | None => s
  end.

Definition enable_wormhole (code : bytes) (password : option bytes) (persistent : bool) (s : Server) :
    Server :=
  let s := take_wormhole s in
  let '(task, s) := spawn (Broadcast code) s in
  let '(expiry_task, s) := spawn Expiry s in
  let s := with_tasks s (tasks s) (next_task s) (code :: enabled s) (unpublished s) in
  with_wormhole s (Some (mk_ActiveWormhole code password persistent task expiry_task)).

(** ** The loop *)

Section run.
Variables (endpoint_id ticket : bytes) (ipc_enabled shutdown_on_wormhole_success : bool).

(** [let _ = ipc_shutdown_tx.send(()).await;] at the end of an arm, with the
    answer that follows it. *)
Definition reply_shutdown (reply : option (option nat)) (s : Server) : Server :=
  match reply with Some tx => answer s tx ResponseOk | None => s end.

Definition ipc_shutdown (reply : option (option nat)) (s : Server) : Server :=
  let s := with_request s in
  if negb (ipc_receiver s) then with_phase (reply_shutdown reply s) Bottom
  else if ipc_buffered s then with_phase s (Sending reply)
  else with_phase (reply_shutdown reply (with_ipc s true true)) Bottom.

Definition status (s : Server) : DaemonStatus :=
  mk_DaemonStatus endpoint_id ticket
    (match wormhole s with Some _ => true | None => false end)
    (wh ← wormhole s; match wormhole_code_new (wh_code wh) with Ok c => Some c | Err _ => None end)
    (active_sessions s) (snapshot (session_tracker s)).

Definition control_arm (msg : InternalCommand) (s : Server) : Server :=
  match msg with
  | EnableWormhole code password persistent tx =>
      with_phase (answer (enable_wormhole code password persistent s) tx ResponseOk) Bottom
  | DisableWormhole tx => with_phase (answer (take_wormhole s) tx ResponseOk) Bottom
  | GetStatus tx => with_phase (answer s tx (ResponseStatus (status s))) Bottom
  | Shutdown tx => ipc_shutdown (Some tx) s
  end.

Definition success_arm (s : Server) : Server :=
  match wormhole s with
  | Some wh =>
      if wh_persistent wh then with_phase s Bottom
      else if shutdown_on_wormhole_success then ipc_shutdown None (take_wormhole s)
      else with_phase (take_wormhole s) Bottom
  | None => with_phase s Bottom
  end.

Definition failure_arm (s : Server) : Server := with_phase (take_wormhole s) Bottom.

(** [if shutdown_requested && active_sessions.load(..) == 0 { break; }] *)
Definition check_shutdown (next : Phase) (s : Server) : Server :=
  with_phase s (if shutdown_requested s && (active_sessions s =? 0)%N then Draining else next).

(** ** [SshProtocol::accept] *)

(** The guards of an accepted connection, and their end. *)
Definition accept_session (peer now : bytes) (s : Server) : Server :=
  let '(id, t) := register peer now (registry s) in
  with_sessions s (add_u64 (active_sessions s) 1) (id :: live s) t.

Fixpoint remove_one (id : N) (l : list N) : option (list N) :=
  match l with
  | [] => None
  | x :: l => if decide (x = id) then Some l else cons x <$> remove_one id l
  end.

Definition drop_session (id : N) (s : Server) : option Server :=
  rest ← remove_one id (live s);
  Some (with_sessions s (sub_u64 (active_sessions s) 1) rest (registry s)).

(** What a pairing connection is authenticated against: the password of the
    wormhole, or nothing: then it is closed. *)
Definition pairing_offer (s : Server) : option (option bytes) := wh_password <$> wormhole s.

(** ** Events *)

Inductive Event : Type :=
(** the loop *)
| CheckTop
| ArmShutdown
| ArmControl
| ArmSuccess
| ArmFailure
| IpcSent
| CheckBottom
| Drain
(** its surroundings *)
| SendShutdown
| SendControl (msg : InternalCommand)
| PairingSuccess
| PairingFailure
| ExpiryFires (id : nat)
| TaskEnds (id : nat)
| AcceptSession (peer now : bytes)
| DropSession (id : N)
| Unregister (id : N)
| Traffic (id sent received : N)
| IpcStops.

Definition is_loop (e : Event) : bool :=
  match e with
  | CheckTop | ArmShutdown | ArmControl | ArmSuccess | ArmFailure | IpcSent | CheckBottom | Drain => true
  | _ => false
  end.

(** The ends of sessions and tasks, which send the loop nothing. *)
Definition is_silent (e : Event) : bool :=
  match e with
  | TaskEnds _ | DropSession _ | Unregister _ | Traffic _ _ _ | AcceptSession _ _ => true
  | _ => false
  end.

Definition exec (e : Event) (s : Server) : option Server :=
  match e, phase s with
  | CheckTop, Top => Some (check_shutdown Select s)
  | ArmShutdown, Select =>
      if shutdown_queue s
      then Some (ipc_shutdown None
             (with_queues s false (control_queue s) (success_queue s) (failure_queue s)))
      else None
  | ArmControl, Select =>
      match control_queue s with
      | msg :: rest =>
          Some (control_arm msg (with_queues s (shutdown_queue s) rest (success_queue s) (failure_queue s)))
      | [] => None
      end
  | ArmSuccess, Select =>
      match success_queue s with
      | S n => Some (success_arm (with_queues s (shutdown_queue s) (control_queue s) n (failure_queue s)))
      | O => None
      end
  | ArmFailure, Select =>
      if failure_queue s
      then Some (failure_arm (with_queues s (shutdown_queue s) (control_queue s) (success_queue s) false))
      else None
  | IpcSent, Sending reply =>
      if negb (ipc_receiver s) then Some (with_phase (reply_shutdown reply s) Bottom)
      else if ipc_buffered s then None
      else Some (with_phase (reply_shutdown reply (with_ipc s true true)) Bottom)
  | CheckBottom, Bottom => Some (check_shutdown Top s)
  | Drain, Draining =>
      if (active_sessions s =? 0)%N then Some (with_phase (take_wormhole s) Exited) else None
  | SendShutdown, _ =>
      if shutdown_queue s then None
      else Some (with_queues s true (control_queue s) (success_queue s) (failure_queue s))
  | SendControl msg, _ =>
      Some (with_queues s (shutdown_queue s) (control_queue s ++ [msg]) (success_queue s) (failure_queue s))
  | PairingSuccess, _ =>
      Some (with_queues s (shutdown_queue s) (control_queue s) (S (success_queue s)) (failure_queue s))
  | PairingFailure, _ =>
      Some (with_queues s (shutdown_queue s) (control_queue s) (success_queue s) true)
  | ExpiryFires id, _ =>
      match tasks s !! id with
      | Some Expiry =>
          let s := abort id s in
          Some (with_queues s (shutdown_queue s) (control_queue s ++ [DisableWormhole None])
                  (success_queue s) (failure_queue s))
      | _ => None
      end
  | TaskEnds id, _ =>
      match tasks s !! id with
      | Some (Broadcast _) => Some (abort id s)
      | Some (Unpublish code) => Some (unpublish_returns id code s)
      | _ => None
      end
  | AcceptSession peer now, Exited => None
  | AcceptSession peer now, _ => Some (accept_session peer now s)
  | DropSession id, _ => drop_session id s
  | Unregister id, _ =>
      if decide (id ∈ live s) then None
      else Some (with_sessions s (active_sessions s) (live s) (unregister id (registry s)))
  | Traffic id sent received, _ =>
      Some (with_sessions s (active_sessions s) (live s) (count_traffic id sent received (registry s)))
  | IpcStops, _ =>
      (** the task of the IPC server takes the message, or fails, and drops its
          receiver; without that task the receiver is a local of [run] *)
      if ipc_enabled && ipc_receiver s then Some (with_ipc s false false) else None
  | _, _ => None
  end.

Fixpoint exec_all (es : list Event) (s : Server) : option Server :=
  match es with
  | [] => Some s
  | e :: es => s ← exec e s; exec_all es s
  end.
End run.
