(* ===== verification/ServerFacts.v ===== *)
(** * What the control loop guarantees, and what it does not

    One wormhole at a time, and nothing of it left running; the answer to a
    status request; what a shutdown leads to. *)

From S2P Require Import Prelude Text Config Metrics ServerLoop.

(** ** Wormholes *)

(** A code is done with when its [unpublish_ticket] has returned or the task
    that calls it is there. *)
Definition retired (t : gmap nat Task) (un : list bytes) (c : bytes) : Prop :=
  c ∈ un \/ exists id, t !! id = Some (Unpublish c).

(** Broadcasts and timers belong to the active wormhole, and every other code
    that was ever enabled is retired. *)
Record wormhole_ok (w : option ActiveWormhole) (t : gmap nat Task) (next : nat)
    (en un : list bytes) : Prop := {
  ok_fresh : forall id, t !! id <> None -> id < next;
  ok_broadcast : forall id c, t !! id = Some (Broadcast c) ->
    exists wh, w = Some wh /\ wh_task wh = id /\ wh_code wh = c;
  ok_expiry : forall id, t !! id = Some Expiry -> exists wh, w = Some wh /\ wh_expiry wh = id;
  ok_codes : forall c, c ∈ en -> (exists wh, w = Some wh /\ wh_code wh = c) \/ retired t un c;
  ok_wormhole : forall wh, w = Some wh -> wh_code wh ∈ en /\ wh_task wh < next /\ wh_expiry wh < next /\
    forall id c, t !! id = Some (Unpublish c) -> id <> wh_task wh /\ id <> wh_expiry wh;
}.

Abbreviation wormholes_ok s :=
  (wormhole_ok (wormhole s) (tasks s) (next_task s) (enabled s) (unpublished s)).

Lemma wormhole_ok_new : wormholes_ok server_new.
Proof. split; simpl; try done; intros; set_solver. Qed.

(** A task ends; with it, perhaps, the call that unpublishes a code. *)
Lemma wormhole_ok_delete id w t next en un un' :
  (forall c, t !! id = Some (Unpublish c) -> c ∈ un') -> (forall c, c ∈ un -> c ∈ un') ->
  wormhole_ok w t next en un -> wormhole_ok w (delete id t) next en un'.
Proof.
  intros Hid Hun [H1 H2 H3 H4 H5]. split.
  - intros id' H. apply H1. contradict H. rewrite lookup_delete_None. by right.
  - intros id' c [_ H]%lookup_delete_Some. by apply H2.
  - intros id' [_ H]%lookup_delete_Some. by apply H3.
  - intros c Hc. destruct (H4 c Hc) as [?|[?|[id' H]]]; [by left|right; left; auto|].
    right. destruct (decide (id' = id)) as [->|]; [left; by apply Hid|].
    right. exists id'. by rewrite lookup_delete_ne.
  - intros wh (W1 & W2 & W3 & W4)%H5. split_and!; [done..|]. intros id' c [_ H]%lookup_delete_Some. by eapply W4.
Qed.

Lemma take_wormhole_none s : wormhole (take_wormhole s) = None.
Proof. unfold take_wormhole. by destruct (wormhole s) eqn:E. Qed.

Lemma take_wormhole_ok s : wormholes_ok s -> wormholes_ok (take_wormhole s).
Proof.
  intros H. unfold take_wormhole. destruct (wormhole s) as [wh|] eqn:E; [|by rewrite E].
  destruct H as [H1 H2 H3 H4 H5]. destruct (H5 wh eq_refl) as (_ & _ & _ & W).
  assert (forall id k, delete (wh_expiry wh) (delete (wh_task wh) (tasks s)) !! id = Some k ->
    exists c, k = Unpublish c) as Hgone.
  { intros id k [Hne1 [Hne2 Hk]%lookup_delete_Some]%lookup_delete_Some. destruct k as [c| |c]; [| |by exists c].
    - by destruct (H2 id c Hk) as (? & [= <-] & ? & _).
    - by destruct (H3 id Hk) as (? & [= <-] & ?). }
  split; simpl.
  - intros id. rewrite lookup_insert. case_decide; [lia|]. rewrite !lookup_delete. repeat case_decide; [done..|].
    intros Hid%H1. lia.
  - intros id c. rewrite lookup_insert. case_decide; [done|]. intros [? [=]]%Hgone.
  - intros id. rewrite lookup_insert. case_decide; [done|]. intros [? [=]]%Hgone.
  - intros c Hc. right. destruct (H4 c Hc) as [(? & [= <-] & <-)|[Hu|[id Hid]]]; [|by left|].
    + right. exists (next_task s). by rewrite lookup_insert_eq.
    + right. exists id. assert (id < next_task s) by (apply H1; by rewrite Hid).
      destruct (W id c Hid). by rewrite lookup_insert_ne, !lookup_delete_ne by (done || lia).
  - done.
Qed.

Lemma enable_wormhole_ok code password persistent s :
  wormholes_ok s -> wormholes_ok (enable_wormhole code password persistent s).
Proof.
  intros H%take_wormhole_ok. pose proof (take_wormhole_none s) as E.
  unfold enable_wormhole. remember (take_wormhole s) as s0 eqn:E0. clear E0 s.
  rewrite E in H. destruct H as [H1 H2 H3 H4 H5].
  assert (forall id k, tasks s0 !! id = Some k -> id < next_task s0) as Hlt by (intros id k Hk; apply H1; by rewrite Hk).
  split; simpl.
  - intros id. rewrite !lookup_insert. repeat case_decide; [lia..|]. intros Hid%H1. lia.
  - intros id c. rewrite !lookup_insert. repeat case_decide; [done|intros [= <-]; by eexists|].
    intros (? & [=] & _)%H2.
  - intros id. rewrite !lookup_insert. repeat case_decide; [intros; by eexists|done|].
    intros (? & [=] & _)%H3.
  - intros c [->|[(? & [=] & _)|[Hu|[id Hid]]]%H4]%elem_of_cons; [left; by eexists|right; by left|].
    right. right. exists id. pose proof (Hlt _ _ Hid). by rewrite !lookup_insert_ne by lia.
  - intros wh [= <-]. simpl. split_and!; [left|lia|lia|]. intros id c. rewrite !lookup_insert.
    repeat case_decide; [done..|]. intros Hid%Hlt. lia.
Qed.

(** ** Sessions *)

Definition sessions_ok (s : Server) : Prop :=
  active_sessions s = (N.of_nat (length (live s)) mod 2 ^ 64)%N /\ session_tracker s = tracker_new.

Lemma remove_one_length id l l' : remove_one id l = Some l' -> length l = S (length l').
Proof.
  revert l'. induction l as [|x l IH]; intros l'; [done|]. simpl.
  case_decide; [by intros [= ->]|]. intros (l1 & Hl & ->)%fmap_Some. simpl. f_equal. by apply IH.
Qed.

Lemma drop_session_count id s s' :
  drop_session id s = Some s' -> sessions_ok s -> sessions_ok s'.
Proof.
  unfold drop_session. destruct (remove_one id (live s)) as [rest|] eqn:E; [|done].
  intros [= <-] [H1 H2]. split; [|done]. simpl. apply remove_one_length in E.
  rewrite H1, E, sub_u64_mod by lia. f_equal. lia.
Qed.

Lemma take_wormhole_sessions s :
  active_sessions (take_wormhole s) = active_sessions s /\ live (take_wormhole s) = live s /\
  session_tracker (take_wormhole s) = session_tracker s.
Proof. unfold take_wormhole. by destruct (wormhole s). Qed.

(** ** The invariant *)

Record server_ok (s : Server) : Prop := {
  ok_wormholes : wormholes_ok s;
  ok_sessions : sessions_ok s;
  ok_exited : phase s = Exited -> wormhole s = None;
}.

Lemma server_new_ok : server_ok server_new.
Proof. split; [apply wormhole_ok_new|done|done]. Qed.

Section facts.
Variables (endpoint_id ticket : bytes) (ipc_enabled shutdown_on_wormhole_success : bool).
Abbreviation exec := (exec endpoint_id ticket ipc_enabled shutdown_on_wormhole_success).
Abbreviation exec_all := (exec_all endpoint_id ticket ipc_enabled shutdown_on_wormhole_success).

Lemma ipc_shutdown_keeps reply s :
  let s' := ipc_shutdown reply s in
  wormhole s' = wormhole s /\ tasks s' = tasks s /\ next_task s' = next_task s /\
  enabled s' = enabled s /\ unpublished s' = unpublished s /\ active_sessions s' = active_sessions s /\
  live s' = live s /\ session_tracker s' = session_tracker s /\ phase s' <> Exited /\
  shutdown_requested s' = true.
Proof.
  unfold ipc_shutdown, reply_shutdown. cbn zeta.
  destruct (ipc_receiver _), (ipc_buffered _), reply as [[]|]; done.
Qed.

Lemma ipc_shutdown_ok reply s : server_ok s -> server_ok (ipc_shutdown reply s).
Proof.
  intros [Hw [H1 H2] Hx]. destruct (ipc_shutdown_keeps reply s) as (E1 & E2 & E3 & E4 & E5 & E6 & E7 & E8 & Ep & _).
  split; [by rewrite E1, E2, E3, E4, E5|split; [by rewrite E6, E7|by rewrite E8]|done].
Qed.

(** What leaves the three parts of the invariant alone. *)
Lemma server_ok_keeps s s' :
  server_ok s -> wormhole s' = wormhole s -> tasks s' = tasks s -> next_task s' = next_task s ->
  enabled s' = enabled s -> unpublished s' = unpublished s -> active_sessions s' = active_sessions s ->
  live s' = live s -> session_tracker s' = session_tracker s -> (phase s' = Exited -> phase s = Exited) ->
  server_ok s'.
Proof.
  intros [Hw [H1 H2] Hx] E1 E2 E3 E4 E5 E6 E7 E8 E9.
  split; [by rewrite E1, E2, E3, E4, E5|split; [by rewrite E6, E7|by rewrite E8]|].
  rewrite E1. auto.
Qed.

(** What closes a wormhole keeps the invariant in any phase. *)
Lemma server_ok_take s p : server_ok s -> server_ok (with_phase (take_wormhole s) p).
Proof.
  intros [Hw [H1 H2] Hx]. destruct (take_wormhole_sessions s) as (T1 & T2 & T3).
  split; [by apply take_wormhole_ok|split; simpl; congruence|].
  intros _. apply take_wormhole_none.
Qed.

Lemma control_arm_ok msg s :
  server_ok s -> server_ok (control_arm endpoint_id ticket msg s).
Proof.
  intros Hok. pose proof (server_ok_take s Bottom Hok) as Ht. destruct msg as [code pw persistent tx|tx|tx|tx]; simpl.
  - destruct Hok as [Hw [H1 H2] Hx]. destruct (take_wormhole_sessions s) as (T1 & T2 & T3).
    apply (enable_wormhole_ok code pw persistent) in Hw.
    split; [exact Hw|split; simpl; congruence|done].
  - by apply (server_ok_keeps _ _ Ht).
  - by apply (server_ok_keeps _ _ Hok).
  - by apply ipc_shutdown_ok.
Qed.

Lemma success_arm_ok s : server_ok s -> server_ok (success_arm shutdown_on_wormhole_success s).
Proof.
  intros Hok. unfold success_arm. destruct (wormhole s) as [wh|] eqn:E; [|by apply (server_ok_keeps _ _ Hok)].
  destruct (wh_persistent wh); [by apply (server_ok_keeps _ _ Hok)|].
  destruct shutdown_on_wormhole_success; [|by apply server_ok_take].
  apply ipc_shutdown_ok. pose proof (server_ok_take s (phase (take_wormhole s)) Hok) as H.
  by apply (server_ok_keeps _ _ H).
Qed.

Lemma server_ok_queues s a b c d : server_ok s -> server_ok (with_queues s a b c d).
Proof. intros Hok. by apply (server_ok_keeps _ _ Hok). Qed.

(** The task may be any but the call that unpublishes a code. *)
Lemma server_ok_abort id s :
  server_ok s -> (forall c, tasks s !! id <> Some (Unpublish c)) -> server_ok (abort id s).
Proof.
  intros [Hw Hs Hx] Hid. split; [|done|done]. eapply wormhole_ok_delete; [|by intros c|exact Hw].
  intros c H. by destruct (Hid c).
Qed.

Lemma server_ok_returns id code s :
  server_ok s -> tasks s !! id = Some (Unpublish code) -> server_ok (unpublish_returns id code s).
Proof.
  intros [Hw Hs Hx] Hid. split; [|done|done]. eapply wormhole_ok_delete; [| |exact Hw].
  - intros c. rewrite Hid. intros [= <-]. left.
  - intros c ?. by right.
Qed.

Lemma exec_ok e s s' : exec e s = Some s' -> server_ok s -> server_ok s'.
Proof.
  intros He Hok. assert (Hq : forall a b c d, server_ok (with_queues s a b c d)) by auto using server_ok_queues.
  destruct e; cbn [ServerLoop.exec] in He.
  - case_match; simplify_eq. eapply server_ok_keeps; try done. simpl. by case_match.
  - case_match; try done. case_match; simplify_eq. apply ipc_shutdown_ok, Hq.
  - case_match; try done. case_match; simplify_eq. apply control_arm_ok, Hq.
  - case_match; try done. case_match; simplify_eq. apply success_arm_ok, Hq.
  - case_match; try done. case_match; simplify_eq. apply server_ok_take, Hq.
  - case_match; try done. repeat (case_match; simplify_eq); eapply server_ok_keeps; try done;
      destruct reply as [[]|]; done.
  - case_match; simplify_eq. eapply server_ok_keeps; try done. simpl. by case_match.
  - case_match; try done. case_match; simplify_eq. by apply server_ok_take.
  - case_match; simplify_eq. apply Hq.
  - simplify_eq. apply Hq.
  - simplify_eq. apply Hq.
  - simplify_eq. apply Hq.
  - case_match; try done. case_match; simplify_eq. apply server_ok_queues, server_ok_abort; [done|congruence].
  - destruct (tasks s !! id) as [[c| |c]|] eqn:Ht; simplify_eq;
      [apply server_ok_abort; [done|congruence]|by apply server_ok_returns].
  - assert (s' = accept_session peer now s) as -> by (case_match; congruence).
    destruct Hok as [Hw [H1 H2] Hx]. split; [done|split; [|done]|done]. simpl.
    rewrite H1, add_u64_mod. f_equal. lia.
  - assert (wormhole s' = wormhole s /\ tasks s' = tasks s /\ next_task s' = next_task s /\ enabled s' = enabled s
            /\ unpublished s' = unpublished s /\ phase s' = phase s) as (E1 & E2 & E3 & E4 & E5 & E6).
    { unfold drop_session in He. destruct (remove_one id (live s)); [|done]. by injection He as <-. }
    destruct Hok as [Hw Hs Hx]. split; [by rewrite E1, E2, E3, E4, E5|by eapply drop_session_count|].
    rewrite E1, E6. done.
  - case_decide; simplify_eq. by apply (server_ok_keeps _ _ Hok).
  - simplify_eq. by apply (server_ok_keeps _ _ Hok).
  - case_match; simplify_eq. by apply (server_ok_keeps _ _ Hok).
Qed.

Lemma exec_all_ok es s s' : exec_all es s = Some s' -> server_ok s -> server_ok s'.
Proof.
  revert s. induction es as [|e es IH]; intros s; cbn [ServerLoop.exec_all].
  - by intros [= ->].
  - intros (s1 & H1 & H2)%bind_Some Hok. eapply IH; [done|]. by eapply exec_ok.
Qed.
End facts.

(** The states the loop and its surroundings can bring about. *)
Definition reachable (endpoint_id ticket : bytes) (ipc_enabled shutdown_on_success : bool) (s : Server) : Prop :=
  exists es, exec_all endpoint_id ticket ipc_enabled shutdown_on_success es server_new = Some s.

Lemma loop_reachable_ok endpoint_id ticket ipc_enabled shutdown_on_success s :
  reachable endpoint_id ticket ipc_enabled shutdown_on_success s -> server_ok s.
Proof. intros [es Hs]. eapply exec_all_ok; [exact Hs|apply server_new_ok]. Qed.

(** C18: One wormhole at a time. In every state the server can reach, by any
    interleaving of commands, pairings, expiries and connections, every
    broadcast that runs is the one of the active wormhole and publishes its
    code, the expiry timer that runs is its own, and for every other code that
    was ever enabled the call that unpublishes it has returned or has its task.
    Once the loop has exited no wormhole is active and no broadcast or timer
    runs, and what is left of the codes are such tasks at most: the code starts
    them without waiting ([exit_leaves_unpublish_pending]), and ignores what
    the call returns. The session count is the number of live guards. *)
Theorem one_wormhole_at_a_time endpoint_id ticket ipc_enabled shutdown_on_success s :
  reachable endpoint_id ticket ipc_enabled shutdown_on_success s ->
  (forall id c, tasks s !! id = Some (Broadcast c) ->
     exists wh, wormhole s = Some wh /\ wh_task wh = id /\ wh_code wh = c) /\
  (forall id, tasks s !! id = Some Expiry -> exists wh, wormhole s = Some wh /\ wh_expiry wh = id) /\
  (forall c, c ∈ enabled s ->
     (exists wh, wormhole s = Some wh /\ wh_code wh = c) \/ retired (tasks s) (unpublished s) c) /\
  (phase s = Exited ->
     wormhole s = None /\ (forall c, c ∈ enabled s -> retired (tasks s) (unpublished s) c) /\
     forall id t, tasks s !! id = Some t -> exists c, t = Unpublish c) /\
  active_sessions s = (N.of_nat (length (live s)) mod 2 ^ 64)%N.
Proof.
  intros [[H1 H2 H3 H4 H5] [H6 _] Hx]%loop_reachable_ok.
  split_and!; [done..| |done]. intros Hp. specialize (Hx Hp). rewrite Hx in H2, H3, H4.
  split_and!; [done| |].
  - intros c Hc. destruct (H4 c Hc) as [(? & [=] & _)|?]; done.
  - intros id [c| |c] Ht; [by destruct (H2 id c Ht) as (? & [=] & _)|by destruct (H3 id Ht) as (? & [=] & _)|].
    by exists c.
Qed.

Definition pairing_run : list Event :=
  [CheckTop; SendControl (EnableWormhole (bs "apple-fox-7") None false (Some 1)); ArmControl; CheckBottom;
   CheckTop; AcceptSession (bs "peer") (bs "now"); PairingSuccess; ArmSuccess; TaskEnds 2].

Definition pairing_end : Server :=
  default server_new (exec_all [] [] true true pairing_run server_new).

Lemma one_wormhole_at_a_time_witness :
  unpublished pairing_end = [bs "apple-fox-7"] /\
  forall id c, tasks pairing_end !! id = Some (Broadcast c) ->
    exists wh, wormhole pairing_end = Some wh /\ wh_task wh = id /\ wh_code wh = c.
Proof.
  split; [vm_compute; reflexivity|].
  assert (reachable [] [] true true pairing_end) as H by (exists pairing_run; vm_compute; reflexivity).
  exact (proj1 (one_wormhole_at_a_time [] [] true true pairing_end H)).
Defined.

(** The loop exits while the call that unpublishes its last code has not
    returned: nothing waits for the task, and what follows closes the endpoint
    and ends the process. *)
Lemma exit_leaves_unpublish_pending :
  let s := default server_new (exec_all [] [] true true
    [CheckTop; SendControl (EnableWormhole (bs "apple-fox-7") None true None); ArmControl; CheckBottom;
     CheckTop; SendShutdown; ArmShutdown; CheckBottom; Drain] server_new) in
  phase s = Exited /\ tasks s !! 2 = Some (Unpublish (bs "apple-fox-7")) /\ unpublished s = [].
Proof. vm_compute. done. Qed.

(** ** Status *)

(** A status report never lists a session. In every state the server can
    reach, whatever connections are open, the answer to [GetStatus] counts
    them but its list of sessions is empty: the loop asks its own tracker,
    and connections register with the one the protocol handlers share. *)
Theorem status_lists_no_session endpoint_id ticket ipc_enabled shutdown_on_success s :
  reachable endpoint_id ticket ipc_enabled shutdown_on_success s ->
  ds_sessions (status endpoint_id ticket s) = [] /\
  ds_active_sessions (status endpoint_id ticket s) = (N.of_nat (length (live s)) mod 2 ^ 64)%N.
Proof.
  intros [_ [H6 H7] _]%loop_reachable_ok.
  split; [|done]. unfold status, snapshot. cbn [ds_sessions]. by rewrite H7.
Qed.

Definition connected : Server :=
  default server_new (exec_all [] [] true true [AcceptSession (bs "peer") (bs "now")] server_new).

Lemma status_lists_no_session_witness :
  ds_active_sessions (status [] [] connected) = 1%N /\ ds_sessions (status [] [] connected) = [] /\
  snapshot (registry connected) = [mk_SessionStatus (bs "peer") (bs "now") 0 0].
Proof.
  split; [vm_compute; reflexivity|]. split; [|vm_compute; reflexivity].
  apply (status_lists_no_session [] [] true true connected).
  exists [AcceptSession (bs "peer") (bs "now")]. vm_compute. reflexivity.
Defined.

(** ** Shutdown *)

Definition quiet (s : Server) : Prop :=
  shutdown_queue s = false /\ control_queue s = [] /\ success_queue s = 0 /\ failure_queue s = false.

Section shutdown.
Variables (endpoint_id ticket : bytes) (ipc_enabled shutdown_on_success : bool).
Abbreviation exec := (exec endpoint_id ticket ipc_enabled shutdown_on_success).
Abbreviation exec_all := (exec_all endpoint_id ticket ipc_enabled shutdown_on_success).

(** In [select!], with nothing to receive, the loop does not move. *)
Definition waits (s : Server) : Prop := phase s = Select /\ quiet s.

Lemma waits_stuck s e : waits s -> is_loop e = true -> exec e s = None.
Proof.
  intros (Hp & H1 & H2 & H3 & H4). destruct e; try done; intros _; cbn [ServerLoop.exec]; rewrite Hp;
    by rewrite ?H1, ?H2, ?H3, ?H4.
Qed.

Lemma silent_waits e s s' : waits s -> is_silent e = true -> exec e s = Some s' ->
  waits s' /\ shutdown_requested s' = shutdown_requested s.
Proof.
  intros (Hp & Hq) Hsil He. destruct e; try done; cbn [ServerLoop.exec] in He.
  - repeat case_match; simplify_eq; by repeat split; destruct Hq as (? & ? & ? & ?).
  - rewrite Hp in He. injection He as <-. by repeat split; destruct Hq as (? & ? & ? & ?).
  - unfold drop_session in He. destruct (remove_one id (live s)); [|done]. injection He as <-.
    by repeat split; destruct Hq as (? & ? & ? & ?).
  - case_decide; simplify_eq. by repeat split; destruct Hq as (? & ? & ? & ?).
  - injection He as <-. by repeat split; destruct Hq as (? & ? & ? & ?).
Qed.

Lemma silent_all_wait es s s' : waits s -> Forall (fun e => is_silent e = true) es ->
  exec_all es s = Some s' -> waits s' /\ shutdown_requested s' = shutdown_requested s.
Proof.
  revert s. induction es as [|e es IH]; intros s Hw; cbn [ServerLoop.exec_all].
  - by intros _ [= <-].
  - intros [He Hes]%Forall_cons_1 (s1 & H1 & H2)%bind_Some.
    destruct (silent_waits e s s1 Hw He H1) as [Hw1 E1]. rewrite <-E1. by apply IH.
Qed.

(** A shutdown that found room in the IPC channel. *)
Lemma ipc_shutdown_room reply s :
  (ipc_receiver s = true -> ipc_buffered s = false) ->
  phase (ipc_shutdown reply s) = Bottom /\ wormhole (ipc_shutdown reply s) = wormhole s.
Proof.
  intros H. unfold ipc_shutdown, reply_shutdown. destruct s as [? ? ? ? ? ? ? ? ? b r ? ? ? ? ? ? ?]; simpl in *.
  destruct r; simpl; [rewrite H by done|]; by destruct reply as [[]|].
Qed.

Lemma check_shutdown_waits s : quiet s -> active_sessions s <> 0%N -> waits (check_shutdown Select s).
Proof.
  intros Hq H%N.eqb_neq. unfold check_shutdown. rewrite H, andb_false_r. by split.
Qed.

Lemma exec_all_cons e es s s1 : exec e s = Some s1 -> exec_all (e :: es) s = exec_all es s1.
Proof. intros H. cbn [ServerLoop.exec_all]. by rewrite H. Qed.

Lemma drain_exits s : phase s = Draining -> active_sessions s = 0%N ->
  exists s', exec_all [Drain] s = Some s' /\ phase s' = Exited /\ wormhole s' = None.
Proof.
  intros Hp Ha. eexists. split.
  - cbn [ServerLoop.exec_all ServerLoop.exec]. rewrite Hp, Ha. reflexivity.
  - split; [done|apply take_wormhole_none].
Qed.

(** The arm of the signal, with room in the IPC channel. *)
Lemma arm_shutdown s :
  phase s = Select -> shutdown_queue s = true -> (ipc_receiver s = true -> ipc_buffered s = false) ->
  let s0 := with_queues s false (control_queue s) (success_queue s) (failure_queue s) in
  let s1 := ipc_shutdown None s0 in
  exec ArmShutdown s = Some s1 /\ phase s1 = Bottom /\ active_sessions s1 = active_sessions s /\
  shutdown_requested s1 = true /\ (quiet s0 -> quiet s1).
Proof.
  intros Hp H1 Hi s0 s1. destruct (ipc_shutdown_room None s0 Hi) as [Hp1 _].
  destruct (ipc_shutdown_keeps None s0) as (_ & _ & _ & _ & _ & Ea & _ & _ & _ & Er).
  split_and!; [cbn [ServerLoop.exec]; by rewrite Hp, H1|done|done|done|].
  intros Hq. unfold s1, ipc_shutdown, quiet. by destruct (negb _), (ipc_buffered _).
Qed.

(** Any message makes a loop without sessions look at the count. *)
Lemma message_exits s tx :
  waits s -> shutdown_requested s = true -> active_sessions s = 0%N ->
  exists s', exec_all [SendControl (GetStatus tx); ArmControl; CheckBottom; Drain] s = Some s' /\
    phase s' = Exited.
Proof.
  intros (Hp & H1 & H2 & H3 & H4) Hr Ha. destruct s as [? ? ? ? ? ? ? ? ? ? ? ? ? ? ? ? ? ?]; simpl in *.
  subst. eexists. split; [reflexivity|done].
Qed.

(** The loop waits, with nothing but the shutdown signal to receive. *)
Definition only_shutdown (s : Server) : Prop :=
  phase s = Select /\ shutdown_queue s = true /\ control_queue s = [] /\ success_queue s = 0 /\
  failure_queue s = false /\ (ipc_receiver s = true -> ipc_buffered s = false).

(** C19: What a shutdown signal leads to. When the loop waits, only the
    shutdown signal is pending and the IPC channel has room, then without an
    open session the loop exits in three steps, with no wormhole left; with
    one, the loop goes back to waiting, and from then on, whatever connections
    open, close and end, it takes no further step, even when none is left: only
    the next command, which any client may never send, makes it look at the
    count again and exit. *)
Theorem shutdown_outcome s :
  only_shutdown s ->
  (active_sessions s = 0%N ->
     exists s', exec_all [ArmShutdown; CheckBottom; Drain] s = Some s' /\
       phase s' = Exited /\ wormhole s' = None) /\
  (active_sessions s <> 0%N ->
     exists s', exec_all [ArmShutdown; CheckBottom; CheckTop] s = Some s' /\ shutdown_requested s' = true /\
       forall es t, Forall (fun e => is_silent e = true) es -> exec_all es s' = Some t ->
         (forall e, is_loop e = true -> exec e t = None) /\
         (active_sessions t = 0%N -> forall tx, exists t',
            exec_all [SendControl (GetStatus tx); ArmControl; CheckBottom; Drain] t = Some t' /\
            phase t' = Exited)).
Proof.
  intros (Hp & H1 & H2 & H3 & H4 & Hi).
  set (s1 := ipc_shutdown None (with_queues s false (control_queue s) (success_queue s) (failure_queue s))).
  destruct (arm_shutdown s Hp H1 Hi) as (Hx & Hp1 & Ea & Er & Hk). fold s1 in Hx, Hp1, Ea, Er, Hk.
  rewrite !(exec_all_cons _ _ _ _ Hx). split; intros E.
  - assert (exec CheckBottom s1 = Some (with_phase s1 Draining)) as Hy.
    { cbn [ServerLoop.exec]. rewrite Hp1. unfold check_shutdown. by rewrite Er, Ea, E. }
    rewrite (exec_all_cons _ _ _ _ Hy). apply drain_exits; [done|]. simpl. by rewrite Ea.
  - assert (exec CheckBottom s1 = Some (with_phase s1 Top)) as Hy.
    { cbn [ServerLoop.exec]. rewrite Hp1. unfold check_shutdown.
      by rewrite Er, (proj2 (N.eqb_neq _ _)) by congruence. }
    rewrite (exec_all_cons _ _ _ _ Hy). eexists. split; [reflexivity|].
    assert (waits (check_shutdown Select (with_phase s1 Top)) /\
            shutdown_requested (check_shutdown Select (with_phase s1 Top)) = true) as [Hw Hr].
    { split; [|exact Er]. apply check_shutdown_waits; [apply Hk; by split_and!|simpl; congruence]. }
    split; [exact Hr|]. intros es t Hes Ht.
    destruct (silent_all_wait es _ t Hw Hes Ht) as [Hwt Hrt]. split; [by intros e; apply waits_stuck|].
    intros Et tx. eapply message_exits; [done|congruence|done].
Qed.
End shutdown.

Definition asked : Server :=
  default server_new (exec_all [] [] true true [AcceptSession (bs "p") (bs "t"); CheckTop; SendShutdown] server_new).

Lemma shutdown_outcome_witness :
  exists s', exec_all [] [] true true [ArmShutdown; CheckBottom; CheckTop] asked = Some s' /\
    forall t, exec_all [] [] true true [DropSession 0] s' = Some t ->
      forall e, is_loop e = true -> exec [] [] true true e t = None.
Proof.
  assert (only_shutdown asked) as Hw
    by (split; [|split; [|split; [|split; [|split]]]]; try (vm_compute; reflexivity); intros _; vm_compute; reflexivity).
  destruct (proj2 (shutdown_outcome [] [] true true asked Hw) ltac:(vm_compute; discriminate)) as (s' & H1 & _ & H2).
  exists s'. split; [exact H1|]. intros t Ht. apply (H2 [DropSession 0%N] t); [|exact Ht].
  repeat constructor.
Defined.

(** *** Without the IPC server *)

(** The message of the first request stays in the channel, whose receiver
    lives as long as [run]. *)
Definition unread (s : Server) : Prop :=
  ipc_receiver s = true /\ (shutdown_requested s = true -> ipc_buffered s = true) /\
  forall reply, phase s = Sending reply -> ipc_buffered s = true.

Section no_ipc.
Variables (endpoint_id ticket : bytes) (shutdown_on_success : bool).
Abbreviation exec := (exec endpoint_id ticket false shutdown_on_success).
Abbreviation exec_all := (exec_all endpoint_id ticket false shutdown_on_success).

Lemma take_wormhole_ipc s :
  ipc_receiver (take_wormhole s) = ipc_receiver s /\ ipc_buffered (take_wormhole s) = ipc_buffered s /\
  shutdown_requested (take_wormhole s) = shutdown_requested s /\ phase (take_wormhole s) = phase s.
Proof. unfold take_wormhole. by destruct (wormhole s). Qed.

(** Nothing but the arms of a shutdown touches the channel. *)
Lemma unread_keeps s s' : unread s -> ipc_receiver s' = ipc_receiver s -> ipc_buffered s' = ipc_buffered s ->
  shutdown_requested s' = shutdown_requested s -> (forall r, phase s' = Sending r -> phase s = Sending r) ->
  unread s'.
Proof. intros (H1 & H2 & H3) E1 E2 E3 E4. unfold unread. rewrite E1, E2, E3. split_and!; eauto. Qed.

Lemma ipc_shutdown_unread reply s : unread s -> unread (ipc_shutdown reply s).
Proof.
  intros (H1 & H2 & H3). unfold ipc_shutdown. destruct s as [? ? ? ? ? ? ? ? ? b r ? ? ? ? q ? p].
  simpl in *. subst r. destruct b; simpl; destruct reply as [[]|]; done.
Qed.

Lemma unread_take s p : unread s -> (forall r, p <> Sending r) -> unread (with_phase (take_wormhole s) p).
Proof.
  intros Hu Hp. destruct (take_wormhole_ipc s) as (T1 & T2 & T3 & _).
  apply (unread_keeps _ _ Hu); try done. intros r E. by destruct (Hp r).
Qed.

Lemma control_arm_unread msg s : unread s -> unread (control_arm endpoint_id ticket msg s).
Proof.
  intros Hu. destruct (take_wormhole_ipc s) as (T1 & T2 & T3 & _). destruct msg; simpl.
  1-3: by apply (unread_keeps _ _ Hu).
  by apply ipc_shutdown_unread.
Qed.

Lemma success_arm_unread s : unread s -> unread (success_arm shutdown_on_success s).
Proof.
  intros Hu. unfold success_arm. destruct (wormhole s); [|by apply (unread_keeps _ _ Hu)].
  destruct (wh_persistent _); [by apply (unread_keeps _ _ Hu)|].
  destruct shutdown_on_success; [|by apply unread_take].
  apply ipc_shutdown_unread. destruct (take_wormhole_ipc s) as (T1 & T2 & T3 & T4).
  apply (unread_keeps _ _ Hu); try done. by rewrite T4.
Qed.

Lemma exec_unread e s s' : exec e s = Some s' -> unread s -> unread s'.
Proof.
  intros He Hu. assert (Hq : forall a b c d, unread (with_queues s a b c d)) by (intros; exact Hu).
  pose proof (proj1 Hu) as Hr.
  destruct e; cbn [ServerLoop.exec andb] in He; try (repeat case_match; simplify_eq; apply Hu).
  - case_match; simplify_eq. apply (unread_keeps _ _ Hu); try done. simpl. by case_match.
  - case_match; try done. case_match; simplify_eq. apply ipc_shutdown_unread, Hq.
  - case_match; try done. case_match; simplify_eq. apply control_arm_unread, Hq.
  - case_match; try done. case_match; simplify_eq. apply success_arm_unread, Hq.
  - case_match; try done. case_match; simplify_eq. by apply unread_take.
  - case_match; try done. destruct Hu as (H1 & H2 & H3). rewrite Hr, (H3 _ H) in He. done.
  - case_match; simplify_eq. apply (unread_keeps _ _ Hu); try done. simpl. by case_match.
  - case_match; try done. case_match; simplify_eq. by apply unread_take.
  - unfold drop_session in He. destruct (remove_one id (live s)); [|done]. injection He as <-. exact Hu.
Qed.

Lemma exec_all_unread es s s' : exec_all es s = Some s' -> unread s -> unread s'.
Proof.
  revert s. induction es as [|e es IH]; intros s; cbn [ServerLoop.exec_all].
  - by intros [= ->].
  - intros (s1 & H1 & H2)%bind_Some Hu. eapply IH; [done|]. by eapply exec_unread.
Qed.

Lemma sending_stuck reply es s t : exec_all es s = Some t -> unread s -> phase s = Sending reply ->
  phase t = Sending reply.
Proof.
  revert s. induction es as [|e es IH]; intros s; cbn [ServerLoop.exec_all]; [by intros [= ->]|].
  intros (s1 & H1 & H2)%bind_Some Hu Hp. eapply IH; [done|by eapply exec_unread|].
  destruct Hu as (Hr & _ & Hb). specialize (Hb _ Hp). clear IH H2 t.
  destruct e; cbn [ServerLoop.exec andb] in H1; rewrite ?Hp, ?Hr, ?Hb in H1; try done;
    try (repeat case_match; simplify_eq; done).
  - unfold drop_session in H1. destruct (remove_one id (live s)); [|done]. by injection H1 as <-.
Qed.

Lemma sending_no_step reply s e : unread s -> phase s = Sending reply -> is_loop e = true -> exec e s = None.
Proof.
  intros (Hr & _ & Hb) Hp. specialize (Hb _ Hp).
  destruct e; try done; intros _; cbn [ServerLoop.exec]; by rewrite Hp, ?Hr, ?Hb.
Qed.

(** A second shutdown request hangs a server without IPC. When such a
    server, in any state it can reach, has been asked to shut down once (as a
    successful pairing does) and is waiting for its sessions, a second signal
    leaves the loop waiting for room in the channel to the IPC server that does
    not exist: from then on no event lets it take a step, and it neither exits
    nor ends its wormhole, even when every session has ended. *)
Theorem second_shutdown_hangs s :
  reachable endpoint_id ticket false shutdown_on_success s ->
  phase s = Select -> shutdown_requested s = true -> shutdown_queue s = true ->
  exists s', exec ArmShutdown s = Some s' /\
    forall es' t, exec_all es' s' = Some t ->
      phase t = Sending None /\ forall e, is_loop e = true -> exec e t = None.
Proof.
  intros [es Hs] Hp Hr Hq. apply exec_all_unread in Hs; [|done].
  assert (exec ArmShutdown s = Some (with_phase (with_request (with_queues s false (control_queue s)
            (success_queue s) (failure_queue s))) (Sending None))) as Hx.
  { cbn [ServerLoop.exec]. rewrite Hp, Hq. unfold ipc_shutdown. simpl.
    destruct Hs as (-> & -> & _); done. }
  eexists. split; [exact Hx|]. intros es' t Ht. pose proof (exec_unread _ _ _ Hx Hs) as Hu.
  assert (phase t = Sending None) as Hpt by by eapply sending_stuck.
  split; [done|]. intros e. eapply sending_no_step; [|done]. by eapply exec_all_unread.
Qed.
End no_ipc.

(** The foreground server: a pairing, its session still open, and Ctrl-C. *)
Definition foreground_run : list Event :=
  [CheckTop; SendControl (EnableWormhole (bs "apple-fox-7") None false (Some 1)); ArmControl; CheckBottom;
   CheckTop; AcceptSession (bs "p") (bs "t"); PairingSuccess; ArmSuccess; CheckBottom; CheckTop; SendShutdown].

Definition foreground : Server := default server_new (exec_all [] [] false true foreground_run server_new).

Lemma second_shutdown_hangs_witness :
  exists s', exec [] [] false true ArmShutdown foreground = Some s' /\
    forall es' t, exec_all [] [] false true es' s' = Some t ->
      phase t = Sending None /\ forall e, is_loop e = true -> exec [] [] false true e t = None.
Proof.
  apply (second_shutdown_hangs [] [] true foreground); [exists foreground_run|..]; vm_compute; reflexivity.
Defined.

(** ** A message about the wormhole before *)

(** A server that has started one wormhole and waits. *)
Definition started_wormhole (code : bytes) (password : option bytes) (tx : option nat) : list Event :=
  [CheckTop; SendControl (EnableWormhole code password false tx); ArmControl; CheckBottom; CheckTop].

(** A success or an expiry is not tied to its wormhole. When the news
    that the pairing of one code succeeded, or that its time is up, is still in
    its channel while a command enables the next code, the loop burns the new
    wormhole when it reads it: for any two codes and passwords, the new code is
    unpublished, no client paired with it, and no wormhole is left. (Task 5 is
    the one that unpublishes it.) *)
Theorem stale_news_burns_next endpoint_id ticket ipc_enabled c1 c2 p1 p2 tx1 tx2 :
  let start := started_wormhole c1 p1 tx1 in
  let next := [SendControl (EnableWormhole c2 p2 false tx2)] in
  (exists s, exec_all endpoint_id ticket ipc_enabled false
     (start ++ [PairingSuccess] ++ next ++ [ArmControl; CheckBottom; CheckTop; ArmSuccess]) server_new = Some s /\
     wormhole s = None /\ tasks s !! 5 = Some (Unpublish c2) /\ success_queue s = 0) /\
  (exists s, exec_all endpoint_id ticket ipc_enabled false
     (start ++ next ++ [ExpiryFires 1; ArmControl; CheckBottom; CheckTop; ArmControl]) server_new = Some s /\
     wormhole s = None /\ tasks s !! 5 = Some (Unpublish c2)).
Proof. split; (eexists; split; [vm_compute; reflexivity|]); done. Qed.
