(* ===== verification/Pty.v ===== *)
(** * Terminal sizes, signals and commands

    [src/session/pty.rs], [map_sig] of [src/sys/unix/pty.rs] and
    [build_command] of [src/server/handler/shell.rs], as they are on Linux. *)

From S2P Require Import Prelude Text ShellOps.

Definition U16_MAX : N := 65535.

(** ** Sizes *)

Record PtySize : Type := mk_PtySize {
  rows : N;
  cols : N;
  pixel_width : N;
  pixel_height : N;
}.

#[export] Instance pty_size_eq_dec : EqDecision PtySize.
Proof. solve_decision. Defined.

(** [Ord::clamp], and [as u16], which drops the high bits. *)
Definition clamp (lo hi x : N) : N :=
  if (x <? lo)%N then lo else if (hi <? x)%N then hi else x.
Definition as_u16 (x : N) : N := x mod 2 ^ 16.

Definition pty_size (cols rows pixel_width pixel_height : N) : PtySize :=
  mk_PtySize (as_u16 (clamp 1 U16_MAX rows)) (as_u16 (clamp 1 U16_MAX cols))
    (as_u16 (clamp 0 U16_MAX pixel_width)) (as_u16 (clamp 0 U16_MAX pixel_height)).

Definition parse_u16 (b : bytes) : option N :=
  match parse_radix 10 (2 ^ 16) b with Ok n => Some n | Err _ => None end.

(** A variable of the environment that holds a positive number, or a default. *)
Definition dimension (var : option bytes) (fallback : N) : N :=
  default fallback (n ← var ≫= parse_u16; if (0 <? n)%N then Some n else None).

Definition default_pty_size (env : bytes -> option bytes) : PtySize :=
  mk_PtySize (dimension (env (bs "LINES")) 24) (dimension (env (bs "COLUMNS")) 80) 0 0.

Record PtyOptions : Type := mk_PtyOptions {
  po_term : bytes;
  po_size : PtySize;
  po_modes : list (N * N);
}.

Definition pty_options_new (term : bytes) (size : PtySize) : PtyOptions := mk_PtyOptions term size [].
Definition pty_options_modes (o : PtyOptions) (modes : list (N * N)) : PtyOptions :=
  mk_PtyOptions (po_term o) (po_size o) modes.

(** ** Signals *)

Inductive Sig : Type :=
| ABRT | ALRM | FPE | HUP | ILL | INT | KILL | PIPE | QUIT | SEGV | TERM | USR1
| Custom (name : bytes).

Definition SIGKILL : N := 9.

(** [signal(7)], on Linux. *)
Definition map_sig (signal : Sig) : option N :=
  match signal with
  | ABRT => Some 6 | ALRM => Some 14 | FPE => Some 8 | HUP => Some 1 | ILL => Some 4
  | INT => Some 2 | KILL => Some SIGKILL | PIPE => Some 13 | QUIT => Some 3 | SEGV => Some 11
  | TERM => Some 15 | USR1 => Some 10
  | Custom _ => None
  end%N.

(** ** Commands *)

(** [portable_pty::CommandBuilder]: no arguments is the default program. *)
Record CommandBuilder : Type := mk_CommandBuilder {
  args : list bytes;
  envs : gmap bytes bytes;   (** on top of the server's environment *)
}.

Definition build_command (command : option bytes) : CommandBuilder :=
  match command with
  | Some command => mk_CommandBuilder [bs "sh"; bs "-lc"; command] ∅
  | None => mk_CommandBuilder [] ∅
  end.

Definition builder_env (key value : bytes) (b : CommandBuilder) : CommandBuilder :=
  mk_CommandBuilder (args b) (<[key := value]> (envs b)).

(** ** Bounds *)

Lemma clamp_bounds lo hi x : (lo <= hi)%N -> (lo <= clamp lo hi x <= hi)%N.
Proof. unfold clamp. intros. repeat case_match; rewrite ?N.ltb_lt, ?N.ltb_ge in *; lia. Qed.

Lemma clamp_id lo hi x : (lo <= x <= hi)%N -> clamp lo hi x = x.
Proof. unfold clamp. intros. repeat case_match; rewrite ?N.ltb_lt, ?N.ltb_ge in *; lia. Qed.

Lemma as_u16_id x : (x <= U16_MAX)%N -> as_u16 x = x.
Proof. intros. unfold as_u16, U16_MAX in *. apply N.mod_small. lia. Qed.

Lemma parse_digits_bound radix bound b acc n : (acc < bound)%N ->
  parse_digits radix bound acc b = Ok n -> (n < bound)%N.
Proof.
  revert acc. induction b as [|c b IH]; intros acc Ha; simpl; [by intros [= <-]|].
  destruct (digit_of radix c); [|done]. case_match; [|done]. apply IH. by apply N.ltb_lt.
Qed.

Lemma parse_u16_bound b n : parse_u16 b = Some n -> (n <= U16_MAX)%N.
Proof.
  unfold parse_u16, parse_radix. intros H.
  enough (n < 2 ^ 16)%N by (unfold U16_MAX; lia).
  repeat case_match; simplify_eq; (eapply parse_digits_bound; [|done]); lia.
Qed.

Lemma dimension_bounds v d : (1 <= d <= U16_MAX)%N -> (1 <= dimension v d <= U16_MAX)%N.
Proof.
  intros Hd. unfold dimension. destruct (v ≫= parse_u16) as [n|] eqn:E; simpl; [|done].
  destruct (N.ltb_spec 0 n); simpl; [|done].
  destruct v as [b|]; [|done]. apply parse_u16_bound in E. lia.
Qed.

(** A terminal is never empty, and its size is the one asked for when it
    fits. Whatever the peer sends (every field is a [u32]), the size passed to
    the operating system has at least one row and one column and every field
    fits in 16 bits, so the conversion drops no bits; sizes in range are kept,
    and larger ones become the largest. The size used when the client
    requested none is in the same range for every environment. *)
Theorem pty_size_bounds c r w h env :
  let s := pty_size c r w h in
  let d := default_pty_size env in
  (1 <= rows s <= U16_MAX)%N /\ (1 <= cols s <= U16_MAX)%N /\
  (pixel_width s <= U16_MAX)%N /\ (pixel_height s <= U16_MAX)%N /\
  rows s = N.max 1 (N.min r U16_MAX) /\ cols s = N.max 1 (N.min c U16_MAX) /\
  pixel_width s = N.min w U16_MAX /\ pixel_height s = N.min h U16_MAX /\
  (1 <= rows d <= U16_MAX)%N /\ (1 <= cols d <= U16_MAX)%N.
Proof.
  cbv zeta. unfold pty_size, default_pty_size. cbn [rows cols pixel_width pixel_height].
  rewrite !as_u16_id by (unfold U16_MAX; apply clamp_bounds; lia).
  pose proof (clamp_bounds 1 U16_MAX r ltac:(unfold U16_MAX; lia)).
  pose proof (clamp_bounds 1 U16_MAX c ltac:(unfold U16_MAX; lia)).
  pose proof (clamp_bounds 0 U16_MAX w ltac:(unfold U16_MAX; lia)).
  pose proof (clamp_bounds 0 U16_MAX h ltac:(unfold U16_MAX; lia)).
  pose proof (dimension_bounds (env (bs "LINES")) 24 ltac:(unfold U16_MAX; lia)).
  pose proof (dimension_bounds (env (bs "COLUMNS")) 80 ltac:(unfold U16_MAX; lia)).
  split_and!; try lia; unfold clamp, U16_MAX in *; repeat case_match; rewrite ?N.ltb_lt, ?N.ltb_ge in *; lia.
Qed.
