(* ===== verification/Handler.v ===== *)
(** * The SSH server handler: [src/server/handler/mod.rs], [exec.rs] and [pty.rs]

    One [ServerHandler] serves one connection. Its callbacks run one at a time;
    between them run the reader task of each terminal, the idle reaper and the
    copy tasks of forwarded ports. The state is what they share, and [ptys]
    what becomes of every child process ever spawned; [effects] is what was
    sent to the peer or asked of the operating system, oldest first.

    The answers of the operating system and of the SSH library are arguments of
    the callback: whether a terminal could be opened, the child's pid, whether
    a reply could be queued. The Linux build is modelled. *)

From S2P Require Import Prelude Text Echo Metrics Vault Auth AuthBackends Pty.

(** ** State *)

Record PtySpec : Type := mk_PtySpec {
  term : bytes;
  size : PtySize;
  echo : bool;
}.

(** The master is the terminal's number. *)
Record RunningPty : Type := mk_RunningPty {
  master : option nat;
  pty_tx : option nat;
  killer : nat;
  pid : option N;
  pgid : option N;
  shutdown : nat;
  server_echo : bool;
}.

Record ChannelState : Type := mk_ChannelState {
  pty : PtySpec;
  env : gmap bytes bytes;
  process : option RunningPty;
}.

(** The task that reads a terminal: not started; in its loop; past the loop,
    waiting for the child; about to drop its guard; gone. *)
Inductive Reader : Type := Unstarted | Reading | Waiting | Finished | Dropped.

#[export] Instance reader_eq_dec : EqDecision Reader.
Proof. solve_decision. Defined.

(** A child on its terminal. *)
Record Child : Type := mk_Child {
  ch_channel : N;
  ch_pid : option N;
  ch_command : CommandBuilder;
  ch_size : PtySize;
  ch_input : list bytes;      (** the frames sent to the writer thread *)
  ch_cancelled : bool;
  ch_killed : bool;           (** [kill_pty_process] was applied to it *)
  ch_exit : option N;
  ch_reader : Reader;
}.

Inductive AuthReply : Type :=
| Accept
| Reject (proceed_with_methods : option (list AuthMethod)).

Inductive Effect : Type :=
| AuthReplied (r : AuthReply)
| OpenAccepted (channel : N)
| OpenRejected (channel : N)
| TcpConnect (target : bytes)
| ChannelSuccess (channel : N)
| ChannelFailure (channel : N)
| Sent (channel : N) (data : bytes)
| ExitStatus (channel code : N)
| SentEof (channel : N)
| Closed (channel : N)
| Resized (terminal : nat) (s : PtySize)
| KillGroup (pgid sig : N)
| KillChild (pid sig : N)
| HangUp (terminal : nat).

Inductive HandlerError : Type :=
| HAuth (e : IroshError)
| HChannel (operation : bytes)
| HShell (details : bytes)
| HSession.

Section handler.
Context {S K : Type} {AU : Authenticator S K}.

Record Handler : Type := mk_Handler {
  channels : gmap N ChannelState;
  streamed_channels : gset N;
  authenticator : S;
  shell_pid : option N;
  metrics : Metrics;
  auth_gate : option bool;
  idle_timeout : N;
  idle : gmap N N;
  reaper_started : bool;
  ptys : gmap nat Child;
  next_pty : nat;
  effects : list Effect;
}.

(** [with_metrics(..).with_auth_gate(..).with_idle_timeout(..)] *)
Definition handler_new (authenticator : S) (metrics : Metrics) (gate : option bool) (timeout : N) : Handler :=
  mk_Handler ∅ ∅ authenticator None metrics gate timeout ∅ false ∅ 0 [].

Section setters.
Context (h : Handler).

Definition set_channels (c : gmap N ChannelState) : Handler :=
  mk_Handler c (streamed_channels h) (authenticator h) (shell_pid h) (metrics h) (auth_gate h)
    (idle_timeout h) (idle h) (reaper_started h) (ptys h) (next_pty h) (effects h).
Definition set_streamed (s : gset N) : Handler :=
  mk_Handler (channels h) s (authenticator h) (shell_pid h) (metrics h) (auth_gate h)
    (idle_timeout h) (idle h) (reaper_started h) (ptys h) (next_pty h) (effects h).
Definition set_authenticator (a : S) : Handler :=
  mk_Handler (channels h) (streamed_channels h) a (shell_pid h) (metrics h) (auth_gate h)
    (idle_timeout h) (idle h) (reaper_started h) (ptys h) (next_pty h) (effects h).
Definition set_shell_pid (p : option N) : Handler :=
  mk_Handler (channels h) (streamed_channels h) (authenticator h) p (metrics h) (auth_gate h)
    (idle_timeout h) (idle h) (reaper_started h) (ptys h) (next_pty h) (effects h).
Definition set_metrics (m : Metrics) : Handler :=
  mk_Handler (channels h) (streamed_channels h) (authenticator h) (shell_pid h) m (auth_gate h)
    (idle_timeout h) (idle h) (reaper_started h) (ptys h) (next_pty h) (effects h).
Definition set_gate (g : option bool) : Handler :=
  mk_Handler (channels h) (streamed_channels h) (authenticator h) (shell_pid h) (metrics h) g
    (idle_timeout h) (idle h) (reaper_started h) (ptys h) (next_pty h) (effects h).
Definition set_idle (i : gmap N N) : Handler :=
  mk_Handler (channels h) (streamed_channels h) (authenticator h) (shell_pid h) (metrics h) (auth_gate h)
    (idle_timeout h) i (reaper_started h) (ptys h) (next_pty h) (effects h).
Definition set_reaper : Handler :=
  mk_Handler (channels h) (streamed_channels h) (authenticator h) (shell_pid h) (metrics h) (auth_gate h)
    (idle_timeout h) (idle h) true (ptys h) (next_pty h) (effects h).
Definition set_ptys (p : gmap nat Child) (n : nat) : Handler :=
  mk_Handler (channels h) (streamed_channels h) (authenticator h) (shell_pid h) (metrics h) (auth_gate h)
    (idle_timeout h) (idle h) (reaper_started h) p n (effects h).
Definition emit (e : list Effect) : Handler :=
  mk_Handler (channels h) (streamed_channels h) (authenticator h) (shell_pid h) (metrics h) (auth_gate h)
    (idle_timeout h) (idle h) (reaper_started h) (ptys h) (next_pty h) (effects h ++ e).
End setters.

Abbreviation H := (M Handler HandlerError).

Definition modify (f : Handler -> Handler) : H unit := fun h => (Ok tt, f h).
Definition asks {A} (f : Handler -> A) : H A := fun h => (Ok (f h), h).

(** A reply to the peer, if the session can queue it. *)
Definition reply (ok : bool) (e : Effect) (err : HandlerError) : H unit :=
  ensure ok err;; modify (fun h => emit h [e]).

(** Changing a child. *)
Definition with_child (f : Child -> Child) (id : nat) (h : Handler) : Handler :=
  set_ptys h (alter f id (ptys h)) (next_pty h).

Definition child_input (frame : bytes) (c : Child) : Child :=
  mk_Child (ch_channel c) (ch_pid c) (ch_command c) (ch_size c) (ch_input c ++ [frame])
    (ch_cancelled c) (ch_killed c) (ch_exit c) (ch_reader c).
Definition child_resize (s : PtySize) (c : Child) : Child :=
  mk_Child (ch_channel c) (ch_pid c) (ch_command c) s (ch_input c)
    (ch_cancelled c) (ch_killed c) (ch_exit c) (ch_reader c).
Definition child_cancel (c : Child) : Child :=
  mk_Child (ch_channel c) (ch_pid c) (ch_command c) (ch_size c) (ch_input c)
    true (ch_killed c) (ch_exit c) (ch_reader c).
Definition child_kill (c : Child) : Child :=
  mk_Child (ch_channel c) (ch_pid c) (ch_command c) (ch_size c) (ch_input c)
    (ch_cancelled c) true (ch_exit c) (ch_reader c).
Definition child_exit (code : N) (c : Child) : Child :=
  mk_Child (ch_channel c) (ch_pid c) (ch_command c) (ch_size c) (ch_input c)
    (ch_cancelled c) (ch_killed c) (Some code) (ch_reader c).
Definition child_reader (r : Reader) (c : Child) : Child :=
  mk_Child (ch_channel c) (ch_pid c) (ch_command c) (ch_size c) (ch_input c)
    (ch_cancelled c) (ch_killed c) (ch_exit c) r.

(** ** The idle map *)

Definition touch_idle (channel now : N) (h : Handler) : Handler :=
  set_idle h (<[channel := now]> (idle h)).

Definition mark_channel_active (channel now : N) (h : Handler) : Handler :=
  if (idle_timeout h =? 0)%N then h else touch_idle channel now h.

Definition forget_channel (channel : N) (h : Handler) : Handler :=
  set_idle h (delete channel (idle h)).

Definition ensure_reaper (h : Handler) : Handler :=
  if (idle_timeout h =? 0)%N then h else set_reaper h.

(** The period of the reaper, in milliseconds. *)
Definition reaper_period (timeout : N) : N := clamp 10 60000 (timeout / 4).

(** One tick: the channels that were idle for longer than the timeout, and the
    loop that closes them, which stops at the first one the session cannot
    close. [Instant::duration_since] saturates. *)
Definition stale (now timeout : N) (idle : gmap N N) : list N :=
  (filter (fun x : N * N => timeout < now - x.2)%N (map_to_list idle)).*1.

Fixpoint close_stale (ok : N -> bool) (channels : list N) (h : Handler) : Handler :=
  match channels with
  | [] => h
  | c :: rest =>
      let h := forget_channel c h in
      if ok c then close_stale ok rest (emit h [Closed c]) else h
  end.

Definition reaper_tick (now : N) (ok : N -> bool) (h : Handler) : Handler :=
  close_stale ok (stale now (idle_timeout h) (idle h)) h.

(** ** Authentication *)

Definition open_auth_gate (h : Handler) : Handler :=
  match auth_gate h with Some _ => set_gate h (Some true) | None => h end.

Definition remaining_methods (methods : list AuthMethod) (used : AuthMethod) : option (list AuthMethod) :=
  match filter (fun m => m <> used) methods with
  | [] => None
  | remaining => Some remaining
  end.

(** A call of the authenticator. *)
Definition authenticate {A} (m : M S IroshError A) : H A := fun h =>
  let '(r, a) := m (authenticator h) in (map_err HAuth r, set_authenticator h a).

Definition auth_with (check : M S IroshError bool) (used : AuthMethod) : H AuthReply :=
  accepted ← authenticate check;
  if (accepted : bool) then
    modify open_auth_gate;; modify (fun h => emit h [AuthReplied Accept]);; mret Accept
  else
    modify (fun h => set_metrics h (record_error (metrics h)));;
    methods ← authenticate (auth_methods (K := K));
    (let r := Reject (remaining_methods methods used) in
     modify (fun h => emit h [AuthReplied r]);; mret r).

Definition auth_publickey (now : N) (user : bytes) (key : K) : H AuthReply :=
  auth_with (auth_public_key now user key) PublicKey.

Definition auth_password (now : N) (user password : bytes) : H AuthReply :=
  auth_with (AuthBackends.auth_password (K := K) now user password) Password.

(** ** Channels *)

Variable default_size : PtySize.   (** [default_pty_size()] *)

Definition pty_spec_default : PtySpec := mk_PtySpec (bs "xterm-256color") default_size false.
Definition channel_default : ChannelState := mk_ChannelState pty_spec_default ∅ None.

(** [entry(channel).or_default()] *)
Definition or_default (channel : N) (h : Handler) : Handler :=
  match channels h !! channel with
  | Some _ => h
  | None => set_channels h (<[channel := channel_default]> (channels h))
  end.

Definition set_channel (channel : N) (st : ChannelState) (h : Handler) : Handler :=
  set_channels h (<[channel := st]> (channels h)).

Definition channel_open_session (channel : N) : H unit :=
  modify (or_default channel);; modify (fun h => emit h [OpenAccepted channel]).

(** [connected]: the target accepted within 15 seconds. *)
Definition channel_open_direct_tcpip (channel : N) (host : bytes) (port : N) (connected : bool) : H unit :=
  modify (fun h => emit h [TcpConnect (host ++ bs ":" ++ decimal port)]);;
  if connected then
    modify (fun h => set_streamed h ({[channel]} ∪ streamed_channels h));;
    modify (fun h => emit h [OpenAccepted channel])
  else modify (fun h => emit h [OpenRejected channel]).

Definition set_channel_pty (channel : N) (term : bytes) (size : PtySize) (echo ok : bool) : H unit :=
  chans ← asks channels;
  match chans !! channel with
  | None => reply ok (ChannelFailure channel) HSession
  | Some st =>
      modify (set_channel channel (mk_ChannelState (mk_PtySpec term size echo) (env st) (process st)));;
      reply ok (ChannelSuccess channel) HSession
  end.

(** [russh::Pty::ECHO] *)
Definition ECHO : N := 53.

Definition pty_request (channel : N) (term : bytes) (c r w p : N) (modes : list (N * N)) (ok : bool) : H unit :=
  let echo := negb (existsb (fun x => (x.1 =? ECHO)%N && (x.2 =? 0)%N) modes) in
  set_channel_pty channel term (pty_size c r w p) echo ok.

Definition record_env (channel : N) (name value : bytes) (ok : bool) : H unit :=
  chans ← asks channels;
  match chans !! channel with
  | None => reply ok (ChannelFailure channel) HSession
  | Some st =>
      modify (set_channel channel (mk_ChannelState (pty st) (<[name := value]> (env st)) (process st)));;
      reply ok (ChannelSuccess channel) HSession
  end.

(** [room]: the writer thread took the frame. *)
Definition write_channel_data (channel : N) (data : bytes) (room : bool) (h : Handler) : Handler :=
  match (channels h !! channel ≫= process) ≫= pty_tx with
  | Some id => if room then with_child (child_input data) id h else h
  | None => h
  end.

Definition channel_server_echo (channel : N) (h : Handler) : bool :=
  match channels h !! channel ≫= process with
  | Some p => server_echo p
  | None => false
  end.

Definition resize_channel (channel c r w p : N) (ok : bool) : H unit :=
  let size := pty_size c r w p in
  chans ← asks channels;
  match chans !! channel with
  | None => reply ok (ChannelFailure channel) HSession
  | Some st =>
      modify (set_channel channel
        (mk_ChannelState (mk_PtySpec (term (pty st)) size (echo (pty st))) (env st) (process st)));;
      modify (fun h =>
        match process st ≫= master with
        | Some id => emit (with_child (child_resize size) id h) [Resized id size]
        | None => h
        end);;
      reply ok (ChannelSuccess channel) HSession
  end.

Definition close_channel_writer (channel : N) (h : Handler) : Handler :=
  match channels h !! channel with
  | Some st =>
      match process st with
      | Some p =>
          set_channel channel (mk_ChannelState (pty st) (env st)
            (Some (mk_RunningPty (master p) None (killer p) (pid p) (pgid p) (shutdown p) (server_echo p)))) h
      | None => h
      end
  | None => h
  end.

(** ** Commands *)

(** What the operating system answers while a command is started. *)
Record Spawn : Type := mk_Spawn {
  sp_openpty : bool;
  sp_child : option (option N);   (** the child's pid; [None]: not spawned *)
  sp_reader : bool;
  sp_writer : bool;
  sp_thread : bool;
  sp_confirm : bool;
}.

Definition child_command (command : option bytes) (st : ChannelState) : CommandBuilder :=
  map_fold builder_env (builder_env (bs "TERM") (term (pty st)) (build_command command)) (env st).

(** From the child's start to the reader task. *)
Definition attach_child (channel : N) (o : Spawn) (command : option bytes) (st : ChannelState)
    (child_pid : option N) : H unit :=
  id ← asks next_pty;
  modify (fun h => set_ptys h (<[id := mk_Child channel child_pid (child_command command st)
             (size (pty st)) [] false false None Unstarted]> (ptys h)) (Datatypes.S id));;
  (match command with
   | None => modify (fun h => set_shell_pid h child_pid)
   | Some _ => mret tt
   end);;
  ensure (sp_reader o) (HShell (bs "failed to clone PTY reader"));;
  ensure (sp_writer o) (HShell (bs "failed to take PTY writer"));;
  ensure (sp_thread o) (HShell (bs "failed to spawn PTY writer thread"));;
  modify (set_channel channel (mk_ChannelState (pty st) (env st)
    (Some (mk_RunningPty (Some id) (Some id) id child_pid child_pid id false))));;
  reply (sp_confirm o) (ChannelSuccess channel) (HChannel (bs "confirm channel success"));;
  modify (with_child (child_reader Reading) id).

Definition start_command (channel : N) (o : Spawn) (command : option bytes) : H unit :=
  modify (or_default channel);;
  chans ← asks channels;
  let st := default channel_default (chans !! channel) in
  match process st with
  | Some _ => reply (sp_confirm o) (ChannelFailure channel) (HChannel (bs "reject duplicate channel"))
  | None =>
      ensure (sp_openpty o) (HShell (bs "failed to open PTY"));;
      match sp_child o with
      | None => throw (HShell (bs "failed to spawn command in PTY"))
      | Some child_pid => attach_child channel o command st child_pid
      end
  end.

(** [clear_shell_pid_if_matches] *)
Definition clear_shell_pid_if_matches (p : option N) (h : Handler) : Handler :=
  if decide (shell_pid h = p) then set_shell_pid h None else h.

Definition kill_pty_process (p : RunningPty) (h : Handler) : Handler :=
  emit (with_child child_kill (killer p) h)
    (match pgid p with Some g => [KillGroup g SIGKILL] | None => [] end ++
     match pid p with Some i => [KillChild i SIGKILL] | None => [] end ++
     [HangUp (killer p)]).

Definition close_channel (channel : N) (h : Handler) : Handler :=
  match channels h !! channel with
  | Some st =>
      let h := set_channels h (delete channel (channels h)) in
      match process st with
      | Some p =>
          let h := with_child child_cancel (shutdown p) h in
          let h := clear_shell_pid_if_matches (pid p) h in
          kill_pty_process p h
      | None => h
      end
  | None => h
  end.

Definition terminate_all_channels (h : Handler) : Handler :=
  foldl (fun h c => close_channel c h) h (map_to_list (channels h)).*1.

Definition forward_signal (channel : N) (signal : Sig) (h : Handler) : Handler :=
  match channels h !! channel ≫= process with
  | Some p =>
      match pgid p, map_sig signal with
      | Some g, Some sig => emit h [KillGroup g sig]
      | _, _ => h
      end
  | None => h
  end.

(** ** The other callbacks *)

Definition shell_request (channel now : N) (o : Spawn) : H unit :=
  start_command channel o None;;
  modify (mark_channel_active channel now);; modify ensure_reaper.

Definition exec_request (channel now : N) (data : bytes) (o : Spawn) : H unit :=
  start_command channel o (Some (trim (utf8_lossy data)));;
  modify (mark_channel_active channel now);; modify ensure_reaper.

Definition data (channel now : N) (d : bytes) (room ok : bool) (h : Handler) : Handler :=
  if decide (channel ∈ streamed_channels h) then h
  else
    let h := write_channel_data channel d room (mark_channel_active channel now h) in
    if channel_server_echo channel h then
      match filter_echo_bytes d with
      | [] => h
      | e => if ok then emit h [Sent channel e] else h
      end
    else h.

Definition channel_eof (channel : N) (h : Handler) : Handler :=
  close_channel_writer channel (forget_channel channel h).

Definition channel_close (channel : N) (h : Handler) : Handler :=
  close_channel channel
    (forget_channel channel (set_streamed h (streamed_channels h ∖ {[channel]}))).

(** ** The task of a terminal *)

(** A chunk of output; when the session does not take it the loop ends. *)
Definition pty_output (id : nat) (chunk : bytes) (now : N) (ok : bool) (h : Handler) : option Handler :=
  c ← ptys h !! id;
  if decide (ch_reader c = Reading /\ ch_cancelled c = false) then
    Some (if ok then
            let h := emit h [Sent (ch_channel c) chunk] in
            mark_channel_active (ch_channel c) now h
          else with_child (child_reader Waiting) id h)
  else None.

(** Cancelled, at the end of the output, or on an error. *)
Definition pty_break (id : nat) (h : Handler) : option Handler :=
  c ← ptys h !! id;
  if decide (ch_reader c = Reading) then Some (with_child (child_reader Waiting) id h) else None.

(** The child exits. *)
Definition child_exits (id : nat) (code : N) (h : Handler) : option Handler :=
  c ← ptys h !! id;
  match ch_exit c with None => Some (with_child (child_exit code) id h) | Some _ => None end.

(** The task reports the child's status: after its exit, or when it did not
    come within 30 seconds of the end of the output. *)
Definition task_finishes (id : nat) (h : Handler) : option Handler :=
  c ← ptys h !! id;
  let finish code :=
    Some (emit (with_child (child_reader Finished) id h)
            [ExitStatus (ch_channel c) code; SentEof (ch_channel c); Closed (ch_channel c)]) in
  match ch_reader c, ch_exit c with
  | Reading, Some code | Waiting, Some code => finish code
  | Waiting, None => finish 255%N
  | _, _ => None
  end.

(** [impl Drop for CleanupGuard] *)
Definition guard_drop (channel pid : N) (h : Handler) : Handler :=
  let h := clear_shell_pid_if_matches (Some pid) h in
  let h := set_channels h (delete channel (channels h)) in
  set_idle h (delete channel (idle h)).

Definition guard_drops (id : nat) (h : Handler) : option Handler :=
  c ← ptys h !! id;
  if decide (ch_reader c = Finished) then
    Some (guard_drop (ch_channel c) (default 0%N (ch_pid c)) (with_child (child_reader Dropped) id h))
  else None.

(** ** Events *)

Inductive Event : Type :=
| AuthPublickey (now : N) (user : bytes) (key : K)
| AuthPassword (now : N) (user password : bytes)
| OpenSession (channel : N)
| OpenDirectTcpip (channel : N) (host : bytes) (port : N) (connected : bool)
| PtyRequest (channel : N) (term : bytes) (c r w p : N) (modes : list (N * N)) (ok : bool)
| EnvRequest (channel : N) (name value : bytes) (ok : bool)
| ShellRequest (channel now : N) (o : Spawn)
| ExecRequest (channel now : N) (command : bytes) (o : Spawn)
| Data (channel now : N) (d : bytes) (room ok : bool)
| WindowChange (channel c r w p : N) (ok : bool)
| ChannelEof (channel : N)
| ChannelClose (channel : N)
| Signal (channel : N) (signal : Sig)
| PtyOutput (id : nat) (chunk : bytes) (now : N) (ok : bool)
| PtyBreak (id : nat)
| ChildExits (id : nat) (code : N)
| TaskFinishes (id : nat)
| GuardDrops (id : nat)
| ReaperTick (now : N) (ok : N -> bool)
| CopyEnds (channel : N).

Definition exec (e : Event) (h : Handler) : option Handler :=
  match e with
  | AuthPublickey now user key => Some (auth_publickey now user key h).2
  | AuthPassword now user password => Some (auth_password now user password h).2
  | OpenSession c => Some (channel_open_session c h).2
  | OpenDirectTcpip c host port connected => Some (channel_open_direct_tcpip c host port connected h).2
  | PtyRequest ch term c r w p modes ok => Some (pty_request ch term c r w p modes ok h).2
  | EnvRequest c name value ok => Some (record_env c name value ok h).2
  | ShellRequest c now o => Some (shell_request c now o h).2
  | ExecRequest c now command o => Some (exec_request c now command o h).2
  | Data c now d room ok => Some (data c now d room ok h)
  | WindowChange ch c r w p ok => Some (resize_channel ch c r w p ok h).2
  | ChannelEof c => Some (channel_eof c h)
  | ChannelClose c => Some (channel_close c h)
  | Signal c signal => Some (forward_signal c signal h)
  | PtyOutput id chunk now ok => pty_output id chunk now ok h
  | PtyBreak id => pty_break id h
  | ChildExits id code => child_exits id code h
  | TaskFinishes id => task_finishes id h
  | GuardDrops id => guard_drops id h
  | ReaperTick now ok => if reaper_started h then Some (reaper_tick now ok h) else None
  | CopyEnds c => Some (emit h [Closed c])
  end.

Fixpoint exec_all (es : list Event) (h : Handler) : option Handler :=
  match es with
  | [] => Some h
  | e :: es => h ← exec e h; exec_all es h
  end.
End handler.
Arguments Handler : clear implicits.
Arguments Event : clear implicits.
