(* ===== verification/HandlerFacts.v ===== *)
(** * What the SSH handler guarantees

    No child process outlives its connection unnoticed, the gate of the side
    streams opens on an accepted authentication only, requests for unknown
    channels, the idle reaper; and where the handler falls short. *)

From S2P Require Import Prelude Text Echo Metrics Vault Auth AuthBackends Pty Handler.

Section facts.
Context {S K : Type} {AU : Authenticator S K} (default_size : PtySize).
Abbreviation Handler := (Handler S).
Abbreviation Event := (Event K).
Abbreviation exec := (exec (AU := AU) default_size).
Abbreviation exec_all := (exec_all (AU := AU) default_size).

(** ** Children are tracked *)

(** What the invariant needs of a running terminal. *)
Definition view (p : RunningPty) : nat * nat * option N * option N := (killer p, shutdown p, pid p, pgid p).

(** The task of a child has reported its status. *)
Definition ended (c : Child) : Prop := ch_reader c = Finished \/ ch_reader c = Dropped.

(** The child has exited; or its output ended, it did not exit for another 30
    seconds, and its task reported 255 and left it running. *)
Definition accounted (h : Handler) (c : Child) : Prop :=
  is_Some (ch_exit c) \/ ExitStatus (ch_channel c) 255 ∈ effects h.

(** A child belongs to its channel as long as the channel is known; after
    that it has been killed or its task has ended, and a task ends when its
    child has exited or was given up. *)
Record children_ok (h : Handler) : Prop := {
  ok_fresh : forall id, is_Some (ptys h !! id) -> id < next_pty h;
  ok_tracked : forall id c, ptys h !! id = Some c ->
    match channels h !! ch_channel c with
    | Some st => view <$> process st = Some (id, id, ch_pid c, ch_pid c)
    | None => ch_killed c = true \/ ch_reader c = Dropped
    end;
  ok_process : forall ch st p, channels h !! ch = Some st -> process st = Some p ->
    exists c, ptys h !! killer p = Some c /\ ch_channel c = ch;
  ok_killed : forall id c p, ptys h !! id = Some c -> ch_killed c = true -> ch_pid c = Some p ->
    KillGroup p SIGKILL ∈ effects h;
  ok_shell : forall p, shell_pid h = Some p ->
    exists id c, ptys h !! id = Some c /\ ch_pid c = Some p /\ is_Some (channels h !! ch_channel c);
  ok_ended : forall id c, ptys h !! id = Some c -> ended c -> accounted h c;
}.

Lemma accounted_more h h' c :
  (exists e, effects h' = effects h ++ e) -> accounted h c -> accounted h' c.
Proof. intros [e E] [?|?]; [by left|]. right. rewrite E. apply elem_of_app. by left. Qed.

Lemma children_ok_new a m g t : children_ok (handler_new a m g t).
Proof. split; simpl; try done; intros *; rewrite lookup_empty; by intros []. Qed.

Lemma ok_frame h h' :
  children_ok h -> channels h' = channels h -> ptys h' = ptys h -> next_pty h' = next_pty h ->
  shell_pid h' = shell_pid h -> (exists e, effects h' = effects h ++ e) -> children_ok h'.
Proof.
  intros [H1 H2 H3 H4 H5 H6] E1 E2 E3 E4 [e E5]. split; rewrite ?E1, ?E2, ?E3, ?E4; try done.
  - intros id c p Hc Hk Hp. rewrite E5. apply elem_of_app. left. by eapply H4.
  - intros id c Hc He. eapply accounted_more; [by exists e|]. by eapply H6.
Qed.

Lemma ok_emit h e : children_ok h -> children_ok (emit h e).
Proof. intros Hok. apply (ok_frame h); try done. by exists e. Qed.

Lemma ok_set_channel h ch st st' :
  children_ok h -> channels h !! ch = Some st -> view <$> process st' = view <$> process st ->
  children_ok (set_channel ch st' h).
Proof.
  intros [H1 H2 H3 H4 H5 H6] Hst Hv. split; simpl; try done.
  - intros id c Hc. specialize (H2 id c Hc). destruct (decide (ch = ch_channel c)) as [->|Hne].
    + rewrite lookup_insert_eq. rewrite Hst in H2. by rewrite Hv.
    + by rewrite lookup_insert_ne.
  - intros ch0 st0 p. rewrite lookup_insert. case_decide as E; [|by apply H3].
    intros [= <-] Hp. subst ch0. rewrite Hp in Hv. destruct (process st) as [q|] eqn:Hq; [|done].
    injection Hv as Hk _ _ _. rewrite Hk. by apply (H3 ch st q).
  - intros p Hp. destruct (H5 p Hp) as (id & c & Hc & Hpid & Hch). exists id, c. split_and!; try done.
    rewrite lookup_insert. by case_decide.
Qed.

(** A change of a child that forgets nothing. *)
Definition monotone (f : Child -> Child) : Prop := forall c,
  ch_channel (f c) = ch_channel c /\ ch_pid (f c) = ch_pid c /\ ch_killed (f c) = ch_killed c /\
  (ch_reader c = Dropped -> ch_reader (f c) = Dropped).

Lemma ok_with_child h f id : children_ok h ->
  (forall c, ptys h !! id = Some c -> ch_channel (f c) = ch_channel c /\ ch_pid (f c) = ch_pid c /\
     ch_killed (f c) = ch_killed c /\ (ch_reader c = Dropped -> ch_reader (f c) = Dropped) /\
     (is_Some (ch_exit c) -> is_Some (ch_exit (f c))) /\ (ended (f c) -> ended c \/ accounted h (f c))) ->
  children_ok (with_child f id h).
Proof.
  intros [H1 H2 H3 H4 H5 H6] Hf.
  assert (forall id' c, alter f id (ptys h) !! id' = Some c -> exists c0, ptys h !! id' = Some c0 /\
    ch_channel c = ch_channel c0 /\ ch_pid c = ch_pid c0 /\ ch_killed c = ch_killed c0 /\
    (ch_reader c0 = Dropped -> ch_reader c = Dropped) /\
    (is_Some (ch_exit c0) -> is_Some (ch_exit c)) /\ (ended c -> ended c0 \/ accounted h c)) as Ha.
  { intros id' c. rewrite lookup_alter. case_decide as E; [|intros ?; exists c; by intuition].
    subst id'. intros (c0 & Hc0 & ->)%fmap_Some. exists c0. split; [done|]. by apply Hf. }
  split; simpl.
  - intros id' [c (c0 & Hc0 & _)%Ha]. by apply H1.
  - intros id' c (c0 & Hc0 & -> & -> & -> & Hd & _)%Ha. specialize (H2 id' c0 Hc0).
    case_match; [done|]. destruct H2 as [?|?]; auto.
  - intros ch st p Hst Hp. destruct (H3 ch st p Hst Hp) as (c & Hc & Hch).
    rewrite lookup_alter. case_decide as E; [subst id|by exists c].
    rewrite Hc. exists (f c). split; [done|]. by destruct (Hf c Hc) as [-> _].
  - intros id' c p (c0 & Hc0 & _ & -> & -> & _)%Ha. by eapply H4.
  - intros p Hp. destruct (H5 p Hp) as (id' & c & Hc & Hpid & Hch).
    destruct (decide (id = id')) as [->|Hne].
    + exists id', (f c). destruct (Hf c Hc) as (E1 & E2 & _). rewrite lookup_alter_eq, Hc, E1, E2. done.
    + exists id', c. by rewrite lookup_alter_ne.
  - intros id' c (c0 & Hc0 & Ech & _ & _ & _ & Hx & He)%Ha [Hen|Ha']%He; [|done].
    destruct (H6 id' c0 Hc0 Hen) as [?|?]; [left; auto|right; by rewrite Ech].
Qed.

(** What input, a resize or an exit status does to a child, and what its task
    does. *)
Lemma ok_with_same h f id : children_ok h ->
  (forall c, ch_channel (f c) = ch_channel c /\ ch_pid (f c) = ch_pid c /\
     ch_killed (f c) = ch_killed c /\ ch_reader (f c) = ch_reader c /\
     (is_Some (ch_exit c) -> is_Some (ch_exit (f c)))) ->
  children_ok (with_child f id h).
Proof.
  intros Hok Hf. apply ok_with_child; [done|]. intros c Hc. destruct (Hf c) as (E1 & E2 & E3 & E4 & E5).
  split_and!; try done; [congruence|]. unfold ended. rewrite E4. by left.
Qed.

Lemma ok_with_reader h id c r : children_ok h -> ptys h !! id = Some c ->
  (ch_reader c = Dropped -> r = Dropped) -> (r = Finished \/ r = Dropped -> accounted h c) ->
  children_ok (with_child (child_reader r) id h).
Proof.
  intros Hok Hc Hr Ha. apply ok_with_child; [done|]. intros c' Hc'.
  rewrite Hc in Hc'. injection Hc' as <-. split_and!; try done. intros He. right. by apply Ha.
Qed.

(** A new, unused channel. *)
Lemma ok_or_default h ch :
  children_ok h -> (forall id c, ptys h !! id = Some c -> ch_channel c <> ch) ->
  children_ok (or_default default_size ch h).
Proof.
  intros [H1 H2 H3 H4 H5 H6] Hnew. unfold or_default. destruct (channels h !! ch) eqn:E; [by split|].
  split; simpl; try done.
  - intros id c Hc. rewrite lookup_insert_ne by (intros Ee; apply (Hnew id c Hc); congruence). by apply H2.
  - intros ch0 st p. rewrite lookup_insert. case_decide; [by intros [= <-]|apply H3].
  - intros p Hp. destruct (H5 p Hp) as (id & c & Hc & Hpid & Hch). exists id, c. split_and!; try done.
    rewrite lookup_insert. by case_decide.
Qed.


(** The end of a channel, once its child is done with. *)
Lemma ok_remove h h' ch :
  children_ok h -> channels h' = delete ch (channels h) -> next_pty h' = next_pty h ->
  (forall id, is_Some (ptys h' !! id) -> is_Some (ptys h !! id)) ->
  (forall id c, ptys h !! id = Some c -> exists c', ptys h' !! id = Some c' /\
     ch_channel c' = ch_channel c /\ ch_pid c' = ch_pid c /\
     (ch_killed c' = ch_killed c \/ (ch_killed c' = true /\ forall p, ch_pid c = Some p ->
        KillGroup p SIGKILL ∈ effects h')) /\
     (ch_channel c <> ch -> ch_killed c' = ch_killed c) /\
     (ch_reader c = Dropped -> ch_reader c' = Dropped) /\
     (ch_channel c = ch -> is_Some (channels h !! ch) -> ch_killed c' = true \/ ch_reader c' = Dropped)) ->
  (exists e, effects h' = effects h ++ e) ->
  (forall p, shell_pid h' = Some p -> shell_pid h = Some p /\
     forall id c, ptys h !! id = Some c -> ch_channel c = ch -> is_Some (channels h !! ch) -> ch_pid c <> Some p) ->
  (forall id c, ptys h' !! id = Some c -> ended c -> accounted h' c) ->
  children_ok h'.
Proof.
  intros [H1 H2 H3 H4 H5 H6] Ec En Es Hc' [e Ee] Hs Hend.
  assert (forall id c', ptys h' !! id = Some c' -> exists c, ptys h !! id = Some c /\
     ch_channel c' = ch_channel c /\ ch_pid c' = ch_pid c /\
     (ch_killed c' = ch_killed c \/ (ch_killed c' = true /\ forall p, ch_pid c = Some p ->
        KillGroup p SIGKILL ∈ effects h')) /\
     (ch_channel c <> ch -> ch_killed c' = ch_killed c) /\
     (ch_reader c = Dropped -> ch_reader c' = Dropped) /\
     (ch_channel c = ch -> is_Some (channels h !! ch) -> ch_killed c' = true \/ ch_reader c' = Dropped)) as Ha.
  { intros id c' Hp. destruct (Es id ltac:(by exists c')) as [c Hc]. exists c. split; [done|].
    destruct (Hc' id c Hc) as (c2 & Hc2 & Hrest). rewrite Hp in Hc2. by injection Hc2 as <-. }
  split; rewrite ?Ec, ?En.
  - intros id Hid. apply H1, Es, Hid.
  - intros id c' Hp. destruct (Ha id c' Hp) as (c & Hc & E1 & E2 & Hk & Hk' & Hd & He). specialize (H2 id c Hc).
    rewrite E1. destruct (decide (ch = ch_channel c)) as [->|Hne].
    + rewrite lookup_delete_eq. destruct (channels h !! ch_channel c); [by apply He|].
      destruct H2 as [Hx|Hx]; [|auto]. left. destruct Hk as [->|[? _]]; done.
    + rewrite lookup_delete_ne by done. rewrite E2. case_match; [done|].
      destruct H2 as [Hx|Hx]; [left; rewrite Hk'; [done|congruence]|auto].
  - intros ch0 st p [Hne Hst]%lookup_delete_Some Hp. destruct (H3 ch0 st p Hst Hp) as (c & Hc & Hch).
    destruct (Hc' _ c Hc) as (c' & Hp' & E1 & _). exists c'. split; [done|congruence].
  - intros id c' p Hp Hk Hpid. destruct (Ha id c' Hp) as (c & Hc & E1 & E2 & Hkk & _).
    rewrite E2 in Hpid. destruct Hkk as [Hkk|[_ Hkk]]; [|by apply Hkk].
    rewrite Ee. apply elem_of_app. left. eapply H4; [done| |done]. congruence.
  - intros p Hp. destruct (Hs p Hp) as [Hold Hnot]. destruct (H5 p Hold) as (id & c & Hc & Hpid & Hch).
    destruct (Hc' id c Hc) as (c' & Hp' & E1 & E2 & _). exists id, c'. split_and!; [done|congruence|].
    rewrite E1, lookup_delete_ne; [done|]. intros ->. by apply (Hnot id c Hc).
  - exact Hend.
Qed.

Lemma clear_shell_pid_spec q (h : Handler) :
  channels (clear_shell_pid_if_matches q h) = channels h /\ ptys (clear_shell_pid_if_matches q h) = ptys h /\
  next_pty (clear_shell_pid_if_matches q h) = next_pty h /\ effects (clear_shell_pid_if_matches q h) = effects h /\
  idle (clear_shell_pid_if_matches q h) = idle h /\ auth_gate (clear_shell_pid_if_matches q h) = auth_gate h /\
  forall p, shell_pid (clear_shell_pid_if_matches q h) = Some p -> shell_pid h = Some p /\ q <> Some p.
Proof. unfold clear_shell_pid_if_matches. case_decide; split_and!; try done. intros p Hp. split; congruence. Qed.

(** A channel's child is the only one it ever had. *)
Lemma only_child h ch st p id c :
  children_ok h -> channels h !! ch = Some st -> process st = Some p ->
  ptys h !! id = Some c -> ch_channel c = ch ->
  id = killer p /\ shutdown p = killer p /\ pid p = ch_pid c /\ pgid p = ch_pid c.
Proof.
  intros Hok Hst Hp Hc <-. pose proof (ok_tracked h Hok id c Hc) as Ht. rewrite Hst, Hp in Ht.
  injection Ht as -> -> -> ->. done.
Qed.

Lemma no_child h ch st id c :
  children_ok h -> channels h !! ch = Some st -> process st = None ->
  ptys h !! id = Some c -> ch_channel c <> ch.
Proof. intros Hok Hst Hp Hc <-. pose proof (ok_tracked h Hok id c Hc) as Ht. by rewrite Hst, Hp in Ht. Qed.

Lemma ok_close h ch : children_ok h -> children_ok (close_channel ch h).
Proof.
  intros Hok. unfold close_channel. destruct (channels h !! ch) as [st|] eqn:Hst; [|done].
  destruct (process st) as [p|] eqn:Hp.
  - destruct (ok_process h Hok ch st p Hst Hp) as (c0 & Hc0 & Hch0).
    destruct (only_child h ch st p _ c0 Hok Hst Hp Hc0 Hch0) as (_ & Es & Ep & Eg).
    set (h1 := with_child child_cancel (shutdown p) (set_channels h (delete ch (channels h)))).
    destruct (clear_shell_pid_spec (pid p) h1) as (E1 & E2 & E3 & E4 & _ & _ & E6).
    unfold kill_pty_process. cbv zeta. fold h1. remember (clear_shell_pid_if_matches (pid p) h1) as h2 eqn:Eh. clear Eh.
    apply (ok_remove h _ ch); simpl.
    + done.
    + by rewrite E1.
    + by rewrite E3.
    + intros id. rewrite E2. simpl. rewrite Es. destruct (decide (killer p = id)) as [<-|];
        [by rewrite !lookup_alter_eq, !fmap_is_Some|by rewrite !lookup_alter_ne].
    + intros id c Hc. rewrite E2. simpl. rewrite Es. destruct (decide (killer p = id)) as [<-|E].
      * rewrite !lookup_alter_eq. rewrite Hc0 in Hc. injection Hc as <-. rewrite Hc0. eexists. split; [done|].
        split_and!; try done; [|by left]. right. split; [done|]. intros q Hq.
        rewrite Eg, Hq. set_solver.
      * rewrite !lookup_alter_ne by done. exists c. split_and!; try done; [by left|]. intros Hch. exfalso. apply E.
        by destruct (only_child h ch st p id c Hok Hst Hp Hc Hch) as [-> _].
    + rewrite E4. by eexists.
    + intros q [Hq Hne]%E6. split; [done|]. intros id c Hc Hch _.
      destruct (only_child h ch st p id c Hok Hst Hp Hc Hch) as (_ & _ & <- & _). done.
    + intros id c'. rewrite E2. simpl. rewrite Es. intros Hc' He.
      apply (accounted_more h); [simpl; rewrite E4; by eexists|]. revert Hc'.
      destruct (decide (killer p = id)) as [<-|E].
      * rewrite !lookup_alter_eq, Hc0. intros [= <-]. exact (ok_ended h Hok _ c0 Hc0 He).
      * rewrite !lookup_alter_ne by done. intros Hc'. exact (ok_ended h Hok _ c' Hc' He).
  - apply (ok_remove h _ ch); simpl; try done.
    + intros id c Hc. exists c. split_and!; try done; [by left|]. intros Hch.
      by destruct (no_child h ch st id c Hok Hst Hp Hc).
    + exists []. by rewrite app_nil_r.
    + intros q Hq. split; [done|]. intros id c Hc Hch. by destruct (no_child h ch st id c Hok Hst Hp Hc).
    + apply (ok_ended h Hok).
Qed.

Lemma close_channel_channels ch (h : Handler) : channels (close_channel ch h) = delete ch (channels h).
Proof.
  unfold close_channel. destruct (channels h !! ch) as [st|] eqn:E; [|by rewrite delete_id].
  destruct (process st) as [p|]; [|done]. unfold kill_pty_process. simpl.
  by destruct (clear_shell_pid_spec (pid p) (with_child child_cancel (shutdown p) (set_channels h (delete ch (channels h)))))
    as [-> _].
Qed.

Lemma ok_close_all l h : children_ok h -> children_ok (foldl (fun h c => close_channel c h) h l).
Proof. revert h. induction l as [|c l IH]; intros h Hok; simpl; [done|]. by apply IH, ok_close. Qed.

Lemma close_all_channels l (h : Handler) :
  (forall c, is_Some (channels h !! c) -> c ∈ l) -> channels (foldl (fun h c => close_channel c h) h l) = ∅.
Proof.
  revert h. induction l as [|c l IH]; intros h Hl; simpl.
  - apply map_empty. intros i. destruct (channels h !! i) eqn:E; [|done].
    exfalso. specialize (Hl i ltac:(by eexists)). by apply elem_of_nil in Hl.
  - apply IH. intros c' Hc'. rewrite close_channel_channels in Hc'.
    destruct Hc' as [st [Hne Hst]%lookup_delete_Some]. specialize (Hl c' ltac:(by eexists)). set_solver.
Qed.

Lemma terminate_channels (h : Handler) : channels (terminate_all_channels h) = ∅.
Proof.
  apply close_all_channels. intros c [st Hst]. apply list_elem_of_fmap. exists (c, st).
  split; [done|]. by apply elem_of_map_to_list.
Qed.

(** A child is started on a channel that never had one. *)
Lemma ok_started h h' ch st st' c cpid :
  children_ok h -> channels h !! ch = Some st -> process st = None ->
  channels h' = <[ch := st']> (channels h) ->
  view <$> process st' = Some (next_pty h, next_pty h, cpid, cpid) ->
  ptys h' = <[next_pty h := c]> (ptys h) -> ch_channel c = ch -> ch_pid c = cpid -> ch_killed c = false -> ~ ended c ->
  next_pty h' = Datatypes.S (next_pty h) -> (shell_pid h' = shell_pid h \/ shell_pid h' = cpid) ->
  (exists e, effects h' = effects h ++ e) -> children_ok h'.
Proof.
  intros Hok Hst Hp Ec Hv Ep Ech Epid Ek Hnend En Es [e Ee].
  assert (ptys h !! next_pty h = None) as Hfresh.
  { destruct (ptys h !! next_pty h) eqn:E; [|done]. pose proof (ok_fresh h Hok (next_pty h) ltac:(by eexists)). lia. }
  pose proof (fun id c' Hc => no_child h ch st id c' Hok Hst Hp Hc) as Hno.
  destruct Hok as [H1 H2 H3 H4 H5 H6]. split; rewrite ?Ec, ?Ep, ?En.
  - intros id. rewrite lookup_insert. case_decide; [lia|]. intros Hid%H1. lia.
  - intros id c'. rewrite lookup_insert. case_decide as E.
    + intros [= <-]. subst id. by rewrite Ech, lookup_insert_eq, Epid.
    + intros Hc. rewrite lookup_insert_ne by (intros Ex; apply (Hno id c' Hc); congruence). by apply H2.
  - intros ch0 st0 p. rewrite lookup_insert. case_decide as E.
    + intros [= <-] Hq. subst ch0. rewrite Hq in Hv. injection Hv as -> _ _ _. exists c.
      by rewrite lookup_insert_eq.
    + intros Hst0 Hq. destruct (H3 ch0 st0 p Hst0 Hq) as (c' & Hc & Hch). exists c'.
      rewrite lookup_insert_ne; [done|]. intros Ex. congruence.
  - intros id c' p. rewrite lookup_insert. case_decide; [intros [= <-]; congruence|].
    intros Hc Hk Hq. rewrite Ee. apply elem_of_app. left. by eapply H4.
  - intros p Hq. destruct Es as [Es|Es]; rewrite Es in Hq.
    + destruct (H5 p Hq) as (id & c' & Hc & Hpid & Hch). exists id, c'.
      rewrite lookup_insert_ne by congruence. split_and!; try done. rewrite lookup_insert. by case_decide.
    + exists (next_pty h), c. rewrite lookup_insert_eq, Ech, lookup_insert_eq. split_and!; [done|congruence|done].
  - intros id c'. rewrite lookup_insert. case_decide; [by intros [= <-]|].
    intros Hc He. eapply accounted_more; [by exists e|]. by eapply H6.
Qed.

(** Nothing fails between the child's start and its registration. *)
Definition setup_succeeds (o : Spawn) : bool := sp_reader o && sp_writer o && sp_thread o.

Lemma ok_start_command h ch o command :
  children_ok h -> is_Some (channels h !! ch) -> setup_succeeds o = true ->
  children_ok (start_command default_size ch o command h).2.
Proof.
  intros Hok [st Hst] Hs. unfold setup_succeeds in Hs. rewrite !andb_true_iff in Hs.
  destruct Hs as [[E1 E2] E3].
  assert (or_default default_size ch h = h) as Ho by (unfold or_default; by rewrite Hst).
  unfold start_command, attach_child, modify, asks, reply, ensure, throw, mbind, M_bind, mret, M_ret.
  rewrite Ho, Hst. cbn [default from_option id]. rewrite E1, E2, E3.
  destruct (process st) as [p|] eqn:Hp.
  { destruct (sp_confirm o); [by apply ok_emit|done]. }
  destruct (sp_openpty o); [|done]. destruct (sp_child o) as [cpid|]; [|done].
  destruct command as [command|], (sp_confirm o); cbn -[child_command].
  all: eapply (ok_started h _ ch st _ _ cpid Hok Hst Hp); cbn -[child_command];
    [reflexivity|reflexivity|rewrite ?alter_insert_eq; reflexivity
    |first [done|intros [?|?]; discriminate]..|by (left + right)|].
  all: first [by eexists|by exists []; rewrite app_nil_r].
Qed.

Lemma ok_reply ok e err h : children_ok h -> children_ok (reply ok e err h).2.
Proof. intros Hok. destruct ok; [by apply ok_emit|done]. Qed.

(** A callback that looks a channel up, changes it and answers. *)
Lemma ok_channel_op h ch (f : ChannelState -> ChannelState) (g : ChannelState -> Handler -> Handler) ok s e err :
  children_ok h -> (forall st, channels h !! ch = Some st -> view <$> process (f st) = view <$> process st) ->
  (forall st h', channels h !! ch = Some st -> children_ok h' -> children_ok (g st h')) ->
  children_ok ((chans ← asks channels;
    match chans !! ch with
    | None => reply ok e err
    | Some st => modify (set_channel ch (f st));; modify (g st);; reply ok s err
    end) h).2.
Proof.
  intros Hok Hf Hg. unfold asks, modify, mbind, M_bind. destruct (channels h !! ch) as [st|] eqn:Hst.
  - apply ok_reply, (Hg st), (ok_set_channel h ch st); auto.
  - by apply ok_reply.
Qed.

Lemma ok_mark h ch now : children_ok h -> children_ok (mark_channel_active ch now h).
Proof.
  intros Hok. unfold mark_channel_active. case_match; [done|]. apply (ok_frame h); try done.
  exists []. by rewrite app_nil_r.
Qed.

Lemma ok_same h h' : children_ok h -> channels h' = channels h -> ptys h' = ptys h -> next_pty h' = next_pty h ->
  shell_pid h' = shell_pid h -> effects h' = effects h -> children_ok h'.
Proof. intros Hok ? ? ? ? E. apply (ok_frame h); try done. exists []. by rewrite app_nil_r. Qed.

Lemma ok_auth check used h : children_ok h -> children_ok (auth_with check used h).2.
Proof.
  intros Hok. unfold auth_with, authenticate, modify, mbind, M_bind, mret, M_ret.
  destruct (check (authenticator h)) as [[[]|e] a]; simpl.
  - apply ok_emit. unfold open_auth_gate. by case_match; apply (ok_same h).
  - destruct (auth_methods a) as [[ms|e] a']; simpl; [apply ok_emit|]; by apply (ok_same h).
  - by apply (ok_same h).
Qed.

Lemma ok_start_then h ch o command f :
  children_ok h -> is_Some (channels h !! ch) -> setup_succeeds o = true ->
  (forall h', children_ok h' -> children_ok (f h')) ->
  children_ok ((start_command default_size ch o command;; modify f;; modify ensure_reaper) h).2.
Proof.
  intros Hok Hch Hs Hf. pose proof (ok_start_command h ch o command Hok Hch Hs) as Hst.
  unfold mbind, M_bind, modify. destruct (start_command _ ch o command h) as [[u|e] h']; [|done].
  simpl in *. apply Hf in Hst. unfold ensure_reaper. case_match; [done|]. by apply (ok_same (f h')).
Qed.

Lemma ok_close_stale ok l h : children_ok h -> children_ok (close_stale ok l h).
Proof.
  revert h. induction l as [|c l IH]; intros h Hok; simpl; [done|].
  assert (children_ok (forget_channel c h)) as Hf by by apply (ok_same h).
  destruct (ok c); [|done]. by apply IH, ok_emit.
Qed.

(** The guard of a finished task. *)
Lemma ok_guard h id c :
  children_ok h -> ptys h !! id = Some c -> ch_reader c = Finished ->
  children_ok (guard_drop (ch_channel c) (default 0%N (ch_pid c)) (with_child (child_reader Dropped) id h)).
Proof.
  intros Hok Hc Hfin. unfold guard_drop.
  set (h1 := with_child (child_reader Dropped) id h). cbv zeta.
  destruct (clear_shell_pid_spec (Some (default 0%N (ch_pid c))) h1) as (E1 & E2 & E3 & E4 & _ & _ & E6).
  remember (clear_shell_pid_if_matches (Some (default 0%N (ch_pid c))) h1) as h2 eqn:Eh. clear Eh.
  apply (ok_remove h _ (ch_channel c)); simpl; [done|by rewrite E1|by rewrite E3|..].
  - intros id'. rewrite E2. simpl. rewrite lookup_alter. case_decide; [subst|]; by rewrite ?fmap_is_Some.
  - intros id' c' Hc'. rewrite E2. simpl. rewrite lookup_alter. case_decide as E.
    + subst id'. rewrite Hc' in Hc. injection Hc as ->. rewrite Hc'. eexists. split; [done|].
      split_and!; try done; [by left|]. by right.
    + exists c'. split_and!; try done; [by left|]. intros Hch [st Hst]. exfalso. apply E.
      pose proof (ok_tracked h Hok id c Hc) as Ht. pose proof (ok_tracked h Hok id' c' Hc') as Ht'.
      rewrite Hch, Hst in Ht'. rewrite Hst in Ht. rewrite Ht in Ht'. by injection Ht'.
  - rewrite E4. exists []. by rewrite app_nil_r.
  - intros p [Hp Hne]%E6. split; [done|]. intros id' c' Hc' Hch [st Hst] Hpid.
    pose proof (ok_tracked h Hok id c Hc) as Ht. pose proof (ok_tracked h Hok id' c' Hc') as Ht'.
    rewrite Hch, Hst in Ht'. rewrite Hst in Ht. rewrite Ht in Ht'. injection Ht' as _ _ Epid.
    apply Hne. by rewrite Epid, Hpid.
  - intros id' c'. rewrite E2. simpl. intros Hc' He.
    apply (accounted_more h); [simpl; rewrite E4; exists []; by rewrite app_nil_r|]. revert Hc'.
    rewrite lookup_alter. case_decide as E; [|intros Hc'; exact (ok_ended h Hok _ c' Hc' He)].
    subst id'. rewrite Hc. intros [= <-]. apply (ok_ended h Hok _ c Hc). by left.
Qed.

(** ** The library's side *)

(** What the SSH library and the operating system see to: a channel is opened
    under a number no child was ever started on, a command is requested on an
    open channel, and the pieces of a terminal can be taken. *)
Definition legal (e : Event) (h : Handler) : Prop :=
  match e with
  | OpenSession c => forall id child, ptys h !! id = Some child -> ch_channel child <> c
  | ShellRequest c _ o | ExecRequest c _ _ o => is_Some (channels h !! c) /\ setup_succeeds o = true
  | _ => True
  end.

Fixpoint legal_all (es : list Event) (h : Handler) : Prop :=
  match es with
  | [] => True
  | e :: es => legal e h /\ match exec e h with Some h' => legal_all es h' | None => True end
  end.

Lemma exec_children_ok e h h' : exec e h = Some h' -> legal e h -> children_ok h -> children_ok h'.
Proof.
  intros He Hl Hok. destruct e; cbn [Handler.exec] in He; try (injection He as <-).
  - by apply ok_auth.
  - by apply ok_auth.
  - by apply ok_emit, ok_or_default.
  - unfold channel_open_direct_tcpip, modify, mbind, M_bind. destruct connected; simpl; apply ok_emit;
      [|by apply ok_emit]. apply (ok_frame h); try done. by eexists.
  - destruct (channels h !! channel) as [st|] eqn:E;
      unfold pty_request, set_channel_pty, asks, modify, mbind, M_bind; rewrite E; apply ok_reply; [|done].
    by apply (ok_set_channel h channel st).
  - destruct (channels h !! channel) as [st|] eqn:E;
      unfold record_env, asks, modify, mbind, M_bind; rewrite E; apply ok_reply; [|done].
    by apply (ok_set_channel h channel st).
  - destruct Hl. apply ok_start_then; auto using ok_mark.
  - destruct Hl. apply ok_start_then; auto using ok_mark.
  - unfold data. case_decide; [done|]. apply (ok_mark h channel now) in Hok.
    assert (children_ok (write_channel_data channel d room (mark_channel_active channel now h))) as Hw.
    { unfold write_channel_data. repeat case_match; try done. by apply ok_with_same. }
    repeat case_match; try done. by apply ok_emit.
  - apply ok_channel_op; [done|done|]. intros st h' Hst Hok'. case_match; [|done].
    by apply ok_emit, ok_with_same.
  - unfold channel_eof, close_channel_writer.
    assert (children_ok (forget_channel channel h)) as Hf by by apply (ok_same h).
    destruct (channels (forget_channel channel h) !! channel) as [st|] eqn:E; [|done].
    destruct (process st) as [p|] eqn:Hp; [|done].
    apply (ok_set_channel _ channel st); [done|done|]. by rewrite Hp.
  - apply ok_close. by apply (ok_same h).
  - unfold forward_signal. repeat case_match; try done. by apply ok_emit.
  - apply bind_Some in He as (c & Hc & He). case_decide; [|done]. injection He as <-.
    destruct ok; [by apply ok_mark, ok_emit|]. apply (ok_with_reader h id c); [done|done|intuition congruence|].
    by intros [?|?].
  - apply bind_Some in He as (c & Hc & He). case_decide; [|done]. injection He as <-.
    apply (ok_with_reader h id c); [done|done|congruence|]. by intros [?|?].
  - apply bind_Some in He as (c & Hc & He). case_match; [done|]. injection He as <-. by apply ok_with_same.
  - apply bind_Some in He as (c & Hc & He). repeat case_match; try done; injection He as <-;
      match goal with |- children_ok (emit _ ?es) =>
        apply (ok_with_reader (emit h es) id c); [by apply ok_emit|done|congruence|intros _]
      end; first [left; by eexists | right; simpl; set_solver].
  - apply bind_Some in He as (c & Hc & He). case_decide; [|done]. injection He as <-. by apply ok_guard.
  - case_match; [|done]. injection He as <-. by apply ok_close_stale.
  - by apply ok_emit.
Qed.

Lemma exec_all_children_ok es h h' :
  exec_all es h = Some h' -> legal_all es h -> children_ok h -> children_ok h'.
Proof.
  revert h. induction es as [|e es IH]; intros h; cbn [Handler.exec_all legal_all].
  - by intros [= ->].
  - intros (h1 & H1 & H2)%bind_Some [Hl Hls] Hok. rewrite H1 in Hls.
    apply (IH h1); [done|done|]. by eapply exec_children_ok.
Qed.

(** C39: The bookkeeping of terminals stays well formed in every state that a
    legal sequence of requests, output, exits and idle ticks reaches: one in
    which the library opens each channel under a new number and asks for
    commands on open channels, and the pieces of each terminal can be taken
    ([legal]; where they are not, [orphaned_child] and
    [failed_setup_leaks_child] break it). Each known channel with a process
    has its child, on that channel, under the number its killer and its
    shutdown flag have; each child whose channel is gone was killed or its
    task has ended; a task ends only when its child has exited or was given
    up after 30 seconds; and the registered shell is the process of a known
    channel. *)
Theorem terminals_wellformed a m g t es h :
  exec_all es (handler_new a m g t) = Some h -> legal_all es (handler_new a m g t) -> children_ok h.
Proof. intros He Hl. by eapply exec_all_children_ok, children_ok_new. Qed.

(** C16: No child outlives its connection unnoticed. For every legal sequence
    of requests, output, exits and idle ticks ([legal]: the library opens each
    channel under a new number and asks for commands on open channels, and
    the pieces of each terminal can be taken; [orphaned_child] and
    [failed_setup_leaks_child] show what happens otherwise): when
    [terminate_all_channels] has run at the end of the session, no channel is
    left, no transfer would still use a shell's context, and every child ever
    started has had its process group killed, or has exited, or is one the
    code leaves running on purpose: its terminal was closed, it did not exit
    within the next 30 seconds, and its client was told the status 255. *)
Theorem teardown_kills_every_child a m g t es h :
  exec_all es (handler_new a m g t) = Some h -> legal_all es (handler_new a m g t) ->
  let h' := terminate_all_channels h in
  channels h' = ∅ /\ shell_pid h' = None /\
  forall id c, ptys h' !! id = Some c ->
    (ch_killed c = true /\ forall p, ch_pid c = Some p -> KillGroup p SIGKILL ∈ effects h') \/
    is_Some (ch_exit c) \/ ExitStatus (ch_channel c) 255 ∈ effects h'.
Proof.
  intros He Hl h'. pose proof (exec_all_children_ok _ _ _ He Hl (children_ok_new a m g t)) as Hok.
  pose proof (terminate_channels h) as Hc. apply (ok_close_all (map_to_list (channels h)).*1) in Hok.
  change (children_ok h') in Hok. fold h' in Hc. split; [done|]. split.
  - destruct (shell_pid h') as [p|] eqn:Hp; [|done].
    destruct (ok_shell h' Hok p Hp) as (id & c & _ & _ & Hch). rewrite Hc, lookup_empty in Hch. by destruct Hch.
  - intros id c Hid. pose proof (ok_tracked h' Hok id c Hid) as Ht. rewrite Hc, lookup_empty in Ht.
    destruct Ht as [Hk|Hd]; [left|right; apply (ok_ended h' Hok id c Hid); by right].
    split; [done|]. intros p Hp. by eapply (ok_killed h' Hok).
Qed.

(** ** The gate *)

(** The gate, the authenticator and what was already sent stay. *)
Definition quiet (h h' : Handler) : Prop :=
  auth_gate h' = auth_gate h /\ authenticator h' = authenticator h.

#[local] Instance quiet_preorder : PreOrder quiet.
Proof. split; [by intros h|]. intros h1 h2 h3 [E1 E2] [E3 E4]. split; congruence. Qed.

Lemma quiet_clear q h : quiet h (clear_shell_pid_if_matches q h).
Proof. unfold clear_shell_pid_if_matches. by case_decide. Qed.

Lemma quiet_close ch h : quiet h (close_channel ch h).
Proof.
  unfold close_channel. repeat case_match; try done. unfold kill_pty_process.
  etrans; [|apply (quiet_clear (pid r) (with_child child_cancel (shutdown r) (set_channels h (delete ch (channels h)))))].
  done.
Qed.

Lemma quiet_mark ch now h : quiet h (mark_channel_active ch now h).
Proof. unfold mark_channel_active. by case_match. Qed.

Lemma quiet_or_default ch h : quiet h (or_default default_size ch h).
Proof. unfold or_default. by case_match. Qed.

Lemma quiet_start ch o command h : quiet h (start_command default_size ch o command h).2.
Proof.
  etrans; [apply (quiet_or_default ch)|].
  unfold start_command, attach_child, modify, asks, reply, ensure, throw, mbind, M_bind, mret, M_ret.
  generalize (or_default default_size ch h). intros h1. cbn -[child_command].
  destruct o as [op child rd wr th cf]. cbn -[child_command].
  destruct (process _), cf, op, child, rd, wr, th, command; done.
Qed.

Lemma quiet_start_then ch o command now h :
  quiet h ((start_command default_size ch o command;; modify (mark_channel_active ch now);; modify ensure_reaper) h).2.
Proof.
  pose proof (quiet_start ch o command h) as Hq. unfold mbind, M_bind, modify.
  destruct (start_command _ ch o command h) as [[u|e] h']; [|done]. simpl in *.
  etrans; [exact Hq|]. etrans; [apply (quiet_mark ch now)|]. unfold ensure_reaper. by case_match.
Qed.

Lemma quiet_close_stale ok l h : quiet h (close_stale ok l h).
Proof.
  revert h. induction l as [|c l IH]; intros h; simpl; [done|]. destruct (ok c); [|done].
  etrans; [|apply IH]. done.
Qed.

(** The authenticator's answer to an authentication request. *)
Definition accepts (e : Event) (h : Handler) : Prop :=
  match e with
  | AuthPublickey now user key => (auth_public_key now user key (authenticator h)).1 = Ok true
  | AuthPassword now user password =>
      (AuthBackends.auth_password (K := K) now user password (authenticator h)).1 = Ok true
  | _ => False
  end.

Definition is_auth (e : Event) : bool :=
  match e with AuthPublickey _ _ _ | AuthPassword _ _ _ => true | _ => false end.

Lemma exec_quiet e h h' : exec e h = Some h' -> is_auth e = false -> quiet h h'.
Proof.
  intros He Ha. destruct e; try done; cbn [Handler.exec] in He; try (injection He as <-).
  - etrans; [apply (quiet_or_default channel)|done].
  - by destruct connected.
  - unfold pty_request, set_channel_pty, asks, reply, ensure, modify, mbind, M_bind.
    by destruct (channels h !! channel), ok.
  - unfold record_env, asks, reply, ensure, modify, mbind, M_bind. by destruct (channels h !! channel), ok.
  - apply quiet_start_then.
  - apply quiet_start_then.
  - unfold data. case_decide; [done|].
    assert (quiet h (write_channel_data channel d room (mark_channel_active channel now h))) as Hw.
    { etrans; [apply (quiet_mark channel now)|]. unfold write_channel_data. by repeat case_match. }
    by repeat case_match.
  - unfold resize_channel, asks, reply, ensure, modify, mbind, M_bind.
    destruct (channels h !! channel) as [st|]; [destruct ok; cbn; destruct (option_bind _ _ master (process st)); done|by destruct ok].
  - unfold channel_eof, close_channel_writer. by repeat case_match.
  - etrans; [|apply quiet_close]. done.
  - unfold forward_signal. by repeat case_match.
  - apply bind_Some in He as (c & Hc & He). case_decide; [|done]. injection He as <-.
    destruct ok; [|done]. etrans; [|apply quiet_mark]. done.
  - apply bind_Some in He as (c & Hc & He). case_decide; [|done]. by injection He as <-.
  - apply bind_Some in He as (c & Hc & He). case_match; [done|]. by injection He as <-.
  - apply bind_Some in He as (c & Hc & He). repeat case_match; try done; by injection He as <-.
  - apply bind_Some in He as (c & Hc & He). case_decide; [|done]. injection He as <-. unfold guard_drop.
    etrans; [|apply (quiet_clear (Some (default 0%N (ch_pid c))) (with_child (child_reader Dropped) id h))]. done.
  - case_match; [|done]. injection He as <-. apply quiet_close_stale.
  - done.
Qed.

Lemma auth_gate_after check used h g :
  auth_gate h = Some g ->
  auth_gate (auth_with (K := K) check used h).2 =
    Some (g || match (check (authenticator h)).1 with Ok true => true | _ => false end).
Proof.
  intros Hg. unfold auth_with, authenticate, modify, mbind, M_bind, mret, M_ret.
  destruct (check (authenticator h)) as [[[]|e] a]; simpl.
  - unfold open_auth_gate. simpl. rewrite Hg. simpl. by destruct g.
  - destruct (auth_methods a) as [[ms|e] a']; simpl; rewrite Hg; by destruct g.
  - rewrite Hg. by destruct g.
Qed.

Lemma gate_step e h h' g : exec e h = Some h' -> auth_gate h = Some g ->
  exists g', auth_gate h' = Some g' /\ (g' = true <-> g = true \/ accepts e h).
Proof.
  intros He Hg. destruct (is_auth e) eqn:Ea.
  - destruct e; try done; injection He as <-; unfold auth_publickey, auth_password;
      rewrite (auth_gate_after _ _ _ g Hg); eexists; (split; [done|]); simpl;
      rewrite orb_true_iff; (split; [intros [?|?]|intros [?|E]]); auto; right; by repeat case_match; simplify_eq.
  - destruct (exec_quiet e h h' He Ea) as [Eg _]. exists g. split; [congruence|].
    split; [auto|]. intros [?|Hx]; [done|]. by destruct e.
Qed.

(** C17: The gate of the side streams is the authentication. For every
    authenticator and every sequence of events, the gate is open exactly when
    some earlier authentication request of this connection was answered yes by
    the authenticator, in the state it had at that moment. *)
Theorem gate_is_authentication a m t es h :
  exec_all es (handler_new a m (Some false) t) = Some h ->
  auth_gate h = Some true <->
  exists es1 e es2 h1, es = es1 ++ e :: es2 /\
    exec_all es1 (handler_new a m (Some false) t) = Some h1 /\ accepts e h1.
Proof.
  set (h0 := handler_new a m (Some false) t). intros He.
  enough (exists g, auth_gate h = Some g /\ (g = true <-> exists es1 e es2 h1, es = es1 ++ e :: es2 /\
    exec_all es1 h0 = Some h1 /\ accepts e h1)) as (g & -> & Hg).
  { rewrite <-Hg. split; congruence. }
  revert h He. induction es as [|e es IH] using rev_ind; intros h He.
  - injection He as <-. exists false. split; [done|]. split; [done|]. by intros ([] & ? & ? & ? & [=] & _).
  - assert (exists h1, exec_all es h0 = Some h1 /\ exec e h1 = Some h) as (h1 & H1 & H2).
    { clear IH. revert He. generalize h0. induction es as [|e' es IH]; intros h2; cbn [app Handler.exec_all].
      - intros (h3 & H3 & [= <-])%bind_Some. by exists h2.
      - intros (h3 & H3 & H4)%bind_Some. rewrite H3. by apply IH. }
    destruct (IH h1 H1) as (g & Hg & Hiff). destruct (gate_step e h1 h g H2 Hg) as (g' & Hg' & Hiff').
    exists g'. split; [done|]. rewrite Hiff', Hiff. split.
    + intros [(es1 & e1 & es2 & h2 & -> & ? & ?)|Ha].
      * exists es1, e1, (es2 ++ [e]), h2. by rewrite <-app_assoc.
      * by exists es, e, [], h1.
    + intros (es1 & e1 & es2 & h2 & Heq & Hx & Ha). destruct es2 as [|e2 es2 _] using rev_ind.
      * apply app_inj_tail in Heq as [<- <-]. right. congruence.
      * left. rewrite app_comm_cons, app_assoc in Heq. apply app_inj_tail in Heq as [-> _].
        by exists es1, e1, es2, h2.
Qed.
End facts.

(** ** Unknown channels *)

Section more.
Context {S K : Type} {AU : Authenticator S K} (default_size : PtySize).
Abbreviation Handler := (Handler S).

(** The answer to a request for a channel the handler does not know. *)
Definition refused (ch : N) (ok : bool) (h : Handler) : result HandlerError unit * Handler :=
  if ok then (Ok tt, emit h [ChannelFailure ch]) else (Err HSession, h).

(** Requests for channels that were never opened. A terminal, environment,
    resize or signal request, data, end of input and close for an unknown
    channel are answered with a failure where the protocol has an answer (or
    fail with the session when it takes no reply) and touch no channel, child
    or shell context; data leaves only a timestamp, and only with an idle
    timeout. A shell or exec request is the exception: whatever becomes of it,
    it leaves an entry for the channel. *)
Theorem unknown_channels_leave_no_trace (h : Handler) ch :
  channels h !! ch = None ->
  (forall term c r w p modes ok, pty_request ch term c r w p modes ok h = refused ch ok h) /\
  (forall name value ok, record_env ch name value ok h = refused ch ok h) /\
  (forall c r w p ok, resize_channel ch c r w p ok h = refused ch ok h) /\
  (forall sig, forward_signal ch sig h = h) /\
  (forall now d room ok, data ch now d room ok h =
     if decide (ch ∈ streamed_channels h) then h else mark_channel_active ch now h) /\
  channel_eof ch h = forget_channel ch h /\
  channels (channel_close ch h) = channels h /\ ptys (channel_close ch h) = ptys h /\
  shell_pid (channel_close ch h) = shell_pid h /\ effects (channel_close ch h) = effects h /\
  (forall o command, is_Some (channels (start_command default_size ch o command h).2 !! ch)).
Proof.
  intros Hno. unfold refused. split_and!.
  - intros. unfold pty_request, set_channel_pty, asks, reply, ensure, modify, mbind, M_bind. rewrite Hno. by destruct ok.
  - intros. unfold record_env, asks, reply, ensure, modify, mbind, M_bind. rewrite Hno. by destruct ok.
  - intros. unfold resize_channel, asks, reply, ensure, modify, mbind, M_bind. rewrite Hno. by destruct ok.
  - intros. unfold forward_signal. by rewrite Hno.
  - intros. unfold data. case_decide; [done|].
    assert (channels (mark_channel_active ch now h) !! ch = None) as Hm by (unfold mark_channel_active; case_match; exact Hno).
    unfold write_channel_data, channel_server_echo. rewrite Hm. cbn [mbind option_bind]. by rewrite Hm.
  - unfold channel_eof, close_channel_writer. simpl. by rewrite Hno.
  - unfold channel_close. rewrite close_channel_channels. simpl. by rewrite delete_id.
  - unfold channel_close, close_channel. simpl. by rewrite Hno.
  - unfold channel_close, close_channel. simpl. by rewrite Hno.
  - unfold channel_close, close_channel. simpl. by rewrite Hno.
  - intros o command. unfold start_command, attach_child, modify, asks, reply, ensure, throw, mbind, M_bind, mret, M_ret, or_default.
    rewrite Hno. cbn -[child_command]. rewrite lookup_insert_eq. cbn -[child_command].
    destruct o as [op child rd wr th cf]. cbn -[child_command].
    destruct cf, op, child, rd, wr, th, command; cbn -[child_command]; rewrite lookup_insert_eq; by eexists.
Qed.

(** ** The idle reaper *)

Lemma elem_of_stale c now timeout i :
  c ∈ stale now timeout i <-> exists last, i !! c = Some last /\ (timeout < now - last)%N.
Proof.
  unfold stale. rewrite list_elem_of_fmap. split.
  - intros ([c' last] & -> & [Hlt Hin]%list_elem_of_filter). exists last. by apply elem_of_map_to_list in Hin.
  - intros (last & Hc & Hlt). exists (c, last). split; [done|]. apply list_elem_of_filter.
    split; [done|]. by apply elem_of_map_to_list.
Qed.

Lemma close_stale_spec l (h : Handler) :
  let h' := close_stale (fun _ => true) l h in
  (forall c, idle h' !! c = if decide (c ∈ l) then None else idle h !! c) /\
  effects h' = effects h ++ (Closed <$> l) /\ channels h' = channels h /\ ptys h' = ptys h.
Proof.
  revert h. induction l as [|x l IH]; intros h; simpl.
  - split_and!; [|by rewrite app_nil_r|done..]. intros c.
    destruct (decide (c ∈ [])) as [E|E]; [by apply elem_of_nil in E|done].
  - destruct (IH (emit (forget_channel x h) [Closed x])) as (H1 & H2 & H3 & H4).
    split_and!; [|rewrite H2; simpl; by rewrite <-app_assoc|done..]. intros c. rewrite H1. simpl.
    destruct (decide (c = x)) as [->|Hne].
    + rewrite lookup_delete_eq, (decide_True (P := x ∈ x :: l)) by left. by case_decide.
    + rewrite lookup_delete_ne by done. destruct (decide (c ∈ l)) as [Hl|Hl].
      * by rewrite decide_True by (by right).
      * rewrite decide_False; [done|]. by intros [?|?]%elem_of_cons.
Qed.

(** A channel whose last traffic is more than the timeout ago. *)
Definition overdue (h : Handler) (now c : N) : Prop :=
  exists last, idle h !! c = Some last /\ (idle_timeout h < now - last)%N.

(** Idle channels are closed, and no others. While the session takes
    closes, a tick of the reaper closes and forgets exactly the channels whose
    last traffic is more than the timeout ago, and leaves all others, their
    children and their timestamps alone. Ticks come between 10 milliseconds
    and a minute apart, so a channel that went quiet is met by a tick that
    closes it after the timeout and at most one period later. *)
Theorem idle_channels_are_closed (h : Handler) now :
  let h' := reaper_tick now (fun _ => true) h in
  let period := reaper_period (idle_timeout h) in
  (exists closed, effects h' = effects h ++ (Closed <$> closed) /\
     forall c, (c ∈ closed <-> overdue h now c) /\
       idle h' !! c = if decide (c ∈ closed) then None else idle h !! c) /\
  channels h' = channels h /\ ptys h' = ptys h /\
  (10 <= period <= 60000)%N /\
  (forall first last, (first <= last + idle_timeout h)%N ->
     exists k, (idle_timeout h < first + k * period - last)%N /\
       (first + k * period <= last + idle_timeout h + period)%N).
Proof.
  intros h' period. destruct (close_stale_spec (stale now (idle_timeout h) (idle h)) h) as (H1 & H2 & H3 & H4).
  assert (10 <= period <= 60000)%N as Hp by (apply clamp_bounds; lia).
  split_and!; try done; try lia.
  - exists (stale now (idle_timeout h) (idle h)). split; [exact H2|]. intros c. split; [apply elem_of_stale|apply H1].
  - intros first last Hf. clearbody period. set (d := (last + idle_timeout h - first)%N).
    exists (d / period + 1)%N.
    assert (period <> 0)%N as Hnz by lia. pose proof (N.div_mod' d period). pose proof (N.mod_lt d period Hnz).
    rewrite N.mul_add_distr_r. rewrite (N.mul_comm period) in H.
    revert H H0. generalize (d / period * period)%N (d mod period)%N. subst d. intros; lia.
Qed.
End more.

(** ** Witnesses, and where the handler falls short *)

(** A password checked by comparison. *)
Definition same_password (password hash : bytes) : result PasswordError unit :=
  if decide (password = hash) then Ok tt else Err PasswordInvalid.

#[local] Instance demo_auth : Authenticator PasswordAuth bytes := password_authenticator same_password bytes.

Definition demo_size : PtySize := mk_PtySize 24 80 0 0.
Definition demo_handler : Handler PasswordAuth :=
  handler_new (password_auth_new (bs "pw")) metrics_new (Some false) 1000.

Definition demo_run (es : list (Event bytes)) : Handler PasswordAuth :=
  default demo_handler (exec_all (AU := demo_auth) demo_size es demo_handler).

Definition started (pid : N) : Spawn := mk_Spawn true (Some (Some pid)) true true true true.

Definition shell_run : list (Event bytes) :=
  [AuthPassword 0 (bs "u") (bs "pw"); OpenSession 0; ShellRequest 0 5 (started 70)].

Lemma teardown_kills_every_child_witness :
  KillGroup 70 SIGKILL ∈ effects (terminate_all_channels (demo_run shell_run)) /\
  shell_pid (terminate_all_channels (demo_run shell_run)) = None.
Proof.
  destruct (teardown_kills_every_child (AU := demo_auth) demo_size (password_auth_new (bs "pw")) metrics_new (Some false) 1000
    shell_run (demo_run shell_run)) as (_ & H2 & H3).
  - vm_compute. reflexivity.
  - cbn [legal_all]. split; [exact I|]. split; [|split; [|exact I]].
    + intros id child. vm_compute. discriminate.
    + split; [eexists|]; vm_compute; reflexivity.
  - split; [|exact H2]. destruct (H3 0 (default (mk_Child 0 None (mk_CommandBuilder [] ∅) demo_size [] false false None Unstarted)
      (ptys (terminate_all_channels (demo_run shell_run)) !! 0))) as [[_ Hk]|[[code Hd]|Hd]].
    + vm_compute. reflexivity.
    + apply Hk. vm_compute. reflexivity.
    + exfalso. revert Hd. vm_compute. discriminate.
    + exfalso. revert Hd. vm_compute. intros Hd.
      repeat (apply elem_of_cons in Hd as [Hd|Hd]; [discriminate|]). by apply elem_of_nil in Hd.
Defined.

Lemma terminals_wellformed_witness : children_ok (demo_run shell_run).
Proof.
  apply (terminals_wellformed (AU := demo_auth) demo_size (password_auth_new (bs "pw")) metrics_new (Some false) 1000 shell_run).
  - vm_compute. reflexivity.
  - cbn [legal_all]. split; [exact I|]. split; [|split; [|exact I]].
    + intros id child. vm_compute. discriminate.
    + split; [eexists|]; vm_compute; reflexivity.
Defined.

Lemma gate_is_authentication_witness :
  auth_gate (demo_run shell_run) = Some true /\
  exists es1 e es2 h1, shell_run = es1 ++ e :: es2 /\
    exec_all (AU := demo_auth) demo_size es1 demo_handler = Some h1 /\ accepts (AU := demo_auth) e h1.
Proof.
  assert (auth_gate (demo_run shell_run) = Some true) as Hg by (vm_compute; reflexivity).
  split; [exact Hg|].
  apply (gate_is_authentication (AU := demo_auth) demo_size (password_auth_new (bs "pw")) metrics_new 1000 shell_run (demo_run shell_run));
    [vm_compute; reflexivity|exact Hg].
Defined.

Lemma unknown_channels_leave_no_trace_witness :
  forward_signal 3 INT (demo_run shell_run) = demo_run shell_run /\
  channel_eof 3 (demo_run shell_run) = forget_channel 3 (demo_run shell_run).
Proof.
  destruct (unknown_channels_leave_no_trace demo_size (demo_run shell_run) 3 ltac:(vm_compute; reflexivity))
    as (_ & _ & _ & H1 & _ & H2 & _).
  split; [apply H1|exact H2].
Defined.

(** A command on a channel that was closed is started, and the guard of the
    channel's earlier task then removes its entry: the teardown does not see
    the child. *)
Lemma orphaned_child :
  let h := terminate_all_channels (demo_run
    [OpenSession 0; ShellRequest 0 5 (started 70); ChannelClose 0; ExecRequest 0 6 (bs "yes") (started 71);
     PtyBreak 0; ChildExits 0 137; TaskFinishes 0; GuardDrops 0]) in
  (ch_killed <$> ptys h !! 1) = Some false /\ (ch_reader <$> ptys h !! 1) = Some Reading /\
  (ch_exit <$> ptys h !! 1) = Some None.
Proof. vm_compute. done. Qed.

(** When a piece of the terminal cannot be taken after the child was started,
    the child stays alive and registered as the shell. *)
Lemma failed_setup_leaks_child :
  let h := terminate_all_channels (demo_run
    [OpenSession 0; ShellRequest 0 5 (mk_Spawn true (Some (Some 70%N)) false true true true)]) in
  (ch_killed <$> ptys h !! 0) = Some false /\ shell_pid h = Some 70%N.
Proof. vm_compute. done. Qed.

(** A second shell takes over the transfers' context, and its exit leaves the
    first shell's transfers without one. *)
Lemma second_shell_takes_context :
  let h := demo_run [OpenSession 0; ShellRequest 0 5 (started 70); OpenSession 1; ShellRequest 1 6 (started 71)] in
  let h' := demo_run [OpenSession 0; ShellRequest 0 5 (started 70); OpenSession 1; ShellRequest 1 6 (started 71);
    ChannelClose 1] in
  shell_pid h = Some 71%N /\ shell_pid h' = None /\ (ch_killed <$> ptys h' !! 0) = Some false.
Proof. vm_compute. done. Qed.

(** A child that closed its terminal and runs on is left alone, as the code
    says it should be. *)
Lemma detached_child_survives :
  let h := terminate_all_channels (demo_run
    [OpenSession 0; ShellRequest 0 5 (started 70); PtyBreak 0; TaskFinishes 0; GuardDrops 0]) in
  (ch_killed <$> ptys h !! 0) = Some false /\ (ch_exit <$> ptys h !! 0) = Some None /\
  ExitStatus 0 255 ∈ effects h.
Proof. vm_compute. split_and!; [done..|]. set_solver. Qed.
