(* ===== verification/SideStreams.v ===== *)
(** * A connection and its side streams: [src/server/side_streams.rs], [protocol.rs]

    [SshProtocol::accept] starts a listener for side streams, then runs the SSH
    session on the first stream. Each side stream is dispatched by its own
    task once the gate lets it pass. The gate is a watch channel: its sender
    lives in the handler, of which the SSH session has one clone and [accept]
    another; waiting for it ends when it is opened, when the connection
    closes, and when no sender is left. *)

From S2P Require Import Prelude Text Stream TransferTypes TransferCodec Fs Paths Hoare Metrics.
From S2P Require Import Conn ShellOps Upload Download Control Blob Demo Dispatch Metadata.
From S2P Require Import Vault Auth AuthBackends Pty Handler HandlerFacts.

(** ** [handle_side_stream_dispatch] *)

(** What ends the [select!] at a gate that is not open. *)
Inductive Wait : Type := GateOpened | SenderDropped | ConnectionClosed.

Inductive SideError : Type :=
| SideIo (e : io_error)
| SideMetadata (e : MetadataError)
| SideTransfer (e : Conn.IroshError).

(** [if !*auth_gate.borrow() { select! { .. } }]: the value of [wait_for],
    which is an error when the sender is gone, is not looked at. *)
Definition pass_gate (open : bool) (wait : Wait) : result SideError unit :=
  if open then Ok tt
  else match wait with
       | ConnectionClosed => Err (SideIo OtherError)
       | GateOpened | SenderDropped => Ok tt
       end.

Section dispatch.
Context {SJ : SerdeJson} {ST : SystemTexts} {MA : Machine} {LS : LiveShell} {WD : WalkDir}
  {BS : BlobStore}.

Abbreviation side := (M (conn * Metrics) SideError).

Definition from_peer {E A} (f : E -> SideError) (m : M reader E A) : side A := fun '(c, mt) =>
  let '(r, rd) := m (incoming c) in
  (map_err f r, (mk_conn rd (frame_buf c) (outgoing c) (local_fs c), mt)).

Definition to_stream {E A} (f : E -> SideError) (m : M writer E A) : side A := fun '(c, mt) =>
  let '(r, c) := to_peer m c in (map_err f r, (c, mt)).

(** [IrohDuplex::with_prefix] *)
Definition with_prefix (prefix : bytes) (r : reader) : reader :=
  mk_reader (prefix ++ rd_data r) (rd_end r).

Definition handle_side_stream_dispatch (st : ConnectionShellState) (current : PeerMetadata)
    (open : bool) (wait : Wait) : side unit :=
  magic ← from_peer SideIo (read_exact 4);
  lift (pass_gate open wait);;
  if decide (magic = Metadata.MAGIC) then
    from_peer SideIo (fun r => (Ok tt, with_prefix magic r));;
    from_peer SideMetadata read_metadata_request;;
    to_stream SideMetadata (write_metadata current)
  else if decide (magic = TransferCodec.MAGIC) then
    from_peer SideIo (fun r => (Ok tt, with_prefix magic r));;
    M_map_err SideTransfer (handle_transfer_stream st)
  else mret tt.
End dispatch.

(** ** The connection *)

(** A side stream's task: reading the magic, at the gate, past it, over. *)
Inductive Side : Type :=
| SideReads
| SideWaits
| SideRuns
| SideFails.

(** [accept]: the listener runs and the session does not yet; the session
    runs; [accept] has returned. *)
Inductive AcceptPhase : Type := Preparing | Serving | Returned.

#[export] Instance accept_phase_eq_dec : EqDecision AcceptPhase.
Proof. solve_decision. Defined.

Section connection.
Context {S K : Type} {AU : Authenticator S K} (default_size : PtySize).

Record Connection : Type := mk_Connection {
  handler : Handler S;
  accept : AcceptPhase;
  session : bool;         (** the SSH session has its clone of the handler *)
  closed : bool;
  sides : list Side;
}.

(** A connection after [accept_bi], with the gate shut. *)
Definition connection_new (a : S) (m : Metrics) (timeout : N) : Connection :=
  mk_Connection (handler_new a m (Some false) timeout) Preparing false false [].

(** A sender of the gate is left. *)
Definition gate_sender (c : Connection) : bool := negb (bool_decide (accept c = Returned)) || session c.

Definition gate_open (c : Connection) : bool := default false (auth_gate (handler c)).

(** What [wait_for] and [closed] can bring a waiting stream. *)
Definition can_wake (c : Connection) (w : Wait) : bool :=
  match w with
  | GateOpened => gate_open c
  | SenderDropped => negb (gate_sender c)
  | ConnectionClosed => closed c
  end.

Inductive ConnEvent : Type :=
| RunStream                (** the SSH session starts *)
| NoWormhole               (** a pairing connection without a wormhole: [return Ok(())] *)
| Callback (e : Handler.Event K)
| SessionEnds              (** the SSH session drops its handler *)
| AcceptReturns            (** [terminate_all_channels], and the end of [accept] *)
| Closes
| SideOpens
| SideMagic (i : nat) (complete : bool)
| SidePasses (i : nat) (w : Wait).

(** The tasks of terminals, ports and the reaper outlive the session. *)
Definition is_task (e : Handler.Event K) : bool :=
  match e with
  | PtyOutput _ _ _ _ | PtyBreak _ | ChildExits _ _ | TaskFinishes _ | GuardDrops _ | ReaperTick _ _
  | CopyEnds _ => true
  | _ => false
  end.

Definition step (e : ConnEvent) (c : Connection) : option Connection :=
  match e with
  | RunStream =>
      if decide (accept c = Preparing)
      then Some (mk_Connection (handler c) Serving true (closed c) (sides c)) else None
  | NoWormhole =>
      if decide (accept c = Preparing)
      then Some (mk_Connection (handler c) Returned false (closed c) (sides c)) else None
  | Callback e =>
      if session c || is_task e
      then h ← Handler.exec default_size e (handler c);
           Some (mk_Connection h (accept c) (session c) (closed c) (sides c))
      else None
  | SessionEnds =>
      if session c
      then Some (mk_Connection (handler c) (accept c) false (closed c) (sides c)) else None
  | AcceptReturns =>
      if decide (accept c = Serving)
      then Some (mk_Connection (terminate_all_channels (handler c)) Returned (session c) (closed c) (sides c))
      else None
  | Closes => Some (mk_Connection (handler c) (accept c) (session c) true (sides c))
  | SideOpens =>
      if closed c then None
      else Some (mk_Connection (handler c) (accept c) (session c) (closed c) (sides c ++ [SideReads]))
  | SideMagic i complete =>
      match sides c !! i with
      | Some SideReads =>
          Some (mk_Connection (handler c) (accept c) (session c) (closed c)
                  (<[i := if complete then SideWaits else SideFails]> (sides c)))
      | _ => None
      end
  | SidePasses i w =>
      match sides c !! i with
      | Some SideWaits =>
          if gate_open c || can_wake c w then
            Some (mk_Connection (handler c) (accept c) (session c) (closed c)
                    (<[i := if is_ok (pass_gate (gate_open c) w) then SideRuns else SideFails]> (sides c)))
          else None
      | _ => None
      end
  end.

Fixpoint steps (es : list ConnEvent) (c : Connection) : option Connection :=
  match es with
  | [] => Some c
  | e :: es => c ← step e c; steps es c
  end.
End connection.
Arguments Connection : clear implicits.
Arguments ConnEvent : clear implicits.
