(* ===== verification/SideFacts.v ===== *)
(** * Who gets past the gate

    While the handler lives, nobody without an accepted authentication; once it
    is gone, everybody. *)

From S2P Require Import Prelude Text Stream TransferTypes TransferCodec Fs Paths Hoare Metrics.
From S2P Require Import Conn ShellOps Upload Download Control Blob Demo Dispatch Metadata.
From S2P Require Import Vault Auth AuthBackends Pty Handler HandlerFacts SideStreams.

Section facts.
Context {S K : Type} {AU : Authenticator S K} (default_size : PtySize).
Abbreviation Connection := (Connection S).
Abbreviation step := (step (AU := AU) default_size).
Abbreviation steps := (steps (AU := AU) default_size).

(** The callbacks among the events, which are the handler's run. *)
Fixpoint callbacks (es : list (ConnEvent K)) : list (Handler.Event K) :=
  match es with
  | [] => []
  | Callback e :: es => e :: callbacks es
  | _ :: es => callbacks es
  end.

(** An authentication request was accepted earlier in the run. *)
Definition authenticated (es : list (ConnEvent K)) (c0 : Connection) : Prop :=
  exists es1 e es2 c1, es = es1 ++ Callback e :: es2 /\ steps es1 c0 = Some c1 /\ accepts e (handler c1).

Lemma steps_snoc es e c0 c : steps (es ++ [e]) c0 = Some c <->
  exists c1, steps es c0 = Some c1 /\ step e c1 = Some c.
Proof.
  revert c0. induction es as [|e' es IH]; intros c0; cbn [app SideStreams.steps].
  - split; [intros (c1 & ? & [= <-])%bind_Some; by exists c0|].
    intros (c1 & [= <-] & H). by rewrite H.
  - split.
    + intros (c1 & H1 & (c2 & ? & ?)%IH)%bind_Some. rewrite H1. by exists c2.
    + intros (c2 & (c1 & H1 & H2)%bind_Some & H3). rewrite H1. apply IH. by exists c2.
Qed.

Lemma terminate_gate (h : Handler S) : auth_gate (terminate_all_channels h) = auth_gate h.
Proof.
  unfold terminate_all_channels. generalize (map_to_list (channels h)).*1. intros l. revert h.
  induction l as [|c l IH]; intros h; simpl; [done|]. rewrite IH. by destruct (quiet_close c h).
Qed.

(** The gate is never shut again, and opens on an accepted request only. *)
Lemma step_gate e c c' :
  step e c = Some c' -> (exists g, auth_gate (handler c) = Some g) ->
  (exists g, auth_gate (handler c') = Some g) /\
  (gate_open c = true -> gate_open c' = true) /\
  (gate_open c' = true -> gate_open c = true \/ exists e', e = Callback e' /\ accepts e' (handler c)) /\
  (gate_sender c' = true -> gate_sender c = true).
Proof.
  intros Hs [g Hg]. unfold gate_open, gate_sender.
  assert (handler c' = handler c \/ handler c' = terminate_all_channels (handler c) \/
          exists e', e = Callback e' /\ Handler.exec default_size e' (handler c) = Some (handler c')) as Hh.
  { destruct e; cbn [SideStreams.step] in Hs; repeat case_decide; repeat case_match; simplify_eq; auto.
    apply bind_Some in Hs as (h & Hh & [= <-]). right. right. by exists e. }
  split_and!.
  - destruct Hh as [->|[->|(e' & -> & He)]]; [by exists g|rewrite terminate_gate; by exists g|].
    destruct (gate_step default_size e' _ _ g He Hg) as (g' & -> & _). by exists g'.
  - destruct Hh as [->|[->|(e' & -> & He)]]; [done|by rewrite terminate_gate|].
    destruct (gate_step default_size e' _ _ g He Hg) as (g' & -> & Hiff). rewrite Hg. simpl. tauto.
  - destruct Hh as [->|[->|(e' & -> & He)]]; [auto|rewrite terminate_gate; auto|].
    destruct (gate_step default_size e' _ _ g He Hg) as (g' & -> & Hiff). rewrite Hg. simpl.
    intros [?|?]%Hiff; [auto|]. right. by exists e'.
  - destruct c as [h ac se cl si]; destruct e; cbn [SideStreams.step] in Hs; simpl in Hs;
      repeat case_decide; repeat case_match; simplify_eq; try done; simpl in *; try by destruct ac.
    all: apply bind_Some in Hs as (h' & _ & [= <-]); done.
Qed.

(** A side stream that got past the gate did so with the gate open, or
    without a sender. *)
Lemma step_sides e c c' i :
  step e c = Some c' -> sides c' !! i = Some SideRuns ->
  sides c !! i = Some SideRuns \/ gate_open c = true \/ gate_sender c = false.
Proof.
  intros Hs Hi. destruct e; cbn [SideStreams.step] in Hs; repeat case_decide; simplify_eq; auto.
  - case_match; [|done]. apply bind_Some in Hs as (h & _ & [= <-]). auto.
  - case_match; [|done]. injection Hs as <-. auto.
  - case_match; [done|]. injection Hs as <-. simpl in Hi. apply lookup_snoc_Some in Hi as [[_ ?]|[_ [=]]]. auto.
  - repeat case_match; try done; simplify_eq; simpl in Hi; apply list_lookup_insert_Some in Hi as [(_ & [=] & _)|[_ ?]]; auto.
  - destruct (sides c !! i0) as [[]|] eqn:E; try done. destruct (gate_open c) eqn:Eg; [auto|].
    destruct w; simpl in Hs; repeat case_match; try done; simplify_eq; simpl in Hi;
      rewrite ?Eg in *; try done.
    + right. right. by apply negb_true_iff.
    + apply list_lookup_insert_Some in Hi as [(_ & [=] & _)|[_ ?]]; auto.
Qed.

Lemma run_gate a m t es c :
  steps es (connection_new a m t) = Some c ->
  (exists g, auth_gate (handler c) = Some g) /\
  (gate_open c = true -> authenticated es (connection_new a m t)) /\
  (forall i, sides c !! i = Some SideRuns -> gate_open c = true \/ gate_sender c = false).
Proof.
  revert c. induction es as [|e es IH] using rev_ind; intros c Hs.
  - injection Hs as <-. split_and!; [by exists false|done|]. intros i Hi. by destruct i.
  - apply steps_snoc in Hs as (c1 & H1 & H2). destruct (IH c1 H1) as (Hg & Ha & Hi).
    destruct (step_gate e c1 c H2 Hg) as (Hg' & Hmono & Hopen & Hsend). split_and!; [done|..].
    + intros [Ho|(e' & -> & Hacc)]%Hopen.
      * destruct (Ha Ho) as (es1 & e' & es2 & c2 & -> & ? & ?). exists es1, e', (es2 ++ [e]), c2.
        by rewrite <-app_assoc.
      * by exists es, e', [], c1.
    + intros i Hr. destruct (step_sides e c1 c i H2 Hr) as [Hr'|Hr']; [apply Hi in Hr'|];
        (destruct Hr' as [?|Hx]; [auto|]); right; by destruct (gate_sender c) eqn:E; [rewrite Hsend in Hx|].
Qed.

(** C1: No side stream before authentication, while the handler lives. In
    every state a connection can reach, as long as the SSH session or [accept]
    still holds the handler, a side stream that was let through (to transfer
    files or to exchange metadata) means that the authenticator accepted an
    authentication request of this connection before. *)
Theorem side_streams_wait_for_authentication a m t es c i :
  steps es (connection_new a m t) = Some c -> gate_sender c = true ->
  sides c !! i = Some SideRuns -> authenticated es (connection_new a m t).
Proof.
  intros Hs Hg Hi. destruct (run_gate a m t es c Hs) as (_ & Ha & Hr).
  destruct (Hr i Hi) as [?|?]; [auto|congruence].
Qed.
End facts.

(** ** What passes *)

Section dispatch.
Context {SJ : SerdeJson} {ST : SystemTexts} {MA : Machine} {LS : LiveShell} {WD : WalkDir}
  {BS : BlobStore}.

(** The stream with its first bytes consumed. *)
Definition consumed (n : nat) (c : conn) : conn :=
  mk_conn (mk_reader (drop n (rd_data (incoming c))) (rd_end (incoming c))) (frame_buf c) (outgoing c) (local_fs c).

Lemma conn_prefix magic c :
  take 4 (rd_data (incoming c)) = magic ->
  mk_conn (with_prefix magic (incoming (consumed 4 c))) (frame_buf c) (outgoing c) (local_fs c) = c.
Proof.
  intros <-. destruct c as [[d e] b o f]. unfold with_prefix, consumed. simpl. by rewrite take_drop.
Qed.

Lemma from_peer_bind {E A B} (f : E -> SideError) (m : M reader E A) (k : A -> M (conn * Metrics) SideError B) c mt :
  (from_peer f m ≫= k) (c, mt) =
  match m (incoming c) with
  | (Ok a, rd) => k a (mk_conn rd (frame_buf c) (outgoing c) (local_fs c), mt)
  | (Err e, rd) => (Err (f e), (mk_conn rd (frame_buf c) (outgoing c) (local_fs c), mt))
  end.
Proof. unfold from_peer, mbind, M_bind. by destruct (m (incoming c)) as [[] ?]. Qed.

Lemma lift_bind {S E A B} (r : result E A) (k : A -> M S E B) s :
  (lift r ≫= k) s = match r with Ok a => k a s | Err e => (Err e, s) end.
Proof. by destruct r. Qed.

(** Dispatch of a side stream. A stream that ends within its first four
    bytes fails; one whose connection closes while it waits at the gate fails
    too, with nothing written, no file touched and nothing counted; any other
    wait lets it pass, and then the magic decides: a metadata request is
    answered, a transfer stream is served as if its magic had not been read,
    and an unknown magic is dropped. *)
Theorem side_stream_dispatched st current open wait c mt :
  let data := rd_data (incoming c) in
  handle_side_stream_dispatch st current open wait (c, mt) =
  if decide (length data < 4) then (Err (SideIo (rd_end (incoming c))), (consumed (length data) c, mt))
  else match pass_gate open wait with
       | Err e => (Err e, (consumed 4 c, mt))
       | Ok _ =>
           if decide (take 4 data = Metadata.MAGIC) then
             match read_metadata_request (incoming c) with
             | (Err e, rd) => (Err (SideMetadata e), (mk_conn rd (frame_buf c) (outgoing c) (local_fs c), mt))
             | (Ok _, rd) =>
                 let '(r, w) := write_metadata current (outgoing c) in
                 (map_err SideMetadata r, (mk_conn rd (frame_buf c) w (local_fs c), mt))
             end
           else if decide (take 4 data = TransferCodec.MAGIC) then
             let '(r, s) := handle_transfer_stream st (c, mt) in (map_err SideTransfer r, s)
           else (Ok tt, (consumed 4 c, mt))
       end.
Proof.
  intros data. unfold handle_side_stream_dispatch. rewrite from_peer_bind.
  destruct (decide (length data < 4)) as [Hs|Hs].
  - rewrite (read_exact_short 4) by exact Hs. unfold consumed. subst data. by rewrite drop_all.
  - assert (read_exact 4 (incoming c) = (Ok (take 4 data), mk_reader (drop 4 data) (rd_end (incoming c)))) as ->.
    { unfold read_exact. by rewrite decide_True by (subst data; lia). }
    rewrite lift_bind. destruct (pass_gate open wait); [|done].
    pose proof (conn_prefix (take 4 data) c eq_refl) as Hp. unfold consumed in *. fold data in Hp. cbn [incoming] in Hp.
    assert (with_prefix (take 4 data) (mk_reader (drop 4 data) (rd_end (incoming c))) = incoming c) as Hi
      by exact (f_equal incoming Hp).
    case_decide as E1; [|case_decide as E2; [|done]]; rewrite from_peer_bind; cbn [incoming frame_buf outgoing local_fs];
      rewrite Hi.
    + rewrite from_peer_bind. cbn [incoming frame_buf outgoing local_fs].
      destruct (read_metadata_request (incoming c)) as [[u|e] rd]; [|done].
      unfold to_stream, to_peer. cbn [outgoing incoming frame_buf local_fs].
      by destruct (write_metadata current (outgoing c)).
    + unfold M_map_err. destruct c as [rd fb ow lf]. cbn [incoming frame_buf outgoing local_fs]. by destruct (handle_transfer_stream st _).
Qed.
End dispatch.

Section bypass.
Context {SJ : SerdeJson} {ST : SystemTexts} {MA : Machine} {LS : LiveShell} {WD : WalkDir}
  {BS : BlobStore} {S K : Type} {AU : Authenticator S K} (default_size : PtySize).

(** A peer opens a side stream, sends its magic, and waits for the handler to
    be gone. *)
Definition late_stream (c : Connection S) : list (ConnEvent K) :=
  let i := length (sides c) in [SideOpens; SideMagic i true; SidePasses i SenderDropped].

(** C14: The gate does not outlive the session. In every state a connection can
    reach in which neither the SSH session nor [accept] holds the handler any
    more and the connection is not closed, a new side stream is let through,
    whatever was authenticated before; the pairing connection to a server
    without a wormhole is in such a state at once, before any authentication.
    And a transfer stream let through by the loss of the sender is served as
    an authenticated one: every request of it is carried out. *)
Theorem gate_does_not_outlive_session a m t es c :
  steps (AU := AU) default_size es (connection_new a m t) = Some c ->
  gate_sender c = false -> closed c = false ->
  (exists c', steps (AU := AU) default_size (late_stream c) c = Some c' /\
     sides c' !! length (sides c) = Some SideRuns /\ handler c' = handler c) /\
  (exists c0, steps (AU := AU) default_size [NoWormhole] (connection_new a m t) = Some c0 /\
     gate_sender c0 = false /\ closed c0 = false /\
     ~ authenticated default_size [NoWormhole] (connection_new a m t)) /\
  (forall st current k mt, take 4 (rd_data (incoming k)) = TransferCodec.MAGIC ->
     handle_side_stream_dispatch st current false SenderDropped (k, mt) =
     let '(r, s) := handle_transfer_stream st (k, mt) in (map_err SideTransfer r, s)).
Proof.
  intros _ Hg Hc. split_and!.
  - destruct c as [h ac se cl si]. cbn [closed] in Hc. subst cl.
    assert (forall x, (si ++ [x]) !! length si = Some x) as Hl by (intros; by apply list_lookup_middle).
    assert (forall x y : Side, <[length si := y]> (si ++ [x]) = si ++ [y]) as Hi.
    { intros x y. by rewrite <-(Nat.add_0_r (length si)), insert_app_r. }
    unfold late_stream. cbn [sides SideStreams.steps SideStreams.step closed handler accept session mbind option_bind].
    rewrite Hl. cbn [sides handler accept session closed]. rewrite Hi.
    cbn [sides handler accept session closed mbind option_bind]. rewrite Hl, Hi.
    unfold can_wake, gate_sender in *. cbn [accept session] in *. rewrite Hg, orb_true_r.
    eexists. split; [reflexivity|]. cbn [sides handler]. rewrite Hl. split; [|done].
    unfold pass_gate. by destruct (gate_open _).
  - eexists. split; [reflexivity|]. split_and!; [done|done|].
    intros (es1 & e & es2 & c1 & Heq & _). destruct es1 as [|? []]; done.
  - intros st current k mt Hm. rewrite side_stream_dispatched. cbn [pass_gate].
    rewrite decide_False; [|intros Hl; apply (f_equal length) in Hm; rewrite length_take in Hm; change (length TransferCodec.MAGIC) with 4 in Hm; lia].
    rewrite Hm. by rewrite decide_False, decide_True.
Qed.
End bypass.

(** ** Witnesses *)

Definition demo_connection (es : list (ConnEvent bytes)) : Connection PasswordAuth :=
  default (connection_new (password_auth_new (bs "pw")) metrics_new 0)
    (steps (AU := demo_auth) demo_size es (connection_new (password_auth_new (bs "pw")) metrics_new 0)).

Definition served_run : list (ConnEvent bytes) :=
  [SideOpens; SideMagic 0 true; RunStream; Callback (AuthPassword 0 (bs "u") (bs "pw")); SidePasses 0 GateOpened].

Lemma side_streams_wait_for_authentication_witness :
  authenticated (AU := demo_auth) demo_size served_run (connection_new (password_auth_new (bs "pw")) metrics_new 0).
Proof.
  apply (side_streams_wait_for_authentication (AU := demo_auth) demo_size (password_auth_new (bs "pw")) metrics_new 0
    served_run (demo_connection served_run) 0); vm_compute; reflexivity.
Defined.

(** A peer that never authenticated has written a file: the password is wrong,
    the session ends, and the upload it had waiting is carried out. *)
Definition refused_run : list (ConnEvent bytes) :=
  [RunStream; Callback (AuthPassword 0 (bs "u") (bs "guess")); SessionEnds; AcceptReturns].

Definition after_upload : result SideError unit * (conn * Metrics) :=
  @handle_side_stream_dispatch bit_json demo_texts demo_machine demo_shell demo_walk demo_store
    shell_state_new demo_metadata false SenderDropped (demo_stream, demo_metrics).

Lemma gate_does_not_outlive_session_witness :
  (exists c', steps (AU := demo_auth) demo_size (late_stream (demo_connection refused_run))
      (demo_connection refused_run) = Some c' /\
     sides c' !! 0 = Some SideRuns /\ auth_gate (handler c') = Some false) /\
  nodes (local_fs after_upload.2.1) !! [bs "notes"; bs "srv"] = Some (File (bs "abc") 420).
Proof.
  destruct (@gate_does_not_outlive_session bit_json demo_texts demo_machine demo_shell demo_walk demo_store
    _ _ demo_auth demo_size (password_auth_new (bs "pw")) metrics_new 0
    refused_run (demo_connection refused_run)) as ((c' & H1 & H2 & H3) & _ & H4).
  - vm_compute. reflexivity.
  - vm_compute. reflexivity.
  - vm_compute. reflexivity.
  - split.
    + exists c'. split; [exact H1|]. split; [exact H2|]. rewrite H3. vm_compute. reflexivity.
    + unfold after_upload. rewrite H4; vm_compute; reflexivity.
Defined.
