(* ===== verification/HostKey.v ===== *)
(** * The client's SSH handler: [src/client/handler.rs]

    The decision about a server's host key, with the pinned keys of the trust
    storage behind it; the summary of a disconnect; and the table of remote
    port forwards that channels opened by the server are routed with. *)

From S2P Require Import Prelude Text Fs StorageUtils Vault Trust Auth.

Inductive ClientKeyError : Type :=
| ServerKeyMismatch (expected actual : bytes)
| KeyStorage (e : storage_error).

Section handler.
Context {K : Type} {SK : SshKey K}.
Variable root : path.

Record ClientHandler : Type := mk_ClientHandler {
  node_id : bytes;
  known_server : option K;
  last_disconnect : option bytes;
  host_key_policy : HostKeyPolicy;
  remote_tunnels : gmap (bytes * N) (bytes * N);
}.

Definition client_handler_new (node_id : bytes) (known : option K) (policy : HostKeyPolicy) : ClientHandler :=
  mk_ClientHandler node_id known None policy ∅.

Definition set_known (key : K) (h : ClientHandler) : ClientHandler :=
  mk_ClientHandler (node_id h) (Some key) (last_disconnect h) (host_key_policy h) (remote_tunnels h).

(** ** Host keys *)

Definition check_server_key (suffix : N) (key : K) : M (ClientHandler * fs) ClientKeyError bool := fun '(h, s) =>
  match host_key_policy h with
  | AcceptAll => (Ok true, (h, s))
  | policy =>
      match known_server h with
      | Some known_key =>
          if decide (key = known_key) then (Ok true, (h, s))
          else (Err (ServerKeyMismatch (fingerprint known_key) (fingerprint key)), (h, s))
      | None =>
          match policy with
          | Strict => (Err (ServerKeyMismatch (bs "trusted key") (bs "unknown key")), (h, s))
          | Tofu =>
              match write_known_server root suffix (node_id h) key s with
              | (Ok _, s) => (Ok true, (set_known key h, s))
              | (Err e, s) => (Err (KeyStorage e), (h, s))
              end
          | AcceptAll => (Ok true, (h, s))
          end
      end
  end.

(** A connection's share of it: [establish_session] loads the pinned key, the
    handshake presents one. *)
Definition connect_key (policy : HostKeyPolicy) (node_id : bytes) (suffix : N) (key : K) :
    M fs ClientKeyError bool :=
  known ← (if decide (policy = AcceptAll) then mret None
           else M_map_err KeyStorage (load_known_server root node_id)) : M fs ClientKeyError (option K);
  (fun s =>
     let '(r, (_, s)) := check_server_key suffix key (client_handler_new node_id known policy, s) in
     (r, s)) : M fs ClientKeyError bool.

(** One connection after the other. *)
Fixpoint connect_all (policy : HostKeyPolicy) (conns : list (bytes * N * K)) (s : fs) : fs :=
  match conns with
  | [] => s
  | (node_id, suffix, key) :: conns => connect_all policy conns (connect_key policy node_id suffix key s).2
  end.

(** ** Disconnects *)

(** [DisconnectReason], with the texts of the reason code and of the error. *)
Inductive DisconnectReason : Type :=
| ReceivedDisconnect (reason_code message : bytes)
| DisconnectError (text : bytes).

(** The handler's answer is the error, if there is one. *)
Definition disconnected (reason : DisconnectReason) (h : ClientHandler) : bool * ClientHandler :=
  let summary :=
    match reason with
    | ReceivedDisconnect code message =>
        let message := trim message in
        if decide (message = []) then bs "server disconnected with reason " ++ code
        else bs "server disconnected with reason " ++ code ++ bs ": " ++ message
    | DisconnectError text => text
    end in
  (match reason with ReceivedDisconnect _ _ => true | DisconnectError _ => false end,
   mk_ClientHandler (node_id h) (known_server h) (Some summary) (host_key_policy h) (remote_tunnels h)).

(** ** Remote port forwards *)

Definition register_remote_tunnel (remote_host : bytes) (remote_port : N) (local_host : bytes) (local_port : N)
    (h : ClientHandler) : ClientHandler :=
  mk_ClientHandler (node_id h) (known_server h) (last_disconnect h) (host_key_policy h)
    (<[(remote_host, remote_port) := (local_host, local_port)]> (remote_tunnels h)).

(** Where a channel opened by the server is connected to: the exact entry, or
    the first one with the port. *)
Definition forward_target (address : bytes) (port : N) (h : ClientHandler) : option (bytes * N) :=
  match remote_tunnels h !! (address, port) with
  | Some target => Some target
  | None => snd <$> list_find (fun x => x.1.2 = port) (map_to_list (remote_tunnels h)) ≫= fun x => Some x.2
  end.

Definition server_channel_open_forwarded_tcpip (address : bytes) (port : N) (h : ClientHandler) : option bytes :=
  target ← forward_target address port h;
  Some (target.1 ++ bs ":" ++ decimal target.2).
End handler.
Arguments ClientHandler : clear implicits.

(** ** Pins *)

Section pins.
Context {K : Type} {SK : SshKey K} {SL : SshKeyLaws K}.
Variable root : path.

(** The record of a node is the key. *)
Definition pinned (id : bytes) (k : K) (d : disk) : Prop :=
  exists c m, d !! server_key_path root id = Some (File c m) /\ utf8_valid c = true /\ parse_openssh c = Some k.

Lemma load_known_reliable id s :
  reliable s -> exists r s', load_known_server (K := K) root id s = (r, s') /\ nodes s' = nodes s /\ reliable s' /\
    (forall k, r = Ok (Some k) <-> pinned id k (nodes s)).
Proof.
  intros Hr. unfold load_known_server, load_key_at, path_exists, mbind at 1, M_bind at 1.
  rewrite test_path_reliable by done.
  destruct (nodes s !! server_key_path root id) as [n|] eqn:E.
  - set (s1 := tick s (nodes s)). assert (reliable s1) as Hr1 by done.
    destruct (read_openssh_file (K := K) (server_key_path root id) s1) as [r s2] eqn:E2.
    pose proof (read_openssh_file_runs _ _ _ _ E2) as [R2 H2].
    unfold mbind, M_bind. rewrite E2. exists (match r with Ok k => Ok (Some k) | Err e => Err e end), s2.
    assert (nodes s2 = nodes s1) as N2 by exact (runs_same_nodes _ _ R2).
    split; [by destruct r|]. split; [done|]. split; [by eapply runs_reliable|].
    intros k. split.
    + destruct r as [k'|]; [|done]. intros [= ->]. destruct (H2 k eq_refl) as (c & m & ? & ? & ?). by exists c, m.
    + intros (c & m & Hc & Hu & Hp). revert E2. unfold read_openssh_file, mbind, M_bind, M_map_err.
      rewrite (read_to_string_reliable _ _ _ m Hr1 Hc Hu). simpl. rewrite Hp. by intros [= <- _].
  - eexists _, _. split; [reflexivity|]. split; [done|]. split; [done|].
    intros k. split; [done|]. intros (c & m & Hc & _). congruence.
Qed.

(** Making the directories leaves records alone. *)
Lemma ensure_dirs_pinned s r s' id k :
  ensure_trust_dirs root s = (r, s') -> pinned id k (nodes s) -> pinned id k (nodes s').
Proof.
  intros E%ensure_trust_dirs_runs (c & m & Hc & Hu & Hp). destruct E as [R _].
  pose proof (runs_final _ _ _ (dirs_in_refl _ _) R) as F. exists c, m. split; [|done].
  destruct (F (server_key_path root id)) as [->|(_ & [?|?] & _)]; [done|congruence|].
  rewrite Hc in *. done.
Qed.

Lemma write_known_spec suffix id key s r s' :
  write_known_server root suffix id key s = (r, s') -> reliable s ->
  reliable s' /\ (is_ok r = true -> pinned id key (nodes s')) /\
  (forall id' k, id' <> [] -> server_key_path root id' <> server_key_path root id ->
     pinned id' k (nodes s) -> pinned id' k (nodes s')).
Proof.
  unfold write_known_server, mbind at 1, M_bind at 1. intros E Hr.
  destruct (ensure_trust_dirs root s) as [r1 s1] eqn:E1.
  pose proof (ensure_dirs_pinned s r1 s1) as Hd. specialize (fun id k => Hd id k E1).
  pose proof (ensure_trust_dirs_runs _ _ _ _ E1) as [R1 _].
  assert (reliable s1) as Hr1 by (by eapply runs_reliable).
  destruct r1 as [u|e]; [|by injection E as <- <-; split_and!; eauto].
  revert E. unfold write_public_key, mbind, M_bind, mret, M_ret.
  destruct (to_openssh key) as [data|] eqn:Ek; [|intros [= <- <-]; split_and!; eauto; done].
  destruct (atomic_write_secure suffix _ data s1) as [r2 s2] eqn:E2. intros E.
  assert (s' = s2) as -> by (by destruct r2; injection E).
  apply atomic_write_secure_spec in E2 as [R2 H2].
  split; [by eapply runs_reliable|]. split.
  - destruct r2 as [u2|e]; [|by injection E as <-]. intros _. destruct H2 as [(m & Hm & _) _].
    exists data, m. split; [exact Hm|]. eauto using to_openssh_text, parse_to_openssh.
  - intros id' k Hne Hp Hpin. apply Hd in Hpin as (c & m & Hc & Hu & Hpk). exists c, m. split; [|done].
    apply runs_final in R2 as (F & _); [|apply write_step_refl].
    destruct (F (server_key_path root id')) as [->|(_ & [?|?] & _)]; [|done|done|congruence|].
    + intros Hx. apply (f_equal (fun p : path => match p with n :: _ => is_pub n | [] => false end)) in Hx.
      unfold server_key_path in Hx. by rewrite pub_name, tmp_not_pub in Hx.
    + rewrite Hc in *. done.
Qed.

(** One connection: what it decides, and that it keeps every pin. *)
Lemma connect_key_pinned policy id suffix key s r s' k id' :
  connect_key root policy id suffix key s = (r, s') -> reliable s -> id' <> [] ->
  pinned id' k (nodes s) -> reliable s' /\ pinned id' k (nodes s').
Proof.
  unfold connect_key, mbind, M_bind. intros E Hr Hne Hpin.
  case_decide as Hpol; [subst policy; by injection E as <- <-|].
  destruct (load_known_reliable id s Hr) as (r0 & s0 & E0 & N0 & R0 & H0).
  unfold M_map_err in E. rewrite E0 in E. rewrite <-N0 in Hpin.
  destruct r0 as [known|e]; [|by injection E as <- <-].
  unfold check_server_key in E. simpl in E. destruct policy; [| |done].
  - destruct known as [k0|]; [case_decide|]; by injection E as <- <-.
  - destruct known as [k0|]; [case_decide; by injection E as <- <-|].
    destruct (write_known_server root suffix id key s0) as [rw sw] eqn:Ew.
    destruct (write_known_spec _ _ _ _ _ _ Ew R0) as (Hrw & _ & Hkeep).
    assert (s' = sw) as -> by (by destruct rw; injection E).
    split; [done|]. apply Hkeep; [done| |done]. intros Heq.
    assert (pinned id k (nodes s)) as Hx by (unfold pinned in *; rewrite <-N0, <-Heq; done).
    by apply H0 in Hx.
Qed.

Lemma connect_all_pinned policy conns s k id :
  reliable s -> id <> [] -> pinned id k (nodes s) ->
  reliable (connect_all root policy conns s) /\ pinned id k (nodes (connect_all root policy conns s)).
Proof.
  revert s. induction conns as [|[[id' suffix] key] conns IH]; intros s Hr Hne Hpin; [done|]. simpl.
  destruct (connect_key root policy id' suffix key s) as [r s'] eqn:E.
  destruct (connect_key_pinned _ _ _ _ _ _ _ k id E Hr Hne Hpin) as [Hr' Hpin']. by apply IH.
Qed.
End pins.

(** C7: A host key is pinned. On a reliable disk, once a connection to a node
    was accepted with some key (because that key was recorded, or on first
    use), then whatever connections to any nodes with any keys come after it,
    under any policies, a connection to that node that checks host keys is
    accepted with that key and with no other: every other key is refused with
    the fingerprints of both. *)
Theorem host_key_is_pinned {K} {SK : SshKey K} {SL : SshKeyLaws K} root policy id suffix (key : K) s s1
    runs_after policy' suffix' key' :
  reliable s -> id <> [] -> policy <> AcceptAll -> policy' <> AcceptAll ->
  connect_key root policy id suffix key s = (Ok true, s1) ->
  let s2 := foldl (fun s x => connect_all root x.1 x.2 s) s1 runs_after in
  (connect_key root policy' id suffix' key' s2).1 =
    if decide (key' = key) then Ok true
    else Err (ServerKeyMismatch (fingerprint key) (fingerprint key')).
Proof.
  intros Hr Hne Hp Hp' E s2.
  assert (reliable s1 /\ pinned root id key (nodes s1)) as [Hr1 Hpin].
  { unfold connect_key, mbind, M_bind in E. rewrite decide_False in E by done.
    destruct (load_known_reliable root id s Hr) as (r0 & s0 & E0 & N0 & R0 & H0).
    unfold M_map_err in E. rewrite E0 in E. destruct r0 as [known|e]; [|done].
    unfold check_server_key in E. simpl in E. destruct policy; [| |done]; destruct known as [k0|].
    - case_decide; [|done]. subst k0. injection E as <-. split; [done|]. rewrite N0. by apply H0.
    - done.
    - case_decide; [|done]. subst k0. injection E as <-. split; [done|]. rewrite N0. by apply H0.
    - destruct (write_known_server root suffix id key s0) as [rw sw] eqn:Ew.
      destruct (write_known_spec _ _ _ _ _ _ _ Ew R0) as (Hrw & Hok & _).
      destruct rw; [|done]. injection E as <-. split; [done|]. by apply Hok. }
  assert (reliable s2 /\ pinned root id key (nodes s2)) as [Hr2 Hpin2].
  { clear E. subst s2. revert s1 Hr1 Hpin. induction runs_after as [|[pol conns] l IH]; intros s1 Hr1 Hpin; [done|].
    simpl. destruct (connect_all_pinned root pol conns s1 key id Hr1 Hne Hpin). by apply IH. }
  unfold connect_key, mbind, M_bind. rewrite decide_False by done.
  destruct (load_known_reliable root id s2 Hr2) as (r0 & s0 & E0 & N0 & R0 & H0).
  unfold M_map_err. rewrite E0. apply H0 in Hpin2 as ->. unfold check_server_key. simpl.
  destruct policy'; [| |done]; by case_decide.
Qed.

(** ** Forwards *)

(** The server reaches only what was forwarded. A channel the server
    opens is connected to a local address that was registered for that remote
    port, to the one registered for the very host and port if there is one,
    and to nothing exactly when no forward with the port was registered. *)
Theorem forwards_are_registered {K} (h : ClientHandler K) address port :
  (forall target, forward_target address port h = Some target ->
     exists host, remote_tunnels h !! (host, port) = Some target) /\
  (forall target, remote_tunnels h !! (address, port) = Some target -> forward_target address port h = Some target) /\
  (forward_target address port h = None <-> forall host, remote_tunnels h !! (host, port) = None).
Proof.
  assert (forall target, forward_target address port h = Some target ->
     exists host, remote_tunnels h !! (host, port) = Some target) as Hreg.
  { intros target. unfold forward_target. destruct (remote_tunnels h !! (address, port)) as [t|] eqn:E.
    - intros [= <-]. by exists address.
    - intros ([[host p] t] & Hf & [= <-])%bind_Some. apply fmap_Some in Hf as ([i x] & Hf & Hx).
      simpl in Hx. subst x. apply list_find_Some in Hf as (Hl & Hp & _). simpl in Hp. subst p. exists host. simpl.
      apply elem_of_map_to_list. by eapply list_elem_of_lookup_2. }
  split_and!; [exact Hreg| |].
  - intros target. unfold forward_target. by intros ->.
  - split.
    + intros Hn host. destruct (remote_tunnels h !! (host, port)) as [t|] eqn:E; [|done].
      exfalso. revert Hn. unfold forward_target. destruct (remote_tunnels h !! (address, port)); [done|].
      destruct (list_find _ _) as [[i x]|] eqn:Hf; [done|]. intros _.
      apply list_find_None in Hf. rewrite Forall_forall in Hf.
      apply (Hf ((host, port), t)); [by apply list_elem_of_In, elem_of_map_to_list|done].
    + intros Hn. destruct (forward_target address port h) as [t|] eqn:E; [|done].
      destruct (Hreg t eq_refl) as [host Hh]. by rewrite Hn in Hh.
Qed.

(** ** Witnesses *)

Definition key_disk (oracle : nat -> option (nat * io_error)) : fs := demo_fs oracle.

Lemma host_key_is_pinned_witness :
  let first := @connect_key bytes text_key [bs "srv"] Tofu (bs "node") 7 (bs "key") (key_disk (fun _ => None)) in
  let after := connect_all (SK := text_key) [bs "srv"] Tofu [(bs "other", 8%N, bs "other key"); (bs "node", 9%N, bs "forged")] first.2 in
  (@connect_key bytes text_key [bs "srv"] Strict (bs "node") 1 (bs "forged") after).1 =
    Err (ServerKeyMismatch (bs "SHA256:key") (bs "SHA256:forged")).
Proof.
  intros first after.
  apply (@host_key_is_pinned bytes text_key text_key_laws [bs "srv"] Tofu (bs "node") 7 (bs "key")
    (key_disk (fun _ => None)) first.2
    [(Tofu, [(bs "other", 8%N, bs "other key"); (bs "node", 9%N, bs "forged")])] Strict 1 (bs "forged"));
    [intros n; reflexivity|done|done|done|]. apply pair_fst. vm_compute. reflexivity.
Defined.

(** The record's [stat] fails once: the pinned key counts as absent, and
    whatever key the server presents is trusted and replaces it. *)
Lemma stat_failure_replaces_pin :
  let s := (@connect_key bytes text_key [bs "srv"] Tofu (bs "node") 7 (bs "key") (key_disk (fun _ => None))).2 in
  let failing := mk_fs (nodes s) (umask s)
    (fun n => if decide (n = ticks s) then Some (0, PermissionDenied) else None) (ticks s) (hist s) in
  let '(r, s') := @connect_key bytes text_key [bs "srv"] Tofu (bs "node") 8 (bs "forged") failing in
  r = Ok true /\ (@load_known_server bytes text_key [bs "srv"] (bs "node") s').1 = Ok (Some (bs "forged")).
Proof. vm_compute. done. Qed.
