(* ===== verification/Connect.v ===== *)
(** * Establishing a session: [src/client/connect.rs], [client/mod.rs]

    From a target to a session: what a target means, the attempts to dial, and
    the handshake with the host-key check and the authentication. The network
    and the SSH library are parameters: what each dial attempt returns, and a
    server that answers authentication requests ([SshServer]). [Net] records
    which of the resources that have to be closed are open. *)

From S2P Require Import Prelude Text Stream Fs StorageUtils Vault Trust Auth Config Peers HostKey.

(** ** Progress *)

Record TransferProgress : Type := mk_TransferProgress {
  transferred : N;
  total : N;
}.

Definition saturating_mul_u64 (x y : N) : N := N.min (x * y) (2 ^ 64 - 1).

Definition percent (p : TransferProgress) : N :=
  if (total p =? 0)%N then 0
  else N.min (saturating_mul_u64 (transferred p) 100 / total p) 100 mod 2 ^ 8.

(** ** [SessionState] *)

Inductive SessionState : Type :=
| Dialing
| TransportConnected
| SshHandshaking
| Authenticated
| ShellReady
| AuthRejected
| TrustMismatch
| Closed.

#[export] Instance session_state_eq_dec : EqDecision SessionState.
Proof. solve_decision. Defined.

Definition is_terminal (s : SessionState) : bool :=
  match s with AuthRejected | TrustMismatch | Closed => true | _ => false end.

(** ** Targets *)

Section target.
Context {SJ : SerdeJson} {Ticket : Type} {PT : Payload Ticket}.
Variable ticket_from_str : bytes -> option Ticket.   (** [Ticket::from_str] *)
Variable root : path.

Inductive ResolvedTarget : Type :=
| TargetTicket (t : Ticket)
| TargetWormhole (c : WormholeCode).

Inductive TargetError : Type :=
| TargetStorage (e : storage_error)
| InvalidTarget (raw : bytes).

Definition looks_like_ticket (target : bytes) : bool :=
  (64 <? blen target)%N || starts_with target (bs "endpoint") || starts_with target (bs "ticket") ||
  starts_with target (bs "node") || starts_with target (bs "{").

Definition parse_target (target : bytes) : M fs TargetError ResolvedTarget :=
  let target := trim target in
  match ticket_from_str target with
  | Some t => mret (TargetTicket t)
  | None =>
      peers ← M_map_err TargetStorage (list_peers (Ticket := Ticket) root);
      match list_find (fun p => name p = target) peers with
      | Some (_, p) => mret (TargetTicket (ticket p))
      | None =>
          if looks_like_ticket target
          then throw (InvalidTarget (target ++ bs " (Hint: This looks like a malformed ticket)"))
          else lift (map_err InvalidTarget (TargetWormhole <$> wormhole_code_new target))
      end
  end.
End target.

(** ** Dialing *)

(** [endpoint.connect] under its timeout of 20 seconds. *)
Inductive Dialed : Type := Connected | Refused (e : bytes) | TimedOut.

(** What is open: the endpoint, the connection and the blobs connection. *)
Record Net : Type := mk_Net {
  endpoint : bool;
  connection : bool;
  blobs_connection : bool;
}.

Inductive ConnectError : Type :=
| ConnectFailed (e : option bytes)              (** [None]: a reset *)
| StreamOpenFailed
| ConnectStorage (e : storage_error)
| ConnectKey (e : ClientKeyError)
| SshNegotiationFailed (e : option bytes)       (** [None]: the deadline *)
| SshHandshakeDisconnected (detail : option bytes)
| AuthenticationFailed.

Definition dial_error (d : Dialed) : ConnectError :=
  match d with Refused e => ConnectFailed (Some e) | Connected | TimedOut => ConnectFailed None end.

(** The attempts from [attempt] on, [more] of them. *)
Fixpoint dial_loop (connect blobs : nat -> Dialed) (more attempt : nat) (last_err : option ConnectError) :
    M Net ConnectError unit := fun n =>
  match more with
  | O => (Err (default (ConnectFailed None) last_err), mk_Net false (connection n) (blobs_connection n))
  | S more =>
      match connect attempt with
      | Connected =>
          match blobs attempt with
          | Connected => (Ok tt, mk_Net (endpoint n) true true)
          | d => (Err (dial_error d), mk_Net false false (blobs_connection n))
          end
      | d => dial_loop connect blobs more (S attempt) (Some (dial_error d)) n
      end
  end.

(** After [bind_client_endpoint]. *)
Definition dial_p2p (connect blobs : nat -> Dialed) : Net -> result ConnectError unit * Net :=
  dial_loop connect blobs 3 1 None.

(** ** Authentication *)

Definition DEFAULT_USER : bytes := bs "irosh".

(** The server at the other end of the SSH connection: whether it accepts, or
    how the connection fails, [None] standing for the deadline of 60 seconds. *)
Class SshServer (Sv : Type) : Type := {
  authenticate_publickey : bytes -> M Sv (option bytes) bool;
  authenticate_password : bytes -> bytes -> M Sv (option bytes) bool;
}.

Section authentication.
Context {Sv : Type} {SS : SshServer Sv}.

(** The user's answers, by the number of the prompt. *)
Abbreviation Prompter := (nat -> option bytes).

Fixpoint prompt_loop (prompt : Prompter) (more attempt : nat) : M Sv ConnectError unit :=
  match more with
  | O => throw AuthenticationFailed
  | S more =>
      match prompt attempt with
      | None => throw AuthenticationFailed
      | Some pw =>
          accepted ← M_map_err SshNegotiationFailed (authenticate_password DEFAULT_USER pw);
          if (accepted : bool) then mret tt else prompt_loop prompt more (S attempt)
      end
  end.

Definition authenticate (credentials : option (bytes * bytes)) (prompter : option Prompter) : M Sv ConnectError unit :=
  accepted ← M_map_err SshNegotiationFailed (authenticate_publickey DEFAULT_USER);
  if (accepted : bool) then mret tt
  else
    match credentials with
    | Some (user, password) =>
        accepted ← M_map_err SshNegotiationFailed (authenticate_password user password);
        ensure accepted AuthenticationFailed
    | None =>
        match prompter with
        | Some prompt => prompt_loop prompt 3 1
        | None => throw AuthenticationFailed
        end
    end.
End authentication.

(** ** [establish_session] *)

Section establish.
Context {Sv : Type} {SS : SshServer Sv} {K : Type} {SK : SshKey K}.
Variable root : path.

(** What the network and the key exchange bring: whether the identity could be
    loaded and the stream opened; how the exchange fails before the host key
    is checked, if it does; and the server's key. *)
Inductive ExchangeFailure : Type :=
| Disconnected (detail : option bytes)   (** and what [disconnected] recorded *)
| Negotiation (e : option bytes).

Record Exchange : Type := mk_Exchange {
  ex_identity : result storage_error unit;
  ex_stream : bool;
  ex_failure : option ExchangeFailure;
  ex_key : K;
  ex_suffix : N;
}.

(** [client::connect_stream] and what its errors become. *)
Definition ssh_connect (x : Exchange) (h : ClientHandler K) : M fs ConnectError unit := fun s =>
  match ex_failure x with
  | Some (Disconnected detail) => (Err (SshHandshakeDisconnected detail), s)
  | Some (Negotiation e) => (Err (SshNegotiationFailed e), s)
  | None =>
      match check_server_key root (ex_suffix x) (ex_key x) (h, s) with
      | (Ok true, (_, s)) => (Ok tt, s)
      | (Ok false, (_, s)) => (Err (SshNegotiationFailed None), s)
      | (Err e, (_, s)) => (Err (ConnectKey e), s)
      end
  end.

Record World : Type := mk_World {
  w_net : Net;
  w_disk : fs;
  w_server : Sv;
}.

Definition on_w_disk {E A} (m : M fs E A) : M World E A := fun w =>
  let '(r, s) := m (w_disk w) in (r, mk_World (w_net w) s (w_server w)).
Definition on_server {E A} (m : M Sv E A) : M World E A := fun w =>
  let '(r, sv) := m (w_server w) in (r, mk_World (w_net w) (w_disk w) sv).
Definition set_net {E} (f : Net -> Net) : M World E unit := fun w =>
  (Ok tt, mk_World (f (w_net w)) (w_disk w) (w_server w)).

Definition close_endpoint (n : Net) : Net := mk_Net false (connection n) (blobs_connection n).
Definition close_connection (n : Net) : Net := mk_Net (endpoint n) false (blobs_connection n).

(** The state of the session at the end of the handshake. *)
Definition handshake (x : Exchange) (h : ClientHandler K) (credentials : option (bytes * bytes))
    (prompter : option (nat -> option bytes)) : M World ConnectError SessionState :=
  on_w_disk (ssh_connect x h);;
  on_server (authenticate credentials prompter);;
  mret Authenticated.

Definition establish_session (policy : HostKeyPolicy) (remote_id : bytes) (credentials : option (bytes * bytes))
    (prompter : option (nat -> option bytes)) (x : Exchange) : M World ConnectError SessionState :=
  lift (map_err ConnectStorage (ex_identity x));;
  known_server ← (if decide (policy = AcceptAll) then mret None
                  else on_w_disk (M_map_err ConnectStorage (load_known_server (K := K) root remote_id)));
  if ex_stream x then
    on_error (handshake x (client_handler_new remote_id known_server policy) credentials prompter)
      (set_net (E := ConnectError) close_connection;; set_net close_endpoint)
  else
    set_net close_endpoint;; throw StreamOpenFailed.
End establish.
