(* ===== verification/ConnectFacts.v ===== *)
(** * What establishing a session guarantees

    Dialing, the order and number of authentication requests, the resources
    left open when it fails, what a target means; and a pairing from the
    client's and the server's side together. *)

From S2P Require Import Prelude Text Stream Fs StorageUtils Vault Trust Auth AuthFacts AuthSystem Config Peers HostKey Connect.

(** ** Progress *)

Lemma percent_bounds p :
  (percent p <= 100)%N /\
  ((0 < total p)%N -> (transferred p * 100 < 2 ^ 64)%N -> percent p = N.min (transferred p * 100 / total p) 100).
Proof.
  unfold percent, saturating_mul_u64. destruct (N.eqb_spec (total p) 0) as [E|E]; [split; lia|].
  rewrite N.mod_small by lia. split; [lia|]. intros _ H. f_equal. f_equal. lia.
Qed.

(** ** Dialing *)

(** The first attempt that connects. *)
Definition first_connect (connect : nat -> Dialed) (i : nat) : Prop :=
  connect i = Connected /\ forall j, 1 <= j < i -> connect j <> Connected.

Lemma dial_loop_outcome connect blobs more attempt last n :
  1 <= attempt -> (forall j, 1 <= j < attempt -> connect j <> Connected) ->
  match dial_loop connect blobs more attempt last n with
  | (Ok _, n') => exists i, i < attempt + more /\ first_connect connect i /\ blobs i = Connected /\
      n' = mk_Net (endpoint n) true true
  | (Err e, n') => endpoint n' = false /\ (connection n = false -> connection n' = false) /\
      ((forall j, 1 <= j < attempt + more -> connect j <> Connected) \/
       exists i, i < attempt + more /\ first_connect connect i /\ blobs i <> Connected /\ e = dial_error (blobs i))
  end.
Proof.
  revert attempt last. induction more as [|more IH]; intros attempt last Ha Hbefore; cbn [dial_loop].
  - split_and!; [done|done|]. left. intros j Hj. apply Hbefore. lia.
  - destruct (connect attempt) eqn:Ec.
    + assert (first_connect connect attempt) as Hf by (split; [done|]; intros j Hj; apply Hbefore; lia).
      destruct (blobs attempt) eqn:Eb.
      * exists attempt. split_and!; [lia|done|done|done].
      * split_and!; [done|done|]. right. exists attempt. rewrite Eb. split_and!; [lia|done|done|done].
      * split_and!; [done|done|]. right. exists attempt. rewrite Eb. split_and!; [lia|done|done|done].
    + specialize (IH (S attempt) (Some (dial_error (Refused e))) ltac:(lia)).
      rewrite <-Nat.add_succ_comm. apply IH. intros j Hj. destruct (decide (j = attempt)) as [->|]; [congruence|].
      apply Hbefore. lia.
    + specialize (IH (S attempt) (Some (dial_error TimedOut)) ltac:(lia)).
      rewrite <-Nat.add_succ_comm. apply IH. intros j Hj. destruct (decide (j = attempt)) as [->|]; [congruence|].
      apply Hbefore. lia.
Qed.

(** Dialing. Of at most three attempts the first that connects decides:
    with the blobs connection it returns both connections, and without it it
    fails at once with that connection's error; when none connects it fails.
    Whenever it fails the endpoint has been closed and no connection is open. *)
Theorem dial_outcome connect blobs :
  match dial_p2p connect blobs (mk_Net true false false) with
  | (Ok _, n) => n = mk_Net true true true /\ exists i, i <= 3 /\ first_connect connect i /\ blobs i = Connected
  | (Err e, n) => endpoint n = false /\ connection n = false /\
      ((forall i, 1 <= i <= 3 -> connect i <> Connected) \/
       exists i, i <= 3 /\ first_connect connect i /\ blobs i <> Connected /\ e = dial_error (blobs i))
  end.
Proof.
  pose proof (dial_loop_outcome connect blobs 3 1 None (mk_Net true false false) ltac:(lia) ltac:(lia)) as H.
  unfold dial_p2p. destruct (dial_loop _ _ _ _ _ _) as [[u|e] n].
  - destruct H as (i & Hi & Hf & Hb & ->). split; [done|]. exists i. split_and!; [lia|done|done].
  - destruct H as (H1 & H2 & H3). split_and!; [done|auto|]. destruct H3 as [H3|(i & Hi & H3)]; [left|right].
    + intros i Hi. apply H3. lia.
    + exists i. split; [lia|done].
Qed.

(** ** Authentication requests *)

Inductive Request : Type := RPublickey (user : bytes) | RPassword (user password : bytes).

(** A server that answers by a script and keeps a log: every run of
    [authenticate] with any server is one with such a script. *)
Definition scripted : SshServer (list (result (option bytes) bool) * list Request) := {|
  authenticate_publickey user := fun '(script, log) =>
    (default (Err None) (head script), (tail script, log ++ [RPublickey user]));
  authenticate_password user pw := fun '(script, log) =>
    (default (Err None) (head script), (tail script, log ++ [RPassword user pw]));
|}.

Abbreviation try script log := (authenticate (SS := scripted) script log).

Lemma prompt_loop_log prompt more attempt script log :
  let '(r, (script', log')) := prompt_loop (SS := scripted) prompt more attempt (script, log) in
  exists pws, log' = log ++ (RPassword DEFAULT_USER <$> pws) /\ length pws <= more /\
    (forall i pw, pws !! i = Some pw -> prompt (attempt + i) = Some pw) /\
    (r = Ok tt <-> exists n, length pws = S n /\ script !! n = Some (Ok true)) /\
    (forall i, S i < length pws -> script !! i = Some (Ok false)).
Proof.
  revert attempt script log. induction more as [|more IH]; intros attempt script log; cbn [prompt_loop].
  - exists []. simpl. rewrite app_nil_r. split_and!; [done|lia|done| |lia]. split; [done|]. by intros (n & [=] & _).
  - destruct (prompt attempt) as [pw|] eqn:Ep.
    2: { exists []. simpl. rewrite app_nil_r. split_and!; [done|lia|done| |lia]. split; [done|]. by intros (n & [=] & _). }
    unfold mbind, M_bind, M_map_err. cbn [authenticate_password scripted].
    destruct script as [|[[]|e] script]; cbn [head tail default from_option id map_err].
    + exists [pw]. simpl. split_and!; [done|lia| | |lia].
      * intros [|i] pw' Hi; [|done]. injection Hi as <-. by rewrite Nat.add_0_r.
      * split; [done|]. by intros (n & [= <-] & Hn).
    + exists [pw]. simpl. split_and!; [done|lia| | |lia].
      * intros [|i] pw' Hi; [|done]. injection Hi as <-. by rewrite Nat.add_0_r.
      * split; [|done]. intros _. by exists 0.
    + specialize (IH (S attempt) script (log ++ [RPassword DEFAULT_USER pw])).
      destruct (prompt_loop _ _ _ _) as [r [script' log']]. destruct IH as (pws & -> & Hl & Hp & Hr & Hn).
      exists (pw :: pws). simpl. rewrite <-app_assoc. split_and!; [done|lia| | |].
      * intros [|i] pw' Hi; [injection Hi as <-; by rewrite Nat.add_0_r|].
        rewrite Nat.add_succ_r. by apply (Hp i).
      * rewrite Hr. split.
        -- intros (n & Hpl & Hs). exists (S n). by rewrite Hpl.
        -- intros (n & [= Hpl] & Hs). destruct n as [|n]; [done|]. by exists n.
      * intros [|i] Hi; [done|]. apply (Hn i). lia.
    + exists [pw]. simpl. split_and!; [done|lia| | |lia].
      * intros [|i] pw' Hi; [|done]. injection Hi as <-. by rewrite Nat.add_0_r.
      * split; [done|]. intros (n & [= <-] & Hn). done.
Qed.

(** The order and number of authentication requests. For every way a
    server can answer, the client first offers its key, and sends a password
    only when the key was refused: the given credentials exactly once, or else
    the answers of the prompts in order, at most three and none after one was
    accepted, or none at all when it has neither. It succeeds exactly when the
    last request it sent was accepted. *)
Theorem authentication_requests credentials prompter script :
  let '(r, (_, log)) := authenticate (SS := scripted) credentials prompter (script, []) in
  exists pws, log = RPublickey DEFAULT_USER :: pws /\ length pws <= 3 /\
    (pws <> [] -> script !! 0 = Some (Ok false)) /\
    match credentials, prompter with
    | Some (user, pw), _ => pws = [] \/ pws = [RPassword user pw]
    | None, Some prompt => forall i q, pws !! i = Some q ->
        exists pw, q = RPassword DEFAULT_USER pw /\ prompt (S i) = Some pw
    | None, None => pws = []
    end /\
    (r = Ok tt <-> script !! length pws = Some (Ok true)) /\
    (forall i, i < length pws -> script !! i = Some (Ok false)).
Proof.
  unfold authenticate, mbind at 1, M_bind at 1, M_map_err at 1. cbn [authenticate_publickey scripted].
  destruct script as [|[[]|e] script]; cbn [head tail default from_option id map_err].
  - exists []. split_and!; [done|simpl; lia|done| |done|simpl; lia]. repeat case_match; auto. intros i q. by rewrite lookup_nil.
  - exists []. split_and!; [done|simpl; lia|done| |done|simpl; lia]. repeat case_match; auto. intros i q. by rewrite lookup_nil.
  - destruct credentials as [[user pw]|].
    + unfold mbind, M_bind, M_map_err. cbn [authenticate_password scripted].
      destruct script as [|[[]|e] script]; cbn [head tail default from_option id map_err ensure throw mret M_ret];
        exists [RPassword user pw]; (split_and!; [done|simpl; lia|done|by right|done|intros [|i] Hi; [done|simpl in Hi; lia]]).
    + destruct prompter as [prompt|].
      * pose proof (prompt_loop_log prompt 3 1 script [RPublickey DEFAULT_USER]) as H. cbn [app].
        destruct (prompt_loop (SS := scripted) prompt 3 1 (script, [RPublickey DEFAULT_USER])) as [r [script' log]]. destruct H as (pws & -> & Hl & Hp & Hr & Hn).
        exists (RPassword DEFAULT_USER <$> pws). rewrite length_fmap. split_and!; [done|lia|done| | |].
        -- intros i q (pw & -> & Hi)%list_lookup_fmap_Some. exists pw. split; [done|]. by apply (Hp i).
        -- rewrite Hr. split.
           ++ intros (n & -> & Hs). exact Hs.
           ++ destruct pws as [|pw pws]; [done|]. intros Hs. by exists (length pws).
        -- intros [|i] Hi; [done|]. simpl. apply (Hn i). lia.
      * exists []. simpl. split_and!; [done|lia|done|done| |lia]. done.
  - exists []. split_and!; [done|simpl; lia|done| |done|simpl; lia]. repeat case_match; auto. intros i q. by rewrite lookup_nil.
Qed.

(** ** Establishing *)

Section establish.
Context {Sv : Type} {SS : SshServer Sv} {K : Type} {SK : SshKey K}.
Variable root : path.

(** The errors after which [establish_session] returns at once. *)
Definition before_cleanup (e : ConnectError) : bool :=
  match e with ConnectStorage _ => true | _ => false end.

Lemma prompt_loop_errors prompt more attempt (sv : Sv) e sv' :
  prompt_loop prompt more attempt sv = (Err e, sv') -> before_cleanup e = false.
Proof.
  revert attempt sv. induction more as [|more IH]; intros attempt sv; cbn [prompt_loop]; [by intros [= <- _]|].
  destruct (prompt attempt) as [pw|]; [|by intros [= <- _]]. unfold mbind, M_bind, M_map_err.
  destruct (authenticate_password DEFAULT_USER pw sv) as [[[]|e'] sv1]; [done|apply IH|by intros [= <- _]].
Qed.

Lemma authenticate_errors credentials prompter (sv : Sv) e sv' :
  authenticate credentials prompter sv = (Err e, sv') -> before_cleanup e = false.
Proof.
  unfold authenticate, mbind, M_bind, M_map_err, ensure, mret, M_ret, throw.
  destruct (authenticate_publickey DEFAULT_USER sv) as [[[]|e'] sv1]; [done| |by intros [= <- _]].
  destruct credentials as [[user pw]|].
  - simpl. destruct (authenticate_password user pw sv1) as [[[]|e'] sv2]; simpl; [done|by intros [= <- _]..].
  - destruct prompter; [apply prompt_loop_errors|by intros [= <- _]].
Qed.

(** What a failed connection leaves open. Starting from an open endpoint
    and both connections: a session is only returned after the host key was
    accepted and the server accepted an authentication request, with
    everything still open; when the stream cannot be opened the endpoint has
    been closed; when the handshake fails so has the connection. But when the
    identity or the record of the server's key cannot be loaded, everything is
    left open. *)
Theorem failed_session_releases policy remote_id credentials prompter (x : Exchange) s (sv : Sv) :
  let w := mk_World (mk_Net true true true) s sv in
  match establish_session (SK := SK) root policy remote_id credentials prompter x w with
  | (Ok st, w') => st = Authenticated /\ w_net w' = mk_Net true true true /\
      (exists s0, (connect_key root policy remote_id (ex_suffix x) (ex_key x) s) = (Ok true, s0)) /\
      exists sv0, authenticate credentials prompter sv = (Ok tt, sv0)
  | (Err e, w') =>
      (before_cleanup e = true /\ w_net w' = mk_Net true true true) \/
      (before_cleanup e = false /\ endpoint (w_net w') = false /\
       (connection (w_net w') = true -> e = StreamOpenFailed))
  end.
Proof.
  intros w. unfold establish_session. destruct (ex_identity x) as [[]|e]; [|by left].
  unfold lift, map_err. unfold mbind at 1, M_bind at 1.
  set (known := if decide (policy = AcceptAll) then _ else _).
  set (known0 := (if decide (policy = AcceptAll) then mret None
    else M_map_err ConnectStorage (load_known_server (K := K) root remote_id)) : M fs ConnectError (option K)).
  assert (known w = let '(r, s) := known0 s in (r, mk_World (mk_Net true true true) s sv)) as Hk.
  { unfold known, known0. by case_decide. }
  assert (forall e s0, known0 s = (Err e, s0) -> before_cleanup e = true) as Hke.
  { unfold known0, M_map_err. intros e s0. case_decide; [done|]. destruct (load_known_server root remote_id s) as [[] ?]; [done|].
    by intros [= <- _]. }
  unfold mbind at 1, M_bind at 1. rewrite Hk. clear Hk.
  destruct (known0 s) as [[kn|e] s0] eqn:E0; [|left; split; [by eapply Hke|done]].
  assert (connect_key root policy remote_id (ex_suffix x) (ex_key x) s =
    let '(r, (_, s)) := check_server_key root (ex_suffix x) (ex_key x) (client_handler_new remote_id kn policy, s0) in (r, s)) as Hc.
  { unfold connect_key, mbind, M_bind. unfold known0, M_map_err in *. case_decide; [by injection E0 as <- <-|].
    destruct (load_known_server root remote_id s) as [[r1|] s1]; [|done]. by injection E0 as -> ->. }
  rewrite Hc. clear Hc known known0 E0 Hke.
  destruct (ex_stream x); [|right; by unfold set_net, mbind, M_bind, throw].
  unfold on_error, handshake, on_w_disk, on_server, ssh_connect, mbind, M_bind.
  destruct (ex_failure x) as [[detail|e]|]; cbn [w_disk w_net w_server]; [by right; split_and!..|].
  destruct (check_server_key _ _ _ _) as [[[]|e] [h' s1]]; cbn [w_disk w_net w_server]; [|by right; split_and!..].
  destruct (authenticate credentials prompter sv) as [[[]|e] sv1] eqn:Ea; cbn [w_disk w_net w_server mret M_ret].
  - split_and!; [done|done|by exists s1|by exists sv1].
  - right. apply authenticate_errors in Ea. by split_and!.
Qed.
End establish.

(** ** Targets *)

Section target.
Context {SJ : SerdeJson} {Ticket : Type} {PT : Payload Ticket} (ticket_from_str : bytes -> option Ticket).

(** What a target means. Text that parses as a ticket is that ticket,
    without a look at the disk; otherwise the saved peer with exactly that name,
    the first one listed; otherwise long text and text that starts like a
    ticket are refused with a hint, and any other non-blank text is a wormhole
    code. A failure to list the peers is an error, never a wormhole code. *)
Theorem target_means root target s :
  let t := trim target in
  (parse_target (PT := PT) ticket_from_str root target s).1 =
  match ticket_from_str t with
  | Some k => Ok (TargetTicket k)
  | None =>
      match (list_peers (PT := PT) root s).1 with
      | Err e => Err (TargetStorage e)
      | Ok peers =>
          match filter (fun p => name p = t) peers with
          | p :: _ => Ok (TargetTicket (ticket p))
          | [] =>
              if looks_like_ticket t then Err (InvalidTarget (t ++ bs " (Hint: This looks like a malformed ticket)"))
              else if decide (trim t = []) then Err (InvalidTarget (bs "wormhole code cannot be empty"))
              else Ok (TargetWormhole (mk_WormholeCode t))
          end
      end
  end.
Proof.
  intros t. unfold parse_target. fold t. destruct (ticket_from_str t); [done|].
  unfold mbind, M_bind, M_map_err. destruct (list_peers root s) as [[peers|e] s']; [|done]. cbn [fst map_err].
  assert (match list_find (fun p : PeerProfile Ticket => name p = t) peers with Some (_, p) => Some p | None => None end
    = head (filter (fun p => name p = t) peers)) as Hh.
  { induction peers as [|p peers IH]; [done|]. rewrite filter_cons. simpl. case_decide; [done|].
    rewrite <-IH. by destruct (list_find _ peers) as [[]|]. }
  destruct (list_find _ peers) as [[i p]|], (filter _ peers) as [|q qs]; simplify_eq/=; try done.
  destruct (looks_like_ticket t); [done|]. unfold lift, wormhole_code_new. by case_decide.
Qed.
End target.

(** ** Pairing, from both ends *)

Section pairing.
Context {St K : Type} {VS : VaultStore St K} {SK : SshKey K}.
Variable verify_password : bytes -> bytes -> result PasswordError unit.
Variable cfg : UnifiedConfig.

(** The session of the unified authenticator as the server the client talks
    to, the client's key being [key]; what the client sees of an authenticator
    that fails is a broken connection. *)
Definition server_of (now : N) (key : K) : SshServer (Session (St := St) (K := K)) := {|
  authenticate_publickey _ := M_map_err (fun _ => None) (check_public_key cfg now key);
  authenticate_password _ pw := M_map_err (fun _ => None) (check_password verify_password cfg now pw);
|}.

Context {VL : VaultLaws St K} {SL : SshKeyLaws K}.

Abbreviation vault s k := (in_vault (store (shared s)) k).
Abbreviation mem s := (authorized_keys (shared s)).

Lemma refresh_keys_counters (s : Session (St := St) (K := K)) :
  failed_attempts (shared (refresh_keys s).2) = failed_attempts (shared s) /\
  success_sent (shared (refresh_keys s).2) = success_sent (shared s).
Proof.
  unfold refresh_keys, refresh_load, mbind, M_bind, attempt, mret, M_ret.
  destruct (with_store load_vault s) as [r s1] eqn:E.
  apply load_vault_quiet in E as [([st ->] & _) _]. by destruct r.
Qed.

Lemma is_locked_out_low now (s : Session (St := St) (K := K)) :
  (failed_attempts (shared s) < 3)%N -> is_locked_out now s = (Ok false, s).
Proof. intros H. unfold is_locked_out. apply N.ltb_lt in H. by rewrite H. Qed.

(** A known key is let in. *)
Lemma known_key_accepted now key (s : Session (St := St) (K := K)) :
  (failed_attempts (shared s) < 3)%N -> settled (K := K) (store (shared s)) ->
  vault s key -> (check_public_key cfg now key s).1 = Ok true.
Proof.
  intros Hf Hs Hk. unfold check_public_key, pk_first, mbind, M_bind, get, mret, M_ret, reset_failures, update.
  rewrite is_locked_out_low by done. case_decide; [done|]. case_decide; [done|].
  destruct (refresh_keys_cases s) as (s2 & -> & _ & _ & _ & _ & _ & Hin).
  unfold pk_decide, mbind, M_bind, get, mret, M_ret, reset_failures, update.
  case_decide as Hm; [done|]. by destruct Hm; apply Hin.
Qed.

(** A new key is refused and kept, while an invite is out. *)
Lemma new_key_cached now key (s : Session (St := St) (K := K)) :
  policy cfg = Tofu -> has_temp cfg = true -> (failed_attempts (shared s) < 3)%N ->
  key ∉ mem s -> ~ vault s key ->
  exists s', check_public_key cfg now key s = (Ok false, s') /\ cached_key s' = Some key /\
    (failed_attempts (shared s') < 3)%N /\ (key ∉ mem s') /\ success_sent (shared s') = success_sent (shared s) /\
    shadow_of (K := K) (store (shared s')) = shadow_of (K := K) (store (shared s)) /\
    (settled (K := K) (store (shared s)) -> settled (K := K) (store (shared s'))).
Proof.
  intros Hp Ht Hf Hm Hv. unfold check_public_key, pk_first, mbind, M_bind, get, mret, M_ret.
  rewrite is_locked_out_low by done. rewrite Hp, decide_False by done. rewrite decide_False by done.
  pose proof (refresh_keys_counters s) as Hc.
  destruct (refresh_keys_cases s) as (s2 & E & _ & Hsh & Hset & _ & Hin & _). rewrite E in Hc |- *. simpl in Hc. destruct Hc as [Hc Hc'].
  unfold pk_decide, mbind, M_bind, get, mret, M_ret.
  rewrite decide_False by (intros Hk; destruct (Hin _ Hk); auto).
  rewrite Hp, decide_False by done.
  destruct (node_pw_exists_cases s2) as (b & s3 & -> & (([st ->] & _ & Hsh3 & Hset3) & _)).
  rewrite Ht, orb_true_r. eexists. split; [done|]. simpl in *. split_and!; [done|by rewrite Hc| |done|congruence|auto].
  intros Hk. destruct (Hin _ Hk); auto.
Qed.

(** The invite code lets the kept key in. *)
Lemma invite_adopts now key pw h (s : Session (St := St) (K := K)) :
  temp_password_hash cfg = Some h -> verify_password pw h = Ok tt ->
  (failed_attempts (shared s) < 3)%N -> settled (K := K) (store (shared s)) ->
  shadow_of (K := K) (store (shared s)) = Ok None -> cached_key s = Some key -> key ∉ mem s ->
  match check_password verify_password cfg now pw s with
  | (Ok accepted, s') => accepted = true /\ vault s' key /\ key ∈ mem s' /\ (success_tx cfg = true -> success_sent (shared s') = S (success_sent (shared s)))
  | (Err e, s') => exists e', e = StorageErr e'
  end.
Proof.
  intros Ht Hver Hf Hs Hsh Hc Hm. unfold check_password, check_password_match, mbind, M_bind, attempt, mret, M_ret.
  rewrite is_locked_out_low by done. rewrite Ht, Hver.
  destruct (with_store load_shadow s) as [r s1] eqn:E. apply load_shadow_quiet in E as [([st ->] & _ & Hsh1 & _) Hr].
  rewrite (Hr Hs), Hsh. cbn [is_ok].
  unfold authorize_cached, mbind, M_bind, get, set_cached, M_map_err. cbn [cached_key with_st shared]. rewrite Hc.
  cbn [shared authorized_keys]. rewrite decide_False by done.
  match goal with |- context [with_store ?m ?s0] =>
    destruct (add_client_cases key s0) as (r' & s2 & -> & (st2 & ->) & _ & _ & H) end.
  destruct r' as [[]|e]; cbn; [|by eexists]. cbn in H. destruct H as [H _].
  split_and!; [done|done| |by intros ->]. apply elem_of_app. right. by left.
Qed.
End pairing.

(** C4: Pairing, from the client's side to the next reconnection. While an
    invite is out (Tofu, no node password, not locked out), a client whose key
    is unknown connects with the code: the connection fails only because the
    vault cannot be written, and otherwise the client is in, its key is in the
    vault and the server is told of the success once. From then on any
    authenticator over a vault that holds the key, under any policy, lets the
    client in with its key alone: no password, no prompt. *)
Theorem pairing_then_reconnect {St K} {VS : VaultStore St K} {SK : SshKey K} {VL : VaultLaws St K}
    {SL : SshKeyLaws K} verify_password cfg cfg' keys flag fails (st : St) (key : K) user pw h now now' keys' (st' : St) :
  policy cfg = Tofu -> temp_password_hash cfg = Some h -> verify_password pw h = Ok tt -> success_tx cfg = true ->
  (fails < 3)%N -> settled (K := K) st -> shadow_of (K := K) st = Ok None ->
  key ∉ keys -> ~ in_vault st key ->
  match authenticate (SS := server_of verify_password cfg now key) (Some (user, pw)) None (with_tracking keys flag fails st) with
  | (Ok _, s) => in_vault (store (shared s)) key /\ key ∈ authorized_keys (shared s) /\ success_sent (shared s) = 1
  | (Err e, _) => e = SshNegotiationFailed None
  end /\
  (settled (K := K) st' -> in_vault st' key ->
   (authenticate (SS := server_of verify_password cfg' now' key) None None (new keys' st')).1 = Ok tt).
Proof.
  intros Hp Ht Hver Hsucc Hf Hs Hsh Hm Hv. unfold authenticate, mbind, M_bind, M_map_err. cbn [authenticate_publickey authenticate_password server_of].
  unfold M_map_err. split.
  - assert (has_temp cfg = true) as Ht' by (unfold has_temp; by rewrite Ht).
    destruct (new_key_cached cfg now key (with_tracking keys flag fails st)) as (s1 & E & Hc & Hf1 & Hm1 & Hss & Hsh1 & Hs1); [done..|].
    rewrite E. cbn [map_err].
    pose proof (invite_adopts verify_password cfg now key pw h s1 Ht Hver Hf1 (Hs1 Hs) (eq_trans Hsh1 Hsh) Hc Hm1) as Ha.
    destruct (check_password _ _ _ _ _) as [[b|e] s2]; cbn [map_err]; [|done].
    destruct Ha as (-> & Hin & Hmem & Hsent). cbn. split_and!; [done|done|]. rewrite Hsent by done. f_equal. exact Hss.
  - intros Hs' Hv'. pose proof (known_key_accepted cfg' now' key (new keys' st') ltac:(done) Hs' Hv') as Hk.
    destruct (check_public_key _ _ _ _) as [r s']. simpl in Hk. by subst r.
Qed.

Lemma pairing_then_reconnect_witness :
  (authenticate (SS := @server_of _ _ (mem_vault bytes) demo_key demo_verify pairing_cfg 10 (bs "alice"))
     (Some (bs "irosh", bs "code")) None (with_tracking [] false 2 ([], None))).1 = Ok tt /\
  (authenticate (SS := @server_of _ _ (mem_vault bytes) demo_key demo_verify (mk_UnifiedConfig Strict None true true) 99 (bs "alice"))
     None None (new [] ([bs "alice"], None))).1 = Ok tt.
Proof.
  split; [vm_compute; reflexivity|].
  apply (@pairing_then_reconnect _ _ (mem_vault bytes) demo_key (mem_vault_laws bytes) demo_key_laws demo_verify
    pairing_cfg (mk_UnifiedConfig Strict None true true) [] false 2 ([], None) (bs "alice") (bs "irosh") (bs "code") (bs "code") 10 99 []
    ([bs "alice"], None)).
  all: try reflexivity.
  all: try exact I.
  - by intros ?%elem_of_nil.
  - by intros ?%elem_of_nil.
  - left.
Defined.
