(* ===== verification/ClientSession.v ===== *)
(** * The session on the client: [src/client/session.rs], [session_event.rs]

    A [Session] owns the SSH connection, the primary channel and the transport
    below. What it asks of the SSH library and of the transport is logged,
    with the answer; [answers] is the library's answer to a request after
    everything that was asked before, [None] standing for success. The
    messages a channel is still going to deliver are in [queues]; an empty
    queue is the end of the stream. *)

From S2P Require Import Prelude Text Stream TransferTypes TransferCodec Fs Paths Hoare Metrics Conn ClientTransfer.
From S2P Require Import Pty HostKey Connect.

(** ** Events *)

(** [russh::ChannelMsg]; [MOther] is any message without a meaning here, such
    as [Success], [Failure], [Eof] and [WindowAdjusted]. *)
Inductive ChannelMsg : Type :=
| MData (data : bytes)
| MExtendedData (data : bytes) (ext : N)
| MExitStatus (exit_status : N)
| MExitSignal (signal_name : Sig) (core_dumped : bool) (error_message lang_tag : bytes)
| MClose
| MSuccess
| MFailure
| MOther.

Inductive SessionEvent : Type :=
| EvData (data : bytes)
| EvExtendedData (data : bytes) (ext : N)
| EvExitStatus (status : N)
| EvExitSignal (signal : bytes) (core_dumped : bool) (error_message lang_tag : bytes)
| EvClosed
| EvIgnore.

Section session.
Variable sig_text : Sig -> bytes.   (** [Debug for russh::Sig] *)

Definition session_event (msg : ChannelMsg) : SessionEvent :=
  match msg with
  | MData d => EvData d
  | MExtendedData d ext => EvExtendedData d ext
  | MExitStatus n => EvExitStatus n
  | MExitSignal s core error lang => EvExitSignal (sig_text s) core error lang
  | MClose => EvClosed
  | _ => EvIgnore
  end.

(** ** State *)

Inductive Request : Type :=
| OpenSession
| RequestPty (ch : N) (want_reply : bool) (term : bytes) (c r w p : N) (modes : list (N * N))
| RequestShell (ch : N) (want_reply : bool)
| RequestExec (ch : N) (want_reply : bool) (command : bytes)
| SendData (ch : N) (data : bytes)
| SendEof (ch : N)
| SendWindowChange (ch c r w p : N)
| CloseChannel (ch : N)
| Disconnect
| TcpipForward (host : bytes) (port : N)
| OpenDirectTcpip (host : bytes) (port : N) (originator : bytes) (originator_port : N)
| CloseConnection
| CloseBlobs
| CloseEndpoint.

Inductive SessionError : Type :=
| Unavailable (details : bytes)
| ChannelOpenFailed (e : bytes)
| PtyRequestFailed (e : bytes)
| ShellRequestFailed (e : bytes)
| ExecFailed (e : bytes)
| DataSendFailed (e : bytes)
| EofSendFailed (e : bytes)
| WindowChangeFailed (e : bytes)
| TunnelFailed (e : bytes)
| DisconnectFailed (e : bytes).

Context {K : Type}.

Record Session : Type := mk_Session {
  state : SessionState;
  channel : option N;
  s_connection : bool;
  s_blobs_connection : bool;
  s_endpoint : bool;
  handler : ClientHandler K;
  log : list (Request * option bytes);
  opened : N;                           (** channels opened so far *)
  queues : gmap N (list ChannelMsg);
}.

Abbreviation S := (M Session SessionError).

Definition set_state (st : SessionState) : S unit := fun s =>
  (Ok tt, mk_Session st (channel s) (s_connection s) (s_blobs_connection s) (s_endpoint s) (handler s) (log s) (opened s) (queues s)).
Definition set_channel (c : option N) : S unit := fun s =>
  (Ok tt, mk_Session (state s) c (s_connection s) (s_blobs_connection s) (s_endpoint s) (handler s) (log s) (opened s) (queues s)).
Definition set_handler (h : ClientHandler K) : S unit := fun s =>
  (Ok tt, mk_Session (state s) (channel s) (s_connection s) (s_blobs_connection s) (s_endpoint s) h (log s) (opened s) (queues s)).
Definition set_queues (q : gmap N (list ChannelMsg)) : S unit := fun s =>
  (Ok tt, mk_Session (state s) (channel s) (s_connection s) (s_blobs_connection s) (s_endpoint s) (handler s) (log s) (opened s) q).
Definition release (conn blobs ep : bool) : S unit := fun s =>
  (Ok tt, mk_Session (state s) (channel s) (s_connection s && negb conn) (s_blobs_connection s && negb blobs)
            (s_endpoint s && negb ep) (handler s) (log s) (opened s) (queues s)).
Definition look {A} (f : Session -> A) : S A := fun s => (Ok (f s), s).

Variable answers : list (Request * option bytes) -> Request -> option bytes.

(** A request and its answer. *)
Definition ask (x : Request) (failed : bytes -> SessionError) : S unit := fun s =>
  let answer := answers (log s) x in
  (match answer with Some e => Err (failed e) | None => Ok tt end,
   mk_Session (state s) (channel s) (s_connection s) (s_blobs_connection s) (s_endpoint s) (handler s)
     (log s ++ [(x, answer)]) (opened s) (queues s)).

(** ** Operations *)

Definition transport_resources_released (s : Session) : bool :=
  bool_decide (channel s = None) && negb (s_connection s) && negb (s_blobs_connection s) && negb (s_endpoint s).

Definition unavailable_details (st : SessionState) : bytes :=
  match st with
  | AuthRejected => bs "session is rejected"
  | TrustMismatch => bs "session is trust mismatch"
  | Closed => bs "session is closed"
  | _ => bs "session is unavailable"
  end.

Definition check_open : S unit :=
  st ← look state;
  if is_terminal st then throw (Unavailable (unavailable_details st)) else mret tt.

(** [handle.channel_open_session()]: the number of the new channel *)
Definition channel_open_session : S N :=
  ask OpenSession ChannelOpenFailed;;
  (fun s => (Ok (opened s), mk_Session (state s) (channel s) (s_connection s) (s_blobs_connection s) (s_endpoint s) (handler s)
     (log s) (opened s + 1) (queues s))) : S N.

(** The end of the slow path: another caller may have installed a channel. *)
Definition install (c : N) : S unit :=
  current ← look channel;
  match current with Some _ => mret tt | None => set_channel (Some c) end.

Definition ensure_channel : S unit :=
  current ← look channel;
  match current with
  | Some _ => mret tt
  | None => c ← channel_open_session; install c
  end.

(** The primary channel, and a request on it. *)
Definition on_channel (absent : SessionError) (x : N -> Request) (failed : bytes -> SessionError) : S unit :=
  check_open;;
  ensure_channel;;
  current ← look channel;
  match current with
  | None => throw absent
  | Some c => ask (x c) failed
  end.

Definition CONNECT_FAILED : bytes := bs "ConnectFailed".

Definition request_pty (options : PtyOptions) : S unit :=
  let size := po_size options in
  on_channel (Unavailable (bs "no channel available"))
    (fun c => RequestPty c false (po_term options) (cols size) (rows size) (pixel_width size) (pixel_height size) (po_modes options))
    PtyRequestFailed.

Definition start_shell : S unit :=
  on_channel (ChannelOpenFailed CONNECT_FAILED) (fun c => RequestShell c true) ShellRequestFailed;;
  set_state ShellReady.

Definition exec (command : bytes) : S unit :=
  on_channel (ChannelOpenFailed CONNECT_FAILED) (fun c => RequestExec c true command) ExecFailed.

Definition send (data : bytes) : S unit :=
  on_channel (DataSendFailed CONNECT_FAILED) (fun c => SendData c data) DataSendFailed.

Definition eof : S unit :=
  on_channel (EofSendFailed CONNECT_FAILED) SendEof EofSendFailed.

Definition resize (size : PtySize) : S unit :=
  on_channel (WindowChangeFailed CONNECT_FAILED)
    (fun c => SendWindowChange c (cols size) (rows size) (pixel_width size) (pixel_height size)) WindowChangeFailed.

(** [channel.wait()] *)
Definition wait (c : N) : S (option ChannelMsg) :=
  q ← look queues;
  match q !!! c with
  | [] => mret None
  | m :: rest => set_queues (<[c := rest]> q);; mret (Some m)
  end.

Definition next_event : S (option SessionEvent) :=
  current ← look channel;
  match current with
  | None => mret None
  | Some c =>
      m ← wait c;
      match m with
      | Some m => mret (Some (session_event m))
      | None => set_state Closed;; mret None
      end
  end.

Record ExecOutput : Type := mk_ExecOutput {
  stdout : bytes;
  stderr : bytes;
  exit_status : N;
}.

Definition exec_output_default : ExecOutput := mk_ExecOutput [] [] 0.

(** One message of the loop. *)
Definition take_output (m : ChannelMsg) (o : ExecOutput) : ExecOutput :=
  match m with
  | MData d => mk_ExecOutput (stdout o ++ d) (stderr o) (exit_status o)
  | MExtendedData d 1 => mk_ExecOutput (stdout o) (stderr o ++ d) (exit_status o)
  | MExitStatus n => mk_ExecOutput (stdout o) (stderr o) n
  | _ => o
  end.

(** The loop, on the channel's messages: it ends with a [Close] or with the
    stream, and leaves what comes after. *)
Fixpoint collect_output (msgs : list ChannelMsg) (o : ExecOutput) : ExecOutput * list ChannelMsg :=
  match msgs with
  | [] => (o, [])
  | MClose :: rest => (o, rest)
  | m :: rest => collect_output rest (take_output m o)
  end.

Definition capture_exec (command : bytes) : S ExecOutput :=
  check_open;;
  c ← channel_open_session;
  ask (RequestExec c true command) ExecFailed;;
  q ← look queues;
  let '(o, rest) := collect_output (q !!! c) exec_output_default in
  set_queues (<[c := rest]> q);;
  mret o.

(** [bound]: the listener's address, or why there is none. *)
Definition local_forward (bound : result bytes bytes) : S bytes :=
  check_open;;
  match bound with
  | Ok addr => mret addr
  | Err e => throw (TunnelFailed e)
  end.

(** A connection accepted by the forwarding task: whether its bytes are copied. *)
Definition forward_accepted (remote_host : bytes) (remote_port : N) (peer_ip : bytes) (peer_port : N) : S bool :=
  r ← attempt (F := SessionError) (ask (OpenDirectTcpip remote_host remote_port peer_ip peer_port) ChannelOpenFailed);
  mret (is_ok r).

Definition remote_forward (remote_host : bytes) (remote_port : N) (local_host : bytes) (local_port : N) : S unit :=
  check_open;;
  ask (TcpipForward remote_host remote_port)
    (fun e => TunnelFailed (bs "server rejected remote forward request: " ++ e));;
  h ← look handler;
  set_handler (register_remote_tunnel remote_host remote_port local_host local_port h).

Definition ignored (x : Request) : S unit := ignore (E := SessionError) (ask x ChannelOpenFailed).

(** [take()] and close what was there. *)
Definition close_part (open : Session -> bool) (x : Request) (conn blobs ep : bool) : S unit :=
  o ← look open;
  if (o : bool) then release conn blobs ep;; ignored x else mret tt.

Definition disconnect : S unit :=
  current ← look channel;
  match current with
  | Some c => set_channel None;; ignored (CloseChannel c)
  | None => mret tt
  end;;
  st ← look state;
  (if is_terminal st then mret tt else ask Disconnect DisconnectFailed);;
  close_part s_connection CloseConnection true false false;;
  close_part s_blobs_connection CloseBlobs false true false;;
  close_part s_endpoint CloseEndpoint false false true;;
  set_state Closed.

Definition close : S unit := disconnect.
End session.
Arguments Session : clear implicits.

(** ** Completions *)

Section completion.
Context {SJ : SerdeJson} {ST : SystemTexts}.
Variable connection : option bool.

Definition remote_completion (st : SessionState) (p : bytes) : M conn IroshError (list bytes) :=
  (if is_terminal st then client (TransportUnavailable (unavailable_details st)) else mret tt);;
  open_transfer_stream connection "completion unavailable";;
  Conn.send (write_completion_request (mk_CompletionRequest p));;
  res ← recv_frame;
  match res with
  | FCompletionResponse res => mret (matches res)
  | FError failure => client (TransferRejected failure)
  | other => client (DownloadFailed (bs "unexpected completion frame: " ++ frame_text other))
  end.
End completion.
