(* ===== verification/SessionFacts.v ===== *)
(** * What a client session guarantees

    Terminal states, disconnecting, the primary channel, captured commands,
    and a terminal session from the client's calls to the child process of the
    server. *)

From S2P Require Import Prelude Text Stream TransferTypes TransferCodec Conn ClientTransfer Auth Pty HostKey Connect ClientSession Demo.

Section facts.
Variable sig_text : Sig -> bytes.
Context {K : Type}.
Variable answers : list (Request * option bytes) -> Request -> option bytes.
Implicit Types s : Session K.

Lemma check_open_terminal {A} (k : M (Session K) SessionError A) s :
  is_terminal (state s) = true ->
  (check_open;; k) s = (Err (Unavailable (unavailable_details (state s))), s).
Proof. unfold check_open, mbind, M_bind, look. cbn. by intros ->. Qed.

Lemma check_open_open {A} (k : M (Session K) SessionError A) s :
  is_terminal (state s) = false -> (check_open;; k) s = k s.
Proof. unfold check_open, mbind, M_bind, look. cbn. by intros ->. Qed.

(** ** Terminal states *)

(** The answer of a session that is over, which nothing was done with. *)
Definition refuses {A} (m : M (Session K) SessionError A) (s : Session K) : Prop :=
  m s = (Err (Unavailable (unavailable_details (state s))), s).

(** Reading asks nothing and never reopens a session. *)
Lemma reading_keeps_ended s : is_terminal (state s) = true ->
  log (next_event sig_text s).2 = log s /\ is_terminal (state (next_event sig_text s).2) = true.
Proof.
  destruct s as [st ch co bl ep h lg op qs]. unfold next_event, wait, set_queues, set_state, look, mbind, M_bind, mret, M_ret.
  intros Ht. cbn in *. by repeat (case_match; simplify_eq/=).
Qed.

(** ** Disconnecting *)

Definition was_open (b : bool) (x : Request) : list Request := if b then [x] else [].

(** What is left after the channel and the disconnect message. *)
Definition after_steps (lg : list (Request * option bytes)) s : Session K :=
  mk_Session (state s) None (s_connection s) (s_blobs_connection s) (s_endpoint s) (handler s) lg (opened s) (queues s).

Definition closing s : list Request :=
  was_open (s_connection s) CloseConnection ++ was_open (s_blobs_connection s) CloseBlobs ++
  was_open (s_endpoint s) CloseEndpoint.

Definition finish : M (Session K) SessionError unit :=
  close_part answers s_connection CloseConnection true false false;;
  close_part answers s_blobs_connection CloseBlobs false true false;;
  close_part answers s_endpoint CloseEndpoint false false true;;
  set_state Closed.

Lemma disconnect_steps s :
  disconnect answers s =
  let lg := log s ++ match channel s with Some c => [(CloseChannel c, answers (log s) (CloseChannel c))] | None => [] end in
  if is_terminal (state s) then finish (after_steps lg s)
  else match answers lg Disconnect with
       | Some e => (Err (DisconnectFailed e), after_steps (lg ++ [(Disconnect, Some e)]) s)
       | None => finish (after_steps (lg ++ [(Disconnect, None)]) s)
       end.
Proof.
  destruct s as [st ch co bl ep h lg op qs]. unfold disconnect. fold finish.
  unfold ignored, ignore, attempt, ask, look, set_channel, after_steps, mbind, M_bind, mret, M_ret.
  destruct ch as [c|]; cbn; rewrite ?app_nil_r.
  - destruct (is_terminal st); cbn; [done|]. by destruct (answers _ Disconnect).
  - destruct (is_terminal st); cbn; [done|]. by destruct (answers _ Disconnect).
Qed.

Lemma close_parts s :
  exists s', finish s = (Ok tt, s') /\
  (log s').*1 = (log s).*1 ++ closing s /\ state s' = Closed /\ channel s' = channel s /\
  s_connection s' = false /\ s_blobs_connection s' = false /\ s_endpoint s' = false.
Proof.
  destruct s as [st ch co bl ep h lg op qs].
  unfold finish, close_part, ignored, ignore, attempt, ask, look, release, set_state, closing, mbind, M_bind, mret, M_ret.
  destruct co, bl, ep; cbn; eexists; (split; [reflexivity|]); cbn; split_and!; try done;
    by rewrite ?fmap_app, <-?app_assoc, ?app_nil_r.
Qed.

(** Of an ended session without resources nothing is left to do. *)
Lemma disconnect_released s :
  state s = Closed -> transport_resources_released s = true -> disconnect answers s = (Ok tt, s).
Proof.
  destruct s as [st ch co bl ep h lg op qs]. unfold transport_resources_released. cbn. intros ->.
  destruct ch; [done|]. by destruct co, bl, ep.
Qed.

(** Disconnecting. When it succeeds, the channel, both connections and the
    endpoint that were open have each been closed exactly once and in that
    order, the SSH disconnect having been sent only by a session that had not
    ended; the session is closed, holds no resource, and disconnecting again
    does nothing. When it fails, the session had not ended and the SSH library
    refused the disconnect message: the channel is gone, and the connections
    and the endpoint are as open as they were. *)
Theorem disconnect_outcome s :
  let first := match channel s with Some c => [CloseChannel c] | None => [] end ++
    (if is_terminal (state s) then [] else [Disconnect]) in
  match disconnect answers s with
  | (Ok _, s') =>
      (log s').*1 = (log s).*1 ++ first ++ was_open (s_connection s) CloseConnection ++
        was_open (s_blobs_connection s) CloseBlobs ++ was_open (s_endpoint s) CloseEndpoint /\
      state s' = Closed /\ transport_resources_released s' = true /\ disconnect answers s' = (Ok tt, s')
  | (Err e, s') =>
      (log s').*1 = (log s).*1 ++ first /\ is_terminal (state s) = false /\
      (exists text, e = DisconnectFailed text /\ list.last (log s') = Some (Disconnect, Some text)) /\
      state s' = state s /\ channel s' = None /\ s_connection s' = s_connection s /\
      s_blobs_connection s' = s_blobs_connection s /\ s_endpoint s' = s_endpoint s
  end.
Proof.
  intros first.
  assert (forall lg, lg.*1 = (log s).*1 ++ first -> exists s', finish (after_steps lg s) = (Ok tt, s') /\
    (log s').*1 = (log s).*1 ++ first ++ closing s /\ state s' = Closed /\
    transport_resources_released s' = true /\ disconnect answers s' = (Ok tt, s')) as Hend.
  { intros lg Hlg. destruct (close_parts (after_steps lg s)) as (s' & E & Hl & Hs & Hc & H1 & H2 & H3).
    exists s'. split; [exact E|].
    assert (transport_resources_released s' = true) as Hr.
    { unfold transport_resources_released. by rewrite Hc, H1, H2, H3. }
    split_and!; [|done|done|by apply disconnect_released]. rewrite Hl, app_assoc. cbn [after_steps log]. by rewrite Hlg. }
  rewrite (disconnect_steps s). cbv zeta. subst first. set (lg := log s ++ _).
  assert (lg.*1 = (log s).*1 ++ match channel s with Some c => [CloseChannel c] | None => [] end) as Hlg.
  { unfold lg. rewrite fmap_app. by destruct (channel s). }
  destruct (is_terminal (state s)).
  - destruct (Hend lg) as (s' & -> & H); [by rewrite Hlg, app_nil_r|exact H].
  - destruct (answers lg Disconnect) as [e|].
    + cbn [after_steps log state channel s_connection s_blobs_connection s_endpoint].
      split_and!; [by rewrite fmap_app, Hlg, <-app_assoc|done|eexists; split; [done|by rewrite last_snoc]|done..].
    + destruct (Hend (lg ++ [(Disconnect, None)])) as (s' & -> & H); [by rewrite fmap_app, Hlg, <-app_assoc|exact H].
Qed.

(** C40: A session that has ended, been rejected or failed the host key check
    takes no requests. Terminals, shells, commands (captured or not), data,
    ends of file, sizes, local and remote forwards and completions are refused
    with the reason, and for none of them anything is asked of the SSH library
    or sent to the server, or changed. What is left to such a session: reading
    what its channel still delivers, which asks nothing and keeps the session
    ended; and disconnecting, which always succeeds, closes what is still open,
    sends no disconnect message, and leaves the session closed and without
    resources. The transfer operations are not part of this: they look at the
    connection and not at the state. *)
Theorem ended_session_refuses {SJ : SerdeJson} {ST : SystemTexts} s :
  is_terminal (state s) = true ->
  ((forall o, refuses (request_pty answers o) s) /\
   refuses (start_shell answers) s /\
   (forall command, refuses (exec answers command) s) /\
   (forall command, refuses (capture_exec answers command) s) /\
   (forall data, refuses (send answers data) s) /\
   refuses (eof answers) s /\
   (forall size, refuses (resize answers size) s) /\
   (forall bound, refuses (local_forward bound) s) /\
   (forall h p lh lp, refuses (remote_forward answers h p lh lp) s) /\
   (forall connection p c, remote_completion connection (state s) p c =
      (Err (EClient (TransportUnavailable (unavailable_details (state s)))), c))) /\
  (log (next_event sig_text s).2 = log s /\ is_terminal (state (next_event sig_text s).2) = true) /\
  exists s', disconnect answers s = (Ok tt, s') /\
    (log s').*1 = (log s).*1 ++ match channel s with Some c => [CloseChannel c] | None => [] end ++ closing s /\
    state s' = Closed /\ transport_resources_released s' = true.
Proof.
  intros Ht. split; [|split].
  - unfold refuses. split_and!; intros; try by apply check_open_terminal.
    + unfold start_shell, on_channel. unfold mbind at 1, M_bind at 1. by rewrite check_open_terminal.
    + unfold remote_completion. by rewrite Ht.
  - by apply reading_keeps_ended.
  - rewrite disconnect_steps. cbv zeta. rewrite Ht. set (lg := log s ++ _).
    destruct (close_parts (after_steps lg s)) as (s' & E & Hl & Hs & Hc & H1 & H2 & H3). exists s'. split_and!; try done.
    + rewrite Hl. cbn [after_steps log]. subst lg. rewrite fmap_app, <-app_assoc. by destruct (channel s).
    + unfold transport_resources_released. by rewrite Hc, H1, H2, H3.
Qed.

(** ** Captured commands *)

(** The messages before the channel is closed. *)
Fixpoint before_close (l : list ChannelMsg) : list ChannelMsg :=
  match l with [] | MClose :: _ => [] | m :: l => m :: before_close l end.

Definition out_of (m : ChannelMsg) : bytes := match m with MData d => d | _ => [] end.
Definition err_of (m : ChannelMsg) : bytes := match m with MExtendedData d 1 => d | _ => [] end.
Definition status_of (m : ChannelMsg) : option N := match m with MExitStatus n => Some n | _ => None end.

Lemma collect_output_spec l o :
  (collect_output l o).1 =
  mk_ExecOutput (stdout o ++ (before_close l ≫= out_of)) (stderr o ++ (before_close l ≫= err_of))
    (default (exit_status o) (list.last (omap status_of (before_close l)))).
Proof.
  revert o. induction l as [|m l IH]; intros o; [by destruct o; cbn; rewrite !app_nil_r|].
  assert (forall x, default (default (exit_status o) x) (list.last (omap status_of (before_close l))) =
    default (exit_status o) (list.last (option_list x ++ omap status_of (before_close l)))) as Hl.
  { intros [x|]; [|done]. change (option_list (Some x) ++ omap status_of (before_close l)) with (x :: omap status_of (before_close l)). rewrite last_cons. by destruct (list.last _). }
  destruct m as [d|d ext|n|sg core err lang| | | |]; cbn [collect_output before_close]; try (rewrite IH; cbn; rewrite ?app_assoc; done).
  - rewrite IH. cbn. by destruct ext as [|[| |]]; cbn; rewrite ?app_assoc.
  - rewrite IH. cbn [take_output stdout stderr exit_status]. f_equal. exact (Hl (Some n)).
  - cbn. by rewrite !app_nil_r; destruct o.
Qed.

(** A captured command runs on a channel of its own. Its output is what
    arrives there before the channel closes: the data, the extended data of
    kind 1, and the last exit status, or 0 when none came. Neither the state
    of the session nor its primary channel changes, whatever happens. *)
Theorem captured_output command s :
  let '(r, s') := capture_exec answers command s in
  state s' = state s /\ channel s' = channel s /\
  match r with
  | Ok o =>
      let seen := before_close (queues s !!! opened s) in
      o = mk_ExecOutput (seen ≫= out_of) (seen ≫= err_of) (default 0%N (list.last (omap status_of seen))) /\
      (log s').*1 = (log s).*1 ++ [OpenSession; RequestExec (opened s) true command]
  | Err _ => True
  end.
Proof.
  destruct (is_terminal (state s)) eqn:Et; unfold capture_exec.
  { rewrite check_open_terminal by done. by split_and!. }
  rewrite check_open_open by done.
  unfold channel_open_session, ask, look, set_queues, mbind, M_bind, mret, M_ret.
  destruct (answers (log s) OpenSession); cbn; [done|].
  destruct (answers _ (RequestExec _ _ _)); cbn; [done|].
  pose proof (collect_output_spec (queues s !!! opened s) exec_output_default) as Hc.
  destruct (collect_output _ _) as [o rest]. cbn in *. split_and!; [done..|exact Hc|]. by rewrite !fmap_app, <-app_assoc.
Qed.

(** ** The primary channel *)

Inductive Op : Type :=
| OpPty (o : PtyOptions) | OpShell | OpExec (command : bytes) | OpSend (d : bytes) | OpEof | OpResize (size : PtySize)
| OpNext | OpCapture (command : bytes) | OpRemoteForward (h : bytes) (p : N) (lh : bytes) (lp : N).

Definition perform (op : Op) s : Session K :=
  match op with
  | OpPty o => (request_pty answers o s).2
  | OpShell => (start_shell answers s).2
  | OpExec command => (exec answers command s).2
  | OpSend d => (send answers d s).2
  | OpEof => (eof answers s).2
  | OpResize size => (resize answers size s).2
  | OpNext => (next_event sig_text s).2
  | OpCapture command => (capture_exec answers command s).2
  | OpRemoteForward h p lh lp => (remote_forward answers h p lh lp s).2
  end.

Definition perform_all (ops : list Op) s : Session K := foldl (fun s op => perform op s) s ops.

(** The channel of a request that only the primary channel gets. *)
Definition primary (x : Request) : option N :=
  match x with
  | RequestPty c _ _ _ _ _ _ _ | RequestShell c _ | SendData c _ | SendEof c | SendWindowChange c _ _ _ _ => Some c
  | _ => None
  end.

(** One operation: the log grows, the installed channel stays, and requests
    for the primary channel go to it. *)
Definition grows s s' : Prop :=
  exists new, log s' = log s ++ new /\
  (forall c, channel s = Some c -> channel s' = Some c) /\
  (forall x c, x ∈ new.*1 -> primary x = Some c -> channel s' = Some c).

Lemma grows_refl s : grows s s.
Proof. exists []. rewrite app_nil_r. split_and!; [done..|]. by intros x c ?%elem_of_nil. Qed.

Lemma grows_trans s1 s2 s3 : grows s1 s2 -> grows s2 s3 -> grows s1 s3.
Proof.
  intros (n1 & E1 & C1 & P1) (n2 & E2 & C2 & P2). exists (n1 ++ n2). rewrite E2, E1, app_assoc. split_and!; [done|auto|].
  intros x c. rewrite fmap_app. intros [H|H]%elem_of_app Hp; eauto.
Qed.

Lemma grows_ask x failed s : (forall c, primary x = Some c -> channel s = Some c) -> grows s (ask answers x failed s).2.
Proof.
  intros H. eexists. split; [reflexivity|]. split; [done|]. intros y c. simpl. intros ->%list_elem_of_singleton. apply H.
Qed.

Lemma grows_quiet s s' : log s' = log s -> channel s' = channel s -> grows s s'.
Proof. intros E C. exists []. rewrite app_nil_r, C. split_and!; [done..|]. by intros x c ?%elem_of_nil. Qed.

Lemma ensure_channel_grows s :
  let '(r, s') := ensure_channel answers s in grows s s' /\ (is_ok r = true -> channel s' <> None).
Proof.
  unfold ensure_channel, look, mbind, M_bind. destruct (channel s) as [c|] eqn:E.
  { split; [apply grows_refl|]. cbn. congruence. }
  pose proof (grows_ask OpenSession ChannelOpenFailed s ltac:(done)) as G.
  unfold channel_open_session, install, look, set_channel, mret, M_ret, mbind, M_bind, ask in *.
  destruct (answers (log s) OpenSession); cbn in *; rewrite E in G |- *; cbn; [by split|].
  split; [|done]. destruct G as (n & En & _ & Hp). exists n. cbn in *. split_and!; [done|congruence|].
  intros x c Hx Hc. specialize (Hp x c Hx Hc). congruence.
Qed.

Lemma on_channel_grows absent x failed s :
  (forall c c', primary (x c) = Some c' -> c' = c) -> grows s (on_channel answers absent x failed s).2.
Proof.
  intros Hx. unfold on_channel. destruct (is_terminal (state s)) eqn:Et.
  { rewrite check_open_terminal by done. apply grows_refl. }
  rewrite check_open_open by done. unfold mbind, M_bind, look.
  pose proof (ensure_channel_grows s) as H. destruct (ensure_channel answers s) as [[[]|e] s1]; [|apply H].
  destruct H as [G _]. destruct (channel s1) as [c|] eqn:Ec; [|exact G].
  eapply grows_trans; [exact G|]. apply grows_ask. intros c' ->%Hx. done.
Qed.

Lemma perform_grows op s : grows s (perform op s).
Proof.
  destruct op; cbn [perform];
    try (apply on_channel_grows; intros c c'; cbn; congruence).
  - unfold start_shell, mbind, M_bind, set_state.
    pose proof (on_channel_grows (ChannelOpenFailed CONNECT_FAILED) (fun c => RequestShell c true) ShellRequestFailed s) as G.
    destruct (on_channel _ _ _ _ _) as [[[]|e] s1]; cbn in *;
      (eapply grows_trans; [apply G; cbn; congruence|by apply grows_quiet]).
  - unfold next_event, wait, look, set_queues, set_state, mbind, M_bind, mret, M_ret.
    destruct (channel s) as [c|] eqn:Ec; [|apply grows_refl].
    destruct (queues s !!! c); apply grows_quiet; cbn; congruence.
  - unfold capture_exec. destruct (is_terminal (state s)) eqn:Et.
    { rewrite check_open_terminal by done. apply grows_refl. }
    rewrite check_open_open by done. pose proof (grows_ask OpenSession ChannelOpenFailed s ltac:(done)) as G0.
    unfold channel_open_session, ask, look, set_queues, mbind, M_bind, mret, M_ret in *.
    destruct (answers (log s) OpenSession); cbn in *; [exact G0|]. clear G0.
    assert (forall a b q, grows s (mk_Session (state s) (channel s) (s_connection s) (s_blobs_connection s) (s_endpoint s)
      (handler s) ((log s ++ [(OpenSession, a)]) ++ [(RequestExec (opened s) true command, b)]) (opened s + 1) q)) as G.
    { intros a b q. exists [(OpenSession, a); (RequestExec (opened s) true command, b)]. cbn. split_and!; [by rewrite <-app_assoc|done|].
      intros x c. rewrite !elem_of_cons. by intros [->|[->|?%elem_of_nil]]. }
    destruct (answers _ (RequestExec _ _ _)); cbn; [apply G|]. destruct (collect_output _ _). apply G.
  - unfold remote_forward. destruct (is_terminal (state s)) eqn:Et.
    { rewrite check_open_terminal by done. apply grows_refl. }
    rewrite check_open_open by done. pose proof (fun f => grows_ask (TcpipForward h p) f s ltac:(done)) as G.
    unfold look, set_handler, mbind, M_bind. unfold ask in *. destruct (answers _ _); cbn in *; [apply (G ChannelOpenFailed)|].
    eapply grows_trans; [apply (G ChannelOpenFailed)|]. by apply grows_quiet.
Qed.

Lemma perform_all_grows ops s : grows s (perform_all ops s).
Proof.
  revert s. induction ops as [|op ops IH]; intros s; [apply grows_refl|].
  eapply grows_trans; [apply perform_grows|apply IH].
Qed.

(** One primary channel. However operations are mixed and fail, everything
    a session asks of its primary channel (terminals, shells, data, ends of
    file, sizes) goes to one and the same channel until it disconnects. *)
Theorem one_primary_channel ops s x y c c' :
  let s' := perform_all ops s in
  x ∈ drop (length (log s)) (log s').*1 -> y ∈ drop (length (log s)) (log s').*1 ->
  primary x = Some c -> primary y = Some c' -> c = c' /\ (forall c0, channel s = Some c0 -> c = c0).
Proof.
  intros s' Hx Hy Hc Hc'. destruct (perform_all_grows ops s) as (new & E & C & P). fold s' in E, C, P.
  rewrite E, fmap_app, drop_app_length' in Hx, Hy by (by rewrite length_fmap).
  pose proof (P _ _ Hx Hc) as H1. pose proof (P _ _ Hy Hc') as H2.
  split; [congruence|]. intros c0 H0. apply C in H0. congruence.
Qed.
End facts.

(** ** Concrete sessions *)

Definition agreeing (l : list (Request * option bytes)) (x : Request) : option bytes := None.

Definition demo_session (st : SessionState) (msgs : list ChannelMsg) : Session bytes :=
  mk_Session st None true true true (client_handler_new [] None Tofu) [] 0 {[ 0%N := msgs ]}.

Lemma ended_session_refuses_witness :
  send agreeing (bs "ls") (demo_session Closed []) = (Err (Unavailable (bs "session is closed")), demo_session Closed []) /\
  exists s', disconnect agreeing (demo_session Closed []) = (Ok tt, s') /\
    (log s').*1 = [CloseConnection; CloseBlobs; CloseEndpoint].
Proof.
  destruct (ended_session_refuses (fun _ => []) agreeing (SJ := bit_json) (ST := demo_texts)
    (demo_session Closed []) ltac:(reflexivity)) as ((_ & _ & _ & _ & H & _) & _ & s' & E & L & _).
  split; [exact (H (bs "ls"))|]. exists s'. split; [exact E|exact L].
Defined.

Lemma one_primary_channel_witness :
  let ops := [OpCapture (bs "id"); OpShell; OpSend (bs "ls"); OpEof] in
  (1 = 1 /\ (forall c0, channel (demo_session Authenticated []) = Some c0 -> 1 = c0))%N.
Proof.
  intros ops.
  apply (one_primary_channel (fun _ => []) agreeing ops (demo_session Authenticated []) (SendData 1 (bs "ls")) (SendEof 1) 1 1);
    [by vm_compute; repeat constructor..|reflexivity|reflexivity].
Defined.

(** A command that the server rejects looks like one that succeeded with
    nothing to say. *)
Lemma rejected_command_succeeds :
  (capture_exec agreeing (bs "no-such-command") (demo_session Authenticated [MFailure; MClose])).1 =
  Ok (mk_ExecOutput [] [] 0).
Proof. reflexivity. Qed.

(** So does one whose connection is lost before it has an exit status. *)
Lemma lost_command_succeeds :
  (capture_exec agreeing (bs "make") (demo_session Authenticated [MData (bs "compiling")])).1 =
  Ok (mk_ExecOutput (bs "compiling") [] 0).
Proof. reflexivity. Qed.
