(* ===== verification/TerminalTrip.v ===== *)
(** * A terminal, from the client's keyboard to the server's child process

    What a client asks for on its session, delivered in order to the handler
    of the server: the child process gets the terminal that was asked for,
    what was typed, and every change of its size. *)

From S2P Require Import Prelude Text Fs StorageUtils Pty Metrics Vault Auth AuthBackends.
From S2P Require Import Handler HandlerFacts.
From S2P Require Import HostKey Connect ClientSession.

(** ** The client's calls *)

Section client.
Context {K : Type}.

(** Typed text, or the window's new size. *)
Abbreviation Input := (bytes + PtySize)%type.

Definition input_call (answers : list (Request * option bytes) -> Request -> option bytes) (i : Input) :
    M (Session K) SessionError unit :=
  match i with inl d => send answers d | inr size => resize answers size end.

Definition terminal_session (answers : list (Request * option bytes) -> Request -> option bytes) (o : PtyOptions)
    (inputs : list Input) : M (Session K) SessionError unit :=
  request_pty answers o;; start_shell answers;; for_each (input_call answers) inputs.

Definition session_new (h : ClientHandler K) : Session K :=
  mk_Session Authenticated None true true true h [] 0 ∅.

Definition input_request (i : Input) : Request :=
  match i with
  | inl d => SendData 0 d
  | inr z => SendWindowChange 0 (cols z) (rows z) (pixel_width z) (pixel_height z)
  end.

Definition pty_request_of (o : PtyOptions) : Request :=
  let z := po_size o in
  RequestPty 0 false (po_term o) (cols z) (rows z) (pixel_width z) (pixel_height z) (po_modes o).

Definition willing (l : list (Request * option bytes)) (x : Request) : option bytes := None.

Lemma on_channel_open absent x failed (s : Session K) c :
  is_terminal (state s) = false -> channel s = Some c ->
  on_channel willing absent x failed s = ask willing (x c) failed s.
Proof.
  intros Ht Hc. unfold on_channel, check_open, ensure_channel, look, mbind, M_bind, mret, M_ret.
  rewrite Ht. cbn. by rewrite Hc, Hc.
Qed.

Lemma inputs_log inputs (s : Session K) :
  is_terminal (state s) = false -> channel s = Some 0%N ->
  exists s', for_each (input_call willing) inputs s = (Ok tt, s') /\
    (log s').*1 = (log s).*1 ++ (input_request <$> inputs) /\ state s' = state s.
Proof.
  revert s. induction inputs as [|i inputs IH]; intros s Ht Hc; [by exists s; cbn; rewrite app_nil_r|].
  cbn [for_each]. unfold mbind, M_bind.
  assert (exists s1, input_call willing i s = (Ok tt, s1) /\ (log s1).*1 = (log s).*1 ++ [input_request i] /\
    state s1 = state s /\ channel s1 = channel s) as (s1 & -> & Hl & Hs & Hch).
  { destruct i as [d|z]; cbn [input_call]; unfold send, resize; rewrite (on_channel_open _ _ _ s 0) by done;
      unfold ask; cbn; eexists; (split; [reflexivity|]); cbn; by rewrite fmap_app. }
  destruct (IH s1) as (s' & -> & Hl' & Hst); [congruence..|]. exists s'. split; [done|].
  split; [by rewrite Hl', Hl, <-app_assoc|congruence].
Qed.

Lemma terminal_session_log (h : ClientHandler K) o inputs :
  exists s, terminal_session willing o inputs (session_new h) = (Ok tt, s) /\
    state s = ShellReady /\
    (log s).*1 = [OpenSession; pty_request_of o; RequestShell 0 true] ++ (input_request <$> inputs).
Proof.
  unfold terminal_session.
  set (s1 := mk_Session Authenticated (Some 0%N) true true true h
    [(OpenSession, None); (pty_request_of o, None)] 1 ∅ : Session K).
  assert (request_pty willing o (session_new h) = (Ok tt, s1)) as E1 by reflexivity.
  set (s2 := mk_Session ShellReady (Some 0%N) true true true h
    [(OpenSession, None); (pty_request_of o, None); (RequestShell 0 true, None)] 1 ∅ : Session K).
  assert (start_shell willing s1 = (Ok tt, s2)) as E2 by reflexivity.
  unfold mbind, M_bind. rewrite E1, E2. destruct (inputs_log inputs s2) as (s & -> & Hl & Hst); [done..|].
  exists s. split; [done|]. split; [by rewrite Hst|]. by rewrite Hl.
Qed.
End client.

(** ** The server's end *)

Section server.
Context {S K : Type} {AU : Authenticator S K}.
Variable default_size : PtySize.
Variables (now : N) (spawn : Spawn).

(** What the SSH connection makes of the client's requests; the channels are
    numbered in the order in which they are opened. *)
Fixpoint deliver (n : N) (l : list Request) : list (Event K) :=
  match l with
  | [] => []
  | OpenSession :: l => Handler.OpenSession n :: deliver (n + 1) l
  | x :: l =>
      match x with
      | RequestPty c _ t co r w p modes => [PtyRequest c t co r w p modes true]
      | RequestShell c _ => [ShellRequest c now spawn]
      | RequestExec c _ command => [ExecRequest c now command spawn]
      | SendData c d => [Data c now d true true]
      | SendEof c => [ChannelEof c]
      | SendWindowChange c co r w p => [WindowChange c co r w p true]
      | CloseChannel c => [ChannelClose c]
      | _ => []
      end ++ deliver n l
  end.

(** The child 0 on the terminal of channel 0. *)
Record serves (h : Handler S) (st : ChannelState) (p : RunningPty) (child : Child) : Prop := {
  sv_channel : channels h !! 0%N = Some st;
  sv_process : process st = Some p;
  sv_terminal : master p = Some 0 /\ pty_tx p = Some 0 /\ server_echo p = false;
  sv_child : ptys h = {[ 0 := child ]};
  sv_plain : 0%N ∉ streamed_channels h;
}.

Definition after_input (i : bytes + PtySize) (c : Child) : Child :=
  match i with
  | inl d => child_input d c
  | inr z => child_resize (pty_size (cols z) (rows z) (pixel_width z) (pixel_height z)) c
  end.

Lemma serves_input h st p child i :
  serves h st p child ->
  exists h' st', exec_all default_size (deliver 1 [input_request i]) h = Some h' /\ serves h' st' p (after_input i child) /\
    shell_pid h' = shell_pid h.
Proof.
  intros [H1 H2 (H3 & H4 & H5) H6 H7]. destruct i as [d|z]; cbn [input_request deliver app exec_all Handler.exec].
  - eexists _, st. split; [reflexivity|]. unfold data. rewrite decide_False by done.
    set (h1 := mark_channel_active 0 now h).
    assert (channels h1 = channels h /\ ptys h1 = ptys h /\ streamed_channels h1 = streamed_channels h /\ shell_pid h1 = shell_pid h)
      as (Ec & Ep & Es & Esh) by (unfold h1, mark_channel_active; by case_match).
    unfold write_channel_data. rewrite Ec, H1. cbn. rewrite H2. cbn. rewrite H4.
    unfold channel_server_echo. cbn. rewrite Ec, H1. cbn. rewrite H2, H5.
    split; [|by cbn]. split; cbn; [by rewrite Ec|done|done| |by rewrite Es].
    by rewrite Ep, H6, alter_singleton.
  - unfold resize_channel, asks, modify, reply, ensure, mbind, M_bind, mret, M_ret. rewrite H1. cbn. rewrite H2. cbn. rewrite H3.
    eexists _, (mk_ChannelState _ (env st) (Some p)). split; [reflexivity|].
    split; [|done]. split; cbn; [by rewrite lookup_insert_eq|done|done| |done].
    by rewrite H6, alter_singleton.
Qed.

Lemma deliver_inputs n l : deliver n (input_request <$> l) = l ≫= fun i => deliver 1 [input_request i].
Proof. induction l as [|[d|z] l IH]; cbn; [done|by rewrite IH..]. Qed.

Lemma exec_all_app es es' (h : Handler S) :
  exec_all default_size (es ++ es') h = exec_all default_size es h ≫= exec_all default_size es'.
Proof. revert h. induction es as [|e es IH]; intros h; [done|]. cbn. destruct (Handler.exec default_size e h); [apply IH|done]. Qed.

Lemma serves_inputs l h st p child :
  serves h st p child ->
  exists h' st', exec_all default_size (deliver 1 (input_request <$> l)) h = Some h' /\
    serves h' st' p (foldl (fun c i => after_input i c) child l) /\ shell_pid h' = shell_pid h.
Proof.
  revert h st child. induction l as [|i l IH]; intros h st child Hs; [by exists h, st|].
  destruct (serves_input h st p child i Hs) as (h1 & st1 & E1 & Hs1 & Hp1).
  destruct (IH h1 st1 _ Hs1) as (h2 & st2 & E2 & Hs2 & Hp2). exists h2, st2. split_and!; [|exact Hs2|congruence].
  rewrite deliver_inputs in E2 |- *. cbn [mbind list_bind]. rewrite exec_all_app, E1. exact E2.
Qed.

Lemma deliver_session o inputs :
  deliver 0 ([OpenSession; pty_request_of o; RequestShell 0 true] ++ (input_request <$> inputs)) =
  deliver 0 [OpenSession; pty_request_of o; RequestShell 0 true] ++ deliver 1 (input_request <$> inputs).
Proof. done. Qed.

(** The last size that was given, and all that was typed. *)
Definition last_size (z : PtySize) (l : list (bytes + PtySize)) : PtySize :=
  foldl (fun z i => match i with inl _ => z | inr z' => z' end) z l.
Definition typed (l : list (bytes + PtySize)) : list bytes :=
  omap (fun i => match i with inl d => Some d | inr _ => None end) l.

Definition fits_u16 (z : PtySize) : Prop :=
  (1 <= rows z <= U16_MAX)%N /\ (1 <= cols z <= U16_MAX)%N /\ (pixel_width z <= U16_MAX)%N /\ (pixel_height z <= U16_MAX)%N.

Lemma pty_size_kept z : fits_u16 z -> pty_size (cols z) (rows z) (pixel_width z) (pixel_height z) = z.
Proof.
  intros (H1 & H2 & H3 & H4). unfold pty_size. destruct z as [r c w h]. cbn in *.
  rewrite !clamp_id, !as_u16_id by lia. done.
Qed.

Lemma inputs_child l child :
  Forall (fun i => match i with inl _ => True | inr z => fits_u16 z end) l ->
  foldl (fun c i => after_input i c) child l =
  mk_Child (ch_channel child) (ch_pid child) (ch_command child) (last_size (ch_size child) l)
    (ch_input child ++ typed l) (ch_cancelled child) (ch_killed child) (ch_exit child) (ch_reader child).
Proof.
  intros Hl. revert child. induction Hl as [|i l Hi Hl IH]; intros child; [by destruct child; cbn; rewrite app_nil_r|].
  cbn [foldl]. rewrite IH. destruct i as [d|z]; cbn; [by rewrite <-app_assoc|]. by rewrite pty_size_kept.
Qed.
End server.

(** C8: A terminal session end to end. A client asks for a terminal, starts a
    shell, types and resizes, and the library and the operating system do what
    they are asked. Then every call succeeds, and once the server has handled
    the requests one child process runs the default shell on a terminal of the
    type asked for; its size is the last one the client gave, and it has
    received exactly what was typed, in order. It is the process that the
    transfers of the connection take their context from. *)
Theorem terminal_reaches_child {S K : Type} {AU : Authenticator S K} default_size now pid o inputs
    (ch : ClientHandler K) (a : S) metrics gate timeout :
  fits_u16 (po_size o) -> Forall (fun i => match i with inl _ => True | inr z => fits_u16 z end) inputs ->
  exists s h, terminal_session willing o inputs (session_new ch) = (Ok tt, s) /\ state s = ShellReady /\
    exec_all default_size (deliver now (started pid) 0 (log s).*1) (handler_new a metrics gate timeout) = Some h /\
    shell_pid h = Some pid /\
    ptys h = {[ 0 := mk_Child 0 (Some pid) (mk_CommandBuilder [] {[ bs "TERM" := po_term o ]}) (last_size (po_size o) inputs)
                       (typed inputs) false false None Reading ]}.
Proof.
  intros Ho Hi. destruct (terminal_session_log ch o inputs) as (s & E & Hst & Hlog). exists s. rewrite Hlog.
  set (spec := mk_PtySpec (po_term o) (po_size o) (negb (existsb (fun x => (x.1 =? ECHO)%N && (x.2 =? 0)%N) (po_modes o)))).
  set (p := mk_RunningPty (Some 0) (Some 0) 0 (Some pid) (Some pid) 0 false).
  set (child := mk_Child 0 (Some pid) (mk_CommandBuilder [] {[ bs "TERM" := po_term o ]}) (po_size o) [] false false None Reading).
  assert (exists h, exec_all default_size (deliver now (started pid) 0 [OpenSession; pty_request_of o; RequestShell 0 true])
      (handler_new a metrics gate timeout) = Some h /\ serves h (mk_ChannelState spec ∅ (Some p)) p child /\
      shell_pid h = Some pid) as (h & Eh & Hs & Hp).
  { cbn [deliver pty_request_of app exec_all Handler.exec]. eexists. split; [reflexivity|].
    unfold pty_request. rewrite (pty_size_kept (po_size o)) by done. fold (po_size o).
    unfold Handler.channel_open_session, set_channel_pty, shell_request, start_command, attach_child, or_default, asks, modify,
      reply, ensure, mbind, M_bind, mret, M_ret, handler_new.
    do 8 (cbn; rewrite ?lookup_empty, ?lookup_insert_eq).
    unfold mark_channel_active, ensure_reaper, with_child, child_command. cbn [env pty term]. rewrite map_fold_empty.
    repeat case_match; cbn; rewrite ?alter_insert_eq; (split; [|done]); split; cbn; try done;
      try (by rewrite lookup_insert_eq); try set_solver. }
  destruct (serves_inputs default_size now (started pid) inputs h _ p child Hs) as (h' & st' & Eh' & Hs' & Hp').
  exists h'. split; [exact E|]. split; [exact Hst|]. split; [|split; [congruence|]].
  - rewrite deliver_session, exec_all_app, Eh. exact Eh'.
  - rewrite (sv_child _ _ _ _ Hs'). by rewrite inputs_child.
Qed.

Definition demo_options : PtyOptions := mk_PtyOptions (bs "xterm") (mk_PtySize 24 80 0 0) [(ECHO, 1%N)].
Definition demo_inputs : list (bytes + PtySize) :=
  [inl (bs "ls"); inr (mk_PtySize 50 132 0 0); inl [CR]].

Lemma terminal_reaches_child_witness :
  exists s h, terminal_session willing demo_options demo_inputs (session_new (client_handler_new (K := bytes) [] None Tofu)) = (Ok tt, s) /\
    state s = ShellReady /\
    exec_all (AU := demo_auth) demo_size (deliver 5 (started 70) 0 (log s).*1) demo_handler = Some h /\ shell_pid h = Some 70%N /\
    ptys h = {[ 0 := mk_Child 0 (Some 70%N) (mk_CommandBuilder [] {[ bs "TERM" := bs "xterm" ]}) (mk_PtySize 50 132 0 0)
                       [bs "ls"; [CR]] false false None Reading ]}.
Proof.
  apply (terminal_reaches_child (AU := demo_auth) demo_size 5 70 demo_options demo_inputs
    (client_handler_new [] None Tofu) (password_auth_new (bs "pw")) metrics_new (Some false) 1000).
  - unfold fits_u16, U16_MAX. simpl. lia.
  - repeat constructor; unfold U16_MAX; simpl; lia.
Defined.
