(* ===== verification/Ipc.v ===== *)
(** * Control of the daemon: [src/server/ipc.rs], [src/client/ipc.rs]

    A command is one JSON value over a local socket, answered by one JSON
    value. [handle_request] is the server's half before it hands the command
    to the control loop of [ServerLoop.v], [response_of] the half after it;
    [send] is the client. The Unix build is modelled: commands carry no token. *)

From S2P Require Import Prelude Text Stream TransferTypes ShellOps Fs Config ServerLoop.

(** ** Where the socket is *)

Definition MAX_SOCKET_PATH_LEN : N := 100.

Section socket.
Variables (temp_dir : path) (user : option bytes).   (** [std::env::temp_dir()], [$USER] *)
Variable hash : path -> N.                            (** [DefaultHasher], a [u64] *)

Definition socket_path (state_dir : path) : path :=
  let candidate := bs "irosh.sock" :: state_dir in
  if (blen (os_str candidate) <=? MAX_SOCKET_PATH_LEN)%N then candidate
  else
    let user := default (bs "unknown") user in
    (bs "irosh-" ++ hex_pad 16 (hash candidate) ++ bs ".sock") :: (bs "irosh-ipc-" ++ user) :: temp_dir.

(** [IpcServer::run] up to [bind]: failures are logged, and ignored. *)
Definition prepare_socket (p : path) : M fs io_error unit :=
  (if bool_decide (temp_dir `suffix_of` p) then
     match parent p with
     | Some dir => ignore (E := io_error) (create_dir_all dir);; ignore (E := io_error) (set_permissions dir 448)
     | None => mret tt
     end
   else mret tt);;
  e ← path_exists p;
  if (e : bool) then ignore (E := io_error) (remove_file p) else mret tt.
End socket.

(** ** Messages *)

Inductive IpcCommand : Type :=
| CmdEnableWormhole (code : bytes) (password : option bytes) (persistent : bool)
| CmdDisableWormhole
| CmdGetStatus
| CmdShutdown.

(** The serde representation of the messages, as far as it matters here: their
    values, apart. *)
Definition command_code (c : IpcCommand) : bytes * option bytes * bool + nat :=
  match c with
  | CmdEnableWormhole code password persistent => inl (code, password, persistent)
  | CmdDisableWormhole => inr 0
  | CmdGetStatus => inr 1
  | CmdShutdown => inr 2
  end.
Definition command_decode (c : bytes * option bytes * bool + nat) : IpcCommand :=
  match c with
  | inl (code, password, persistent) => CmdEnableWormhole code password persistent
  | inr 0 => CmdDisableWormhole
  | inr 1 => CmdGetStatus
  | inr _ => CmdShutdown
  end.

#[export] Instance IpcCommand_payload : Payload IpcCommand.
Proof. refine (tuple_payload command_code command_decode _). by intros []. Defined.

Definition session_code (s : SessionStatus) : bytes * bytes * N * N :=
  (status_peer s, status_started s, status_sent s, status_received s).
Definition session_decode (x : bytes * bytes * N * N) : SessionStatus :=
  let '(p, t, a, b) := x in mk_SessionStatus p t a b.

Definition daemon_code (s : DaemonStatus) : bytes * bytes * bool * option bytes * N * list (bytes * bytes * N * N) :=
  (ds_endpoint_id s, ds_ticket s, ds_wormhole_active s, code <$> ds_wormhole_code s, ds_active_sessions s,
   session_code <$> ds_sessions s).
Definition daemon_decode (x : bytes * bytes * bool * option bytes * N * list (bytes * bytes * N * N)) : DaemonStatus :=
  let '(e, t, a, w, n, l) := x in mk_DaemonStatus e t a (mk_WormholeCode <$> w) n (session_decode <$> l).

Definition response_code (r : IpcResponse) :
    unit + bytes + bytes * bytes * bool * option bytes * N * list (bytes * bytes * N * N) :=
  match r with
  | ResponseOk => inl (inl tt)
  | ResponseError e => inl (inr e)
  | ResponseStatus s => inr (daemon_code s)
  end.
Definition response_decode (x : unit + bytes + bytes * bytes * bool * option bytes * N * list (bytes * bytes * N * N)) :
    IpcResponse :=
  match x with
  | inl (inl _) => ResponseOk
  | inl (inr e) => ResponseError e
  | inr s => ResponseStatus (daemon_decode s)
  end.

Lemma response_decode_code r : response_decode (response_code r) = r.
Proof.
  destruct r as [|e|[e t a w n l]]; [done|done|]. cbn. do 2 f_equal.
  - by destruct w as [[]|].
  - rewrite <-list_fmap_compose. induction l as [|[] l IH]; [done|]. cbn. by f_equal.
Qed.

#[export] Instance IpcResponse_payload : Payload IpcResponse := tuple_payload response_code response_decode response_decode_code.

(** ** The server *)

Inductive IpcError : Type := Timeout | Serialization (e : json_error).

Definition IPC_LIMIT : N := 1024 * 64.

(** [read_to_end] of the first [IPC_LIMIT] bytes, within 30 seconds: of a
    client that does not close its side the read only ends at the limit. *)
Definition read_request (data : bytes) (closed : bool) : result IpcError bytes :=
  if closed || (IPC_LIMIT <=? blen data)%N then Ok (take (N.to_nat IPC_LIMIT) data) else Err Timeout.

Definition internal_command (c : IpcCommand) (tx : nat) : InternalCommand :=
  match c with
  | CmdEnableWormhole code password persistent => EnableWormhole code password persistent (Some tx)
  | CmdDisableWormhole => DisableWormhole (Some tx)
  | CmdGetStatus => GetStatus (Some tx)
  | CmdShutdown => Shutdown (Some tx)
  end.

Section ipc.
Context {SJ : SerdeJson}.

Definition handle_request (data : bytes) (closed : bool) (tx : nat) : result IpcError InternalCommand :=
  match read_request data closed with
  | Err e => Err e
  | Ok buf =>
      match from_slice buf with
      | Ok command => Ok (internal_command command tx)
      | Err e => Err (Serialization e)
      end
  end.

(** What comes of the command within 10 seconds. *)
Inductive Reply : Type :=
| NotSent                     (** the control channel is closed *)
| Replied (r : IpcResponse)
| ReplyDropped
| ReplyTimeout.

Definition response_of (r : Reply) : IpcResponse :=
  match r with
  | NotSent => ResponseError (bs "Server control channel closed")
  | Replied r => r
  | ReplyDropped => ResponseError (bs "Server failed to provide a response")
  | ReplyTimeout => ResponseError (bs "IPC command timed out")
  end.

(** The whole handler: the bytes it writes, given what the loop does. *)
Definition handle_ipc_connection (data : bytes) (closed : bool) (tx : nat)
    (loop : InternalCommand -> Server -> option (Reply * Server)) (s : Server) :
    option (result IpcError bytes * Server) :=
  match handle_request data closed tx with
  | Err e => Some (Err e, s)
  | Ok command =>
      '(r, s') ← loop command s;
      Some (map_err Serialization (to_vec (response_of r)), s')
  end.

(** ** The client *)

(** [IpcClient::send] on a connected socket: it closes its side and reads to
    the end; a handler that fails has written nothing. *)
Definition send (c : IpcCommand) (tx : nat) (loop : InternalCommand -> Server -> option (Reply * Server)) (s : Server) :
    option (result json_error IpcResponse * Server) :=
  match to_vec c with
  | Err e => Some (Err e, s)
  | Ok payload =>
      '(written, s') ← handle_ipc_connection payload true tx loop s;
      Some (from_slice (match written with Ok b => b | Err _ => [] end), s')
  end.

Definition reply_of (tx : nat) (s : Server) : Reply :=
  match list_find (fun x => x.1 = tx) (replies s) with Some (_, (_, r)) => Replied r | None => ReplyTimeout end.

(** The loop when it is waiting and nothing else happens: it takes the command
    at once, and has answered or is stuck. *)
Definition waiting_loop (endpoint_id ticket : bytes) (ipc_enabled on_success : bool) (tx : nat) (command : InternalCommand) (s : Server) :
    option (Reply * Server) :=
  s' ← exec_all endpoint_id ticket ipc_enabled on_success [SendControl command; ArmControl] s;
  Some (reply_of tx s', s').

Lemma waiting_loop_step endpoint_id ticket ipc_enabled on_success tx command s :
  phase s = Select -> control_queue s = [] ->
  waiting_loop endpoint_id ticket ipc_enabled on_success tx command s =
  let s' := control_arm endpoint_id ticket command
              (with_queues s (shutdown_queue s) [] (success_queue s) (failure_queue s)) in
  Some (reply_of tx s', s').
Proof. destruct s. cbn. by intros -> ->. Qed.

(** ** A command from the terminal to the loop and back *)

Definition takes_effect (endpoint_id ticket : bytes) (c : IpcCommand) (s : Server) (r : IpcResponse) (s' : Server) : Prop :=
  match c with
  | CmdEnableWormhole code password persistent => r = ResponseOk /\
      exists task expiry, wormhole s' = Some (mk_ActiveWormhole code password persistent task expiry) /\
        tasks s' !! task = Some (Broadcast code) /\ tasks s' !! expiry = Some Expiry
  | CmdDisableWormhole => r = ResponseOk /\ wormhole s' = None
  | CmdGetStatus => r = ResponseStatus (status endpoint_id ticket s) /\ wormhole s' = wormhole s /\ tasks s' = tasks s
  | CmdShutdown => shutdown_requested s' = true /\
      r = (if ipc_receiver s && ipc_buffered s then ResponseError (bs "IPC command timed out") else ResponseOk)
  end.

Lemma find_new (tx : nat) (l : list (nat * IpcResponse)) r :
  tx ∉ l.*1 -> list_find (fun x => x.1 = tx) (l ++ [(tx, r)]) = Some (length l, (tx, r)).
Proof.
  intros H. induction l as [|[n r'] l IH]; cbn; [by rewrite decide_True|].
  cbn in H. apply not_elem_of_cons in H as [H1 H2]. rewrite decide_False by congruence. by rewrite IH.
Qed.

Lemma find_absent (tx : nat) (l : list (nat * IpcResponse)) :
  tx ∉ l.*1 -> list_find (fun x => x.1 = tx) l = None.
Proof.
  intros H. induction l as [|[n r'] l IH]; cbn; [done|].
  cbn in H. apply not_elem_of_cons in H as [H1 H2]. rewrite decide_False by congruence. by rewrite IH.
Qed.

Lemma take_wormhole_replies s : replies (take_wormhole s) = replies s.
Proof. unfold take_wormhole. by destruct (wormhole s). Qed.

Lemma take_wormhole_empties s : wormhole (take_wormhole s) = None.
Proof. unfold take_wormhole. by destruct (wormhole s) eqn:E. Qed.

Lemma control_arm_effect endpoint_id ticket c tx s :
  tx ∉ (replies s).*1 ->
  let s' := control_arm endpoint_id ticket (internal_command c tx) s in
  takes_effect endpoint_id ticket c s
    (response_of (reply_of tx s')) s'.
Proof.
  intros Htx. unfold reply_of. destruct c as [code password persistent| | |]; cbn [internal_command control_arm].
  - unfold enable_wormhole. destruct (spawn (Broadcast code) (take_wormhole s)) as [task s1] eqn:E1.
    destruct (spawn Expiry s1) as [expiry s2] eqn:E2. unfold spawn in E1, E2. injection E1 as <- <-. injection E2 as <- <-.
    cbn. rewrite take_wormhole_replies, find_new by done. cbn. split; [done|]. eexists _, _. split; [done|].
    rewrite lookup_insert_ne, !lookup_insert_eq by lia. done.
  - cbn. rewrite take_wormhole_replies, find_new by done. cbn. split; [done|]. apply take_wormhole_empties.
  - cbn. by rewrite find_new.
  - unfold ipc_shutdown. cbn. destruct (ipc_receiver s) eqn:Er; cbn; [destruct (ipc_buffered s) eqn:Eb; cbn|].
    + by rewrite find_absent.
    + by rewrite find_new.
    + by rewrite find_new.
Qed.
End ipc.

(** C20: A command of the CLI takes effect, end to end. When the daemon's loop
    is waiting, a command that fits the limit is decoded by the server as the
    client encoded it, carried out by one turn of the loop, and the client
    decodes the server's answer: a wormhole is announced with exactly the
    given code, password and persistence, or gone, or the status is the one of
    that moment, or the shutdown is under way. The one command that is not
    answered in time is a shutdown behind another one. *)
Theorem ipc_command_takes_effect {SJ : SerdeJson} {SL : SerdeJsonLaws} endpoint_id ticket ipc_enabled on_success c tx s payload :
  phase s = Select -> control_queue s = [] -> tx ∉ (replies s).*1 ->
  to_vec c = Ok payload -> (blen payload <= IPC_LIMIT)%N ->
  (forall r : IpcResponse, is_ok (to_vec r) = true) ->
  exists r s', send c tx (waiting_loop endpoint_id ticket ipc_enabled on_success tx) s = Some (Ok r, s') /\
    takes_effect endpoint_id ticket c s r s'.
Proof.
  intros Hp Hq Htx Hc Hl Hr. unfold send, handle_ipc_connection, handle_request, read_request. rewrite Hc. cbn [orb].
  rewrite take_ge by (unfold blen, IPC_LIMIT in *; lia). rewrite (from_slice_to_vec _ _ _ _ Hc).
  rewrite waiting_loop_step by done.
  pose proof (control_arm_effect endpoint_id ticket c tx (with_queues s (shutdown_queue s) [] (success_queue s) (failure_queue s)) Htx) as He.
  cbv zeta in He. set (s1 := control_arm _ _ _ _) in *.
  specialize (Hr (response_of (reply_of tx s1))). unfold mbind, option_bind.
  destruct (to_vec (response_of (reply_of tx s1))) as [b|] eqn:Eb; [|done].
  exists (response_of (reply_of tx s1)), s1. split; [cbn [map_err]; by rewrite (from_slice_to_vec _ _ _ _ Eb)|].
  destruct c; exact He.
Qed.

(** A client that never finishes its request does not keep the handler:
    whatever it sent below the limit, the handler gives up with a timeout and
    the server is as it was; a request that is no command changes nothing
    either. *)
Theorem bad_requests_change_nothing {SJ : SerdeJson} data closed tx loop s :
  match handle_request data closed tx with
  | Ok _ => closed = true \/ (IPC_LIMIT <= blen data)%N
  | Err e => handle_ipc_connection data closed tx loop s = Some (Err e, s) /\
      (closed = false -> (blen data < IPC_LIMIT)%N -> e = Timeout)
  end.
Proof.
  unfold handle_ipc_connection. destruct (handle_request data closed tx) as [c|e] eqn:E.
  - revert E. unfold handle_request, read_request. destruct closed; [by left|]. cbn.
    destruct (N.leb_spec IPC_LIMIT (blen data)); [by right|done].
  - split; [done|]. intros -> Hl. revert E. unfold handle_request, read_request. cbn.
    destruct (N.leb_spec IPC_LIMIT (blen data)); [lia|]. by intros [= <-].
Qed.

(** The socket's path fits [sun_path] when the state directory is short,
    and otherwise lies in the directory of the user below the temporary
    directory, 39 characters longer than the names of these two: only a long
    user name or temporary directory can exceed the limit. *)
Theorem socket_path_length temp_dir user hash state_dir :
  let p := socket_path temp_dir user hash state_dir in
  (blen (os_str p) <= MAX_SOCKET_PATH_LEN)%N \/
  (p = [bs "irosh-" ++ hex_pad 16 (hash (bs "irosh.sock" :: state_dir)) ++ bs ".sock"; bs "irosh-ipc-" ++ default (bs "unknown") user] ++ temp_dir /\
   blen (os_str p) = (39 + blen (default (bs "unknown") user) + blen (if decide (temp_dir = []) then [] else os_str temp_dir))%N).
Proof.
  cbv zeta. unfold socket_path. destruct (N.leb_spec (blen (os_str (bs "irosh.sock" :: state_dir))) MAX_SOCKET_PATH_LEN) as [H|H]; [by left|].
  right. split; [done|]. unfold os_str. rewrite !reverse_cons, <-app_assoc, bind_app. cbn [app mbind list_bind].
  unfold blen. repeat (rewrite ?length_app; cbn [length]). rewrite hex_pad_length. change (length (bs "irosh-ipc-")) with 10.
  change (length (bs "irosh-")) with 6. change (length (bs ".sock")) with 5.
  case_decide as Ht.
  - rewrite Ht. cbn. lia.
  - destruct temp_dir; [done|]. lia.
Qed.

(** ** Concrete calls *)

Definition idle_server : Server := with_phase server_new Select.

Lemma ipc_command_takes_effect_witness :
  exists r s', @send bit_json CmdDisableWormhole 7 (waiting_loop [] [] true false 7) idle_server = Some (Ok r, s') /\
    takes_effect [] [] CmdDisableWormhole idle_server r s'.
Proof.
  eapply (@ipc_command_takes_effect bit_json bit_json_laws [] [] true false CmdDisableWormhole 7 idle_server).
  - reflexivity.
  - reflexivity.
  - by intros ?%elem_of_nil.
  - vm_compute. reflexivity.
  - vm_compute. discriminate.
  - intros r. reflexivity.
Defined.
