(* ===== verification/LocalPaths.v ===== *)
(** * Local and remote paths of the terminal client: [cli/src/commands/connect/transfer.rs]

    What the arguments of [put], [get], [lcd] and [lls] mean. A [PathBuf] is
    its text here, since trailing separators matter to this code; the
    components of a path are those of Paths.v. The local disk, as far as these
    functions look at it, and the home directory are arguments. *)

From S2P Require Import Prelude Text Fs TransferTypes Paths.

(** ** [std::path], on the text of a Unix path *)

(** [PathBuf::push] *)
Definition push_str (base raw : bytes) : bytes :=
  if is_absolute raw then raw
  else match list.last base with
       | Some c => base ++ (if decide (c = "/"%char) then [] else bs "/") ++ raw
       | None => raw
       end.

(** What [components] does not take for part of the body: the root, or a
    leading [.]. *)
Definition starts_cur_dir (raw : bytes) : bool :=
  bool_decide (head (split_on "/"%char raw) = Some (bs ".")).

Definition body_start (raw : bytes) : nat :=
  if is_absolute raw || starts_cur_dir raw then 1 else 0.

(** [Components::trim_right], on the segments of the body, last first *)
Fixpoint trim_right (segments : list bytes) : list bytes :=
  match segments with
  | c :: rest => if decide (c = [] \/ c = bs ".") then trim_right rest else segments
  | [] => []
  end.

(** [next_back] in the body, and [as_path] of what is left. *)
Definition last_component (raw : bytes) : option (bytes * bytes) :=
  match trim_right (reverse (split_on "/"%char (drop (body_start raw) raw))) with
  | c :: rest =>
      Some (c, take (body_start raw) raw ++ join_with (bs "/") (reverse (trim_right rest)))
  | [] => None
  end.

Definition file_name_str (raw : bytes) : option bytes :=
  match last_component raw with
  | Some (c, _) => if decide (c = bs "..") then None else Some c
  | None => None
  end.

Definition parent_str (raw : bytes) : option bytes :=
  match last_component raw with
  | Some (_, p) => Some p
  | None => if starts_cur_dir raw then Some [] else None
  end.

(** ** What the disk answers *)

Record LocalDisk : Type := mk_LocalDisk {
  exists_at : bytes -> bool;
  dir_at : bytes -> bool;
  entries_at : bytes -> option (list (bytes * bool));   (** names, and whether they are directories *)
}.

(** ** Local paths *)

Definition strip_tilde_slash (raw : bytes) : option bytes :=
  match raw with
  | "~"%char :: "/"%char :: rest => Some rest
  | _ => None
  end.

Section local.
Variable home : option bytes.   (** [dirs::home_dir()] *)

Definition resolve_local_input_path (base raw : bytes) : bytes :=
  if is_absolute raw then raw else
  match strip_tilde_slash raw, home with
  | Some rest, Some home => push_str home rest
  | Some _, None => push_str base raw
  | None, Some home => if decide (raw = bs "~") then home else push_str base raw
  | None, None => push_str base raw
  end.

(** [Path::file_stem] and [Path::extension]; a stem that is missing is
    replaced by [download]. *)
Definition stem_of (p : bytes) : bytes :=
  match file_name_str p with Some name => file_stem name | None => bs "download" end.
Definition ext_of (p : bytes) : option bytes :=
  match file_name_str p with Some name => extension name | None => None end.

Definition candidate_name (stem : bytes) (ext : option bytes) (index : N) : bytes :=
  stem ++ bs " (" ++ decimal index ++ bs ")" ++
  match ext with Some ext => bs "." ++ ext | None => [] end.

Definition candidate (p : bytes) (index : N) : bytes :=
  push_str (default [] (parent_str p)) (candidate_name (stem_of p) (ext_of p) index).

Fixpoint first_free (exists_ : bytes -> bool) (p : bytes) (tries : nat) (index : N) : option bytes :=
  match tries with
  | O => None
  | S tries =>
      if exists_ (candidate p index) then first_free exists_ p tries (index + 1)
      else Some (candidate p index)
  end.

Definition RENAME_LIMIT : N := 1000000.

Definition auto_rename_download_target (exists_ : bytes -> bool) (p : bytes) : bytes :=
  if exists_ p then default p (first_free exists_ p (N.to_nat RENAME_LIMIT) 1) else p.

Record TransferContext : Type := mk_TransferContext { local_root : bytes }.

(** [TransferContext::new], given [std::env::current_dir()] *)
Definition transfer_context_new (current_dir : option bytes) : TransferContext :=
  mk_TransferContext (default (bs ".") current_dir).

Definition resolve_local_source (ctx : TransferContext) (raw : bytes) : bytes :=
  resolve_local_input_path (local_root ctx) raw.

Definition explicit_dir (raw : bytes) : bool := ends_with raw (bs "/") || ends_with raw (bs "\").
Definition current_dir_name (raw : bytes) : bool := bool_decide (raw = bs "." \/ raw = bs "./").

Definition resolve_local_target (disk : LocalDisk) (ctx : TransferContext) (raw : option bytes)
    (fallback_name : bytes) : bytes :=
  match raw with
  | None => push_str (local_root ctx) fallback_name
  | Some raw =>
      if current_dir_name raw then push_str (local_root ctx) fallback_name else
      let p := resolve_local_input_path (local_root ctx) raw in
      if explicit_dir raw || dir_at disk p
      then auto_rename_download_target (exists_at disk) (push_str p fallback_name)
      else p
  end.
End local.

(** ** Remote paths *)

(** The closure [remote_join] *)
Definition remote_join (windows : bool) (base parts : bytes) : bytes :=
  let base_s := utf8_lossy base in
  let sep := if windows then "\"%char else "/"%char in
  let other_sep := if windows then "/"%char else "\"%char in
  base_s ++ (if ends_with base_s [sep] || ends_with base_s [other_sep] then [] else [sep])
  ++ trim_start_char sep (replace_chars [other_sep] [sep] parts).

Inductive RemotePathError (E : Type) : Type :=
| CwdFailed (e : E)        (** [remote_cwd] failed *)
| CwdTimedOut              (** or did not answer in 30 seconds *)
| MissingFallback.
Arguments CwdFailed {E} e.
Arguments CwdTimedOut {E}.
Arguments MissingFallback {E}.

Section remote.
Context {E : Type}.
(** The answer of [session.remote_cwd()]; [None] when none comes. Two of the
    three calls have no deadline: [resolve_remote_path] then returns nothing. *)
Variable cwd_answer : option (result E bytes).

Definition await_cwd : option (result (RemotePathError E) bytes) :=
  match cwd_answer with
  | Some r => Some (map_err CwdFailed r)
  | None => None
  end.

Definition cwd_or_timeout : result (RemotePathError E) bytes := default (Err CwdTimedOut) await_cwd.

Definition resolve_remote_path (windows : bool) (raw fallback_name : option bytes) :
    option (result (RemotePathError E) bytes) :=
  match raw with
  | None =>
      (fun r => cwd ← r;
                match fallback_name with
                | Some fallback => Ok (push_str cwd fallback)
                | None => Err MissingFallback
                end) <$> await_cwd
  | Some raw =>
      if current_dir_name raw then
        (fun r => cwd ← r;
                  Ok match fallback_name with Some fallback => push_str cwd fallback | None => cwd end)
        <$> await_cwd
      else if is_absolute raw then Some (Ok raw)
      else if decide (raw = bs "~") then
        Some (Ok match fallback_name with Some fallback => push_str raw fallback | None => raw end)
      else match strip_tilde_slash raw with
      | Some home_relative =>
          Some (Ok match fallback_name with
                   | Some fallback =>
                       if ends_with raw (bs "/")
                       then push_str (push_str (bs "~/") home_relative) fallback else raw
                   | None => raw
                   end)
      | None =>
          Some (cwd ← cwd_or_timeout;
                Ok match fallback_name with
                   | Some fallback =>
                       if explicit_dir raw
                       then remote_join windows (remote_join windows cwd raw) fallback
                       else remote_join windows cwd raw
                   | None => remote_join windows cwd raw
                   end)
      end
  end.

Definition resolve_remote_source_path (windows : bool) (raw : bytes) :=
  resolve_remote_path windows (Some raw) None.
Definition resolve_remote_target_path (windows : bool) (raw : option bytes) (fallback_name : bytes) :=
  resolve_remote_path windows raw (Some fallback_name).
End remote.

(** [str::rfind] *)
Fixpoint rfind (c : ascii) (s : bytes) : option nat :=
  match s with
  | [] => None
  | d :: r =>
      match rfind c r with
      | Some i => Some (S i)
      | None => if decide (d = c) then Some 0 else None
      end
  end.

(** [portable_file_name] of a path that is UTF-8 text *)
Definition portable_name (s : bytes) : bytes :=
  let last_slash := default 0 (rfind "/"%char s) in
  let last_backslash := default 0 (rfind "\"%char s) in
  let last_sep := Nat.max last_slash last_backslash in
  if decide (last_sep = 0) then
    if starts_with s (bs "/") || starts_with s (bs "\") then drop 1 s else s
  else drop (S last_sep) s.

Definition portable_file_name (p : bytes) : option bytes :=
  if utf8_valid p then Some (portable_name p) else None.

(** ** Lemmas *)

Lemma rfind_some c s i : rfind c s = Some i -> s !! i = Some c /\ c ∉ drop (S i) s.
Proof.
  revert i. induction s as [|d r IH]; intros i; simpl; [done|].
  destruct (rfind c r) as [j|] eqn:E; [intros [= <-]; by apply IH|].
  case_decide as Hd; [|done]. intros [= <-]. subst d. split; [done|]. rewrite skipn_O.
  clear IH. induction r as [|e r IH]; [by apply not_elem_of_nil|]. simpl in E.
  destruct (rfind c r); [done|]. case_decide; [done|]. apply not_elem_of_cons. eauto.
Qed.

Lemma rfind_none c s : rfind c s = None -> c ∉ s.
Proof.
  induction s as [|d r IH]; simpl; [intros; apply not_elem_of_nil|].
  destruct (rfind c r); [done|]. case_decide; [done|]. intros. apply not_elem_of_cons. eauto.
Qed.

(** Nothing after the last position a search may find. *)
Lemma rfind_after c s n : default 0 (rfind c s) <= n -> c ∉ drop (S n) s.
Proof.
  intros Hn Hin. destruct (rfind c s) as [i|] eqn:E.
  - apply rfind_some in E as [_ E]. simpl in Hn. apply E.
    replace (S n) with (S i + (n - i)) in Hin by lia. rewrite <-drop_drop in Hin.
    by eapply subseteq_drop.
  - apply rfind_none in E. apply E. by eapply subseteq_drop.
Qed.

Definition separator (c : ascii) : Prop := c = "/"%char \/ c = "\"%char.

Lemma starts_with_one s c : starts_with s [c] = true <-> exists r, s = c :: r.
Proof.
  unfold starts_with. rewrite bool_decide_eq_true. simpl. split.
  - destruct s as [|d s]; [done|]. simpl. intros [= ->]. eauto.
  - by intros [r ->].
Qed.

Lemma split_on_sep c a b : split_on c (a ++ c :: b) = split_on c a ++ split_on c b.
Proof.
  induction a as [|d a IH]; simpl.
  - destruct (split_on c b) eqn:E; [by apply split_on_nonempty in E|]. by rewrite decide_True.
  - rewrite IH. destruct (split_on c a) as [|w ws] eqn:E; [by apply split_on_nonempty in E|].
    simpl. by case_decide.
Qed.

Lemma pushed_sep a b : pushed (a ++ "/"%char :: b) = pushed b ++ pushed a.
Proof. unfold pushed. by rewrite split_on_sep, list.filter_app, reverse_app. Qed.

Lemma pushed_push base raw : is_absolute raw = false -> pushed (push_str base raw) = pushed raw ++ pushed base.
Proof.
  intros Ha. unfold push_str. rewrite Ha. destruct base as [|c0 base0] using rev_ind; simpl.
  - by rewrite app_nil_r.
  - rewrite list.last_snoc. case_decide as Hc.
    + subst c0. simpl. rewrite <-app_assoc. simpl. by rewrite !pushed_sep.
    + apply (pushed_sep (base0 ++ [c0]) raw).
Qed.

Lemma relative_no_slash name : "/"%char ∉ name -> is_absolute name = false.
Proof.
  intros H. destruct (is_absolute name) eqn:E; [|done].
  apply starts_with_one in E as [r ->]. exfalso. apply H. left.
Qed.

Lemma pushed_name name :
  "/"%char ∉ name -> pushed name = if decide (name = [] \/ name = bs ".") then [] else [name].
Proof.
  intros H. unfold pushed. rewrite split_on_none by done. rewrite filter_cons, filter_nil.
  repeat case_decide; simpl; try done; naive_solver.
Qed.

(** ** Properties *)

(** The name of a transferred file, for the path of either system, is
    what follows the last separator of either kind. *)
Theorem portable_name_spec s :
  exists front, s = front ++ portable_name s /\ Forall (fun c => ~ separator c) (portable_name s) /\
    (front = [] \/ exists c, list.last front = Some c /\ separator c).
Proof.
  unfold portable_name.
  set (m := Nat.max _ _). assert (forall n, m <= n -> Forall (fun c => ~ separator c) (drop (S n) s)) as Hafter.
  { intros n Hn. apply Forall_forall. intros c Hc%list_elem_of_In [H|H]; subst c;
      (eapply (rfind_after _ s n); [|exact Hc]; lia). }
  case_decide as Hm.
  - destruct s as [|c r]; [exists []; split; [done|]; split; [constructor|by left]|].
    specialize (Hafter 0 ltac:(lia)). simpl in Hafter. rewrite drop_0 in Hafter.
    destruct (starts_with _ _ || _) eqn:E.
    + exists [c]. split; [done|]. split; [done|]. right. exists c. split; [done|].
      apply orb_true_iff in E as [(? & [= -> _])%starts_with_one|(? & [= -> _])%starts_with_one]; [by left|by right].
    + exists []. split; [done|]. split; [|by left]. constructor; [|done].
      apply orb_false_iff in E as [E1 E2]. intros [->| ->]; unfold starts_with in *; by simpl in *.
  - exists (take (S m) s). split; [by rewrite take_drop|]. split; [by apply Hafter|]. right.
    assert (exists c, s !! m = Some c /\ separator c) as (c & Hl & Hc).
    { subst m. destruct (rfind "/"%char s) as [i|] eqn:E1, (rfind "\"%char s) as [j|] eqn:E2; simpl in *;
        try lia; try apply rfind_some in E1 as [E1 _]; try apply rfind_some in E2 as [E2 _].
      - destruct (Nat.max_spec i j) as [[_ ->]|[_ ->]]; eexists; split; eauto; [by right|by left].
      - rewrite Nat.max_0_r. eexists; split; eauto. by left.
      - eexists; split; eauto. by right. }
    exists c. split; [|done]. by rewrite (take_S_r _ _ _ Hl), list.last_snoc.
Qed.

(** A download without a local name goes into the local directory: its
    target is that directory or an entry of it, whatever path the server is
    asked for, unless the last part of that path is [..], which is not
    refused: the target is then the directory above. *)
Theorem download_target_confined home disk ctx remote name :
  portable_file_name remote = Some name ->
  let target := resolve_local_target home disk ctx None name in
  resolve_local_target home disk ctx (Some (bs ".")) name = target /\
  if decide (name = bs "..") then resolve (pushed target) = tail (resolve (pushed (local_root ctx)))
  else exists q, pushed target = q ++ pushed (local_root ctx) /\ length q <= 1 /\ Forall proper q /\
         resolve (pushed target) = q ++ resolve (pushed (local_root ctx)).
Proof.
  intros Hn. assert ("/"%char ∉ name) as Hs.
  { unfold portable_file_name in Hn. case_match; [|done]. injection Hn as <-.
    destruct (portable_name_spec remote) as (_ & _ & HF & _). intros Hin.
    rewrite Forall_forall in HF. apply (HF "/"%char); [by apply list_elem_of_In|by left]. }
  cbn zeta. split; [done|]. unfold resolve_local_target.
  rewrite pushed_push by by apply relative_no_slash. rewrite pushed_name by done. case_decide as Hd.
  - subst name. by rewrite decide_False by naive_solver.
  - case_decide as He; [exists []; split; [done|]; split; [simpl; lia|]; by split|]. exists [name]. split; [done|]. split; [simpl; lia|].
    assert (Forall proper [name]) as Hp by (constructor; [unfold proper; naive_solver|constructor]).
    split; [done|]. by apply resolve_below.
Qed.

Lemma first_free_spec exists_ p tries index :
  match first_free exists_ p tries index with
  | Some q => exists i, (index <= i < index + N.of_nat tries)%N /\ q = candidate p i /\ exists_ q = false /\
                forall j, (index <= j < i)%N -> exists_ (candidate p j) = true
  | None => forall j, (index <= j < index + N.of_nat tries)%N -> exists_ (candidate p j) = true
  end.
Proof.
  revert index. induction tries as [|tries IH]; intros index; simpl; [intros; lia|].
  destruct (exists_ (candidate p index)) eqn:E.
  - specialize (IH (index + 1)%N). destruct (first_free _ _ _ _).
    + destruct IH as (i & Hi & -> & Hf & Hb). exists i. split; [lia|]. split; [done|]. split; [done|].
      intros j Hj. destruct (decide (j = index)) as [->|]; [done|]. apply Hb. lia.
    + intros j Hj. destruct (decide (j = index)) as [->|]; [done|]. apply IH. lia.
  - exists index. split; [lia|]. split; [done|]. split; [done|]. intros; lia.
Qed.

(** A download into a directory does not replace a file: its target is
    the name itself when that is free, and else the first free name with a
    number, while one of the first million is free. *)
Theorem renamed_target_is_free exists_ p :
  let target := auto_rename_download_target exists_ p in
  (exists_ p = false /\ target = p) \/
  (exists_ p = true /\
   ((exists i, (1 <= i <= 1000000)%N /\ target = candidate p i /\ exists_ target = false /\
       forall j, (1 <= j < i)%N -> exists_ (candidate p j) = true) \/
    (target = p /\ forall j, (1 <= j <= 1000000)%N -> exists_ (candidate p j) = true))).
Proof.
  cbn zeta. unfold auto_rename_download_target. destruct (exists_ p) eqn:E; [right|by left]. split; [done|].
  pose proof (first_free_spec exists_ p (N.to_nat RENAME_LIMIT) 1) as H. rewrite N2Nat.id in H.
  change (1 + RENAME_LIMIT)%N with 1000001%N in H.
  destruct (first_free _ _ _ _) as [q|]; [left|right].
  - destruct H as (i & Hi & -> & Hf & Hb). exists i. simpl. split; [lia|]. done.
  - split; [done|]. intros j Hj. apply H. lia.
Qed.

(** ** Where the paths go wrong *)

(** [get .] takes the name from the working directory the server reports: one
    that ends in [..] puts the download above the local directory. *)
Lemma get_dot_escapes :
  resolve_remote_source_path (E := unit) (Some (Ok (bs "/srv/.."))) false (bs ".") = Some (Ok (bs "/srv/..")) /\
  portable_file_name (bs "/srv/..") = Some (bs "..") /\
  resolve (pushed (resolve_local_target None (mk_LocalDisk (fun _ => false) (fun _ => false) (fun _ => None))
                     (mk_TransferContext (bs "/home/u/in")) None (bs ".."))) = [bs "u"; bs "home"].
Proof. repeat split. Qed.

(** A directory that is named with its slash, as completion leaves it, has the
    empty name: it is uploaded into the working directory itself. *)
Lemma slash_loses_name :
  portable_file_name (bs "/w/dir/") = Some [] /\
  resolve_remote_target_path (E := unit) (Some (Ok (bs "/srv"))) false None [] = Some (Ok (bs "/srv/")).
Proof. split; reflexivity. Qed.

(** A doubled slash after the tilde leaves the home directory. *)
Lemma tilde_slash_leaves_home :
  resolve_remote_target_path (E := unit) None false (Some (bs "~//etc/")) (bs "f") = Some (Ok (bs "/etc/f")).
Proof. reflexivity. Qed.

(** ** Witnesses *)

Lemma download_target_confined_witness :
  let ctx := mk_TransferContext (bs "/home/u/in") in
  portable_file_name (bs "/srv/a.txt") = Some (bs "a.txt") /\
  exists q, pushed (resolve_local_target None (mk_LocalDisk (fun _ => false) (fun _ => false) (fun _ => None)) ctx None (bs "a.txt"))
            = q ++ pushed (local_root ctx).
Proof.
  intros ctx. split; [reflexivity|].
  pose proof (download_target_confined None (mk_LocalDisk (fun _ => false) (fun _ => false) (fun _ => None)) ctx
    (bs "/srv/a.txt") (bs "a.txt") eq_refl) as [_ H].
  rewrite decide_False in H by discriminate. destruct H as (q & H & _). exists q. exact H.
Defined.
