(* ===== verification/Completion.v ===== *)
(** * Tab completion of the local prompt: [cli/src/commands/connect/completion.rs]

    [parse_line] splits the line into tokens with their positions,
    [classify_completion_target] says what the token at the cursor is, and the
    token is replaced. A slice that is not on a character boundary panics in
    the source and is [None] here. [shell_words::quote], the local disk and
    the answer of the remote peer are arguments. *)

From stdpp Require Import sorting.
From S2P Require Import Prelude Text Fs TransferTypes Paths Conn ShellOps Control LocalPaths Editor InputActions Engine.

(** ** Characters *)

(** [str::chars] of valid text, as the encodings of its characters *)
Fixpoint chars (b : bytes) : list bytes :=
  match b with
  | [] => []
  | c :: r =>
      match chars r with
      | (d :: w) :: ws => if is_cont d then (c :: d :: w) :: ws else [c] :: (d :: w) :: ws
      | ws => [c] :: ws
      end
  end.

Definition is_whitespace (ch : bytes) : bool := bool_decide (ch ∈ whitespace).

(** [&raw[..n]] and [&raw[n..]] *)
Definition slice_to (raw : bytes) (n : nat) : option bytes :=
  if is_char_boundary raw n then Some (take n raw) else None.
Definition slice_from (raw : bytes) (n : nat) : option bytes :=
  if is_char_boundary raw n then Some (drop n raw) else None.

(** ** The tokenizer *)

Record Token : Type := mk_Token { raw_start : nat; raw_end : nat; value : bytes }.

Record ParsedLine : Type := mk_ParsedLine {
  raw : bytes;
  p_cursor : nat;
  tokens : list Token;
}.

(** The locals of the loop. *)
Record Scan : Type := mk_Scan {
  done_tokens : list Token;
  token_start : option nat;
  token_value : bytes;
  in_single : bool;
  in_double : bool;
  escaped : bool;
}.

Definition scan_new : Scan := mk_Scan [] None [] false false false.

Definition started (s : Scan) (index : nat) : option nat := Some (default index (token_start s)).

(** The closure [finish_token] *)
Definition finish_token (stop : nat) (s : Scan) : Scan :=
  match token_start s with
  | Some start =>
      mk_Scan (done_tokens s ++ [mk_Token start stop (token_value s)]) None [] (in_single s) (in_double s) (escaped s)
  | None => s
  end.

Definition scan_char (index : nat) (ch : bytes) (s : Scan) : Scan :=
  if escaped s then
    mk_Scan (done_tokens s) (started s index) (token_value s ++ ch) (in_single s) (in_double s) false
  else if bool_decide (ch = bs "\") && negb (in_single s) then
    mk_Scan (done_tokens s) (started s index) (token_value s) (in_single s) (in_double s) true
  else if bool_decide (ch = bs "'") && negb (in_double s) then
    mk_Scan (done_tokens s) (started s index) (token_value s) (negb (in_single s)) (in_double s) false
  else if bool_decide (ch = [ascii_of_N 34]) && negb (in_single s) then
    mk_Scan (done_tokens s) (started s index) (token_value s) (in_single s) (negb (in_double s)) false
  else if is_whitespace ch && negb (in_single s) && negb (in_double s) then finish_token index s
  else mk_Scan (done_tokens s) (started s index) (token_value s ++ ch) (in_single s) (in_double s) false.

Fixpoint scan (index : nat) (chs : list bytes) (s : Scan) : Scan :=
  match chs with
  | [] => s
  | ch :: chs => scan (index + length ch) chs (scan_char index ch s)
  end.

(** The loop that moves the cursor to a character boundary. *)
Fixpoint floor_boundary (raw : bytes) (cursor : nat) : nat :=
  match cursor with
  | O => O
  | S n => if is_char_boundary raw cursor then cursor else floor_boundary raw n
  end.

Definition parse_line (raw : bytes) (cursor : nat) : option ParsedLine :=
  let cursor := floor_boundary raw (Nat.min cursor (length raw)) in
  let tokens := done_tokens (finish_token (length raw) (scan 0 (chars raw) scan_new)) in
  before ← slice_to raw cursor;
  let after_blank := match list.last (chars before) with Some ch => is_whitespace ch | None => false end in
  Some (mk_ParsedLine raw cursor
          (tokens ++ if after_blank then [mk_Token cursor cursor []] else [])).

(** ** What is completed *)

Inductive CompletionMode : Type := CEscape | CPrompt.

#[export] Instance CompletionMode_eq_dec : EqDecision CompletionMode.
Proof. solve_decision. Defined.

Inductive CompletionTarget : Type :=
| Keyword (token : Token)
| PutLocalPath (raw : bytes)
| GetRemotePath (raw : bytes)
| ListLocalPath (raw : bytes)
| ChangeLocalPath (raw : bytes)
| NoTarget.

Definition active_token (parsed : ParsedLine) : option Token :=
  List.find (fun t => (raw_start t <=? p_cursor parsed) && (p_cursor parsed <=? raw_end t)) (tokens parsed).

Definition classify_positional_target (mode : CompletionMode) (command : bytes) (positional_index : nat)
    (token : bytes) : CompletionTarget :=
  let arg w n := bool_decide (command = bs w) && bool_decide (positional_index = n) in
  match mode with
  | CEscape =>
      if arg "~put"%string 0 then PutLocalPath token
      else if arg "~put"%string 1 then GetRemotePath token
      else if arg "~get"%string 0 then GetRemotePath token
      else if arg "~get"%string 1 then PutLocalPath token
      else NoTarget
  | CPrompt =>
      if arg "put"%string 0 then PutLocalPath token
      else if arg "put"%string 1 then GetRemotePath token
      else if arg "get"%string 0 then GetRemotePath token
      else if arg "get"%string 1 then PutLocalPath token
      else if arg "lls"%string 0 then ListLocalPath token
      else if arg "lcd"%string 0 then ChangeLocalPath token
      else NoTarget
  end.

(** The loop over the tokens after the first. *)
Fixpoint classify_token (mode : CompletionMode) (command : bytes) (active : Token) (positional_index : nat)
    (ts : list Token) : CompletionTarget :=
  match ts with
  | [] => NoTarget
  | t :: ts =>
      if bool_decide (raw_start t = raw_start active) && bool_decide (raw_end t = raw_end active)
      then classify_positional_target mode command positional_index (value t)
      else classify_token mode command active
             (if starts_with (value t) (bs "-") then positional_index else S positional_index) ts
  end.

Definition classify_completion_target (mode : CompletionMode) (parsed : ParsedLine) : CompletionTarget :=
  match active_token parsed, tokens parsed with
  | Some active, command :: rest =>
      if raw_end active <? p_cursor parsed then NoTarget
      else if bool_decide (raw_start active = 0) then Keyword active
      else classify_token mode (value command) active 0 rest
  | _, _ => NoTarget
  end.

(** ** Replacing the token *)

Definition replace_range (parsed : ParsedLine) (start stop : nat) (replacement : bytes) :
    option CompletionResult :=
  front ← slice_to (raw parsed) start;
  back ← slice_from (raw parsed) stop;
  Some (Applied (front ++ replacement ++ back) (start + length replacement)).

Definition ESCAPE_KEYWORDS : list bytes :=
  bs <$> ["~?"; "~help"; "~~"; "~."; "~C"; "~put"; "~get"]%string.
Definition PROMPT_KEYWORDS : list bytes :=
  bs <$> ["put"; "get"; "lls"; "lcd"; "lpwd"; "paths"; "clear"; "help"; "exit"; "disconnect"]%string.

Definition keywords_of (mode : CompletionMode) : list bytes :=
  match mode with CEscape => ESCAPE_KEYWORDS | CPrompt => PROMPT_KEYWORDS end.

Definition takes_argument (keyword : bytes) : bool :=
  bool_decide (keyword ∈ (bs <$> ["~put"; "~get"; "put"; "get"; "lls"; "lcd"]%string)).

Definition complete_keyword (mode : CompletionMode) (parsed : ParsedLine) (token : Token) :
    option CompletionResult :=
  match filter (fun candidate => starts_with candidate (value token) = true) (keywords_of mode) with
  | [] => Some NoCompletion
  | [single] =>
      replace_range parsed (raw_start token) (raw_end token)
        (single ++ if takes_argument single then bs " " else [])
  | many => Some (Suggestions many)
  end.

Definition local_completion_parts (raw resolved : bytes) : bytes * bytes * bytes :=
  if decide (raw = []) then (resolved, [], [])
  else if ends_with raw (bs "/") then (resolved, [], raw)
  else
    (default (bs ".") (parent_str resolved),
     default [] (file_name_str resolved),
     match rfind "/"%char raw with Some index => take (S index) raw | None => [] end).

Definition name_le (x y : bytes * bool) : Prop := str_le x.1 y.1.
#[export] Instance name_le_dec x y : Decision (name_le x y).
Proof. unfold name_le. apply _. Defined.

Section complete.
Variable quote : bytes -> bytes.   (** [shell_words::quote] *)
Variable home : option bytes.
Variable disk : LocalDisk.

Definition complete_local_path (parsed : ParsedLine) (raw : bytes) (ctx : TransferContext) :
    option CompletionResult :=
  let '(search_dir, prefix, base) := local_completion_parts raw (resolve_local_source home ctx raw) in
  match entries_at disk search_dir with
  | None => Some NoCompletion
  | Some entries =>
      let names := (fun e => (utf8_lossy e.1, e.2)) <$> entries in
      match merge_sort name_le (filter (fun e => starts_with e.1 prefix = true) names) with
      | [] => Some NoCompletion
      | [(name, is_dir)] =>
          let replacement := if is_dir : bool then quote (base ++ name ++ bs "/")
                             else quote (base ++ name) ++ bs " " in
          match active_token parsed with
          | Some token => replace_range parsed (raw_start token) (raw_end token) replacement
          | None => Some NoCompletion
          end
      | many => Some (Suggestions ((fun e => base ++ e.1 ++ if e.2 : bool then bs "/" else []) <$> many))
      end
  end.

(** [matches]: what [session.remote_completion(raw)] answered. *)
Definition complete_remote_path {E} (matches : result E (list bytes)) (parsed : ParsedLine) :
    option (result E CompletionResult) :=
  match matches with
  | Err e => Some (Err e)
  | Ok matches =>
      Ok <$> match merge_sort str_le matches with
             | [] => Some NoCompletion
             | [single] =>
                 match active_token parsed with
                 | Some token =>
                     replace_range parsed (raw_start token) (raw_end token)
                       (if ends_with single (bs "/") then single else single ++ bs " ")
                 | None => Some NoCompletion
                 end
             | many => Some (Suggestions many)
             end
  end.

(** [remote] is asked for the completions of a remote path. *)
Definition complete_line {E} (remote : bytes -> result E (list bytes)) (mode : CompletionMode)
    (ctx : TransferContext) (line : bytes) (cursor : nat) : option (result E CompletionResult) :=
  parsed ← parse_line (utf8_lossy line) cursor;
  match classify_completion_target mode parsed with
  | Keyword token => Ok <$> complete_keyword mode parsed token
  | PutLocalPath raw | ListLocalPath raw | ChangeLocalPath raw => Ok <$> complete_local_path parsed raw ctx
  | GetRemotePath raw => complete_remote_path (remote raw) parsed
  | NoTarget => Some (Ok NoCompletion)
  end.
End complete.
