(* ===== verification/CompletionFacts.v ===== *)
(** * Tab completion never panics, edits one token, and names what it found

    Facts about Completion.v. *)

From stdpp Require Import sorting.
From S2P Require Import Prelude Text Fs TransferTypes Paths Conn ShellOps Control LocalPaths Editor InputActions Engine Completion.

(** ** Characters and boundaries *)

(** A byte string that does not start in the middle of a character. *)
Definition lead (b : bytes) : Prop := match b with c :: _ => is_cont c = false | [] => True end.

Definition character (w : bytes) : Prop := w <> [] /\ lead w.

Lemma chars_spec b :
  concat (chars b) = b /\ Forall character (tail (chars b)) /\
  match chars b with w :: _ => w <> [] /\ head w = head b | [] => b = [] end.
Proof.
  induction b as [|c r (IH1 & IH2 & IH3)]; [split_and!; [done|constructor|done]|]. simpl.
  destruct (chars r) as [|[|d w] ws]; simpl in *.
  - subst r. by split_and!.
  - by destruct IH3.
  - destruct IH3 as [_ IH3]. destruct (is_cont d) eqn:Hd; simpl.
    + split; [by rewrite IH1|]. by split.
    + split; [by rewrite IH1|]. split; [|done]. by constructor.
Qed.

Lemma chars_concat b : concat (chars b) = b.
Proof. apply chars_spec. Qed.

Lemma chars_characters b : lead b -> Forall character (chars b).
Proof.
  intros Hb. destruct (chars_spec b) as (_ & H2 & H3). destruct (chars b) as [|w ws]; [constructor|].
  destruct H3 as [Hw Hh]. constructor; [|done]. split; [done|]. destruct w, b; simplify_eq/=; done.
Qed.

Lemma concat_lead ws : Forall character ws -> lead (concat ws).
Proof. intros [|w ws' [Hw Hl] _]; [done|]. by destruct w. Qed.

Lemma boundary_at front back : lead back -> is_char_boundary (front ++ back) (length front) = true.
Proof.
  intros Hb. unfold is_char_boundary. rewrite lookup_app_r, Nat.sub_diag by done.
  destruct back as [|c back]; simpl in *; [|by rewrite Hb].
  rewrite app_nil_r. by apply bool_decide_eq_true.
Qed.

Lemma lossy_lead b : lead (utf8_lossy b).
Proof.
  destruct b as [|c b]; [done|]. cbn [utf8_lossy].
  repeat case_match; try (unfold REPLACEMENT; done); simpl;
    match goal with
    | H : byte_in ?lo ?hi c = true |- is_cont c = false => apply (byte_in_disjoint _ _ _ _ _ H); lia
    end.
Qed.

Lemma floor_boundary_spec raw n :
  lead raw -> n <= length raw -> is_char_boundary raw (floor_boundary raw n) = true /\ floor_boundary raw n <= n.
Proof.
  intros Hl. induction n as [|n IH]; intros Hn; simpl.
  - split; [|done]. by apply (boundary_at [] raw).
  - destruct (is_char_boundary raw (S n)) eqn:E; [done|]. destruct IH; [lia|]. split; [done|lia].
Qed.

(** ** The tokenizer *)

Section scan.
Variable line : bytes.

Definition position (n : nat) : Prop := n <= length line /\ is_char_boundary line n = true.

Definition token_ok (t : Token) : Prop :=
  position (raw_start t) /\ position (raw_end t) /\ raw_start t <= raw_end t.

(** Tokens in their order, all before [index]. *)
Definition tokens_ok (ts : list Token) (index : nat) : Prop :=
  Forall token_ok ts /\ Forall (fun t => raw_end t <= index) ts /\
  StronglySorted (fun t u => raw_end t <= raw_start u) ts.

Definition scan_ok (index : nat) (s : Scan) : Prop :=
  match token_start s with
  | Some start => position start /\ start <= index /\ tokens_ok (done_tokens s) start
  | None => tokens_ok (done_tokens s) index
  end.

Lemma tokens_ok_mono ts i j : i <= j -> tokens_ok ts i -> tokens_ok ts j.
Proof.
  intros Hij (H1 & H2 & H3). split_and!; [done| |done]. eapply Forall_impl; [|exact H2]. simpl. lia.
Qed.

Lemma sorted_snoc ts t :
  StronglySorted (fun t u => raw_end t <= raw_start u) ts -> Forall (fun u => raw_end u <= raw_start t) ts ->
  StronglySorted (fun t u => raw_end t <= raw_start u) (ts ++ [t]).
Proof.
  induction 1 as [|u ts Hs IH Hu]; intros HF; [by repeat constructor|].
  inversion HF; subst. simpl. constructor; [by apply IH|]. apply Forall_app. split; [done|]. by repeat constructor.
Qed.

Lemma tokens_ok_snoc ts t index :
  tokens_ok ts (raw_start t) -> token_ok t -> raw_end t <= index -> tokens_ok (ts ++ [t]) index.
Proof.
  intros (H1 & H2 & H3) Ht Hi. split_and!.
  - apply Forall_app. split; [done|]. by constructor.
  - apply Forall_app. split; [|by constructor]. eapply Forall_impl; [|exact H2]. destruct Ht as (_ & _ & ?). simpl. lia.
  - by apply sorted_snoc.
Qed.

Lemma finish_token_ok index s :
  position index -> scan_ok index s ->
  tokens_ok (done_tokens (finish_token index s)) index /\ scan_ok index (finish_token index s).
Proof.
  intros Hp. unfold scan_ok, finish_token. destruct (token_start s) as [start|] eqn:E; simpl.
  - intros (H1 & H2 & H3). assert (tokens_ok (done_tokens s ++ [mk_Token start index (token_value s)]) index).
    { by apply tokens_ok_snoc. }
    done.
  - rewrite E. done.
Qed.

Lemma scan_ok_mono i j s : i <= j -> scan_ok i s -> scan_ok j s.
Proof.
  intros Hij. unfold scan_ok. destruct (token_start s).
  - intros (? & ? & ?). split_and!; [done|lia|done].
  - by apply tokens_ok_mono.
Qed.

Lemma scan_char_ok index ch s : position index -> scan_ok index s -> scan_ok index (scan_char index ch s).
Proof.
  intros Hp Hs. assert (forall v a b c, scan_ok index (mk_Scan (done_tokens s) (started s index) v a b c)) as Hgo.
  { intros. unfold scan_ok, started in *. simpl. destruct (token_start s); simpl; [done|]. done. }
  unfold scan_char. repeat case_match; try apply Hgo. by apply finish_token_ok.
Qed.

Lemma scan_scan_ok front chs s :
  line = front ++ concat chs -> Forall character chs ->
  scan_ok (length front) s -> scan_ok (length line) (scan (length front) chs s).
Proof.
  revert front s. induction chs as [|ch chs IH]; intros front s Hl Hc Hs.
  - simpl. rewrite Hl, app_nil_r. done.
  - inversion Hc as [|? ? Hch Hcs]; subst x l. simpl scan. rewrite <-length_app. apply IH; [|done|].
    + rewrite Hl. simpl. by rewrite app_assoc.
    + rewrite length_app. apply (scan_ok_mono (length front)); [lia|]. apply scan_char_ok; [|done]. split.
      * rewrite Hl, length_app. lia.
      * rewrite Hl. apply boundary_at. by apply concat_lead.
Qed.
End scan.

(** For every line and cursor the tokenizer returns, with the cursor and
    every token on character boundaries of the line, the tokens of the line in
    their order and apart, followed by at most an empty one at the cursor. *)
Lemma parse_line_tokens line cursor :
  lead line ->
  exists c ts extra, parse_line line cursor = Some (mk_ParsedLine line c (ts ++ extra)) /\
    position line c /\ c <= cursor /\ tokens_ok line ts (length line) /\
    (extra = [] \/ extra = [mk_Token c c []]).
Proof.
  intros Hl. unfold parse_line.
  destruct (floor_boundary_spec line (Nat.min cursor (length line)) Hl) as [Hb Hc]; [lia|].
  set (c := floor_boundary _ _) in *. unfold slice_to. rewrite Hb. simpl.
  eexists c, _, _. split; [done|]. split; [split; [lia|done]|]. split; [lia|]. split.
  - apply finish_token_ok.
    + split; [done|]. rewrite <-(app_nil_r line) at 1. by apply boundary_at.
    + apply (scan_scan_ok line []); [by rewrite chars_concat|by apply chars_characters|].
      split_and!; constructor.
  - destruct (match list.last _ with Some _ => _ | None => _ end); auto.
Qed.

(** ** Edits *)

(** The outcome of a completion that changes the line, or leaves it. *)
Definition edits (line : bytes) (cursor : nat) (res : CompletionResult) : Prop :=
  match res with
  | Applied new c =>
      exists start stop replacement, start <= cursor <= stop /\ position line start /\ position line stop /\
        new = take start line ++ replacement ++ drop stop line /\ c = start + length replacement
  | _ => True
  end.

Lemma replace_range_total parsed t replacement :
  token_ok (raw parsed) t -> raw_start t <= p_cursor parsed <= raw_end t ->
  exists res, replace_range parsed (raw_start t) (raw_end t) replacement = Some res /\
    edits (raw parsed) (p_cursor parsed) res.
Proof.
  intros (H1 & H2 & _) Hc. unfold replace_range, slice_to, slice_from.
  destruct H1 as [? E1], H2 as [? E2]. rewrite E1, E2. simpl. eexists. split; [done|].
  simpl. eexists _, _, _. done.
Qed.

Lemma active_token_spec parsed t :
  active_token parsed = Some t ->
  t ∈ tokens parsed /\ raw_start t <= p_cursor parsed <= raw_end t.
Proof.
  intros [H E]%List.find_some. split; [by apply list_elem_of_In|].
  apply andb_true_iff in E as [?%Nat.leb_le ?%Nat.leb_le]. done.
Qed.

Lemma classify_token_argument mode command active n ts token :
  classify_token mode command active n ts <> Keyword token.
Proof.
  revert n. induction ts as [|t ts IH]; intros n; simpl; [done|].
  case_match; [|apply IH]. unfold classify_positional_target. by repeat case_match.
Qed.

(** Completion returns for every line, cursor, disk and answer of the
    peer, without a panic; when it changes the line it replaces the token
    under the cursor, moved down to a character boundary, and nothing else,
    and leaves the cursor behind what it wrote. *)
Lemma completion_edits_total {E} quote home disk (remote : bytes -> result E (list bytes)) mode ctx line cursor :
  exists r, complete_line quote home disk remote mode ctx line cursor = Some r /\
    match r with
    | Ok res => exists c, c <= cursor /\ edits (utf8_lossy line) c res
    | Err e => exists p, remote p = Err e
    end.
Proof.
  unfold complete_line. destruct (parse_line_tokens (utf8_lossy line) cursor (lossy_lead line))
    as (c & ts & extra & Hp & Hc & Hle & (Hok & _ & _) & Hx).
  rewrite Hp. simpl. set (parsed := mk_ParsedLine _ _ _).
  assert (Forall (token_ok (utf8_lossy line)) (tokens parsed)) as Hts.
  { apply Forall_app. split; [done|]. destruct Hx as [->| ->]; constructor; [by split_and!|constructor]. }
  assert (forall t rep, active_token parsed = Some t ->
    exists res, replace_range parsed (raw_start t) (raw_end t) rep = Some res /\ edits (utf8_lossy line) c res) as Hr.
  { intros t rep [Ht Ha]%active_token_spec. rewrite Forall_forall in Hts.
    apply (replace_range_total parsed t rep); [|done]. by apply Hts, list_elem_of_In. }
  assert (forall o : option CompletionResult, (exists res, o = Some res /\ edits (utf8_lossy line) c res) ->
    exists r, Ok (E := E) <$> o = Some r /\
      match r with Ok res => exists c, c <= cursor /\ edits (utf8_lossy line) c res | Err e => exists p, remote p = Err e end) as Hok'.
  { intros o (res & -> & He). exists (Ok res). split; [done|]. by exists c. }
  assert (forall p, exists res, complete_local_path quote home disk parsed p ctx = Some res /\ edits (utf8_lossy line) c res) as Hlocal.
  { intros p. unfold complete_local_path. destruct (local_completion_parts _ _) as [[d pre] base].
    destruct (entries_at disk d); [|by eexists]. destruct (merge_sort _ _) as [|[name []] []]; try by eexists.
    all: destruct (active_token parsed) eqn:Ha; [by apply Hr|by eexists]. }
  destruct (classify_completion_target mode parsed) eqn:Hcl; try (apply Hok', Hlocal).
  - apply Hok'. assert (active_token parsed = Some token) as Ha.
    { unfold classify_completion_target in Hcl. repeat case_match; simplify_eq; try done.
      all: exfalso; by eapply classify_token_argument. }
    unfold complete_keyword. repeat case_match; try (by eexists); by apply Hr.
  - unfold complete_remote_path. destruct (remote raw) as [matches|e] eqn:Hm; [|exists (Err e); split; [done|by exists raw]].
    apply Hok'. repeat case_match; try (by eexists); by apply Hr.
  - exists (Ok NoCompletion). split; [done|]. by exists c.
Qed.

(** ** Local paths *)

Definition kept (ws : list bytes) : list bytes := filter (fun c => c <> [] /\ c <> bs ".") ws.

Lemma pushed_kept raw : pushed raw = reverse (kept (split_on "/"%char raw)).
Proof. done. Qed.

Lemma kept_reverse ws : kept (reverse ws) = reverse (kept ws).
Proof. apply list.filter_reverse. Qed.

Lemma trim_right_spec ws :
  kept (trim_right ws) = kept ws /\ trim_right ws `suffix_of` ws /\
  match trim_right ws with c :: _ => c <> [] /\ c <> bs "." | [] => True end.
Proof.
  induction ws as [|c ws (IH1 & IH2 & IH3)]; [split_and!; done|]. simpl. case_decide as Hc.
  - split; [|split; [by apply suffix_cons_r|done]]. unfold kept in *. by rewrite filter_cons_False by naive_solver.
  - split; [done|]. split; [done|]. naive_solver.
Qed.

Lemma split_join ws : Forall (fun w => "/"%char ∉ w) ws -> kept (split_on "/"%char (join_with (bs "/") ws)) = kept ws.
Proof.
  induction 1 as [|w ws Hw Hws IH]; [done|]. destruct ws as [|w' ws].
  - cbn [join_with]. by rewrite split_on_none.
  - change (join_with (bs "/") (w :: w' :: ws)) with (w ++ "/"%char :: join_with (bs "/") (w' :: ws)).
    rewrite split_on_sep, (split_on_none _ w) by done. change ([w] ++ ?l) with (w :: l).
    unfold kept in *. rewrite (filter_cons _ w), IH, (filter_cons _ w (w' :: ws)). done.
Qed.

Lemma cur_dir_shape raw :
  starts_cur_dir raw = true -> exists r, raw = "."%char :: r /\ (r = [] \/ exists y, r = "/"%char :: y).
Proof.
  intros H%bool_decide_eq_true. destruct raw as [|c r]; [done|]. simpl in H. exists r.
  destruct (split_on "/"%char r) as [|w ws] eqn:E; [by apply split_on_nonempty in E|].
  case_decide; simpl in H; [done|]. injection H as -> ->. split; [done|].
  destruct r as [|d r]; [by left|]. right. simpl in E.
  destruct (split_on "/"%char r); [done|]. case_decide; [subst d; eauto|done].
Qed.

Lemma pushed_root x : pushed ("/"%char :: x) = pushed x.
Proof. pose proof (pushed_sep [] x) as H. by rewrite app_nil_r in H. Qed.

Lemma pushed_front raw x :
  (starts_cur_dir raw = true -> x = [] \/ exists y, x = "/"%char :: y) ->
  pushed (take (body_start raw) raw ++ x) = pushed x.
Proof.
  intros H. unfold body_start. destruct (is_absolute raw) eqn:Ha; simpl.
  - apply starts_with_one in Ha as [r ->]. apply pushed_root.
  - destruct (starts_cur_dir raw) eqn:Hc; [|done]. apply cur_dir_shape in Hc as (r & -> & _).
    destruct (H eq_refl) as [->|[y ->]]; [done|]. simpl.
    rewrite pushed_root. pose proof (pushed_sep (bs ".") y) as E. by rewrite app_nil_r in E.
Qed.

Lemma pushed_body raw : pushed (drop (body_start raw) raw) = pushed raw.
Proof.
  rewrite <-(pushed_front raw), take_drop; [done|]. intros Hc. pose proof (cur_dir_shape raw Hc) as (r & -> & Hr).
  unfold body_start. by rewrite Hc, orb_true_r.
Qed.

(** The last component of a path and its parent. *)
Lemma last_component_spec p :
  match last_component p with
  | Some (c, par) => pushed p = c :: pushed par /\ c <> [] /\ c <> bs "."
  | None => pushed p = []
  end.
Proof.
  unfold last_component. set (segs := split_on _ _).
  assert (pushed p = kept (trim_right (reverse segs))) as ->.
  { destruct (trim_right_spec (reverse segs)) as [-> _]. by rewrite kept_reverse, <-pushed_body. }
  destruct (trim_right_spec (reverse segs)) as (_ & Hs & Hh).
  destruct (trim_right (reverse segs)) as [|c rest]; [done|]. split; [|done].
  unfold kept at 1. rewrite filter_cons_True by done. f_equal. fold (kept rest).
  destruct (trim_right_spec rest) as (Hk & Hs' & _). set (tr := trim_right rest) in *.
  assert (reverse tr `prefix_of` segs) as Hpre.
  { rewrite <-(reverse_involutive segs). apply suffix_prefix_reverse.
    trans rest; [done|]. trans (c :: rest); [by apply suffix_cons_r|done]. }
  rewrite pushed_front.
  - rewrite pushed_kept, split_join, <-kept_reverse, reverse_involutive; [by rewrite Hk|].
    destruct Hpre as [k Hk']. apply Forall_forall. intros w Hw%list_elem_of_In.
    apply (split_on_pieces _ (drop (body_start p) p)). fold segs. rewrite Hk'. apply elem_of_app. by left.
  - intros Hc. pose proof (cur_dir_shape p Hc) as (r & -> & Hr).
    assert (exists more, segs = [] :: more) as [more Hm].
    { subst segs. unfold body_start. rewrite Hc, orb_true_r. destruct Hr as [->|[y ->]]; simpl; [by eexists|].
      destruct (split_on "/"%char y) eqn:E; [by apply split_on_nonempty in E|]. by eexists. }
    destruct Hpre as [k Hk']. rewrite Hm in Hk'. destruct (reverse tr) as [|w [|w' ws]]; [by left| |];
      injection Hk' as <- _; [by left|right]; by eexists.
Qed.

(** A base directory as it is typed: nothing, or a text that ends in a separator. *)
Definition typed_dir (base : bytes) : Prop := base = [] \/ exists b, base = b ++ ["/"%char].

Lemma pushed_typed base v : typed_dir base -> pushed (base ++ v) = pushed v ++ pushed base.
Proof.
  intros [->|[b ->]]; simpl; [by rewrite app_nil_r|].
  rewrite <-app_assoc. simpl. rewrite !pushed_sep. done.
Qed.

Lemma absolute_app base v : base <> [] -> is_absolute (base ++ v) = is_absolute base.
Proof. by destruct base. Qed.

Lemma strip_tilde_typed base v :
  typed_dir base -> "/"%char ∉ v ->
  strip_tilde_slash (base ++ v) = (fun rest => rest ++ v) <$> strip_tilde_slash base /\
  (forall rest, strip_tilde_slash base = Some rest -> typed_dir rest).
Proof.
  intros [->|[b ->]] Hv.
  - split; [|done]. simpl. destruct v as [|c [|d v]]; simpl; try done; [by repeat case_match|].
    repeat case_match; try done; exfalso; apply Hv; set_solver.
  - destruct b as [|c [|d b]]; simpl.
    + split; [by repeat case_match|done].
    + split; [by repeat case_match|]. intros rest. repeat case_match; try done. intros [= <-]. by left.
    + split; [by repeat case_match|]. intros rest. repeat case_match; try done. intros [= <-]. right. by eexists.
Qed.

Lemma push_typed home base v :
  typed_dir base -> "/"%char ∉ v ->
  pushed (push_str home (base ++ v)) = pushed v ++ (if is_absolute base then pushed base else pushed base ++ pushed home).
Proof.
  intros Hb Hv. destruct (is_absolute base) eqn:Ha.
  - assert (base <> []) by (by intros ->). unfold push_str.
    rewrite absolute_app, Ha by done. by apply pushed_typed.
  - rewrite pushed_push; [by rewrite pushed_typed, app_assoc|].
    destruct base as [|c base]; [by apply relative_no_slash|done].
Qed.

(** Names under one typed directory resolve into one directory. *)
Lemma resolve_typed home root base :
  typed_dir base ->
  exists dir, forall v, "/"%char ∉ v -> base ++ v <> bs "~" ->
    pushed (resolve_local_input_path home root (base ++ v)) = pushed v ++ dir.
Proof.
  intros Hb. unfold resolve_local_input_path.
  assert (forall v, "/"%char ∉ v -> is_absolute (base ++ v) = is_absolute base) as Hab.
  { intros v Hv. destruct base; [by apply relative_no_slash|done]. }
  destruct (is_absolute base) eqn:Ha.
  { exists (pushed base). intros v Hv _. rewrite Hab by done. by apply pushed_typed. }
  destruct (strip_tilde_slash base) as [rest|] eqn:Hs, home as [home|]; eexists; intros v Hv Hne;
    rewrite Hab by done; destruct (strip_tilde_typed base v Hb Hv) as [-> Ht]; rewrite Hs; simpl;
    rewrite ?decide_False by done; apply push_typed; auto.
Qed.

Lemma rfind_split raw :
  let base := match rfind "/"%char raw with Some index => take (S index) raw | None => [] end in
  exists w, raw = base ++ w /\ ("/"%char ∉ w) /\ typed_dir base.
Proof.
  cbn zeta. destruct (rfind "/"%char raw) as [i|] eqn:E.
  - apply rfind_some in E as [Hi Hn]. exists (drop (S i) raw). split; [by rewrite take_drop|].
    split; [done|]. right. exists (take i raw). by rewrite (take_S_r _ _ _ Hi).
  - exists raw. split; [done|]. split; [by apply rfind_none|by left].
Qed.

(** What is completed for a local path: the part after the last slash is
    the prefix, the entries are those of the directory the rest denotes, and
    the completed text denotes the entry that was found, unless that part is
    [.] or [..] or the text is [~]. *)
Theorem local_completion_resolves home ctx raw search_dir prefix base :
  local_completion_parts raw (resolve_local_source home ctx raw) = (search_dir, prefix, base) ->
  exists w, raw = base ++ w /\ ("/"%char ∉ w) /\
    (w <> bs "." -> w <> bs ".." -> raw <> bs "~" ->
     prefix = w /\ forall name, "/"%char ∉ name -> base ++ name <> bs "~" ->
       pushed (resolve_local_source home ctx (base ++ name)) = pushed name ++ pushed search_dir).
Proof.
  unfold local_completion_parts, resolve_local_source. set (root := local_root ctx).
  assert (typed_dir raw -> forall name, "/"%char ∉ name -> raw <> bs "~" -> raw ++ name <> bs "~" ->
    pushed (resolve_local_input_path home root (raw ++ name))
    = pushed name ++ pushed (resolve_local_input_path home root raw)) as Hself.
  { intros Ht name Hn H0 H1. destruct (resolve_typed home root raw Ht) as [dir Hd]. rewrite Hd by done.
    pose proof (Hd [] (not_elem_of_nil _)) as E. rewrite app_nil_r in E. by rewrite E. }
  case_decide as Hr.
  { intros [= <- <- <-]. exists []. split; [done|]. split; [apply not_elem_of_nil|].
    intros _ _ _. split; [done|]. subst raw. intros. apply Hself; [by left|done..]. }
  destruct (ends_with raw (bs "/")) eqn:He.
  { intros [= <- <- <-]. exists []. rewrite app_nil_r. split; [done|]. split; [apply not_elem_of_nil|].
    intros _ _ Hraw. split; [done|]. intros. apply Hself; [|done..]. right.
    unfold ends_with in He. apply bool_decide_eq_true in He. cbn [length bs list_ascii_of_string] in He. exists (take (length raw - 1) raw).
    etrans; [symmetry; apply (take_drop (length raw - 1))|]. by rewrite He. }
  intros [= <- <- <-]. destruct (rfind_split raw) as (w & Hw & Hs & Ht). cbn zeta in *.
  set (base := match rfind _ _ with Some _ => _ | None => _ end) in *. exists w. split; [done|]. split; [done|].
  intros H1 H2 H3. destruct (resolve_typed home root base Ht) as [dir Hd].
  assert (w <> []) as Hw0.
  { intros ->. rewrite app_nil_r in Hw. destruct Ht as [Hb|[b Hb]]; [congruence|].
    rewrite Hw, Hb in He. unfold ends_with in He. apply bool_decide_eq_false in He. apply He.
    rewrite length_app. simpl. by rewrite Nat.add_sub, drop_app_length. }
  assert (pushed (resolve_local_input_path home root raw) = w :: dir) as Hp.
  { rewrite Hw, Hd by congruence. rewrite pushed_name by done. by rewrite decide_False by naive_solver. }
  unfold parent_str, file_name_str. pose proof (last_component_spec (resolve_local_input_path home root raw)) as Hl.
  destruct (last_component _) as [[c par]|]; [|by rewrite Hl in Hp].
  destruct Hl as (Hl & _ & _). rewrite Hl in Hp. injection Hp as -> Hdir.
  rewrite decide_False by done. simpl. split; [done|]. intros name Hn Hne. rewrite Hd, Hdir by done. done.
Qed.

(** ** Where completion goes wrong *)

Definition demo_ctx : TransferContext := mk_TransferContext (bs "/w").

(** Completing [~] looks for the home directory's name in its parent, and
    leaves a relative path. *)
Lemma tilde_completes_to_relative :
  let parts := local_completion_parts (bs "~") (resolve_local_source (Some (bs "/home/ann")) demo_ctx (bs "~")) in
  parts = (bs "/home", bs "ann", []) /\
  resolve_local_source (Some (bs "/home/ann")) demo_ctx (bs "ann/") = bs "/w/ann/".
Proof. split; reflexivity. Qed.

(** A hidden entry is not completed after its dot: the directory itself is
    looked for in its parent, and appended to itself. *)
Lemma dot_completes_to_wrong_entry :
  local_completion_parts (bs "src/.") (resolve_local_source None demo_ctx (bs "src/.")) = (bs "/w", bs "src", bs "src/").
Proof. reflexivity. Qed.

(** Words between blanks, the only thing [shell_words::split] makes of text
    without quotes and backslashes. *)
Definition demo_words (b : bytes) : option (list bytes) :=
  Some (filter (fun w => w <> []) (split_on " "%char b)).

(** A remote name is inserted without quotes: a completed name with a blank is
    read as two arguments, and the second is where the file is written. *)
Lemma remote_completion_unquoted :
  complete_line (E := unit) (fun b => b) None (mk_LocalDisk (fun _ => false) (fun _ => false) (fun _ => None))
    (fun _ => Ok [bs "a key"]) CPrompt demo_ctx (bs "get a") 5
  = Some (Ok (Applied (bs "get a key ") 10)) /\
  parse_local_command demo_words (bs "get a key ") = Some (Get (bs "a") (Some (bs "key")) false).
Proof. split; vm_compute; reflexivity. Qed.

(** ** Witnesses *)

Lemma local_completion_resolves_witness :
  exists w, bs "a/b" = bs "a/" ++ w.
Proof.
  destruct (local_completion_resolves None demo_ctx (bs "a/b") (bs "/w/a") (bs "b") (bs "a/")) as (w & H & _);
    [reflexivity|]. exists w. exact H.
Defined.
