(* ===== verification/LocalCommands.v ===== *)
(** * Local commands: [execute_local_command] of [cli/src/commands/connect/prompt.rs]
    and the handlers of [put] and [get] in [transfer.rs]

    The terminal client's state: the session, the input engine with the files
    of its histories, the local directory, what was written to the terminal,
    and the output of the peer that is held back. What happens around one
    command is a [Turn]: the local disk, what the terminal delivers meanwhile,
    and the outcomes of the transfer operations, which are modelled in
    ClientTransfer.v and ClientBlob.v. Writing to the terminal is assumed to
    succeed; progress bars are left out. *)

From stdpp Require Import sorting.
From S2P Require Import Prelude Text Fs TransferTypes TransferCodec Paths Conn ShellOps Control.
From S2P Require Import Pty HostKey Connect ClientSession LocalPaths Editor InputActions Engine Completion.

(** ** State *)

(** [irosh::sys::TerminalEvent] *)
Inductive TerminalEvent : Type :=
| TData (data : bytes)
| TResize (size : PtySize).

(** A write to the standard output: the peer's bytes or our own. *)
Inductive Output : Type :=
| FromRemote (b : bytes)
| FromLocal (b : bytes).

Inductive DriveError : Type :=
| DSession (e : SessionError)
| DRemotePath (e : RemotePathError IroshError)
| DNoFileName
| DCancelled          (** "transfer cancelled by user (ctrl+c)" *)
| DHangs              (** the code waits for an answer that never comes *)
| DPanics.

Record Turn : Type := mk_Turn {
  disk : LocalDisk;
  cpr_input : list bytes;                       (** input within the 50 ms of [query_cpr] *)
  rows_now : N;                                 (** the height of [current_terminal_size()] *)
  cwd_answer : option (result IroshError bytes);
  during_transfer : list (option TerminalEvent);   (** [None]: the end of the input *)
  transfer_answer : result IroshError bytes;    (** with the hash, as it is displayed *)
  completions : bytes -> result IroshError (list bytes);
}.

Section terminal.
Context {K : Type}.

Record Terminal : Type := mk_Terminal {
  session : Session K;
  engine : InputEngine;
  files : fs;
  context : TransferContext;
  shown : list Output;
  shown_errors : bytes;
  remote_buffer : bytes;
}.

Abbreviation T := (M Terminal DriveError).

Definition set_session (x : Session K) (t : Terminal) : Terminal :=
  mk_Terminal x (engine t) (files t) (context t) (shown t) (shown_errors t) (remote_buffer t).
Definition set_engine (x : InputEngine) (f : fs) (t : Terminal) : Terminal :=
  mk_Terminal (session t) x f (context t) (shown t) (shown_errors t) (remote_buffer t).
Definition set_context (x : TransferContext) (t : Terminal) : Terminal :=
  mk_Terminal (session t) (engine t) (files t) x (shown t) (shown_errors t) (remote_buffer t).
Definition set_output (x : list Output) (buffer : bytes) (t : Terminal) : Terminal :=
  mk_Terminal (session t) (engine t) (files t) (context t) x (shown_errors t) buffer.
Definition set_errors (x : bytes) (t : Terminal) : Terminal :=
  mk_Terminal (session t) (engine t) (files t) (context t) (shown t) x (remote_buffer t).

Definition get {A} (f : Terminal -> A) : T A := fun t => (Ok (f t), t).
Definition modify (f : Terminal -> Terminal) : T unit := fun t => (Ok tt, f t).

(** [stdout.write_all(b).await?] *)
Definition print (b : bytes) : T unit :=
  modify (fun t => set_output (shown t ++ [FromLocal b]) (remote_buffer t) t).

(** An operation of the session, with its error. *)
Definition on_session {A} (m : M (Session K) SessionError A) : T A := fun t =>
  let '(r, s) := m (session t) in (map_err DSession r, set_session s t).

Variable answers : list (Request * option bytes) -> Request -> option bytes.
Variable home : option bytes.
Variable remote_os : option bytes.                 (** of [session.remote_metadata()] *)
Variable error_text : IroshError -> bytes.         (** [{err:#}] *)

Definition CRLF : bytes := [CR; NL].

(** ** [put] and [get] *)

(** The loop that waits for a transfer while it reads the terminal: whether
    the transfer came to its own end. *)
Fixpoint wait_transfer (events : list (option TerminalEvent)) : T bool :=
  match events with
  | [] => mret true
  | Some (TData data) :: events =>
      if contains data (ascii_of_N 3) then throw DCancelled else wait_transfer events
  | Some (TResize size) :: events =>
      ignore (E := DriveError) (on_session (resize answers size));; wait_transfer events
  | None :: _ => mret false
  end.

(** [meta.os.to_lowercase().contains("windows")] *)
Definition windows_paths : bool :=
  match remote_os with Some os => infix_of (ascii_lowercase os) (bs "windows") | None => false end.

Definition on_remote_path (r : option (result (RemotePathError IroshError) bytes)) : T bytes :=
  match r with
  | Some r => lift (map_err DRemotePath r)
  | None => throw DHangs
  end.

(** The error of a transfer: one of ours, or "transfer interrupted". *)
Definition interrupted : bytes := bs "transfer interrupted".

Definition reported (e : option IroshError) : bytes :=
  match e with Some e => error_text e | None => interrupted end.

Definition needs_recursive (e : option IroshError) : bool :=
  match e with
  | Some (EClient (TransferTargetInvalid reason)) => infix_of reason (bs "recursive flag not set")
  | _ => false
  end.

Definition rejected_with (code : TransferFailureCode) (e : option IroshError) : bool :=
  match e with
  | Some (EClient (TransferRejected failure)) => bool_decide (failure_code failure = code)
  | _ => false
  end.

Definition local_not_found (e : option IroshError) : bool :=
  match e with
  | Some (EClient (FileIo _ _ NotFound)) => true
  | _ => false
  end.

Definition put_failure (local_name remote_path : bytes) (e : option IroshError) : bytes :=
  bs "Upload failed. Error: " ++
  (if needs_recursive e then bs "'" ++ local_name ++ bs "' is a directory (use -r for recursive)"
   else if rejected_with IsDirectory e
   then bs "'" ++ remote_path ++ bs "' is a directory on remote (use -r for recursive)"
   else if local_not_found e then bs "'" ++ local_name ++ bs "' not found on local"
   else reported e) ++ CRLF.

Definition get_failure (remote_name : bytes) (e : option IroshError) : bytes :=
  bs "Download failed. Error: " ++
  (if needs_recursive e then bs "'" ++ remote_name ++ bs "' is a directory (use -r for recursive)"
   else if rejected_with IsDirectory e
   then bs "'" ++ remote_name ++ bs "' is a directory on remote (use -r for recursive)"
   else if rejected_with CodeNotFound e then bs "'" ++ remote_name ++ bs "' not found on remote"
   else reported e) ++ CRLF.

(** [handle_put_command]; [recursive] only chooses the progress bar. *)
Definition handle_put_command (turn : Turn) (local : bytes) (remote : option bytes) : T unit :=
  ctx ← get context;
  let local_path := resolve_local_source home ctx local in
  if exists_at (disk turn) local_path then
    local_name ← match portable_file_name local_path with
                 | Some name => mret name
                 | None => throw DNoFileName
                 end;
    remote_path ← on_remote_path (resolve_remote_target_path (cwd_answer turn) windows_paths remote local_name);
    print (bs "[local] " ++ utf8_lossy local_path ++ bs " -> [remote] " ++ utf8_lossy remote_path ++ CRLF);;
    finished ← wait_transfer (during_transfer turn);
    match finished : bool, transfer_answer turn with
    | true, Ok hash =>
        print (bs "Uploaded " ++ local_name ++ CRLF);;
        print (bs "BLAKE3:  " ++ hash ++ CRLF)
    | true, Err e => print (put_failure local_name (utf8_lossy remote_path) (Some e))
    | false, _ => print (put_failure local_name (utf8_lossy remote_path) None)
    end
  else print (bs "Local file not found: " ++ utf8_lossy local_path).

(** [handle_get_command] *)
Definition handle_get_command (turn : Turn) (remote : bytes) (local : option bytes) : T unit :=
  remote_path ← on_remote_path (resolve_remote_source_path (cwd_answer turn) windows_paths remote);
  let remote_name := default (bs "downloaded-file") (portable_file_name remote_path) in
  ctx ← get context;
  let local_path := resolve_local_target home (disk turn) ctx local remote_name in
  print (bs "[remote] " ++ utf8_lossy remote_path ++ bs " -> [local] " ++ utf8_lossy local_path ++ CRLF);;
  finished ← wait_transfer (during_transfer turn);
  match finished : bool, transfer_answer turn with
  | true, Ok hash =>
      print (bs "Downloaded " ++ remote_name ++ CRLF);;
      print (bs "BLAKE3:    " ++ hash ++ CRLF)
  | true, Err e => print (get_failure remote_name (Some e))
  | false, _ => print (get_failure remote_name None)
  end.

(** ** [execute_local_command] *)

(** The macro [print_prompt] *)
Definition print_prompt : T unit :=
  m ← get (fun t => mode (engine t));
  if decide (m = LocalEdit) then print (CRLF ++ bs "irosh> ") else mret tt.

Definition HELP : bytes := concat ((fun l => bs l ++ CRLF) <$>
  ["Local prompt commands:";
   "  put [-r] <local> [remote]   Upload a file or directory to the remote peer.";
   "  get [-r] <remote> [local]   Download a file or directory from the remote peer.";
   "  lpwd                        Print the current local transfer directory.";
   "  lls [path]                  List files in a local directory.";
   "  lcd <path>                  Change the local transfer directory.";
   "  paths                       Show both local and remote transfer roots.";
   "  clear                       Clear the local screen.";
   "  exit                        Leave the irosh> prompt.";
   "  disconnect                  Close the session entirely."]%string).

(** The lines of [lls] *)
Definition listing (entries : option (list (bytes * bool))) : list bytes :=
  merge_sort str_le
    ((fun e : bytes * bool => bs (if e.2 then "[DIR] " else "      ") ++ e.1)
     <$> filter (fun e => utf8_valid e.1 = true) (default [] entries)).

Definition report (text : bytes) (n : N) : T (bool * N) := print text;; print_prompt;; mret (true, n).

(** Whether the session goes on, and the lines printed. *)
Definition execute_local_command (turn : Turn) (cmd : LocalCommand) : T (bool * N) :=
  ctx ← get context;
  match cmd with
  | Help => report HELP 11
  | Exit => mret (true, 0%N)
  | Clear => report (ESC :: bs "[2J" ++ ESC :: bs "[H") 0
  | InputActions.Disconnect => print (bs "[irosh] Disconnecting..." ++ CRLF);; mret (false, 1%N)
  | Lpwd => report (bs "Local working directory: " ++ utf8_lossy (local_root ctx) ++ CRLF) 1
  | Lcd p =>
      let new_path := resolve_local_source home ctx p in
      if dir_at (disk turn) new_path then
        modify (set_context (mk_TransferContext new_path));;
        report (bs "Changed local directory to: " ++ utf8_lossy new_path ++ CRLF) 1
      else report (bs "Error: '" ++ p ++ bs "' is not a valid local directory" ++ CRLF) 1
  | Lls path_opt =>
      let target := match path_opt with Some p => resolve_local_source home ctx p | None => local_root ctx end in
      if dir_at (disk turn) target then
        let entries := listing (entries_at (disk turn) target) in
        report (concat ((fun e => e ++ CRLF) <$> entries)) (blen entries mod 65536)
      else report (bs "Error: '" ++ utf8_lossy target ++ bs "' is not a local directory" ++ CRLF) 1
  | InputActions.Paths =>
      let remote := match cwd_answer turn with
                    | Some (Ok p) => utf8_lossy p
                    | Some (Err _) => bs "unknown (error)"
                    | None => bs "unknown (timeout)"
                    end in
      report (bs "Local transfer root: " ++ utf8_lossy (local_root ctx) ++ CRLF
              ++ bs "Remote transfer root: " ++ remote ++ CRLF) 2
  | Put local remote _ => handle_put_command turn local remote;; print_prompt;; mret (true, 2%N)
  | Get remote local _ => handle_get_command turn remote local;; print_prompt;; mret (true, 2%N)
  | UsageError msg => report (bs "Error: " ++ msg ++ CRLF) 1
  | Unknown cmd => report (bs "Unknown command: '" ++ cmd ++ bs "'. Type 'help' for available commands." ++ CRLF) 1
  end.
End terminal.
Arguments Terminal : clear implicits.
