(* ===== verification/Drive.v ===== *)
(** * The loop of an interactive session: [cli/src/commands/connect/session.rs]

    [drive_session] waits for the terminal or the peer. One step of the model
    is one event of that loop, or one action of the queue the event has filled;
    the actions come first. The loop ends with an outcome. *)

From S2P Require Import Prelude Text Fs TransferTypes TransferCodec Paths Conn ShellOps Control.
From S2P Require Import Pty HostKey Connect ClientSession LocalPaths Editor InputActions Engine Completion LocalCommands.

(** [session::DisconnectReason]; only the first two are returned. *)
Inductive DisconnectReason : Type := UserInitiated | RemoteClosed | ShellCrashed | SessionErrored.

(** ** [query_cpr] *)

(** The loop that reads until the response ends with [R] or the time is over:
    the response, and the input that came after. *)
Fixpoint read_cpr (response : bytes) (chunks : list bytes) : bytes * list bytes :=
  match chunks with
  | [] => (response, [])
  | data :: chunks =>
      let response := response ++ data in
      if ends_with response (bs "R") then (response, chunks) else read_cpr response chunks
  end.

(** [response.windows(2).position(|w| w == b"\x1b[")] *)
Fixpoint find_csi (b : bytes) : option nat :=
  match b with
  | c :: r => if starts_with b (ESC :: bs "[") then Some 0 else S <$> find_csi r
  | [] => None
  end.

Fixpoint position (c : ascii) (b : bytes) : option nat :=
  match b with
  | d :: r => if decide (d = c) then Some 0 else S <$> position c r
  | [] => None
  end.

(** The row, and what is not the report. *)
Definition parse_cpr (response : bytes) : N * bytes :=
  match find_csi response with
  | None => (0%N, response)
  | Some start =>
      match position "R"%char (drop start response) with
      | None => (0%N, response)
      | Some end_offset =>
          let stop := start + end_offset in
          let s := utf8_lossy (take (stop - (start + 2)) (drop (start + 2) response)) in
          (default 0%N (parse_u16 (default [] (head (split_on ";"%char s)))),
           take start response ++ drop (S stop) response)
      end
  end.

Section drive.
Context {K : Type}.
Variable answers : list (Request * option bytes) -> Request -> option bytes.
Variable sig_text : Sig -> bytes.
Variable home : option bytes.
Variable remote_os : option bytes.
Variable error_text : IroshError -> bytes.
Variable split : bytes -> option (list bytes).
Variable quote : bytes -> bytes.

Abbreviation T := (M (Terminal K) DriveError).

(** ** Actions *)

Definition show_help : bytes := concat ((fun l => bs l ++ CRLF) <$>
  ["[irosh] Supported Escape Sequences:";
   "  ~.  - Terminate connection";
   "  ~C  - Open local command prompt";
   "  ~?  - Display this help message";
   "  ~~  - Send a literal tilde character";
   "(Escape sequences are only recognized at the start of a line)"]%string).

(** The output held back is written once no local line is edited. *)
Definition flush_buffer : T unit := modify (fun t =>
  if bool_decide (mode (engine t) = Remote) && bool_decide (remote_buffer t <> [])
  then set_output (shown t ++ [FromRemote (remote_buffer t)]) [] t
  else t).

Definition completion_mode (m : EditorMode) : CompletionMode :=
  match m with Escape => CEscape | Prompt => CPrompt end.

(** [InputEngine::complete_active_line] *)
Definition request_completion (turn : Turn) : T unit := fun t =>
  let answer :=
    match active_line (engine t) with
    | Some l =>
        complete_line quote home (disk turn) (completions turn) (completion_mode (Editor.mode (editor l)))
          (context t) (line (editor l)) (cursor (editor l))
    | None => Some (Ok NoCompletion)
    end in
  match answer with
  | None => (Err DPanics, t)
  | Some r =>
      let '(feedback, e) := complete_active_line (engine t) (map_err (fun _ => tt) r) in
      let t := set_engine e (files t) t in
      match feedback with [] => (Ok tt, t) | _ => print feedback t end
  end.

(** What an action does, with the lines it printed; [None] ends the loop. *)
Definition perform_action (turn : Turn) (action : EscapeAction) : T (option N) :=
  match action with
  | ADisconnect => print (bs "[irosh] Disconnecting..." ++ CRLF);; mret None
  | AHelp => print (show_help ++ CRLF);; flush_buffer;; mret (Some 11%N)
  | ACommandPrompt => mret (Some 0%N)
  | ASendLiteral b => on_session (ClientSession.send answers b);; mret (Some 0%N)
  | ARunLocal cmd =>
      '(cont, lines_printed) ← execute_local_command answers home remote_os error_text turn cmd;
      if cont : bool then flush_buffer;; mret (Some lines_printed) else mret None
  | ARequestCompletion => request_completion turn;; mret (Some 0%N)
  end.

Definition saturating_add_u16 (x y : N) : N := N.min (x + y) 65535.

(** The redraw for a Windows peer whose prompt has scrolled. *)
Definition redraw (turn : Turn) (before_row lines_printed : N) : T unit :=
  t ← get engine;
  if remote_is_windows t && (0 <? lines_printed)%N
     && (0 <? saturating_add_u16 before_row lines_printed - rows_now turn)%N
  then on_session (ClientSession.send answers [ascii_of_N 12; CR])
  else mret tt.

(** [handle_action]: whether to go on, and the input it swallowed. *)
Definition handle_action (turn : Turn) (action : EscapeAction) : T (bool * bytes) :=
  e ← get engine;
  '(before_row, swallowed) ←
    (if remote_is_windows e then
       print (ESC :: bs "[6n");; mret (parse_cpr (read_cpr [] (cpr_input turn)).1)
     else mret (0%N, []));
  done ← perform_action turn action;
  match done with
  | None => mret (false, swallowed)
  | Some lines_printed => redraw turn before_row lines_printed;; mret (true, swallowed)
  end.

(** ** The loop *)

Record Loop : Type := mk_Loop {
  terminal : Terminal K;
  queue : list EscapeAction;
  outcome : option (result DriveError DisconnectReason);
}.

Definition running (t : Terminal K) (q : list EscapeAction) : Loop := mk_Loop t q None.
Definition ended (t : Terminal K) (r : result DriveError DisconnectReason) : Loop := mk_Loop t [] (Some r).

Definition try_disconnect (t : Terminal K) : Terminal K :=
  set_session (disconnect answers (session t)).2 t.

Definition finish_remote_closed (t : Terminal K) : Loop := ended (try_disconnect t) (Ok RemoteClosed).

(** Typed bytes go through the engine; the actions wait in the queue. *)
Definition feed (data : bytes) (q : list EscapeAction) (t : Terminal K) : Loop :=
  match process_local split data (engine t) (files t) with
  | None => ended t (Err DPanics)
  | Some (e, o, f) =>
      let t := set_engine e f t in
      let '(sent, t) :=
        match to_remote o with
        | [] => (Ok tt, t)
        | b => on_session (ClientSession.send answers b) t
        end in
      match sent with
      | Err _ => finish_remote_closed t
      | Ok _ =>
          let t := match to_local o with [] => t | b => (print b t).2 end in
          running t (q ++ actions o)
      end
  end.

(** One turn of the inner loop, on the action at the head of the queue. *)
Definition act (turn : Turn) (action : EscapeAction) (q : list EscapeAction) (t : Terminal K) : Loop :=
  match handle_action turn action t with
  | (Err e, t) => ended t (Err e)
  | (Ok (cont, swallowed), t) =>
      let l := match swallowed with [] => running t q | _ => feed swallowed q t end in
      match outcome l with
      | Some _ => l
      | None => if cont : bool then l else ended (try_disconnect (terminal l)) (Ok UserInitiated)
      end
  end.

Definition resized (size : PtySize) (t : Terminal K) : Terminal K :=
  let t := set_session (resize answers size (session t)).2 t in
  let '(feedback, e) := handle_resize (engine t) in
  let t := set_engine e (files t) t in
  match feedback with Some b => (print b t).2 | None => t end.

(** The arm of [session.next_event()]. *)
Definition remote_event (t : Terminal K) : Loop :=
  let '(r, s) := next_event sig_text (session t) in
  let t := set_session s t in
  match r with
  | Ok (Some (EvData data)) =>
      let t := set_engine (observe_remote (engine t) data) (files t) t in
      running (if decide (mode (engine t) = LocalEdit)
               then set_output (shown t) (remote_buffer t ++ data) t
               else set_output (shown t ++ [FromRemote data]) (remote_buffer t) t) []
  | Ok (Some (EvExtendedData data _)) => running (set_errors (shown_errors t ++ data) t) []
  | Ok (Some EvClosed) | Ok None | Err _ => finish_remote_closed t
  | Ok (Some _) => running t []
  end.

Inductive LoopEvent : Type :=
| Typed (data : bytes)
| Resized (size : PtySize)
| InputEnded
| FromPeer
| Act (turn : Turn).

(** The next state; [None]: the event cannot happen now. *)
Definition step (l : Loop) (ev : LoopEvent) : option Loop :=
  match outcome l, ev, queue l with
  | None, Act turn, action :: q =>
      match (read_cpr [] (cpr_input turn)).2 with
      | [] => Some (act turn action q (terminal l))
      | _ => None
      end
  | None, Typed data, [] => Some (feed data [] (terminal l))
  | None, Resized size, [] => Some (running (resized size (terminal l)) [])
  | None, InputEnded, [] =>
      let t := terminal l in
      Some (ended (try_disconnect (set_session (eof answers (session t)).2 t)) (Ok UserInitiated))
  | None, FromPeer, [] => Some (remote_event (terminal l))
  | _, _, _ => None
  end.

Fixpoint run (l : Loop) (evs : list LoopEvent) : option Loop :=
  match evs with
  | [] => Some l
  | ev :: evs => l ← step l ev; run l evs
  end.

(** The start of [drive_session] *)
Definition drive_new (s : Session K) (e : InputEngine) (f : fs) (current_dir : option bytes) : Loop :=
  running (mk_Terminal s e f (transfer_context_new current_dir) [] [] []) [].
End drive.
Arguments Loop : clear implicits.
