(* ===== verification/DriveFacts.v ===== *)
(** * The interactive session: nothing is lost, nothing panics, and what is left open

    Facts about Drive.v. *)

From S2P Require Import Prelude Text Fs Auth TransferTypes TransferCodec Paths Conn ShellOps Control.
From S2P Require Import Pty HostKey Connect ClientSession SessionFacts LocalPaths Editor InputActions Engine EngineFacts.
From S2P Require Import Completion CompletionFacts LocalCommands Drive.

(** The peer's part of what was written to the terminal. *)
Definition remote_part (out : list Output) : bytes :=
  out ≫= fun o => match o with FromRemote b => b | FromLocal _ => [] end.

Lemma remote_part_app o1 o2 : remote_part (o1 ++ o2) = remote_part o1 ++ remote_part o2.
Proof. apply bind_app. Qed.

Section facts.
Context {K : Type}.
Variable answers : list (Request * option bytes) -> Request -> option bytes.
Variable sig_text : Sig -> bytes.
Variable home remote_os : option bytes.
Variable error_text : IroshError -> bytes.
Variable split : bytes -> option (list bytes).
Variable quote : bytes -> bytes.

Abbreviation T := (M (Terminal K) DriveError).

(** ** What every operation respects *)

Definition written (t : Terminal K) : bytes := remote_part (shown t) ++ remote_buffer t.

(** No output of the peer appears or disappears. *)
Definition quiet (t t' : Terminal K) : Prop := written t' = written t /\ shown_errors t' = shown_errors t.

(** And while a line is edited, none is written. *)
Definition held (t t' : Terminal K) : Prop :=
  mode (engine t) = LocalEdit -> remote_part (shown t') = remote_part (shown t).

(** Nothing of the transport is closed. *)
Definition parts (s : Session K) : bool * bool * bool := (s_connection s, s_blobs_connection s, s_endpoint s).
Definition open_as (t t' : Terminal K) : Prop := parts (session t') = parts (session t).

(** Besides, the engine is not touched. *)
Definition tame {A} (m : T A) : Prop := forall t,
  quiet t (m t).2 /\ held t (m t).2 /\ open_as t (m t).2 /\ engine (m t).2 = engine t /\ (m t).1 <> Err DPanics.

Lemma quiet_trans t1 t2 t3 : quiet t1 t2 -> quiet t2 t3 -> quiet t1 t3.
Proof. intros [H1 H2] [H3 H4]. split; congruence. Qed.

Lemma tame_ret {A} (a : A) : tame (mret a).
Proof. done. Qed.

Lemma tame_throw {A} e : e <> DPanics -> tame (throw (A := A) e).
Proof. intros H t. split_and!; try done. simpl. congruence. Qed.

Lemma tame_bind {A B} (m : T A) (k : A -> T B) : tame m -> (forall a, tame (k a)) -> tame (m ≫= k).
Proof.
  intros Hm Hk t. destruct (Hm t) as (H1 & H2 & Ho & H3 & H4). unfold mbind, M_bind.
  destruct (m t) as [[a|e] t1]; simpl in *; [|by split_and!; [..|congruence]].
  destruct (Hk a t1) as (H5 & H6 & Ho' & H7 & H8).
  split_and!; [by eapply quiet_trans| |unfold open_as in *; congruence|congruence|done].
  intros Hl. rewrite H6 by congruence. by apply H2.
Qed.

Lemma tame_get {A} (f : Terminal K -> A) : tame (LocalCommands.get f).
Proof. done. Qed.

Lemma tame_print b : tame (print b).
Proof.
  intros t. unfold print, modify, quiet, held, written. simpl.
  rewrite remote_part_app. simpl. rewrite app_nil_r. done.
Qed.

Lemma tame_context c : tame (modify (set_context c)).
Proof. done. Qed.

Definition keeps_parts {A} (m : M (Session K) SessionError A) : Prop := forall s, parts (m s).2 = parts s.

Lemma tame_on_session {A} (m : M (Session K) SessionError A) : keeps_parts m -> tame (on_session m).
Proof.
  intros H t. specialize (H (session t)). unfold on_session. by destruct (m (session t)) as [[a|e] s].
Qed.

Lemma on_channel_parts absent x failed : keeps_parts (on_channel answers absent x failed).
Proof.
  intros [st ch co bl ep h lg op qs].
  unfold on_channel, check_open, ensure_channel, channel_open_session, install, set_channel, ask, look, mbind, M_bind, mret, M_ret, throw.
  cbn. repeat (case_match; simplify_eq/=; try done).
Qed.

Lemma send_parts b : keeps_parts (ClientSession.send answers b).
Proof. apply on_channel_parts. Qed.

Lemma tame_send b : tame (on_session (ClientSession.send answers b)).
Proof. apply tame_on_session, send_parts. Qed.

Lemma tame_ignore {A} (m : T A) : tame m -> tame (ignore (E := DriveError) m).
Proof. intros H t. by destruct (H t) as (H1 & H2 & H3 & H4 & _). Qed.

Lemma tame_lift {A} (r : result (RemotePathError IroshError) A) : tame (lift (map_err DRemotePath r)).
Proof. by destruct r. Qed.

Lemma tame_flush : tame flush_buffer.
Proof.
  intros t. unfold flush_buffer, modify, quiet, held, written. cbn.
  case_bool_decide as Hm; [|done]. case_bool_decide; [|done]. cbn.
  rewrite remote_part_app. simpl. rewrite !app_nil_r. split_and!; try done.
  intros Hl. congruence.
Qed.

Lemma tame_wait events : tame (wait_transfer answers events).
Proof.
  induction events as [|[[data|size]|] events IH]; simpl; try done.
  - case_match; [by apply tame_throw|done].
  - apply tame_bind; [|done]. apply tame_ignore, tame_on_session, on_channel_parts.
Qed.

Create HintDb tame.
#[local] Hint Resolve tame_ret tame_get tame_print tame_context tame_send tame_ignore tame_lift tame_flush
  tame_wait : tame.
#[local] Hint Extern 1 (tame (throw _)) => apply tame_throw; discriminate : tame.
#[local] Hint Extern 2 (tame (_ ≫= _)) => apply tame_bind; [|intros ?] : tame.
#[local] Hint Extern 3 (tame (match ?x with _ => _ end)) => destruct x : tame.
#[local] Hint Extern 3 (tame (let _ := _ in _)) => cbv zeta : tame.

Lemma tame_report text n : tame (report text n).
Proof. unfold report, print_prompt. auto 20 with tame. Qed.

Lemma tame_put turn local remote : tame (handle_put_command answers home remote_os error_text turn local remote).
Proof. unfold handle_put_command, on_remote_path. auto 20 with tame. Qed.

Lemma tame_get_command turn remote local : tame (handle_get_command answers home remote_os error_text turn remote local).
Proof. unfold handle_get_command, on_remote_path. auto 20 with tame. Qed.

#[local] Hint Resolve tame_report tame_put tame_get_command : tame.

Lemma tame_local_command turn cmd : tame (execute_local_command answers home remote_os error_text turn cmd).
Proof. unfold execute_local_command, print_prompt. destruct cmd; auto 20 with tame. Qed.

#[local] Hint Resolve tame_local_command : tame.

(** An operation that may edit the local line, in its mode. *)
Definition safe {A} (m : T A) : Prop := forall t, engine_ok (engine t) ->
  quiet t (m t).2 /\ held t (m t).2 /\ open_as t (m t).2 /\ engine_ok (engine (m t).2) /\
  mode (engine (m t).2) = mode (engine t) /\ (m t).1 <> Err DPanics.

Lemma tame_safe {A} (m : T A) : tame m -> safe m.
Proof. intros H t Ht. destruct (H t) as (H1 & H2 & Ho & H3 & H4). split_and!; [done..| | |done]; by rewrite H3. Qed.

Lemma safe_bind {A B} (m : T A) (k : A -> T B) : safe m -> (forall a, safe (k a)) -> safe (m ≫= k).
Proof.
  intros Hm Hk t Ht. destruct (Hm t Ht) as (H1 & H2 & Ho & H3 & H4 & H5). unfold mbind, M_bind.
  destruct (m t) as [[a|e] t1]; simpl in *; [|split_and!; congruence || done].
  destruct (Hk a t1 H3) as (H6 & H7 & Ho' & H8 & H9 & H10).
  split_and!; [by eapply quiet_trans| |unfold open_as in *; congruence|done|congruence|done]. intros Hl. rewrite H7 by congruence. by apply H2.
Qed.

Lemma complete_mode e a : mode (complete_active_line e a).2 = mode e.
Proof. unfold complete_active_line. by repeat case_match. Qed.

Lemma safe_completion turn : safe (request_completion home quote turn).
Proof.
  intros t Ht. unfold request_completion.
  set (o := match active_line _ with Some _ => _ | None => _ end).
  assert (exists r, o = Some r) as [r ->].
  { subst o. destruct (active_line _) as [l|]; [|eauto].
    destruct (completion_edits_total quote home (disk turn) (completions turn)
      (completion_mode (Editor.mode (editor l))) (context t) (line (editor l)) (cursor (editor l))) as (r & Hr & _).
    by exists r. }
  pose proof (complete_ok (engine t) (map_err (fun _ => tt) r) Ht) as Hok.
  pose proof (complete_mode (engine t) (map_err (fun _ => tt) r)) as Hmode.
  destruct (complete_active_line _ _) as [feedback e]. simpl in *.
  destruct feedback as [|b bs]; [done|].
  destruct (tame_print (b :: bs) (set_engine e (files t) t)) as (H1 & H2 & Ho & H3 & H4).
  split_and!; [done| |done|by rewrite H3|by rewrite H3|done]. intros Hl. apply H2. simpl. congruence.
Qed.

Lemma safe_perform turn action : safe (perform_action answers home remote_os error_text quote turn action).
Proof.
  destruct action; simpl; try (apply tame_safe; solve [auto 20 with tame]).
  apply safe_bind; [apply safe_completion|]. intros. apply tame_safe. auto with tame.
Qed.

Lemma safe_action turn action : safe (handle_action answers home remote_os error_text quote turn action).
Proof.
  unfold handle_action, redraw. apply safe_bind; [apply tame_safe; auto with tame|]. intros e.
  apply safe_bind; [apply tame_safe; auto 20 with tame|]. intros [before_row swallowed].
  apply safe_bind; [apply safe_perform|]. intros done_. apply tame_safe. auto 20 with tame.
Qed.

(** ** Steps *)

(** The channel, the connections and the endpoint are closed; or the SSH
    library refused to send the message that goes before, and then the
    connections and the endpoint are as open as they were in [t]. *)
Definition released (t : Terminal K) (s : Session K) : Prop :=
  transport_resources_released s = true \/
  (exists lg e, answers lg ClientSession.Disconnect = Some e) /\ parts s = parts (session t).

Lemma finish_released t lg (s : Session K) : released t (finish answers (after_steps lg s)).2.
Proof.
  destruct (close_parts answers (after_steps lg s)) as (s' & -> & _ & _ & Hc & H1 & H2 & H3).
  left. unfold transport_resources_released. simpl. by rewrite Hc, H1, H2, H3.
Qed.

Lemma disconnect_released_or t s : parts s = parts (session t) -> released t (disconnect answers s).2.
Proof.
  intros Hs. rewrite (disconnect_steps answers s). cbv zeta. case_match; [apply finish_released|].
  case_match eqn:Ha; [|apply finish_released]. right. split; [by eexists _, _|done].
Qed.

(** How the transport is left. *)
Definition left_as (t : Terminal K) (l : Loop K) : Prop :=
  match outcome l with
  | Some (Ok _) => released t (session (Drive.terminal l))
  | _ => open_as t (Drive.terminal l)
  end.

(** What a step without new output does. *)
Definition steady (t : Terminal K) (l : Loop K) : Prop :=
  quiet t (Drive.terminal l) /\ held t (Drive.terminal l) /\ left_as t l /\ engine_ok (engine (Drive.terminal l)) /\
  outcome l <> Some (Err DPanics).

Lemma left_running t t' q : open_as t t' -> left_as t (running t' q).
Proof. done. Qed.

Lemma left_disconnected t t' r : open_as t t' -> left_as t (ended (try_disconnect answers t') (Ok r)).
Proof. apply disconnect_released_or. Qed.

(** A step that leaves the output and the transport alone. *)
Lemma steady_running t t' q :
  quiet t t' -> remote_part (shown t') = remote_part (shown t) -> open_as t t' -> engine_ok (engine t') ->
  steady t (running t' q).
Proof. intros. split_and!; try done. by intros _. Qed.

Lemma steady_closed t t' r :
  quiet t t' -> held t t' -> open_as t t' -> engine_ok (engine t') ->
  steady t (ended (try_disconnect answers t') (Ok r)).
Proof. intros. split_and!; try done. by apply disconnect_released_or. Qed.

Lemma feed_steady data q t : engine_ok (engine t) ->
  let l := feed answers split data q t in steady t l /\ remote_part (shown (Drive.terminal l)) = remote_part (shown t).
Proof.
  intros Ht. unfold feed. destruct (process_local_ok split data (engine t) (files t) Ht) as (e & o & f & -> & He).
  set (t1 := set_engine e f t).
  assert (forall s b, remote_part (shown (print b (set_session s t1)).2) = remote_part (shown t)) as Hp.
  { intros s b. cbn. rewrite remote_part_app. apply app_nil_r. }
  assert (forall s, parts s = parts (session t) ->
    let l := running (match to_local o with [] => set_session s t1 | b => (print b (set_session s t1)).2 end) (q ++ actions o) in
    steady t l /\ remote_part (shown (Drive.terminal l)) = remote_part (shown t)) as Hrun.
  { intros s Hs. destruct (to_local o) as [|b bs]; cbn zeta; (split; [|first [done|apply Hp]]); apply steady_running; try done.
    split; [|done]. unfold written. by rewrite Hp. }
  destruct (to_remote o) as [|b bs].
  - apply (Hrun (session t)). done.
  - unfold on_session. pose proof (send_parts (b :: bs) (session t)) as Hs.
    change (session t1) with (session t). destruct (ClientSession.send answers (b :: bs) (session t)) as [[[]|err] s]; simpl in *.
    + by apply Hrun.
    + split; [|done]. by apply steady_closed.
Qed.

Lemma steady_trans t t1 l :
  quiet t t1 -> held t t1 -> open_as t t1 -> mode (engine t1) = mode (engine t) -> steady t1 l ->
  steady t l.
Proof.
  intros Hq Hh Ho Hm (H1 & H2 & H3 & H4 & H5). split_and!; [by eapply quiet_trans| | |done|done].
  - intros Hl. rewrite H2 by congruence. by apply Hh.
  - unfold left_as, released, open_as in *. case_match; [case_match; [rewrite <-Ho; done|congruence]|congruence].
Qed.

Lemma act_steady turn action q t : engine_ok (engine t) ->
  steady t (act answers home remote_os error_text split quote turn action q t).
Proof.
  intros Ht. unfold act. destruct (safe_action turn action t Ht) as (H1 & H2 & Ho & H3 & H4 & H5).
  destruct (handle_action _ _ _ _ _ _ _ _) as [[[cont swallowed]|e] t1]; simpl in *.
  2: { split_and!; try done. simpl. congruence. }
  set (l := match swallowed with [] => _ | _ => _ end).
  assert (steady t1 l) as Hl by (subst l; destruct swallowed; [by apply steady_running|by apply feed_steady]).
  apply (steady_trans t t1); [done..|]. destruct Hl as (L1 & L2 & L3 & L4 & L5).
  destruct (outcome l) eqn:Hout; [by split_and!; [..|congruence]|].
  destruct cont; [by split_and!; [..|congruence]|].
  apply steady_closed; [done..| |done]. unfold left_as in L3. by rewrite Hout in L3.
Qed.

Abbreviation next := (step answers sig_text home remote_os error_text split quote).
Abbreviation runs := (run answers sig_text home remote_os error_text split quote).

(** New output is written while older output is still held back. *)
Definition overtakes (l : Loop K) (ev : LoopEvent) : bool :=
  match ev with
  | FromPeer => bool_decide (mode (engine (Drive.terminal l)) = Remote) && bool_decide (remote_buffer (Drive.terminal l) <> [])
  | _ => false
  end.

Lemma observe_mode e data : mode (observe_remote e data) = mode e.
Proof. revert e. induction data as [|b data IH]; intros e; simpl; [done|]. rewrite IH. by case_decide. Qed.

Lemma next_event_parts : keeps_parts (next_event sig_text (K := K)).
Proof.
  intros [st ch co bl ep h lg op qs]. unfold next_event, wait, set_queues, set_state, look, mbind, M_bind, mret, M_ret.
  cbn. repeat (case_match; simplify_eq/=; try done).
Qed.

(** What the session delivers in a step: data, and extended data. *)
Definition heard_at (l : Loop K) (ev : LoopEvent) : bytes * bytes :=
  match outcome l, ev, queue l with
  | None, FromPeer, [] =>
      match (next_event sig_text (session (Drive.terminal l))).1 with
      | Ok (Some (EvData data)) => (data, [])
      | Ok (Some (EvExtendedData data _)) => ([], data)
      | _ => ([], [])
      end
  | _, _, _ => ([], [])
  end.

(** And in all of them. *)
Fixpoint heard (l : Loop K) (evs : list LoopEvent) : bytes * bytes :=
  match evs with
  | [] => ([], [])
  | ev :: evs =>
      let '(data, errors) := heard_at l ev in
      let '(data', errors') := match next l ev with Some l' => heard l' evs | None => ([], []) end in
      (data ++ data', errors ++ errors')
  end.

(** What a step does to the invariants, and to the output of the peer. *)
Definition fate (l : Loop K) (ev : LoopEvent) (l' : Loop K) : Prop :=
  let t := Drive.terminal l in
  let t' := Drive.terminal l' in
  engine_ok (engine t') /\ outcome l' <> Some (Err DPanics) /\ left_as t l' /\ held t t' /\
  let '(data, errors) := heard_at l ev in
  shown_errors t' = shown_errors t ++ errors /\
  (written t' = written t ++ data \/
   (overtakes l ev = true /\ written t' = remote_part (shown t) ++ data ++ remote_buffer t)).

Lemma steady_fate l ev l' :
  heard_at l ev = ([], []) -> steady (Drive.terminal l) l' -> fate l ev l'.
Proof.
  intros E ([Hw Hr] & H2 & H3 & H4 & H5). unfold fate. rewrite E, !app_nil_r. split_and!; auto.
Qed.

Lemma remote_event_fate l : engine_ok (engine (Drive.terminal l)) -> outcome l = None -> queue l = [] ->
  fate l FromPeer (remote_event answers sig_text (Drive.terminal l)).
Proof.
  intros He Ho Hq. set (t := Drive.terminal l) in *. pose proof (next_event_parts (session t)) as Hp.
  assert (heard_at l FromPeer = match (next_event sig_text (session t)).1 with
      | Ok (Some (EvData data)) => (data, [])
      | Ok (Some (EvExtendedData data _)) => ([], data)
      | _ => ([], [])
      end) as Hh by (unfold heard_at; by rewrite Ho, Hq).
  unfold remote_event. destruct (next_event sig_text (session t)) as [r s]. simpl in Hp, Hh.
  assert (heard_at l FromPeer = ([], []) -> fate l FromPeer (finish_remote_closed answers (set_session s t))) as Hc.
  { intros E. apply steady_fate; [done|]. by apply steady_closed. }
  assert (heard_at l FromPeer = ([], []) -> fate l FromPeer (running (set_session s t) [])) as Hn
    by (intros E; apply steady_fate; [done|]; by apply steady_running).
  destruct r as [[[data|data ext|n|sg core msg lang| |]|]|e]; auto.
  - unfold fate. cbn zeta. fold t. rewrite Hh, app_nil_r. cbn [set_session set_engine engine files session shown remote_buffer].
    rewrite observe_mode. split; [|split; [done|split; [|split; [|split]]]].
    + case_decide; simpl; by apply observe_remote_ok.
    + unfold left_as, open_as, running. cbn [outcome Drive.terminal]. by case_decide.
    + unfold held. fold t. case_decide; simpl; [done|]. intros; congruence.
    + by case_decide.
    + unfold written, running. cbn [Drive.terminal]. case_decide as Hm; cbn.
      * left. by rewrite app_assoc.
      * rewrite remote_part_app. simpl. rewrite app_nil_r, <-app_assoc. fold t.
        destruct (remote_buffer t) as [|c buf] eqn:Hb; [left; by rewrite !app_nil_r|right]. split; [|done].
        by destruct (mode (engine t)).
  - unfold fate. cbn zeta. fold t. rewrite Hh, app_nil_r. split_and!; try done. by left.
Qed.

Lemma step_fate l ev l' : engine_ok (engine (Drive.terminal l)) -> next l ev = Some l' -> fate l ev l'.
Proof.
  intros He. unfold step. destruct (outcome l) eqn:Ho; [done|].
  destruct ev as [data|size| | |turn], (queue l) as [|action q] eqn:Hq; try done.
  - intros [= <-]. apply steady_fate; [unfold heard_at; by rewrite Ho|]. by apply feed_steady.
  - intros [= <-]. apply steady_fate; [unfold heard_at; by rewrite Ho|].
    unfold resized. set (t := Drive.terminal l) in *.
    pose proof (on_channel_parts (WindowChangeFailed CONNECT_FAILED)
      (fun c => SendWindowChange c (cols size) (rows size) (pixel_width size) (pixel_height size)) WindowChangeFailed (session t)) as Hs.
    fold (resize answers size (K := K)) in Hs. pose proof (resize_ok (engine t) He) as Hok.
    change (engine (set_session _ t)) with (engine t). destruct (handle_resize (engine t)) as [[b|] e]; simpl in *.
    + apply steady_running; try done; [split; [|done]; unfold written|]; cbn; rewrite remote_part_app; cbn; by rewrite app_nil_r.
    + by apply steady_running.
  - intros [= <-]. apply steady_fate; [unfold heard_at; by rewrite Ho|].
    apply steady_closed; try done. apply on_channel_parts.
  - intros [= <-]. by apply remote_event_fate.
  - case_match; [|done]. intros [= <-]. apply steady_fate; [unfold heard_at; by rewrite Ho|]. by apply act_steady.
Qed.

Fixpoint overtaken (l : Loop K) (evs : list LoopEvent) : bool :=
  match evs with
  | [] => false
  | ev :: evs => overtakes l ev || match next l ev with Some l' => overtaken l' evs | None => false end
  end.

(** What holds after any number of steps. *)
Lemma run_fate l evs l' : engine_ok (engine (Drive.terminal l)) -> runs l evs = Some l' ->
  engine_ok (engine (Drive.terminal l')) /\ (outcome l <> Some (Err DPanics) -> outcome l' <> Some (Err DPanics)) /\
  (outcome l = None -> left_as (Drive.terminal l) l') /\
  let '(data, errors) := heard l evs in
  shown_errors (Drive.terminal l') = shown_errors (Drive.terminal l) ++ errors /\
  written (Drive.terminal l') ≡ₚ written (Drive.terminal l) ++ data /\
  (overtaken l evs = false -> written (Drive.terminal l') = written (Drive.terminal l) ++ data).
Proof.
  revert l. induction evs as [|ev evs IH]; intros l He; simpl.
  - intros [= <-]. rewrite !app_nil_r. split_and!; try done. intros Ho. unfold left_as. by rewrite Ho.
  - destruct (next l ev) as [l1|] eqn:E; [|done]. simpl. intros Hr.
    destruct (step_fate l ev l1 He E) as (H1 & H2 & H3 & _ & Hd).
    destruct (heard_at l ev) as [d1 e1]. destruct Hd as [He1 Hw1].
    destruct (IH l1 H1 Hr) as (I1 & I2 & I3 & Hi). destruct (heard l1 evs) as [d2 e2].
    destruct Hi as (He2 & Hp2 & Hw2).
    split_and!; [done|by intros _; apply I2| | | |].
    + intros _. destruct (outcome l1) as [o|] eqn:Ho.
      * destruct evs as [|ev' evs]; [by injection Hr as <-|]. simpl in Hr. unfold step in Hr. by rewrite Ho in Hr.
      * specialize (I3 eq_refl). unfold left_as, released, open_as in *. rewrite Ho in H3.
        case_match; [case_match; [rewrite <-H3; done|congruence]|congruence].
    + by rewrite He2, He1, app_assoc.
    + rewrite Hp2, app_assoc. f_equiv. destruct Hw1 as [->|[_ ->]]; [done|]. unfold written.
      rewrite <-app_assoc. f_equiv. apply Permutation_app_comm.
    + intros [Ho1 Ho2]%orb_false_iff. rewrite Hw2 by done. destruct Hw1 as [->|[Ho' _]]; [by rewrite app_assoc|congruence].
Qed.

(** ** Properties *)

(** C24: Nothing the peer sends is lost, repeated or made up. After any events
    of an interactive session, with [data] and [errors] the data and extended
    data that [next_event] delivered on the way: what was written to stdout of
    the peer's data and what is held back are together [data], and in its
    order as long as no data came in remote mode while output was still held
    back; and what was written to stderr is [errors]. While a line is edited
    locally, no step writes data of the peer to stdout (extended data is
    written at once, also then). *)
Theorem peer_output_conserved root w s0 e s1 s f dir evs l :
  engine_new root w s0 = (Ok e, s1) -> runs (drive_new s e f dir) evs = Some l ->
  let '(data, errors) := heard (drive_new s e f dir) evs in
  written (Drive.terminal l) ≡ₚ data /\
  (overtaken (drive_new s e f dir) evs = false -> written (Drive.terminal l) = data) /\
  shown_errors (Drive.terminal l) = errors /\
  forall ev l', next l ev = Some l' -> mode (engine (Drive.terminal l)) = LocalEdit ->
    remote_part (shown (Drive.terminal l')) = remote_part (shown (Drive.terminal l)).
Proof.
  intros He%engine_new_ok Hr.
  destruct (run_fate (drive_new s e f dir) evs l He Hr) as (Hok & _ & _ & H).
  destruct (heard (drive_new s e f dir) evs) as [data errors]. destruct H as (He' & Hp & Hw).
  split_and!; [done..|]. intros ev l' Hs. by apply (step_fate l ev l' Hok Hs).
Qed.

(** C23: An interactive session never panics, whatever is typed, completed,
    answered and received in whatever order. At every end that is not an error
    the channel, both connections and the endpoint are closed, if the SSH
    library takes the disconnect message: when it refuses it, which it does on
    a connection that is lost, the code returns early and leaves the
    connections and the endpoint as open as they were. An end by an error
    closes nothing. *)
Theorem interactive_session_ends root w s0 e s1 s f dir evs l :
  engine_new root w s0 = (Ok e, s1) -> runs (drive_new s e f dir) evs = Some l ->
  match outcome l with
  | Some (Ok _) =>
      transport_resources_released (session (Drive.terminal l)) = true \/
      (exists lg why, answers lg ClientSession.Disconnect = Some why) /\
      parts (session (Drive.terminal l)) = parts s
  | Some (Err err) => err <> DPanics /\ parts (session (Drive.terminal l)) = parts s
  | None => parts (session (Drive.terminal l)) = parts s
  end.
Proof.
  intros He%engine_new_ok Hr.
  destruct (run_fate (drive_new s e f dir) evs l He Hr) as (_ & Hp & Ho & _).
  specialize (Hp ltac:(done)). specialize (Ho eq_refl). unfold left_as in Ho.
  destruct (outcome l) as [[r|err]|]; [exact Ho| |exact Ho]. split; [congruence|exact Ho].
Qed.
End facts.

(** ** Typing *)

Section typing.
Context {K : Type}.
Variable sig_text : Sig -> bytes.
Variable home remote_os : option bytes.
Variable error_text : IroshError -> bytes.
Variable split : bytes -> option (list bytes).
Variable quote : bytes -> bytes.

(** What was sent to the peer's shell. *)
Definition sent (lg : list (Request * option bytes)) : bytes :=
  lg ≫= fun x => match x.1 with SendData _ d => d | _ => [] end.

Lemma remote_loop_plain data e o s :
  mode e = Remote -> "~"%char ∉ data -> swallow_next_enter_pair e = None ->
  exists e', remote_loop split data e o s = Some (e', out_app o (out_remote data), s) /\
    mode e' = Remote /\ swallow_next_enter_pair e' = None.
Proof.
  revert e o. induction data as [|b d IH]; intros g o Hg Hd Hs; cbn [remote_loop].
  - exists g. change (out_remote []) with no_out. by rewrite out_app_no_r.
  - apply not_elem_of_cons in Hd as [Hb Hd]. rewrite bool_decide_false by (by rewrite Hs).
    rewrite (bool_decide_false (b = "~"%char)), andb_false_r by congruence.
    destruct (handle_remote_byte_frame (set_swallow None g) b) as (E1 & _ & _ & _ & E5).
    destruct (IH (handle_remote_byte (set_swallow None g) b) (out_app o (out_remote [b])))
      as (e' & -> & He'); [by rewrite E1|done|by rewrite E5|].
    exists e'. split; [|done]. by rewrite <-out_app_assoc.
Qed.

Lemma send_agreeing d (s : Session K) c :
  is_terminal (state s) = false -> channel s = Some c ->
  exists s', ClientSession.send agreeing d s = (Ok tt, s') /\ log s' = log s ++ [(SendData c d, None)] /\
    state s' = state s /\ channel s' = channel s.
Proof.
  intros Ht Hc. unfold ClientSession.send, on_channel, check_open, ensure_channel, ask, look, mbind, M_bind, mret, M_ret.
  rewrite Ht. cbn. rewrite Hc. cbn. rewrite Hc. cbn. eexists. split; [reflexivity|]. done.
Qed.

(** A session on which only requests were added. *)
Definition typed_on (s s' : Session K) : Prop :=
  state s' = state s /\ channel s' = channel s /\ log s `prefix_of` log s'.

Lemma typed_on_refl s : typed_on s s.
Proof. by split_and!. Qed.

Lemma typed_on_trans s1 s2 s3 : typed_on s1 s2 -> typed_on s2 s3 -> typed_on s1 s3.
Proof. intros (A1 & B1 & C1) (A2 & B2 & C2). split_and!; [congruence..|by etrans]. Qed.

(** What is typed reaches the peer: text without a tilde, cut into reads
    in any way, is sent to the shell as it is and in order; nothing of it is
    written to the terminal and no action is taken. *)
Theorem typing_reaches_peer (s : Session K) e f dir c chunks :
  is_terminal (state s) = false -> channel s = Some c ->
  mode e = Remote -> swallow_next_enter_pair e = None -> Forall (fun d => "~"%char ∉ d) chunks ->
  exists l, run agreeing sig_text home remote_os error_text split quote (drive_new s e f dir) (Typed <$> chunks) = Some l /\
    sent (log (session (Drive.terminal l))) = sent (log s) ++ concat chunks /\
    shown (Drive.terminal l) = [] /\ Drive.queue l = [] /\ outcome l = None /\
    mode (engine (Drive.terminal l)) = Remote /\ typed_on s (session (Drive.terminal l)).
Proof.
  intros Ht Hc Hm Hs Hd. unfold drive_new.
  assert (forall t : Terminal K, is_terminal (state (session t)) = false -> channel (session t) = Some c ->
    mode (engine t) = Remote -> swallow_next_enter_pair (engine t) = None ->
    exists t', run agreeing sig_text home remote_os error_text split quote (running t []) (Typed <$> chunks) = Some (running t' []) /\
      sent (log (session t')) = sent (log (session t)) ++ concat chunks /\ shown t' = shown t /\
      mode (engine t') = Remote /\ typed_on (session t) (session t')) as Hgo.
  2: { destruct (Hgo (mk_Terminal s e f (transfer_context_new dir) [] [] [])) as (t' & -> & H1 & H2 & H3 & H4); [done..|].
       by exists (running t' []). }
  clear Ht Hc Hm Hs. induction Hd as [|d chunks Hd Hds IH]; intros t Ht Hc Hm Hs.
  { exists t. split; [done|]. rewrite app_nil_r. by split_and!. }
  cbn [fmap list_fmap run]. unfold step. cbn [running outcome Drive.queue Drive.terminal].
  assert (exists t1, feed agreeing split d [] t = running t1 [] /\ is_terminal (state (session t1)) = false /\
    channel (session t1) = Some c /\ mode (engine t1) = Remote /\ swallow_next_enter_pair (engine t1) = None /\
    sent (log (session t1)) = sent (log (session t)) ++ d /\ shown t1 = shown t /\ typed_on (session t) (session t1))
    as (t1 & -> & H1 & H2 & H3 & H4 & H5 & H6 & H7).
  { unfold feed, process_local. rewrite decide_True by done.
    destruct (remote_loop_plain d (engine t) no_out (files t) Hm Hd Hs) as (e' & -> & He1 & He2).
    rewrite out_app_no_l. cbn [out_remote to_remote to_local actions]. destruct d as [|b d].
    - cbn. eexists. split; [reflexivity|]. cbn. rewrite app_nil_r. by split_and!.
    - unfold on_session. cbn [session set_engine].
      destruct (send_agreeing (b :: d) (session t) c Ht Hc) as (s' & -> & Hl & Hst & Hch).
      eexists. split; [reflexivity|]. cbn. rewrite Hst, Hch, Hl. split_and!; try done.
      + unfold sent. rewrite bind_app. simpl. by rewrite app_nil_r.
      + split_and!; [done..|]. rewrite Hl. by eexists. }
  cbn [mbind option_bind]. destruct (IH t1) as (t' & -> & I1 & I2 & I3 & I4); [done..|]. exists t'. split; [done|].
  split; [by rewrite I1, H5, <-app_assoc|]. split; [congruence|]. split; [done|by eapply typed_on_trans].
Qed.

Lemma complete_edit e l a : active_line e = Some l ->
  exists l', active_line (complete_active_line e a).2 = Some l' /\
    editor l' = match a with Ok (Applied new c) => replace_line (editor l) new c | _ => editor l end.
Proof.
  intros Hl. unfold complete_active_line, render_line. rewrite Hl.
  destruct a as [[new c|ms|]|]; try destruct (bool_decide _); simpl; by eexists.
Qed.

(** Completion edits one word of the line: on valid text, what is before
    the token at the cursor and what is behind it stay, and a completion that
    cannot be made leaves the line alone; the line is edited on. *)
Theorem completion_keeps_rest turn (t : Terminal K) l :
  active_line (engine t) = Some l -> utf8_valid (line (editor l)) = true ->
  exists l', active_line (engine (request_completion home quote turn t).2) = Some l' /\
    (line (editor l') = line (editor l) \/
     exists start stop word, start <= stop /\ start <= cursor (editor l) /\
       line (editor l') = take start (line (editor l)) ++ word ++ drop stop (line (editor l)) /\
       cursor (editor l') = start + length word).
Proof.
  intros Hl Hv. unfold request_completion. rewrite Hl.
  destruct (completion_edits_total quote home (disk turn) (completions turn)
    (completion_mode (Editor.mode (editor l))) (context t) (line (editor l)) (cursor (editor l))) as (r & -> & Hr).
  rewrite utf8_lossy_valid in Hr by done.
  assert (exists l', active_line (complete_active_line (engine t) (map_err (fun _ => tt) r)).2 = Some l' /\
    (line (editor l') = line (editor l) \/
     exists start stop word, start <= stop /\ start <= cursor (editor l) /\
       line (editor l') = take start (line (editor l)) ++ word ++ drop stop (line (editor l)) /\
       cursor (editor l') = start + length word)) as H.
  { destruct (complete_edit (engine t) l (map_err (fun _ => tt) r) Hl) as (l' & -> & He). exists l'. split; [done|].
    rewrite He. destruct r as [[new c|ms|]|e]; simpl; try by left.
    destruct Hr as (c0 & Hc0 & start & stop & word & [Hs1 Hs2] & [Hp _] & _ & Hnew & Hc). right.
    exists start, stop, word. split; [lia|]. split; [lia|]. split; [done|].
    rewrite Hnew, Hc, !length_app, length_take. lia. }
  destruct (complete_active_line _ _) as [feedback e]. simpl in H. destruct feedback; exact H.
Qed.
End typing.

(** ** Where the session goes wrong *)

Definition demo_engine_and_files : InputEngine * fs :=
  match engine_new [bs "st"] false input_fs with
  | (Ok e, f) => (e, f)
  | (Err _, f) => (demo_engine, f)
  end.

Definition demo_start (msgs : list ChannelMsg) : Loop bytes :=
  drive_new (mk_Session ShellReady (Some 0%N) true true true (client_handler_new [] None Tofu) [] 1 {[ 0%N := msgs ]})
    demo_engine_and_files.1 demo_engine_and_files.2 (Some (bs "/w")).

Definition demo_run (msgs : list ChannelMsg) (evs : list LoopEvent) : option (Loop bytes) :=
  run agreeing (fun _ => []) (Some (bs "/home/u")) None (fun _ => []) demo_split (fun b => b) (demo_start msgs) evs.

Definition demo_turn (during : list (option TerminalEvent)) : Turn :=
  mk_Turn (mk_LocalDisk (fun _ => true) (fun _ => false) (fun _ => None)) [] 24 (Some (Ok (bs "/srv"))) during
    (Ok (bs "0f")) (fun _ => Ok []).

(** Output that arrives while a line is edited is held back. When the line is
    left by Ctrl-C nothing writes it: later output comes first, *)
Lemma later_output_first :
  (fun l => (remote_part (shown (Drive.terminal l)), remote_buffer (Drive.terminal l)))
    <$> demo_run [MData (bs "a"); MData (bs "b")] [Typed (bs "~"); FromPeer; Typed [ascii_of_N 3]; FromPeer]
  = Some (bs "b", bs "a").
Proof. vm_compute. reflexivity. Qed.

(** and at the end of the session it is lost. *)
Lemma held_output_lost :
  (fun l => (outcome l, remote_part (shown (Drive.terminal l)), remote_buffer (Drive.terminal l)))
    <$> demo_run [MData (bs "a"); MClose] [Typed (bs "~"); FromPeer; Typed [ascii_of_N 3]; FromPeer]
  = Some (Some (Ok RemoteClosed), [], bs "a").
Proof. vm_compute. reflexivity. Qed.

(** Ctrl-C during a transfer ends the whole session, with its connections open. *)
Lemma cancelled_transfer_ends_session :
  (fun l => (outcome l, parts (session (Drive.terminal l))))
    <$> demo_run [] [Typed (bs "~put a" ++ [CR]); Act (demo_turn [Some (TData [ascii_of_N 3])])]
  = Some (Some (Err DCancelled), (true, true, true)).
Proof. vm_compute. reflexivity. Qed.

(** ** Witnesses *)

Lemma demo_engine_new : engine_new [bs "st"] false input_fs = (Ok demo_engine_and_files.1, demo_engine_and_files.2).
Proof. vm_compute. reflexivity. Qed.

Lemma peer_output_conserved_witness :
  exists l, demo_run [MData (bs "a"); MExtendedData (bs "oops") 1] [Typed (bs "~"); FromPeer; FromPeer] = Some l /\
    written (Drive.terminal l) = bs "a" /\ shown_errors (Drive.terminal l) = bs "oops".
Proof.
  set (msgs := [MData (bs "a"); MExtendedData (bs "oops") 1]). set (evs := [Typed (bs "~"); FromPeer; FromPeer]).
  destruct (demo_run msgs evs) as [l|] eqn:E; [|vm_compute in E; discriminate E].
  exists l. split; [reflexivity|].
  pose proof (peer_output_conserved _ _ _ _ _ _ _ _ _ _ _ _ _ _ _ _ _ demo_engine_new E) as H.
  set (h := heard _ _ _ _ _ _ _ _ _) in H. assert (h = (bs "a", bs "oops")) as Hh by (vm_compute; reflexivity).
  rewrite Hh in H. destruct H as (_ & H & Herr & _). split; [|exact Herr]. apply H. vm_compute. reflexivity.
Defined.

Lemma interactive_session_ends_witness :
  exists l, demo_run [MClose] [FromPeer] = Some l /\
    transport_resources_released (session (Drive.terminal l)) = true.
Proof.
  destruct (demo_run [MClose] [FromPeer]) as [l|] eqn:E; [|vm_compute in E; discriminate E].
  exists l. split; [reflexivity|].
  pose proof (interactive_session_ends _ _ _ _ _ _ _ _ _ _ _ _ _ _ _ _ _ demo_engine_new E) as H.
  assert (outcome l = Some (Ok RemoteClosed)) as Ho by (vm_compute in E; injection E as <-; reflexivity).
  rewrite Ho in H. destruct H as [H|[(lg & why & H) _]]; [exact H|discriminate H].
Defined.

Lemma typing_reaches_peer_witness :
  exists l, demo_run [] [Typed (bs "ls"); Typed [CR]] = Some l /\ sent (log (session (Drive.terminal l))) = bs "ls" ++ [CR].
Proof.
  destruct (typing_reaches_peer (fun _ => []) (Some (bs "/home/u")) None (fun _ => []) demo_split (fun b => b)
    (session (Drive.terminal (demo_start []))) demo_engine_and_files.1 demo_engine_and_files.2 (Some (bs "/w")) 0%N
    [bs "ls"; [CR]]) as (l & H1 & H2 & _).
  - reflexivity.
  - reflexivity.
  - vm_compute. reflexivity.
  - vm_compute. reflexivity.
  - apply (bool_decide_unpack _). vm_compute. exact I.
  - exists l. split; [exact H1|exact H2].
Defined.

Definition demo_completing : Terminal bytes :=
  match demo_run [] [Typed (bs "~C" ++ [CR]); Act (demo_turn []); Typed (bs "pat")] with
  | Some l => Drive.terminal l
  | None => Drive.terminal (demo_start [])
  end.

Lemma completion_keeps_rest_witness :
  exists l', active_line (engine (request_completion None (fun b => b) (demo_turn []) demo_completing).2) = Some l' /\
    line (editor l') = bs "paths".
Proof.
  destruct (active_line (engine demo_completing)) as [l|] eqn:E; [|vm_compute in E; discriminate E].
  destruct (completion_keeps_rest None (fun b => b) (demo_turn []) demo_completing l E) as (l' & H & _).
  - vm_compute in E. injection E as <-. reflexivity.
  - exists l'. split; [exact H|]. vm_compute in H. injection H as <-. reflexivity.
Defined.
