(* ===== verification/PathTrip.v ===== *)
(** * A remote path, from the client's argument to the server's file

    The client makes a relative argument absolute with the working directory
    it has asked the server for; the server resolves what it gets. *)

From S2P Require Import Prelude Text Fs TransferTypes Paths Conn ShellOps LocalPaths.

Lemma contains_none b c : contains b c = false -> c ∉ b.
Proof. unfold contains. by intros H%bool_decide_eq_false. Qed.

Lemma replace_absent c r b : c ∉ b -> replace_chars [c] r b = b.
Proof.
  induction b as [|d b IH]; [done|]. intros [Hd Hb]%not_elem_of_cons.
  change (replace_chars [c] r (d :: b)) with ((if decide (d ∈ [c]) then r else [d]) ++ replace_chars [c] r b).
  rewrite IH by done. rewrite decide_False; [done|]. intros ->%list_elem_of_singleton. done.
Qed.

Lemma trim_relative b : is_absolute b = false -> trim_start_char "/"%char b = b.
Proof. destruct b as [|c b]; [done|]. intros H. simpl. case_decide; [subst; done|done]. Qed.

Lemma pushed_words ws : Forall proper ws -> pushed (ws ≫= fun c => "/"%char :: c) = reverse ws.
Proof.
  intros Hw. unfold pushed. rewrite split_on_words.
  2: { eapply Forall_impl; [|exact Hw]. by intros c (_ & _ & _ & H). }
  rewrite filter_cons_False by naive_solver. f_equal.
  induction Hw as [|w ws (H1 & H2 & _) _ IH]; [done|]. rewrite filter_cons_True by done. by rewrite IH.
Qed.

Lemma pushed_remote_str p : Forall proper p -> pushed (os_str p) = p.
Proof.
  destruct p as [|c p]; [done|]. intros Hp. unfold os_str.
  rewrite pushed_words by by apply Forall_reverse. apply reverse_involutive.
Qed.

Lemma remote_str_absolute p : is_absolute (os_str p) = true.
Proof.
  destruct p as [|c p]; [done|]. unfold os_str. destruct (reverse (c :: p)) as [|w ws] eqn:E; [|done].
  apply (f_equal length) in E. by rewrite length_reverse in E.
Qed.

Lemma ends_with_last b c : ends_with b [c] = bool_decide (list.last b = Some c).
Proof.
  unfold ends_with. simpl. destruct b as [|d b _] using rev_ind; [done|].
  rewrite length_app, Nat.add_sub, drop_app_length, list.last_snoc. apply bool_decide_ext. naive_solver.
Qed.

(** The joined path lies below the working directory. *)
Lemma pushed_remote_join base raw :
  Forall proper base -> utf8_valid (os_str base) = true -> ends_with (os_str base) (bs "\") = false ->
  "\"%char ∉ raw -> is_absolute raw = false ->
  is_absolute (remote_join false (os_str base) raw) = true /\
  pushed (remote_join false (os_str base) raw) = pushed raw ++ base.
Proof.
  intros Hb Hv He Hs Ha. unfold remote_join. rewrite utf8_lossy_valid, replace_absent, trim_relative by done.
  change ["\"%char] with (bs "\"). rewrite He, orb_false_r, ends_with_last.
  pose proof (remote_str_absolute base) as Habs. split.
  { destruct (os_str base); [done|]. exact Habs. }
  case_bool_decide as Hl; simpl; [|by rewrite pushed_sep, pushed_remote_str].
  rewrite <-(pushed_remote_str base) at 2 by done.
  destruct (os_str base) as [|c b _] using rev_ind; [done|]. rewrite list.last_snoc in Hl. injection Hl as ->.
  rewrite <-app_assoc. simpl. by rewrite !pushed_sep.
Qed.

Lemma trim_start_slash b : trim_start ("/"%char :: b) = "/"%char :: b.
Proof.
  unfold trim_start. simpl. destruct (List.find (starts_with ("/"%char :: b)) whitespace) as [w|] eqn:E; [|done].
  apply List.find_some in E as [Hw E]. exfalso. unfold starts_with in E. apply bool_decide_eq_true in E.
  apply list_elem_of_In, whitespace_not_graphic in Hw as (c & r & -> & Hg). simpl in E.
  injection E as <- _. by inversion Hg.
Qed.

Lemma trim_end_one_slash fuel b : trim_end_fuel fuel ("/"%char :: b) <> [].
Proof.
  revert b. induction fuel as [|fuel IH]; intros b; [done|]. cbn [trim_end_fuel].
  destruct (List.find (ends_with ("/"%char :: b)) whitespace) as [w|] eqn:E; [|done].
  apply List.find_some in E as [Hw E]. unfold ends_with in E. apply bool_decide_eq_true in E.
  apply list_elem_of_In, whitespace_not_graphic in Hw as (c & r & Hwc & Hg).
  destruct (length ("/"%char :: b) - length w) as [|n] eqn:Hn; [|apply IH].
  exfalso. rewrite drop_0 in E. rewrite <-E in Hg. by inversion Hg.
Qed.

Lemma trim_absolute b : is_absolute b = true -> trim b <> [].
Proof.
  intros [r ->]%starts_with_one. unfold trim. rewrite trim_start_slash. apply trim_end_one_slash.
Qed.

(** A relative argument: not [.], not below the home directory, and without a
    backslash. *)
Record relative_argument (raw : bytes) : Prop := {
  ra_slash : "\"%char ∉ raw;
  ra_relative : is_absolute raw = false;
  ra_not_here : current_dir_name raw = false;
  ra_not_home : raw <> bs "~" /\ strip_tilde_slash raw = None;
}.

(** C25: A relative remote path means the same at both ends: what the client
    makes of it with the server's working directory, the server resolves to
    the file of that name in this directory, [..] included, as long as the
    names hold no backslash. *)
Theorem remote_path_roundtrip {E} process_cwd home_dir ctx base raw :
  cwd process_cwd home_dir ctx = Ok base -> Forall proper base -> utf8_valid (os_str base) = true ->
  ends_with (os_str base) (bs "\") = false -> relative_argument raw ->
  exists sent, resolve_remote_source_path (E := E) (Some (Ok (os_str base))) false raw = Some (Ok sent) /\
    resolve_path process_cwd home_dir ctx sent = Ok (path_join base raw).
Proof.
  intros Hc Hb Hv He [Hs Ha Hd [Ht Hh]]. unfold resolve_remote_source_path, resolve_remote_path.
  rewrite Hd, Ha, Hh, decide_False by done. eexists. split; [done|].
  destruct (pushed_remote_join base raw) as [H1 H2]; [done..|].
  unfold resolve_path. rewrite decide_False by by apply trim_absolute.
  rewrite H1, H2. unfold path_join. by rewrite Ha.
Qed.

Lemma remote_path_roundtrip_witness :
  exists sent, resolve_remote_source_path (E := unit) (Some (Ok (bs "/home/u"))) false (bs "a/b") = Some (Ok sent) /\
    resolve_path (fun _ => None) (Some [bs "u"; bs "home"]) Stateless sent = Ok [bs "b"; bs "a"; bs "u"; bs "home"].
Proof.
  destruct (remote_path_roundtrip (E := unit) (fun _ => None) (Some [bs "u"; bs "home"]) Stateless
    [bs "u"; bs "home"] (bs "a/b")) as (sent & H1 & H2).
  - reflexivity.
  - apply (bool_decide_unpack _). vm_compute. exact I.
  - reflexivity.
  - reflexivity.
  - split; [apply (bool_decide_unpack _); vm_compute; exact I|reflexivity|reflexivity|split; [discriminate|reflexivity]].
  - exists sent. split; [exact H1|]. rewrite H2. vm_compute. reflexivity.
Defined.
