(* ===== verification/Wormhole.v ===== *)
(** * Wormholes: [src/transport/wormhole.rs] and [cli/src/commands/wormhole.rs]

    How a wormhole is started and found: the code, the rules the command line
    checks before it opens one, and the rendezvous over Pkarr. Pkarr, SHA-256
    and the random numbers are arguments, and so are the answers of the user
    and of the running daemon. *)

From S2P Require Import Prelude Text Stream Fs StorageUtils Vault Trust Auth AuthSystem Config Peers.
From S2P Require Import ServerLoop Ipc HostKey Connect ConnectFacts LocalPaths.

(** ** Codes *)

Definition WORDS : list bytes := bs <$>
  ["apple"; "banana"; "cherry"; "dog"; "elephant"; "fox"; "grape"; "honey"; "iron"; "jungle";
   "kite"; "lemon"; "mountain"; "night"; "ocean"; "piano"; "quartz"; "river"; "sky"; "tiger";
   "umbrella"; "valley"; "whale"; "xray"; "yellow"; "zebra"; "amber"; "bright"; "crystal";
   "delta"; "echo"; "frost"]%string.

(** [generate_code], of the three numbers it draws: two indices and a digit. *)
Definition generate_code (i j : nat) (n : N) : option bytes :=
  w1 ← WORDS !! i;
  w2 ← WORDS !! j;
  Some (w1 ++ bs "-" ++ w2 ++ bs "-" ++ decimal n).

(** The ranges they are drawn from. *)
Definition drawn (i j : nat) (n : N) : Prop := i < length WORDS /\ j < length WORDS /\ (1 <= n < 10)%N.

(** ** Rendezvous *)

Section rendezvous.
Context {Keypair Ticket : Type}.
Variable sha256 : bytes -> bytes.
Variable from_secret_key : bytes -> Keypair.
Variable ticket_from_str : bytes -> option Ticket.
Variable ticket_to_string : Ticket -> bytes.

Definition WORMHOLE_PKARR_SALT : bytes := bs "irosh-wormhole-v1".

Definition derive_keypair (code : bytes) : Keypair := from_secret_key (sha256 (WORMHOLE_PKARR_SALT ++ code)).

Definition TICKET_PREFIX : bytes := bs "irosh-ticket=".

(** The text record that [broadcast_ticket_loop] signs and publishes. *)
Definition broadcast_record (ticket : Ticket) : bytes := TICKET_PREFIX ++ ticket_to_string ticket.

(** One record of a resolved packet. *)
Definition read_record (content : bytes) : option Ticket :=
  if starts_with content TICKET_PREFIX then ticket_from_str (drop (length TICKET_PREFIX) content) else None.

Fixpoint first_ticket (records : list bytes) : option Ticket :=
  match records with
  | [] => None
  | content :: records =>
      match read_record content with Some t => Some t | None => first_ticket records end
  end.

(** The loop of [listen_for_ticket]: [resolve i] is the answer to the [i]-th
    query, the text records of the packet, or [None] for an error. *)
Fixpoint listen_loop (resolve : nat -> option (list bytes)) (i more : nat) : option Ticket :=
  match more with
  | O => None
  | S more =>
      match first_ticket (default [] (resolve i)) with
      | Some t => Some t
      | None => listen_loop resolve (S i) more
      end
  end.

Inductive RendezvousError : Type := DiscoveryTimedOut | WormholeNotFound (code : bytes).

Definition listen_for_ticket (resolve : nat -> option (list bytes)) : result RendezvousError Ticket :=
  match listen_loop resolve 0 60 with
  | Some t => Ok t
  | None => Err DiscoveryTimedOut
  end.

(** [Client::connect_wormhole]: [overdue] when the deadline of 300 seconds
    passes first. *)
Definition connect_wormhole (resolve : nat -> option (list bytes)) (overdue : bool) (code : bytes) :
    result RendezvousError Ticket :=
  if overdue then Err (WormholeNotFound code) else listen_for_ticket resolve.
End rendezvous.

(** ** The command [irosh wormhole] *)

Inductive WormholeError : Type :=
| WStorage (e : storage_error)
| DaemonNotRunning
| UserCancelled
| InitiationBlocked
| CodeTooShort
| NoPasswordEntered
| HashFailed.

(** What the command goes on with: [handle_status], [handle_disable], or a
    wormhole with a custom code and a password hash, in the daemon or in the
    foreground. *)
Inductive WormholeAction : Type :=
| HandleStatus
| HandleDisable
| StartWormhole (daemon : bool) (code : option bytes) (password : option bytes) (persistent : bool).

Section command.
Context {St K : Type} {VS : VaultStore St K}.

Abbreviation W := (M St WormholeError).

(** [GetStatus] is tried once, and ten times more. *)
Definition daemon_answers (status : nat -> bool) : bool := existsb status (seq 0 11).

Definition is_code (code : option bytes) (words : list string) : bool :=
  match code with Some c => bool_decide (c ∈ (bs <$> words)) | None => false end.

(** The security guard on custom codes. *)
Definition code_long_enough (protected_ : bool) (code : option bytes) : bool :=
  match code with Some c => protected_ || (8 <=? blen c)%N | None => true end.

Definition exec (status : nat -> bool) (confirm : bool) (password_input : option bytes)
    (hash_password : bytes -> option bytes) (code : option bytes) (passwd persistent : bool) : W WormholeAction :=
  let daemon_running := daemon_answers status in
  if is_code code ["status"]%string then
    if daemon_running then mret HandleStatus else throw DaemonNotRunning
  else if is_code code ["disable"; "stop"]%string then
    if daemon_running then mret HandleDisable else throw DaemonNotRunning
  else
    let code := if is_code code ["enable"]%string then None else code in
    shadow ← M_map_err WStorage load_shadow;
    vault ← M_map_err WStorage (load_vault (K := K));
    let has_node_password := bool_decide (is_Some shadow) in
    (if passwd || has_node_password then mret tt
     else match vault with
          | [] => ensure confirm UserCancelled
          | _ => throw InitiationBlocked
          end);;
    ensure (code_long_enough (passwd || has_node_password) code) CodeTooShort;;
    hash ←
      (if passwd then
         match password_input with
         | Some (c :: pw) =>
             match hash_password (c :: pw) with
             | Some h => mret (Some h)
             | None => throw HashFailed
             end
         | _ => throw NoPasswordEntered
         end
       else mret None);
    mret (StartWormhole daemon_running code hash persistent).
End command.

(** [handle_enable_daemon] and [handle_foreground_wormhole]: what the control
    loop is sent, with the code that is drawn when none is given. In the
    foreground the receiver of the answer is dropped at once. *)
Definition daemon_request (generated : bytes) (code password : option bytes) (persistent : bool) : IpcCommand :=
  CmdEnableWormhole (default generated code) password persistent.

Definition foreground_command (generated : bytes) (code password : option bytes) (persistent : bool) : InternalCommand :=
  EnableWormhole (default generated code) password persistent None.

(** ** Lemmas *)

(** A word of the list: short, in small letters, and no beginning of what is
    taken for a ticket. *)
Definition word_ok (w : bytes) : bool :=
  bool_decide (length w <= 8) && forallb (byte_in 97 122) w &&
  forallb (fun p => negb (starts_with w (take 3 (bs p)))) ["endpoint"; "ticket"; "node"; "{"]%string &&
  bool_decide (3 <= length w).

Lemma words_ok w : w ∈ WORDS -> word_ok w = true.
Proof.
  assert (Forall (fun w => word_ok w = true) WORDS) as H by (apply (bool_decide_unpack _); vm_compute; exact I).
  rewrite Forall_forall in H. intros Hw. by apply H, list_elem_of_In.
Qed.

Lemma words_nodup : NoDup WORDS.
Proof. apply (bool_decide_unpack _). vm_compute. exact I. Qed.

Lemma word_letters w c : w ∈ WORDS -> c ∈ w -> byte_in 97 122 c = true.
Proof.
  intros Hw%words_ok Hc. unfold word_ok in Hw. rewrite !andb_true_iff in Hw. destruct Hw as [[[_ Hw] _] _].
  rewrite forallb_forall in Hw. by apply Hw, list_elem_of_In.
Qed.

Lemma word_no_dash w : w ∈ WORDS -> "-"%char ∉ w.
Proof. intros Hw Hc. by apply (word_letters w) in Hc. Qed.

Lemma decimal_digit n : (1 <= n < 10)%N -> decimal n = [ascii_of_N (48 + n)].
Proof.
  intros Hn. assert (n = 1 \/ n = 2 \/ n = 3 \/ n = 4 \/ n = 5 \/ n = 6 \/ n = 7 \/ n = 8 \/ n = 9)%N as H by lia.
  destruct_or! H; subst n; reflexivity.
Qed.

Lemma generate_code_parts i j n :
  drawn i j n -> exists w1 w2, WORDS !! i = Some w1 /\ WORDS !! j = Some w2 /\
    generate_code i j n = Some (w1 ++ "-"%char :: w2 ++ "-"%char :: [ascii_of_N (48 + n)]).
Proof.
  intros (Hi & Hj & Hn). destruct (lookup_lt_is_Some_2 _ _ Hi) as [w1 H1], (lookup_lt_is_Some_2 _ _ Hj) as [w2 H2].
  exists w1, w2. unfold generate_code. rewrite H1, H2, decimal_digit by done. done.
Qed.

Lemma code_split w1 w2 d : w1 ∈ WORDS -> w2 ∈ WORDS -> d <> "-"%char ->
  split_on "-"%char (w1 ++ "-"%char :: w2 ++ "-"%char :: [d]) = [w1; w2; [d]].
Proof.
  intros H1%word_no_dash H2%word_no_dash Hd. rewrite split_on_sep, split_on_none by done.
  rewrite split_on_sep, split_on_none by done. rewrite split_on_none; [done|].
  intros H%list_elem_of_singleton. congruence.
Qed.

Lemma digit_dash n : (1 <= n < 10)%N -> ascii_of_N (48 + n) <> "-"%char.
Proof.
  intros Hn E. apply (f_equal N_of_ascii) in E. rewrite N_ascii_embedding in E by lia.
  change (N_of_ascii "-"%char) with 45%N in E. lia.
Qed.

(** ** Properties *)

(** A generated code names its draw: different draws give different
    codes, so there are 32 times 32 times 9 of them, and no more. *)
Theorem generated_code_injective i j n i' j' n' code :
  drawn i j n -> drawn i' j' n' -> generate_code i j n = Some code -> generate_code i' j' n' = Some code ->
  i = i' /\ j = j' /\ n = n'.
Proof.
  intros Hd Hd' H H'. destruct (generate_code_parts i j n Hd) as (w1 & w2 & H1 & H2 & E).
  destruct (generate_code_parts i' j' n' Hd') as (w1' & w2' & H1' & H2' & E').
  assert (w1 ++ "-"%char :: w2 ++ "-"%char :: [ascii_of_N (48 + n)] =
          w1' ++ "-"%char :: w2' ++ "-"%char :: [ascii_of_N (48 + n')]) as Ec by congruence.
  destruct Hd as (_ & _ & Hn), Hd' as (_ & _ & Hn').
  apply (f_equal (split_on "-"%char)) in Ec.
  rewrite !code_split in Ec by eauto using list_elem_of_lookup_2, digit_dash.
  injection Ec as -> -> Hdig. apply (f_equal N_of_ascii) in Hdig. rewrite !N_ascii_embedding in Hdig by lia.
  split_and!; [by eapply (NoDup_lookup WORDS); [apply words_nodup|..]|by eapply (NoDup_lookup WORDS); [apply words_nodup|..]|lia].
Qed.

Lemma code_graphic i j n code :
  drawn i j n -> generate_code i j n = Some code ->
  Forall (fun c => graphic c = true) code /\ looks_like_ticket code = false /\ code <> [].
Proof.
  intros Hd H. destruct (generate_code_parts i j n Hd) as (w1 & w2 & H1%list_elem_of_lookup_2 & H2%list_elem_of_lookup_2 & E).
  rewrite E in H. injection H as <-. destruct Hd as (_ & _ & Hn). split; [|split].
  - assert (forall w, w ∈ WORDS -> Forall (fun c => graphic c = true) w) as Hw.
    { intros w Hw. apply Forall_forall. intros c Hc%list_elem_of_In%(word_letters w); [|done].
      unfold graphic, byte_in in *. rewrite andb_true_iff, !N.leb_le in *. lia. }
    apply Forall_app. split; [by apply Hw|]. constructor; [done|]. apply Forall_app. split; [by apply Hw|].
    constructor; [done|]. constructor; [|constructor]. unfold graphic, byte_in. rewrite N_ascii_embedding by lia.
    apply andb_true_iff. rewrite !N.leb_le. lia.
  - pose proof (words_ok w1 H1) as Hw1. pose proof (words_ok w2 H2) as Hw2. unfold word_ok in *.
    rewrite !andb_true_iff, !bool_decide_eq_true in *. destruct Hw1 as [[[L1 _] P1] M1], Hw2 as [[[L2 _] _] _].
    assert (forall p x, forallb (fun p => negb (starts_with w1 (take 3 (bs p)))) ["endpoint"; "ticket"; "node"; "{"]%string = true ->
      p ∈ ["endpoint"; "ticket"; "node"; "{"]%string -> starts_with (w1 ++ x) (bs p) = false) as Hp.
    { intros p x HF Hin%list_elem_of_In. rewrite forallb_forall in HF. apply HF, negb_true_iff in Hin.
      unfold starts_with in *. apply bool_decide_eq_false in Hin. apply bool_decide_eq_false. intros Ex. apply Hin.
      rewrite <-Ex at 2. rewrite take_take, length_take.
      rewrite take_app_le by lia. by f_equal. }
    unfold looks_like_ticket. rewrite (Hp "endpoint"%string), (Hp "ticket"%string), (Hp "node"%string), (Hp "{"%string)
      by first [exact P1|apply (bool_decide_unpack _); vm_compute; exact I]. rewrite !orb_false_r. apply N.ltb_ge.
    unfold blen. rewrite length_app. cbn [length]. rewrite length_app. simpl. lia.
  - by destruct w1.
Qed.

(** A generated code works on the other side: unless a peer was saved
    under that name or it happens to be a ticket, the client takes it for the
    code of a wormhole, as it is. *)
Theorem generated_code_connects {SJ : SerdeJson} {Ticket} {PT : Payload Ticket} ticket_from_str root i j n code peers s s' :
  drawn i j n -> generate_code i j n = Some code -> ticket_from_str code = None ->
  list_peers (Ticket := Ticket) root s = (Ok peers, s') -> Forall (fun p => name p <> code) peers ->
  parse_target ticket_from_str root code s = (Ok (TargetWormhole (mk_WormholeCode code)), s').
Proof.
  intros Hd Hc Ht Hl Hp. destruct (code_graphic i j n code Hd Hc) as (Hg & Hlook & Hne).
  unfold parse_target. rewrite trim_graphic, Ht by done.
  unfold M_map_err, mbind, M_bind. rewrite Hl. cbn [map_err].
  destruct (list_find _ peers) as [[k p]|] eqn:Hf.
  { apply list_find_Some in Hf as (Hk & Hn & _). rewrite Forall_forall in Hp. exfalso. apply (Hp p); [|done].
    apply list_elem_of_In. by eapply list_elem_of_lookup_2. }
  rewrite Hlook. unfold wormhole_code_new. rewrite trim_graphic by done. by rewrite decide_False.
Qed.

Lemma listen_loop_spec {Ticket} (from_str : bytes -> option Ticket) resolve i more :
  match listen_loop from_str resolve i more with
  | Some t => exists k, i <= k < i + more /\ first_ticket from_str (default [] (resolve k)) = Some t /\
                forall j, i <= j < k -> first_ticket from_str (default [] (resolve j)) = None
  | None => forall j, i <= j < i + more -> first_ticket from_str (default [] (resolve j)) = None
  end.
Proof.
  revert i. induction more as [|more IH]; intros i; simpl; [intros; lia|].
  destruct (first_ticket _ (default [] (resolve i))) as [t|] eqn:E.
  - exists i. split; [lia|]. split; [done|]. intros; lia.
  - specialize (IH (S i)). destruct (listen_loop _ _ _ _).
    + destruct IH as (k & Hk & Ht & Hn). exists k. split; [lia|]. split; [done|].
      intros j Hj. destruct (decide (j = i)) as [->|]; [done|]. apply Hn. lia.
    + intros j Hj. destruct (decide (j = i)) as [->|]; [done|]. apply IH. lia.
Qed.

Lemma first_ticket_app {Ticket} (from_str : bytes -> option Ticket) l1 l2 :
  first_ticket from_str l1 = None -> first_ticket from_str (l1 ++ l2) = first_ticket from_str l2.
Proof. induction l1 as [|c l1 IH]; [done|]. simpl. by destruct (read_record _ c). Qed.

(** The rendezvous: the client finds the ticket that the server published
    under the code, behind any records that are no tickets, at the first of
    its sixty queries that shows one; with none it gives up in time. *)
Theorem rendezvous_roundtrip {Ticket} from_str to_string (t : Ticket) code resolve :
  from_str (to_string t) = Some t ->
  connect_wormhole from_str resolve true code = Err (WormholeNotFound code) /\
  match connect_wormhole from_str resolve false code with
  | Ok t' => exists k, k < 60 /\ first_ticket from_str (default [] (resolve k)) = Some t' /\
               forall j, j < k -> first_ticket from_str (default [] (resolve j)) = None
  | Err e => e = DiscoveryTimedOut /\ forall j, j < 60 -> first_ticket from_str (default [] (resolve j)) = None
  end /\
  forall k l1 l2, k < 60 -> (forall j, j < k -> first_ticket from_str (default [] (resolve j)) = None) ->
    first_ticket from_str l1 = None -> resolve k = Some (l1 ++ broadcast_record to_string t :: l2) ->
    connect_wormhole from_str resolve false code = Ok t.
Proof.
  intros Hs. split; [done|]. unfold connect_wormhole, listen_for_ticket.
  pose proof (listen_loop_spec from_str resolve 0 60) as H. split.
  - destruct (listen_loop _ _ _ _).
    + destruct H as (k & Hk & H1 & H2). exists k. split; [lia|]. split; [done|]. intros j Hj. apply H2. lia.
    + split; [done|]. intros j Hj. apply H. lia.
  - intros k l1 l2 Hk Hn Hl Hr. assert (first_ticket from_str (default [] (resolve k)) = Some t) as Hf.
    { rewrite Hr. simpl. rewrite first_ticket_app by done. simpl. unfold read_record, broadcast_record, starts_with.
      rewrite take_app_length, bool_decide_true by done. by rewrite drop_app_length, Hs. }
    destruct (listen_loop _ _ _ _) as [t'|].
    + destruct H as (k' & Hk' & H1 & H2). assert (k' = k) as ->; [|congruence].
      destruct (lt_eq_lt_dec k' k) as [[Hlt|]|Hlt]; [|done|].
      * rewrite Hn in H1 by lia. done.
      * rewrite H2 in Hf by lia. done.
    + rewrite H in Hf by lia. done.
Qed.

(** C12: An open door is opened on purpose: the command starts a wormhole only
    with a fresh password, with a node password, or, on the user's word, for an
    empty vault; without any password a code of the user's own has at least
    eight bytes. *)
Theorem wormhole_initiation {St K} {VS : VaultStore St K} status confirm input hash_password code passwd persistent s
    daemon code' password persistent' s' :
  exec (K := K) status confirm input hash_password code passwd persistent s =
    (Ok (StartWormhole daemon code' password persistent'), s') ->
  persistent' = persistent /\ daemon = daemon_answers status /\
  (code' = code \/ (code = Some (bs "enable") /\ code' = None)) /\
  match password with
  | Some h => passwd = true /\ exists pw, pw <> [] /\ input = Some pw /\ hash_password pw = Some h
  | None => passwd = false /\
      ((exists h s1, load_shadow s = (Ok (Some h), s1)) \/
       (exists s1 s2, load_shadow s = (Ok None, s1) /\ load_vault (K := K) s1 = (Ok [], s2) /\ confirm = true /\
          forall c, code' = Some c -> (8 <= blen c)%N))
  end.
Proof.
  unfold exec. destruct (is_code code ["status"]%string); [by case_match|].
  destruct (is_code code ["disable"; "stop"]%string); [by case_match|].
  set (c := if is_code code ["enable"]%string then None else code).
  assert (c = code \/ (code = Some (bs "enable") /\ c = None)) as Hc.
  { subst c. unfold is_code. destruct code as [w|]; [|by left]. case_bool_decide as Hw; [|by left]. right.
    by apply list_elem_of_singleton in Hw as ->. }
  intros (shadow & s1 & H1 & H)%bind_ok_inv. apply bind_ok_inv in H as (vault & s2 & H2 & H).
  apply bind_ok_inv in H as ([] & s3 & H3 & H). apply bind_ok_inv in H as ([] & s4 & H4 & H).
  apply bind_ok_inv in H as (h & s5 & H5 & [= <- <- <- <- <-]).
  split; [done|]. split; [done|]. split; [done|].
  assert (load_shadow s = (Ok shadow, s1)) as L1.
  { unfold M_map_err in H1. destruct (load_shadow s) as [[]]; naive_solver. }
  assert (load_vault (K := K) s1 = (Ok vault, s2)) as L2.
  { unfold M_map_err in H2. destruct (load_vault s1) as [[]]; naive_solver. }
  destruct passwd; simpl in *.
  - destruct input as [[|x pw]|]; try done. destruct (hash_password (x :: pw)) as [h'|] eqn:Eh; [|done].
    injection H5 as <- <-. split; [done|]. by exists (x :: pw).
  - injection H5 as <- <-. split; [done|]. destruct shadow as [h|]; [left; eauto|right].
    rewrite bool_decide_false in * by (by intros []). exists s1, s2. split; [done|].
    destruct vault; [|done]. split; [done|]. unfold ensure in *. destruct confirm; [|done]. split; [done|].
    intros w ->. simpl in H4. destruct (8 <=? blen w)%N eqn:E; [by apply N.leb_le|done].
Qed.

(** A code the guard lets through and no client can use: it looks like a
    ticket. *)
Lemma custom_code_unreachable :
  let code := bs "node-of-ann" in
  (exec (VS := mem_vault bytes) (K := bytes) (fun _ => true) true None (fun _ => None) (Some code) false false ([], None)).1
    = Ok (StartWormhole true (Some code) None false) /\
  looks_like_ticket code = true.
Proof. split; reflexivity. Qed.

(** ** Witnesses *)

Lemma generated_code_injective_witness : (0 = 0 /\ 1 = 1 /\ 7%N = 7%N).
Proof.
  apply (generated_code_injective 0 1 7 0 1 7 (bs "apple-banana-7"));
    [by (unfold drawn; cbn; lia)..|reflexivity|reflexivity].
Defined.

Lemma generated_code_connects_witness :
  (@parse_target bit_json N N_payload (fun _ => None) [bs "srv"] (bs "apple-banana-7") (demo_fs (fun _ => None))).1
  = Ok (TargetWormhole (mk_WormholeCode (bs "apple-banana-7"))).
Proof.
  rewrite (@generated_code_connects bit_json N N_payload (fun _ => None) [bs "srv"] 0 1 7 (bs "apple-banana-7") []
    (demo_fs (fun _ => None)) (@list_peers bit_json N N_payload [bs "srv"] (demo_fs (fun _ => None))).2); [reflexivity|..].
  - unfold drawn. cbn. lia.
  - reflexivity.
  - reflexivity.
  - refine (pair_fst (@list_peers bit_json N N_payload [bs "srv"] (demo_fs (fun _ => None))) _ _). vm_compute. reflexivity.
  - constructor.
Defined.

Lemma rendezvous_roundtrip_witness :
  connect_wormhole (fun b => Some b) (fun i => if decide (i = 3) then Some [bs "v=1"; bs "irosh-ticket=t"] else None)
    false (bs "apple-banana-7") = Ok (bs "t").
Proof.
  destruct (rendezvous_roundtrip (fun b => Some b) (fun b => b) (bs "t") (bs "apple-banana-7")
    (fun i => if decide (i = 3) then Some [bs "v=1"; bs "irosh-ticket=t"] else None) eq_refl) as (_ & _ & H).
  apply (H 3 [bs "v=1"] []).
  - lia.
  - intros j Hj. rewrite decide_False by lia. reflexivity.
  - reflexivity.
  - reflexivity.
Defined.

Lemma wormhole_initiation_witness :
  exists s1 s2, load_shadow (VaultStore := mem_vault bytes) ([], None) = (Ok None, s1) /\
    load_vault (VaultStore := mem_vault bytes) s1 = (Ok [], s2).
Proof.
  destruct (wormhole_initiation (VS := mem_vault bytes) (K := bytes) (fun _ => false) true None (fun _ => None) None false true
    ([], None) false None None true ([], None)) as (_ & _ & _ & _ & [(h & s1 & H)|(s1 & s2 & H1 & H2 & _)]).
  - reflexivity.
  - discriminate H.
  - exists s1, s2. split; [exact H1|exact H2].
Defined.
