(* ===== verification/Startup.v ===== *)
(** * Starting a server: [src/server/startup.rs], [src/transport/iroh.rs] and
    the router of [Server::run]

    Which authenticator a server gets, which methods it advertises, under
    which protocol names it can be reached, and which relays it uses. SHA-256,
    the protocol names of the gossip and blob libraries and the parser of
    relay addresses are arguments. *)

From S2P Require Import Prelude Text Fs StorageUtils Vault Auth AuthFacts AuthSystem AuthBackends.

(** ** The authenticator *)

(** [auth::AuthMode] *)
Inductive AuthMode : Type := KeyMode | PasswordMode | CombinedMode | UnifiedMode.

Inductive StartupError : Type :=
| StartupStorage (e : storage_error)
| AuthConfiguration (reason : bytes).

Section authenticator.
Context {St K : Type} {VS : VaultStore St K} {SK : SshKey K}.
Variable verify_password : bytes -> bytes -> result PasswordError unit.

(** What [Arc<dyn Authenticator>] holds; [C] is a custom authenticator. *)
Inductive ServerAuthenticator (C : Type) : Type :=
| CustomAuthenticator (c : C)
| KeyOnlyAuthenticator (a : KeyOnlyAuth (St := St) (K := K))
| PasswordAuthenticator (a : PasswordAuth)
| CombinedAuthenticator (a : CombinedAuth (St := St) (K := K))
| UnifiedAuthenticator (cfg : UnifiedConfig) (a : Session (St := St) (K := K)).
Arguments CustomAuthenticator {C} c.
Arguments KeyOnlyAuthenticator {C} a.
Arguments PasswordAuthenticator {C} a.
Arguments CombinedAuthenticator {C} a.
Arguments UnifiedAuthenticator {C} cfg a.

Definition vault_keys : M St StartupError (list K) :=
  vault ← M_map_err StartupStorage load_vault;
  mret vault.*2.

(** [KeyOnlyAuth::new] *)
Definition key_only_new (p : HostKeyPolicy) : M St StartupError (KeyOnlyAuth (St := St) (K := K)) :=
  keys ← vault_keys;
  st ← read_state;
  mret (mk_KeyOnlyAuth p keys st).

Definition require_shadow (reason : string) : M St StartupError bytes :=
  hash ← M_map_err StartupStorage (load_shadow (K := K));
  match hash with
  | Some hash => mret hash
  | None => throw (AuthConfiguration (bs reason))
  end.

(** The authenticator of [bind_server]. *)
Definition build_authenticator {C} (custom : option C) (mode : AuthMode) (p : HostKeyPolicy) :
    M St StartupError (ServerAuthenticator C) :=
  match custom, mode with
  | Some c, _ => mret (CustomAuthenticator c)
  | None, KeyMode => a ← key_only_new p; mret (KeyOnlyAuthenticator a)
  | None, PasswordMode =>
      hash ← require_shadow "Password auth requested but no password set. Run 'irosh passwd set' first.";
      mret (PasswordAuthenticator (password_auth_new hash))
  | None, CombinedMode =>
      key_auth ← key_only_new p;
      hash ← require_shadow
        "Combined auth (key+password) requested but no password set. Run 'irosh passwd set' first.";
      mret (CombinedAuthenticator (mk_CombinedAuth key_auth (password_auth_new hash)))
  | None, UnifiedMode =>
      keys ← vault_keys;
      st ← read_state;
      mret (UnifiedAuthenticator (mk_UnifiedConfig p None false false) (Auth.new keys st))
  end.

(** The answers of an authenticator, without what they change. *)
Definition methods_of {C} (custom : C -> list AuthMethod) (a : ServerAuthenticator C) : result IroshError (list AuthMethod) :=
  match a with
  | CustomAuthenticator c => Ok (custom c)
  | KeyOnlyAuthenticator _ => Ok [PublicKey]
  | PasswordAuthenticator _ => Ok [Password]
  | CombinedAuthenticator _ => Ok [PublicKey; Password]
  | UnifiedAuthenticator cfg a => (supported_methods cfg a).1
  end.

Definition answer_key {C} (custom : C -> K -> result IroshError bool) (now : N) (user : bytes) (key : K)
    (a : ServerAuthenticator C) : result IroshError bool :=
  match a with
  | CustomAuthenticator c => custom c key
  | KeyOnlyAuthenticator a => (ko_check_public_key now user key a).1
  | PasswordAuthenticator a => (pa_check_public_key now user key a).1
  | CombinedAuthenticator a => (combined_check_public_key now user key a).1
  | UnifiedAuthenticator cfg a => (check_public_key cfg now key a).1
  end.

Definition answer_password {C} (custom : C -> bytes -> result IroshError bool) (now : N) (user password : bytes)
    (a : ServerAuthenticator C) : result IroshError bool :=
  match a with
  | CustomAuthenticator c => custom c password
  | KeyOnlyAuthenticator a => (ko_check_password now user password a).1
  | PasswordAuthenticator a => (pa_check_password verify_password now user password a).1
  | CombinedAuthenticator a => (combined_check_password verify_password now user password a).1
  | UnifiedAuthenticator cfg a => (check_password verify_password cfg now password a).1
  end.

(** [build_method_set]: a set of [MethodKind]s has no order. *)
Definition build_method_set (methods : list AuthMethod) : bool * bool :=
  foldl (fun set m => match m with PublicKey => (true, set.2) | Password => (set.1, true) end) (false, false) methods.
End authenticator.
Arguments ServerAuthenticator St K C : clear implicits.

(** ** Protocol names *)

Section alpn.
Variable sha256 : bytes -> bytes.
Variables gossip_alpn blobs_alpn : bytes.

Definition BASE_ALPN : bytes := bs "irosh/1".
Definition PAIRING_ALPN : bytes := bs "irosh/pairing/v1".

Definition derive_alpn (secret : option bytes) : bytes :=
  match secret with
  | None => BASE_ALPN
  | Some s => utf8_lossy BASE_ALPN ++ bs "/" ++ hex_of (take 8 (sha256 s))
  end.

(** The names [bind_server] binds the endpoint with. *)
Definition bound_alpns (secret : option bytes) : list bytes :=
  match secret with
  | Some _ => [derive_alpn secret; gossip_alpn]
  | None => [derive_alpn secret; gossip_alpn; PAIRING_ALPN]
  end.

Inductive Protocol : Type := SshSession | SshPairing | Gossip | Blobs.

(** The handlers of the router in [Server::run]. *)
Definition router (secret : option bytes) : list (bytes * Protocol) :=
  [(derive_alpn secret, SshSession); (gossip_alpn, Gossip); (blobs_alpn, Blobs)] ++
  match secret with Some _ => [] | None => [(PAIRING_ALPN, SshPairing)] end.

(** Who answers a connection. *)
Definition routed (secret : option bytes) (alpn : bytes) : option Protocol :=
  snd <$> List.find (fun h => bool_decide (h.1 = alpn)) (router secret).

(** The name the client dials: [dial_p2p]. *)
Definition client_alpn (is_pairing : bool) (secret : option bytes) : bytes :=
  if is_pairing then PAIRING_ALPN else derive_alpn secret.
End alpn.

(** ** Relays *)

Section relay.
Context {RelayUrl : Type}.
Variable relay_url_from_str : bytes -> option RelayUrl.

Inductive RelayMode : Type := RelayDisabled | RelayDefault | RelayCustom (url : RelayUrl).

Definition parse_relay_mode (url : bytes) : result bytes RelayMode :=
  if decide (url = bs "disabled") then Ok RelayDisabled
  else if decide (url = bs "default") then Ok RelayDefault
  else if starts_with url (bs "http") then
    match relay_url_from_str url with
    | Some u => Ok (RelayCustom u)
    | None => Err url
    end
  else Ok RelayDefault.

(** The relay of the stable ticket of [inspect_server]. *)
Definition inspected_relay (relay_url : option bytes) : option RelayUrl :=
  let relay_url := default (bs "default") relay_url in
  if decide (relay_url = bs "disabled") then None
  else relay_url_from_str (if decide (relay_url = bs "default") then bs "https://relay.iroh.network" else relay_url).
End relay.

(** ** Lemmas *)

(** A hexadecimal digit's value. *)
Definition unhex (c : ascii) : N := let n := N_of_ascii c in if (n <? 58)%N then n - 48 else n - 87.

Fixpoint unhex_of (b : bytes) : bytes :=
  match b with
  | c :: d :: r => ascii_of_N (16 * unhex c + unhex d) :: unhex_of r
  | _ => []
  end.

Lemma unhex_hex b : unhex_of (hex_of b) = b.
Proof.
  induction b as [|c b IH]; [done|].
  change (hex_of (c :: b)) with (hex_pad 2 (N_of_ascii c) ++ hex_of b).
  assert (exists x y, hex_pad 2 (N_of_ascii c) = [x; y] /\ ascii_of_N (16 * unhex x + unhex y) = c) as (x & y & -> & Hc).
  { destruct c as [[] [] [] [] [] [] [] []]; eexists _, _; (split; [reflexivity|reflexivity]). }
  cbn [app unhex_of]. by rewrite IH, Hc.
Qed.

Lemma derive_alpn_secret sha256 s : derive_alpn sha256 (Some s) = bs "irosh/1/" ++ hex_of (take 8 (sha256 s)).
Proof. reflexivity. Qed.

Lemma derive_alpn_inj sha256 s s' :
  derive_alpn sha256 (Some s) = derive_alpn sha256 (Some s') <-> take 8 (sha256 s) = take 8 (sha256 s').
Proof.
  rewrite !derive_alpn_secret. split; [|by intros ->]. intros H%app_inv_head.
  by rewrite <-(unhex_hex (take 8 (sha256 s))), H, unhex_hex.
Qed.

Lemma ours_differs (other ours : bytes) : starts_with other (bs "irosh/") = false -> take 6 ours = bs "irosh/" -> other <> ours.
Proof. unfold starts_with. intros H%bool_decide_eq_false E ->. done. Qed.

(** ** Properties *)

Section properties.
Context {St K : Type} {VS : VaultStore St K} {SK : SshKey K}.
Variable verify_password : bytes -> bytes -> result PasswordError unit.

(** What a built-in authenticator does not advertise when the server
    starts, it does not accept then; passwords are required where the mode
    asks for them, so a server in password or combined mode has one. *)
Theorem startup_advertises mode p (s s' : St) (a : ServerAuthenticator St K unit) :
  build_authenticator None mode p s = (Ok a, s') ->
  (exists methods, methods_of (fun _ => []) a = Ok methods /\
    (Password ∉ methods -> forall now user pw, answer_password verify_password (fun _ _ => Ok false) now user pw a <> Ok true) /\
    (PublicKey ∉ methods -> forall now user key, answer_key (fun _ _ => Ok false) now user key a <> Ok true) /\
    build_method_set methods = (bool_decide (PublicKey ∈ methods), bool_decide (Password ∈ methods))) /\
  ((mode = PasswordMode \/ mode = CombinedMode) -> exists s1 s2 hash, load_shadow (K := K) s1 = (Ok (Some hash), s2)).
Proof.
  assert (forall reason s hash s', require_shadow (K := K) reason s = (Ok hash, s') ->
    load_shadow (K := K) s = (Ok (Some hash), s')) as Hreq.
  { intros reason st hash st' (o & s1 & H1 & H2)%bind_ok_inv. unfold M_map_err in H1.
    destruct (load_shadow st) as [[o'|] s2]; [|done]. injection H1 as <- <-. destruct o'; [by injection H2 as <- <-|done]. }
  unfold build_authenticator. destruct mode.
  - intros (ka & s1 & _ & [= <- <-])%bind_ok_inv. split; [|by intros [?|?]].
    exists [PublicKey]. split_and!; [done|done| |reflexivity]. intros H. exfalso. apply H. left.
  - intros (h & s1 & Hsh%Hreq & [= <- <-])%bind_ok_inv. split; [|intros _; eauto].
    exists [Password]. split_and!; [done| |done|reflexivity]. intros H. exfalso. apply H. left.
  - intros (ka & s1 & _ & (h & s2 & Hsh%Hreq & [= <- <-])%bind_ok_inv)%bind_ok_inv. split; [|intros _; eauto].
    exists [PublicKey; Password]. split_and!; [done| | |reflexivity]; intros H; exfalso; apply H; [right|]; left.
  - intros (keys & s1 & _ & [= <- <-])%bind_ok_inv. split; [|by intros [?|?]].
    set (cfg := mk_UnifiedConfig p None false false). set (x := Auth.new keys s1).
    unfold methods_of, supported_methods, node_pw_exists, has_temp, with_store, attempt, mbind, M_bind, mret, M_ret.
    destruct (load_shadow (store (shared x))) as [r st] eqn:E. cbn. eexists. split; [reflexivity|].
    assert (r = Ok None \/ (match r with Ok (Some _) => true | Ok None => false | Err _ => true end) = true) as Hr.
    { destruct r as [[]|]; auto. }
    destruct Hr as [->| ->]; cbn.
    + split_and!; [|intros H; exfalso; apply H; left|reflexivity]. intros _ now user pw.
      unfold check_password, check_password_match, is_locked_out, record_failure, set_cached, update, with_store,
        attempt, mbind, M_bind, mret, M_ret. cbn. cbn in E. rewrite E. cbn. done.
    + split_and!; [intros H; exfalso; apply H; right; left|intros H; exfalso; apply H; left|reflexivity].
Qed.
End properties.

(** C13: In stealth mode neither the public name nor the pairing name leads
    anywhere, and of the names derived from secrets exactly those whose hash
    agrees with the server's in its first eight bytes reach an SSH session;
    without a secret both public names are served and no derived one. In
    either case the gossip and the blob protocol are served as well. *)
Theorem stealth_alpns sha256 gossip_alpn blobs_alpn secret :
  starts_with gossip_alpn (bs "irosh/") = false -> starts_with blobs_alpn (bs "irosh/") = false ->
  gossip_alpn <> blobs_alpn -> (forall s, length (sha256 s) = 32) ->
  let to := routed sha256 gossip_alpn blobs_alpn secret in
  match secret with
  | Some s =>
      to (client_alpn sha256 false None) = None /\ to (client_alpn sha256 true secret) = None /\
      forall s', to (client_alpn sha256 false (Some s')) =
        if decide (take 8 (sha256 s') = take 8 (sha256 s)) then Some SshSession else None
  | None =>
      to (client_alpn sha256 false None) = Some SshSession /\ to (client_alpn sha256 true None) = Some SshPairing /\
      forall s', to (client_alpn sha256 false (Some s')) = None
  end /\
  to gossip_alpn = Some Gossip /\ to blobs_alpn = Some Blobs.
Proof.
  intros Hg Hb Hgb Hlen. cbn zeta. unfold routed, router, client_alpn.
  assert (forall ours, take 6 ours = bs "irosh/" -> gossip_alpn <> ours /\ blobs_alpn <> ours) as Hd.
  { intros ours Ho. split; by apply ours_differs. }
  assert (forall s, length (derive_alpn sha256 (Some s)) = 24) as Hl.
  { intros s. rewrite derive_alpn_secret, length_app. unfold hex_of.
    assert (length (take 8 (sha256 s)) = 8) as H by (rewrite length_take, Hlen; done). revert H.
    destruct (take 8 (sha256 s)) as [|? [|? [|? [|? [|? [|? [|? [|? []]]]]]]]]; done. }
  assert (forall s, derive_alpn sha256 (Some s) <> BASE_ALPN) as Hbase.
  { intros s E. apply (f_equal length) in E. by rewrite Hl in E. }
  assert (forall s, derive_alpn sha256 (Some s) <> PAIRING_ALPN) as Hpair.
  { intros s E. apply (f_equal length) in E. by rewrite Hl in E. }
  assert (forall s, take 6 (derive_alpn sha256 (Some s)) = bs "irosh/") as Hours by done.
  pose proof (Hd BASE_ALPN eq_refl) as [G1 B1]. pose proof (Hd PAIRING_ALPN eq_refl) as [G2 B2].
  assert (forall (a b : bytes), a <> b -> bool_decide (a = b) = false) as F by (intros; by apply bool_decide_false).
  destruct secret as [s|].
  - pose proof (Hd _ (Hours s)) as [G3 B3]. cbn [app List.find fst].
    split; [split; [|split]|split].
    + rewrite !F; done.
    + rewrite !F; done.
    + intros s'. pose proof (Hd _ (Hours s')) as [G4 B4]. case_decide as Hs.
      * rewrite bool_decide_true; [done|]. by apply derive_alpn_inj.
      * rewrite !F; [done|done|done|]. intros E. apply Hs. symmetry. by apply derive_alpn_inj.
    + rewrite F by done. by rewrite bool_decide_true.
    + rewrite F by done. rewrite F by done. by rewrite bool_decide_true.
  - cbn [app List.find fst derive_alpn]. split; [split; [|split]|split].
    + by rewrite bool_decide_true.
    + rewrite F by done. rewrite F by done. rewrite F by done. by rewrite bool_decide_true.
    + intros s'. pose proof (Hd _ (Hours s')) as [G4 B4]. rewrite !F; done.
    + rewrite F by done. by rewrite bool_decide_true.
    + rewrite F by done. rewrite F by done. by rewrite bool_decide_true.
Qed.

(** Text that is neither a keyword nor starts like an address is not an error. *)
Lemma junk_relay_is_default : parse_relay_mode (fun _ : bytes => None (A := unit)) (bs "disable") = Ok RelayDefault.
Proof. reflexivity. Qed.

(** ** Witnesses *)

Lemma stealth_alpns_witness :
  routed (fun s => replicate 31 "k"%char ++ take 1 (s ++ bs "x")) (bs "/iroh-gossip/1") (bs "/iroh-bytes/4") (Some (bs "s"))
    (bs "irosh/1") = None.
Proof.
  destruct (stealth_alpns (fun s => replicate 31 "k"%char ++ take 1 (s ++ bs "x")) (bs "/iroh-gossip/1") (bs "/iroh-bytes/4")
    (Some (bs "s"))) as [[H _] _].
  - reflexivity.
  - reflexivity.
  - discriminate.
  - intros s. destruct s; reflexivity.
  - exact H.
Defined.

Lemma startup_advertises_witness :
  exists a s', build_authenticator (VS := mem_vault bytes) (None : option unit) KeyMode Tofu ([], None) = (Ok a, s') /\
    exists methods, methods_of (VS := mem_vault bytes) (fun _ => []) a = Ok methods.
Proof.
  eexists _, _. split; [reflexivity|].
  destruct (startup_advertises (VS := mem_vault bytes) (SK := demo_key) demo_verify KeyMode Tofu ([], None) _ _ eq_refl)
    as [(methods & H & _) _].
  exists methods. exact H.
Defined.
