(* ===== verification/AddressBook.v ===== *)
(** * The address book: [cli/src/commands/peer.rs] over [src/storage/peers.rs]

    The commands of [irosh peer], with the answers of the user and the parsing
    of tickets as arguments, and what they do to the address book: the map
    from names to profiles that the JSON files of the peers directory hold.
    Printing is reduced to what is reported. *)

From S2P Require Import Prelude Text Stream Fs StorageUtils Peers.

(** The [String] of [Ui::input], trimmed; a blank answer counts as none. *)
Definition entered (answer : option bytes) : option bytes :=
  v ← answer;
  if decide (trim v = []) then None else Some (trim v).

Section commands.
Context {SJ : SerdeJson} {Ticket : Type} {PT : Payload Ticket}.
Variable ticket_from_str : bytes -> option Ticket.
Variable id_of : Ticket -> bytes.                (** [ticket.to_addr().id.to_string()], 64 digits *)
Variable root : path.

Inductive PeerAction : Type :=
| PeerList
| PeerAdd (name ticket : option bytes)
| PeerRemove (name : option bytes)
| PeerInfo (name : option bytes)
| PeerRename (old_name new_name : option bytes).

Inductive PeerCliError : Type :=
| PeerStorage (e : storage_error)
| InvalidTicket
| SelectOutOfRange.

Inductive PeerReport : Type :=
| Listed (peers : list (PeerProfile Ticket))
| Nothing                                        (** the address book is empty *)
| Added (n : bytes) (t : Ticket)
| MissingTicket
| NameTaken (n : bytes)
| Removed (n : bytes)
| NotConfirmed
| Detail (p : PeerProfile Ticket)
| NoSuchPeer (n : bytes)
| Renamed (old new : bytes)
| Cancelled.

(** What the user answers during one command. *)
Record Answers : Type := mk_Answers {
  ticket_input : option bytes;
  alias_input : option bytes;
  selected : option nat;
  confirmed : bool;
}.

Definition default_name (t : Ticket) : bytes := bs "peer-" ++ take 8 (id_of t).

Abbreviation C := (M fs PeerCliError).

(** The peer a command is about: named, or selected from the list. *)
Definition pick_peer (a : Answers) (given : option bytes) : C (PeerReport + bytes) :=
  match given with
  | Some n => mret (inr n)
  | None =>
      peers ← M_map_err PeerStorage (list_peers root);
      if decide (peers = []) then mret (inl Nothing)
      else
        match selected a with
        | Some idx =>
            match peers !! idx with
            | Some p => mret (inr (name p))
            | None => throw SelectOutOfRange
            end
        | None => mret (inl Cancelled)
        end
  end.

Definition picked (a : Answers) (given : option bytes) (go : bytes -> C PeerReport) : C PeerReport :=
  n ← pick_peer a given;
  match n with inl r => mret r | inr n => go n end.

Definition save_new (suffix : N) (n : bytes) (t : Ticket) : C PeerReport :=
  known ← M_map_err PeerStorage (load_peer (PT := PT) root n);
  match known with
  | Some _ => mret (NameTaken n)
  | None =>
      M_map_err PeerStorage (save_peer root suffix (mk_PeerProfile n t));;
      mret (Added n t)
  end.

Definition add_peer (suffix : N) (json : bool) (a : Answers) (name_arg ticket_arg : option bytes) : C PeerReport :=
  match ticket_arg, json with
  | None, true => mret MissingTicket
  | _, _ =>
      match (match ticket_arg with Some t => Some t | None => entered (ticket_input a) end) with
      | None => mret Cancelled
      | Some text =>
          match ticket_from_str text with
          | None => throw InvalidTicket
          | Some t =>
              let target_name :=
                match name_arg with
                | Some n => Some n
                | None => if json then Some (default_name t) else entered (alias_input a)
                end in
              match target_name with
              | None => mret Cancelled
              | Some n => save_new suffix n t
              end
          end
      end
  end.

Definition remove_peer (json : bool) (a : Answers) (n : bytes) : C PeerReport :=
  if json || confirmed a then
    M_map_err PeerStorage (delete_peer root n);;
    mret (Removed n)
  else mret NotConfirmed.

Definition peer_info (n : bytes) : C PeerReport :=
  known ← M_map_err PeerStorage (load_peer (PT := PT) root n);
  mret (match known with Some p => Detail p | None => NoSuchPeer n end).

Definition rename_to (suffix : N) (a : Answers) (new_arg : option bytes) (old : bytes) : C PeerReport :=
  match (match new_arg with Some n => Some n | None => entered (alias_input a) end) with
  | None => mret Cancelled
  | Some new =>
      taken ← (if decide (old = new) then mret None
               else M_map_err PeerStorage (load_peer (PT := PT) root new));
      match taken with
      | Some _ => mret (NameTaken new)
      | None =>
          ok ← M_map_err PeerStorage (rename_peer (PT := PT) root suffix old new);
          mret (if ok : bool then Renamed old new else NoSuchPeer old)
      end
  end.

(** [exec] *)
Definition exec (suffix : N) (json : bool) (a : Answers) (action : PeerAction) : C PeerReport :=
  match action with
  | PeerList => peers ← M_map_err PeerStorage (list_peers root); mret (Listed peers)
  | PeerAdd n t => add_peer suffix json a n t
  | PeerRemove n => picked a n (remove_peer json a)
  | PeerInfo n => picked a n peer_info
  | PeerRename old new => picked a old (rename_to suffix a new)
  end.
End commands.
Arguments PeerReport : clear implicits.

(** ** The book *)

Section book.
Context {SJ : SerdeJson} {SL : SerdeJsonLaws} {Ticket : Type} {PT : Payload Ticket}.
Variable root : path.

Abbreviation Profile := (PeerProfile Ticket).

Definition file_of (n : bytes) : bytes := n ++ bs ".json".

(** The profile that a node of the peers directory holds. *)
Definition profile_of (x : option node) : option Profile :=
  match x with
  | Some (File json _) => match from_slice json with Ok p => Some p | Err _ => None end
  | _ => None
  end.

(** The book of a disk: what is saved under a name. *)
Definition book (d : disk) (n : bytes) : option Profile := profile_of (d !! (file_of n :: peers_dir root)).

(** A profile that was saved: its file has its name, and the name is valid. *)
Definition filed (file : bytes) (x : option node) : Prop :=
  forall json m, x = Some (File json m) ->
    exists p : Profile, from_slice json = Ok p /\ utf8_valid json = true /\ file = file_of (name p) /\
      validate_peer_name (name p) = Ok tt.

Definition tidy (d : disk) : Prop := forall file, is_json file = true -> filed file (d !! (file :: peers_dir root)).

Lemma file_is_json n : n <> [] -> is_json (file_of n) = true.
Proof.
  intros Hn. apply bool_decide_eq_true. unfold file_of. change (bs ".json") with ("."%char :: bs "json").
  apply extension_app; [by apply (bool_decide_unpack _)|done|done].
Qed.

Lemma tmp_not_json n suffix : is_json (tmp_name n suffix) = false.
Proof.
  apply bool_decide_eq_false. unfold tmp_name. change (bs ".tmp") with ("."%char :: bs "tmp"). rewrite !app_assoc.
  rewrite extension_app; [done|by apply (bool_decide_unpack _)|by destruct (trim_start_char _ _)|done].
Qed.

Lemma file_of_inj n n' : file_of n = file_of n' -> n = n'.
Proof. by intros [? _]%app_inj_2. Qed.

Lemma filed_name n x : filed (file_of n) x ->
  match profile_of x with Some p => name p = n | None => forall json m, x <> Some (File json m) end.
Proof.
  intros H. unfold profile_of. destruct x as [[|json m]|]; [done| |done].
  destruct (H json m eq_refl) as (p & -> & _ & E & _). by apply file_of_inj in E.
Qed.

(** A step that touches no file of the directory but one. *)
Definition touches (n : option bytes) (d d' : disk) : Prop := forall file, is_json file = true -> Some file <> (file_of <$> n) ->
  forall c m, d' !! (file :: peers_dir root) = Some (File c m) <-> d !! (file :: peers_dir root) = Some (File c m).

Lemma touches_profile n d d' m : touches n d d' -> m <> [] -> Some m <> n -> book d' m = book d m.
Proof.
  intros H Hm Hne. assert (Some (file_of m) <> file_of <$> n) as Hf.
  { destruct n as [n|]; [|done]. cbn. intros [= E%file_of_inj]. congruence. }
  pose proof (H (file_of m) (file_is_json m Hm) Hf) as HH. unfold book, profile_of.
  destruct (d !! _) as [[|c k]|] eqn:E1, (d' !! _) as [[|c' k']|] eqn:E2; try done.
  all: try (by pose proof (proj1 (HH c' k') eq_refl)); try (by pose proof (proj2 (HH c k) eq_refl)).
  pose proof (proj1 (HH c' k') eq_refl) as E. by injection E as -> ->.
Qed.

Lemma touches_tidy n d d' : touches n d d' -> tidy d ->
  match n with Some n => filed (file_of n) (d' !! (file_of n :: peers_dir root)) | None => True end -> tidy d'.
Proof.
  intros H Ht Hn file Hj. destruct (decide (Some file = file_of <$> n)) as [E|E].
  - destruct n as [n|]; [|done]. cbn in E. by injection E as ->.
  - intros json m Hf. apply (H file Hj E) in Hf. by apply (Ht file Hj json m).
Qed.

Lemma touches_refl n d : touches n d d.
Proof. done. Qed.

Lemma touches_same n d d' : files_same d d' -> touches n d d'.
Proof. intros H file _ _ c m. apply H. Qed.

Lemma touches_trans n d1 d2 d3 : touches n d1 d2 -> touches n d2 d3 -> touches n d1 d3.
Proof. intros H1 H2 file Hj Hf c m. etrans; [by apply H2|by apply H1]. Qed.

Lemma touches_weaken n d d' : touches None d d' -> touches n d d'.
Proof. intros H file Hj _. by apply H. Qed.

Lemma tidy_same d d' : touches None d d' -> tidy d -> tidy d'.
Proof. intros H Ht. by eapply touches_tidy. Qed.

Lemma book_name d n p : tidy d -> n <> [] -> book d n = Some p -> name p = n /\ validate_peer_name n = Ok tt.
Proof.
  intros Ht Hn. pose proof (Ht _ (file_is_json n Hn)) as H. unfold book, profile_of.
  destruct (d !! _) as [[|json m]|]; [done| |done].
  destruct (H json m eq_refl) as (q & -> & _ & E & Hv). apply file_of_inj in E. intros [= ->]. by rewrite E.
Qed.

(** *** The operations of the storage *)

Lemma ensure_peers_dir_spec s r s' :
  ensure_peers_dir root s = (r, s') ->
  (reliable s -> reliable s') /\ touches None (nodes s) (nodes s') /\
  (forall d, r = Ok d -> d = peers_dir root /\ is_dir_node (nodes s' !! peers_dir root)).
Proof.
  intros H. pose proof H as R%ensure_peers_dir_runs.
  split; [by apply (runs_reliable _ _ _ R)|]. split.
  - apply touches_same. apply (runs_final _ _ _ (dirs_only_refl _ _)) in R.
    intros q c m. destruct (R q) as [->|(_ & N & D)]; [done|].
    split; intros E; [by rewrite E in D|destruct N as [N|N]; by rewrite E in N].
  - intros d ->. revert H. unfold ensure_peers_dir, mbind, M_bind, mret, M_ret.
    destruct (ensure_dir_secure_tighten root s) as [[?|] s1]; [|done].
    destruct (ensure_dir_secure_tighten (peers_dir root) s1) as [[u|] s2] eqn:E2; [|done].
    intros [= <- <-]. apply ensure_dir_secure_tighten_ok in E2 as (m & -> & _). done.
Qed.

Lemma save_peer_spec suffix (p : Profile) s r s' :
  reliable s -> save_peer root suffix p s = (r, s') ->
  reliable s' /\
  match r with
  | Ok _ => touches (Some (name p)) (nodes s) (nodes s') /\ validate_peer_name (name p) = Ok tt /\
      exists json m, to_vec_pretty p = Ok json /\ nodes s' !! (file_of (name p) :: peers_dir root) = Some (File json m)
  | Err _ => touches None (nodes s) (nodes s')
  end.
Proof.
  intros Hr. unfold save_peer, mbind, M_bind, lift, map_err.
  destruct (ensure_peers_dir root s) as [r1 s1] eqn:E1. apply ensure_peers_dir_spec in E1 as (R1 & T1 & _).
  specialize (R1 Hr). destruct r1 as [d|e]; [|by intros [= <- <-]].
  destruct (validate_peer_name (name p)) as [[]|] eqn:Hv; [|by intros [= <- <-]].
  destruct (to_vec_pretty p) as [json|] eqn:Hj; [|by intros [= <- <-]].
  pose proof (peer_name_ok _ Hv) as (Hn & _ & _ & Hs & _). rewrite peer_path_valid by done. fold (file_of (name p)).
  intros H. pose proof H as (R & Hres)%atomic_write_secure_spec.
  assert (reliable s') as Hr' by by eapply runs_reliable. split; [done|].
  apply runs_final in R as (F & _); [|apply write_step_refl].
  assert (touches (Some (name p)) (nodes s1) (nodes s')) as T2.
  { intros file Hfj Hf c m. cbn in Hf.
    assert (file :: peers_dir root <> file_of (name p) :: peers_dir root) as N1 by congruence.
    assert (file :: peers_dir root <> tmp_name (file_of (name p)) suffix :: peers_dir root) as N2.
    { intros [= ->]. by rewrite tmp_not_json in Hfj. }
    destruct (F _ N2 N1) as [->|(_ & N & D)]; [done|].
    split; intros E; [by rewrite E in D|destruct N as [N|N]; by rewrite E in N]. }
  assert (touches (Some (name p)) (nodes s) (nodes s')) as T.
  { eapply touches_trans; [apply touches_weaken, T1|exact T2]. }
  destruct r as [u|e].
  - split; [done|]. split; [done|]. exists json.
    apply atomic_write_read_back in H as (_ & m & Hm); [eauto|done].
  - destruct Hres as [Et _]. intros file Hfj _ c m.
    destruct (decide (file = file_of (name p))) as [->|Hne].
    + rewrite Et. by apply T1.
    + apply T; [done|]. cbn. congruence.
Qed.

Lemma load_peer_spec n s r s' :
  reliable s -> load_peer (PT := PT) root n s = (r, s') ->
  reliable s' /\ nodes s' = nodes s /\
  (tidy (nodes s) -> n <> [] -> "/"%char ∉ n -> forall o, r = Ok o -> o = book (nodes s) n).
Proof.
  intros Hr. unfold load_peer, mbind, M_bind, M_map_err, mret, M_ret, lift, read_to_string, read_file, M_bind.
  rewrite path_exists_reliable by done. unfold mbind, M_bind. cbn [negb].
  destruct (bool_decide_reflect (is_Some (nodes s !! peer_path root n))) as [Hx|Hx]; cbn [negb].
  - rewrite query_reliable by exact Hr.
    destruct (nodes s !! peer_path root n) as [x|] eqn:Ex; [|by destruct Hx]. cbn. rewrite Ex.
    destruct x as [k|json k]; [by intros [= <- <-]|].
    assert (tidy (nodes s) -> n <> [] -> "/"%char ∉ n ->
      exists p : Profile, from_slice json = Ok p /\ book (nodes s) n = Some p /\ utf8_valid json = true) as Hb.
    { intros Ht Hn Hs. rewrite peer_path_valid in Ex by done. fold (file_of n) in Ex.
      destruct (Ht (file_of n) (file_is_json n Hn) json k Ex) as (p & Hp & Hu & _).
      exists p. unfold book. rewrite Ex. cbn. by rewrite Hp. }
    destruct (utf8_valid json) eqn:Hu; [|by intros [= <- <-]].
    cbn. destruct (from_slice json) as [p|e] eqn:Hp; intros [= <- <-]; (split; [done|split; [done|]]); [|done].
    intros Ht Hn Hs o [= <-]. destruct (Hb Ht Hn Hs) as (p' & [= <-] & -> & _). done.
  - intros [= <- <-]. split; [done|]. split; [done|].
    intros Ht Hn Hs o [= <-]. rewrite peer_path_valid in Hx by done. unfold book, file_of.
    destruct (nodes s !! ((n ++ bs ".json") :: peers_dir root)) eqn:E; [|done]. destruct Hx. eauto.
Qed.

Lemma delete_peer_spec n s r s' :
  reliable s -> "/"%char ∉ n -> delete_peer root n s = (r, s') ->
  reliable s' /\
  match r with
  | Ok _ => nodes s' = delete (file_of n :: peers_dir root) (nodes s)
  | Err _ => nodes s' = nodes s /\ is_dir_node (nodes s !! (file_of n :: peers_dir root))
  end.
Proof.
  intros Hr Hn. unfold delete_peer, remove_file, syscall. rewrite Hr, peer_path_valid by done. fold (file_of n).
  destruct (nodes s !! (file_of n :: peers_dir root)) as [[k|c k]|] eqn:E; intros [= <- <-]; (split; [done|]); cbn; [done|done|].
  symmetry. by apply delete_id.
Qed.

Lemma touches_delete n d : touches (Some n) d (delete (file_of n :: peers_dir root) d).
Proof. intros file _ Hf c m. rewrite lookup_delete_ne; [done|]. cbn in Hf. congruence. Qed.

Lemma tidy_delete n d : tidy d -> tidy (delete (file_of n :: peers_dir root) d).
Proof.
  intros H. apply (touches_tidy (Some n) d _ (touches_delete n d) H). intros json m. by rewrite lookup_delete_eq.
Qed.

Definition entry_of (d : disk) (file : bytes) : option Profile :=
  if is_json file then profile_of (d !! (file :: peers_dir root)) else None.

Lemma list_entry_reliable d file s :
  tidy d -> reliable s /\ nodes s = d ->
  exists s', list_entry (peers_dir root) file s = (Ok (entry_of d file), s') /\ (reliable s' /\ nodes s' = d).
Proof.
  intros Ht [Hr <-]. unfold list_entry, next_entry, path_is_file, read_to_string, read_file, mbind, M_bind, M_map_err, mret, M_ret.
  rewrite query_reliable by done. cbn [map_err]. rewrite test_path_reliable by exact Hr. cbn [nodes tick].
  unfold entry_of. destruct (is_json file) eqn:Hj; [|rewrite andb_false_r; by eexists].
  destruct (nodes s !! (file :: peers_dir root)) as [[k|json k]|] eqn:E; cbn [andb]; [by eexists| |by eexists].
  rewrite query_reliable by exact Hr. cbn [nodes tick]. rewrite E.
  destruct (Ht file Hj json k E) as (p & Hp & -> & _). cbn. rewrite Hp. by eexists.
Qed.

Lemma list_peers_spec s r s' :
  reliable s -> tidy (nodes s) -> list_peers (Ticket := Ticket) root s = (r, s') ->
  reliable s' /\ touches None (nodes s) (nodes s') /\
  forall l, r = Ok l -> forall p, p ∈ l <-> validate_peer_name (name p) = Ok tt /\ book (nodes s) (name p) = Some p.
Proof.
  intros Hr Ht. unfold list_peers, mbind, M_bind, M_map_err.
  destruct (ensure_peers_dir root s) as [r1 s1] eqn:E1. apply ensure_peers_dir_spec in E1 as (R1 & T1 & D1).
  specialize (R1 Hr). destruct r1 as [d|e]; [|by intros [= <- <-]].
  destruct (D1 d eq_refl) as [-> Hd]. pose proof (tidy_same _ _ T1 Ht) as Ht1.
  unfold read_dir. rewrite query_reliable by done.
  destruct (nodes s1 !! peers_dir root) as [[k|]|] eqn:Ed; [|done..]. cbn [map_err].
  destruct (collect_pure (fun s' => reliable s' /\ nodes s' = nodes s1) (entry_of (nodes s1)) (list_entry (peers_dir root))
    (children (nodes s1) (peers_dir root))) with (s := tick s1 (nodes s1)) as (s2 & -> & Hr2 & E2);
    [intros file s0 H0; by apply list_entry_reliable|done|].
  intros [= <- <-]. split; [done|]. rewrite E2. split; [done|]. intros l [= <-] p.
  rewrite list_elem_of_omap. split.
  - intros (file & _ & Hf). unfold entry_of in Hf. destruct (is_json file) eqn:Hj; [|done].
    destruct (nodes s1 !! (file :: peers_dir root)) as [[|json m]|] eqn:E; [done| |done].
    destruct (Ht1 file Hj json m E) as (q & Hq & _ & -> & Hv). cbn in Hf. rewrite Hq in Hf. injection Hf as ->.
    split; [done|]. rewrite <-(touches_profile None (nodes s) (nodes s1)); [|done|by apply peer_name_ok in Hv as [? _]|done].
    unfold book. rewrite E. cbn. by rewrite Hq.
  - intros [Hv Hb]. pose proof (peer_name_ok _ Hv) as [Hn _].
    rewrite <-(touches_profile None (nodes s) (nodes s1)) in Hb by done.
    exists (file_of (name p)). unfold entry_of. rewrite file_is_json by done. split; [|done].
    apply elem_of_children. unfold book in Hb. destruct (nodes s1 !! (file_of (name p) :: peers_dir root)); [eauto|done].
Qed.

(** ** What the commands do *)

Context (ticket_from_str : bytes -> option Ticket) (id_of : Ticket -> bytes).

Abbreviation Report := (PeerReport Ticket).

(** The book after a command, from the report. *)
Definition after (r : result PeerCliError Report) (b : bytes -> option Profile) (m : bytes) : option Profile :=
  match r with
  | Ok (Added n t) => if decide (m = n) then Some (mk_PeerProfile n t) else b m
  | Ok (Removed n) => if decide (m = n) then None else b m
  | Ok (Renamed old new) =>
      if decide (m = old) then None
      else if decide (m = new) then (fun p => mk_PeerProfile new (ticket p)) <$> b old else b m
  | _ => b m
  end.

Definition plain (n : bytes) : Prop := n <> [] /\ "/"%char ∉ n.

Lemma valid_plain n : validate_peer_name n = Ok tt -> plain n.
Proof. intros (? & _ & _ & ? & _)%peer_name_ok. by split. Qed.

(** What the command is about, when that is a peer: its name, or a choice. *)
Definition subject (action : PeerAction) : option (option bytes) :=
  match action with
  | PeerRemove given | PeerInfo given | PeerRename given _ => Some given
  | _ => None
  end.

(** The peer that is meant: as named, or a saved one that was selected. *)
Definition means (a : Answers) (given : option bytes) (b : bytes -> option Profile) (n : bytes) : Prop :=
  match given with Some m => n = m | None => is_Some (selected a) /\ is_Some (b n) end.

Definition meant (a : Answers) (action : PeerAction) (b : bytes -> option Profile) (n : bytes) : Prop :=
  exists given, subject action = Some given /\ means a given b n.

Definition lists (l : list Profile) (b : bytes -> option Profile) : Prop :=
  forall p, p ∈ l <-> validate_peer_name (name p) = Ok tt /\ b (name p) = Some p.

(** A name and a ticket of a command, or of the answers. *)
Definition given_or (given answer : option bytes) : option bytes :=
  match given with Some x => Some x | None => entered answer end.

(** What was to be added. *)
Definition wanted (json : bool) (a : Answers) (action : PeerAction) (n : bytes) (t : Ticket) : Prop :=
  exists name_arg ticket_arg text, action = PeerAdd name_arg ticket_arg /\
    given_or ticket_arg (ticket_input a) = Some text /\ ticket_from_str text = Some t /\
    (if json then n = default n name_arg /\ (name_arg = None -> n = default_name id_of t)
     else given_or name_arg (alias_input a) = Some n).

(** Something that had to be answered was not. *)
Definition unanswered (a : Answers) (action : PeerAction) (b : bytes -> option Profile) : Prop :=
  match action with
  | PeerList => False
  | PeerAdd name_arg ticket_arg => given_or ticket_arg (ticket_input a) = None \/ given_or name_arg (alias_input a) = None
  | PeerRemove given | PeerInfo given => given = None /\ selected a = None /\ exists m, is_Some (b m)
  | PeerRename given new =>
      given = None /\ selected a = None /\ (exists m, is_Some (b m)) \/ given_or new (alias_input a) = None
  end.

(** What the report says of the command, of the answers, and of the book before. *)
Definition truthful (json : bool) (a : Answers) (action : PeerAction) (b : bytes -> option Profile) (r : Report) : Prop :=
  match r with
  | Listed l => action = PeerList /\ lists l b
  | Nothing => subject action = Some None /\ forall n, plain n -> b n = None
  | Added n t => wanted json a action n t /\ b n = None /\ validate_peer_name n = Ok tt
  | MissingTicket => json = true /\ exists name_arg, action = PeerAdd name_arg None
  | NameTaken n =>
      ((exists t, wanted json a action n t) \/
       exists given new, action = PeerRename given new /\ given_or new (alias_input a) = Some n) /\
      (plain n -> is_Some (b n))
  | Removed n => meant a action b n /\ json || confirmed a = true
  | NotConfirmed => (exists n, meant a action b n) /\ json || confirmed a = false
  | Detail p => meant a action b (name p) /\ b (name p) = Some p
  | NoSuchPeer n => meant a action b n /\ b n = None
  | Renamed old new => meant a action b old /\ is_Some (b old) /\ (new = old \/ b new = None) /\
      validate_peer_name new = Ok tt /\ exists given arg, action = PeerRename given arg /\ given_or arg (alias_input a) = Some new
  | Cancelled => unanswered a action b
  end.

(** The book of a state, and what a command must do to it. *)
Definition holds (b : bytes -> option Profile) (s : fs) : Prop :=
  reliable s /\ tidy (nodes s) /\ forall m, m <> [] -> book (nodes s) m = b m.

Definition keeps (b : bytes -> option Profile) (T : Report -> Prop) (m : M fs PeerCliError Report) : Prop :=
  forall s r s', holds b s -> m s = (r, s') -> holds (after r b) s' /\ forall rep, r = Ok rep -> T rep.

Lemma holds_same b s s' : holds b s -> reliable s' -> touches None (nodes s) (nodes s') -> holds b s'.
Proof.
  intros (Hr & Ht & Hb) Hr' T. split; [done|]. split; [by eapply tidy_same|].
  intros m Hm. rewrite <-Hb by done. by eapply touches_profile.
Qed.

Lemma listed b s r s' : holds b s -> list_peers (Ticket := Ticket) root s = (r, s') ->
  holds b s' /\ forall l, r = Ok l -> lists l b.
Proof.
  intros Hh H. pose proof Hh as (Hr & Ht & Hb). apply list_peers_spec in H as (Hr' & T & Hl); [|done..].
  split; [by eapply holds_same|]. intros l -> p. rewrite (Hl l eq_refl p).
  split; intros [Hv E]; (split; [done|]); rewrite <-E; [symmetry|]; apply Hb; by apply peer_name_ok in Hv as [? _].
Qed.

Lemma loaded b n s r s' : holds b s -> load_peer (PT := PT) root n s = (r, s') ->
  holds b s' /\ forall o, r = Ok o -> plain n -> o = b n.
Proof.
  intros Hh H. pose proof Hh as (Hr & Ht & Hb). apply load_peer_spec in H as (Hr' & En & Hl); [|done].
  split; [eapply holds_same; [done..|by rewrite En]|].
  intros o Ho [Hn Hs]. rewrite (Hl Ht Hn Hs o Ho). by apply Hb.
Qed.

Lemma saved suffix b (p : Profile) s r s' : holds b s -> save_peer root suffix p s = (r, s') ->
  match r with
  | Ok _ => validate_peer_name (name p) = Ok tt /\
      holds (fun m => if decide (m = name p) then Some p else b m) s' /\
      exists json m, nodes s' !! (file_of (name p) :: peers_dir root) = Some (File json m)
  | Err _ => holds b s'
  end.
Proof.
  intros Hh H. pose proof Hh as (Hr & Ht & Hb). apply save_peer_spec in H as (Hr' & H); [|done].
  destruct r as [u|e]; [|by eapply holds_same].
  destruct H as (T & Hv & json & k & Hj & Hf). split; [done|]. destruct (from_slice_to_vec_pretty _ _ _ _ Hj) as [Hp Hu].
  split; [|eauto]. split; [done|]. split.
  - apply (touches_tidy _ _ _ T Ht). rewrite Hf. intros json' m' [= <- <-]. by exists p.
  - intros m Hm. case_decide as E.
    + subst m. unfold book. rewrite Hf. cbn. by rewrite Hp.
    + rewrite <-Hb by done. eapply touches_profile; [done..|congruence].
Qed.

Lemma deleted b n s r s' : holds b s -> plain n -> delete_peer root n s = (r, s') ->
  match r with
  | Ok _ => holds (fun m => if decide (m = n) then None else b m) s'
  | Err _ => holds b s' /\ is_dir_node (nodes s !! (file_of n :: peers_dir root))
  end.
Proof.
  intros (Hr & Ht & Hb) [Hn Hs] H. apply delete_peer_spec in H as (Hr' & H); [|done..].
  destruct r as [u|e].
  - split; [done|]. rewrite H. split; [by apply tidy_delete|]. intros m Hm. case_decide as E.
    + subst m. unfold book. by rewrite lookup_delete_eq.
    + rewrite <-Hb by done. apply (touches_profile (Some n) (nodes s)); [apply touches_delete|done|congruence].
  - destruct H as [E Hd]. split; [|done]. split; [done|]. by rewrite E.
Qed.

Lemma keeps_ret b (T : Report -> Prop) (rep : Report) : after (Ok rep) b = b -> T rep -> keeps b T (mret rep).
Proof. intros Ha Ht s r s' Hh [= <- <-]. rewrite Ha. split; [done|]. by intros x [= <-]. Qed.

Lemma keeps_throw b T e : keeps b T (throw e).
Proof. intros s r s' Hh [= <- <-]. by split. Qed.

Lemma keeps_save_new b (T : Report -> Prop) suffix n t :
  ((plain n -> is_Some (b n)) -> T (NameTaken n)) ->
  (b n = None -> validate_peer_name n = Ok tt -> T (Added n t)) -> keeps b T (save_new root suffix n t).
Proof.
  intros Htaken Hadd s r s' Hh. unfold save_new, mbind, M_bind, M_map_err. destruct (load_peer root n s) as [r1 s1] eqn:E1.
  apply (loaded b) in E1 as [H1 Ho]; [|done]. destruct r1 as [o|e]; cbn [map_err]; [|by intros [= <- <-]].
  destruct o as [q|].
  - intros [= <- <-]. split; [done|]. intros rep [= <-]. apply Htaken. intros Hn. rewrite <-(Ho _ eq_refl); [eauto|done].
  - destruct (save_peer root suffix (mk_PeerProfile n t) s1) as [r2 s2] eqn:E2.
    apply (saved _ b) in E2; [|done]. destruct r2 as [u|e]; cbn [map_err]; intros [= <- <-]; [|done].
    destruct E2 as (Hv & H2 & _). split; [done|]. intros rep [= <-]. apply Hadd; [|done].
    symmetry. by apply (Ho _ eq_refl), valid_plain.
Qed.

Lemma keeps_add b suffix json a n t :
  keeps b (truthful json a (PeerAdd n t) b) (add_peer ticket_from_str id_of root suffix json a n t).
Proof.
  assert (forall text tk name, given_or t (ticket_input a) = Some text -> ticket_from_str text = Some tk ->
    (if json then name = default name n /\ (n = None -> name = default_name id_of tk) else given_or n (alias_input a) = Some name) ->
    keeps b (truthful json a (PeerAdd n t) b) (save_new root suffix name tk)) as Hgo.
  { intros text tk nm Ht Hp Hn. assert (wanted json a (PeerAdd n t) nm tk) as Hw by by exists n, t, text.
    apply keeps_save_new; cbn; [|done]. intros Hb. split; [left; by exists tk|done]. }
  assert (match given_or t (ticket_input a) with
          | None => keeps b (truthful json a (PeerAdd n t) b) (mret Cancelled)
          | Some text => match ticket_from_str text with
              | None => keeps b (truthful json a (PeerAdd n t) b) (throw InvalidTicket)
              | Some tk =>
                  match (match n with Some x => Some x | None => if json then Some (default_name id_of tk) else entered (alias_input a) end) with
                  | None => keeps b (truthful json a (PeerAdd n t) b) (mret Cancelled)
                  | Some nm => keeps b (truthful json a (PeerAdd n t) b) (save_new root suffix nm tk)
                  end
              end
          end) as H.
  { destruct (given_or t (ticket_input a)) as [text|] eqn:Et; [|apply keeps_ret; [done|by left]].
    destruct (ticket_from_str text) as [tk|] eqn:Ek; [|apply keeps_throw].
    destruct n as [x|]; [apply (Hgo text); try done; by destruct json|].
    destruct json; [by apply (Hgo text)|].
    destruct (entered (alias_input a)) eqn:Ea; [by apply (Hgo text)|]. apply keeps_ret; [done|by right]. }
  unfold add_peer. fold (given_or t (ticket_input a)).
  destruct t as [x|], json; try (by apply keeps_ret; [done|split; [done|exists n]]);
    repeat case_match; by simplify_eq.
Qed.

Lemma keeps_remove_peer b (T : Report -> Prop) json a n : plain n ->
  (json || confirmed a = true -> T (Removed n)) -> (json || confirmed a = false -> T NotConfirmed) ->
  keeps b T (remove_peer root json a n).
Proof.
  intros Hn HT HF. unfold remove_peer. destruct (json || confirmed a); [|by apply keeps_ret; [|apply HF]]. intros s r s' Hh.
  unfold mbind, M_bind, M_map_err. destruct (delete_peer root n s) as [r1 s1] eqn:E1.
  apply (deleted b) in E1; [|done..]. destruct r1 as [o|e]; cbn [map_err]; intros [= <- <-]; [|by destruct E1].
  split; [done|]. intros rep [= <-]. by apply HT.
Qed.

Lemma keeps_info b (T : Report -> Prop) n : plain n ->
  (forall p, name p = n -> b n = Some p -> T (Detail p)) -> (b n = None -> T (NoSuchPeer n)) -> keeps b T (peer_info root n).
Proof.
  intros Hn HD HN s r s' Hh. unfold peer_info, mbind, M_bind, M_map_err.
  destruct (load_peer root n s) as [r1 s1] eqn:E1.
  apply (loaded b) in E1 as [H1 Ho]; [|done]. destruct r1 as [o|e]; cbn [map_err]; intros [= <- <-]; [|done].
  specialize (Ho o eq_refl Hn). destruct o as [p|]; (split; [done|]); intros rep [= <-]; [|by apply HN]. apply HD; [|done].
  destruct Hh as (_ & Ht & Hb). destruct Hn as [Hn Hs].
  destruct (book_name (nodes s) n p) as [? _]; [done|done| |done]. by rewrite Hb.
Qed.

Lemma keeps_rename_peer b (T : Report -> Prop) suffix a new old : plain old ->
  (given_or new (alias_input a) = None -> T Cancelled) ->
  (forall m, given_or new (alias_input a) = Some m -> (plain m -> is_Some (b m)) -> T (NameTaken m)) ->
  (b old = None -> T (NoSuchPeer old)) ->
  (forall m, given_or new (alias_input a) = Some m -> is_Some (b old) -> m = old \/ b m = None ->
    validate_peer_name m = Ok tt -> T (Renamed old m)) ->
  keeps b T (rename_to root suffix a new old).
Proof.
  intros Hold TC TN TS TR. unfold rename_to. fold (given_or new (alias_input a)).
  destruct (given_or new (alias_input a)) as [m|]; [|by apply keeps_ret; [|apply TC]]. intros s r s' Hh.
  unfold mbind at 1, M_bind at 1.
  destruct ((if decide (old = m) then mret None else M_map_err PeerStorage (load_peer (PT := PT) root m)) s) as [r1 s1] eqn:E1.
  assert (holds b s1 /\ forall o, r1 = Ok o -> (m = old /\ o = None) \/ (plain m -> o = b m)) as [H1 Ho].
  { case_decide as Em; [injection E1 as <- <-; split; [done|]; intros o [= <-]; left; done|].
    unfold M_map_err in E1. destruct (load_peer root m s) as [r0 s0] eqn:E0. injection E1 as <- <-.
    apply (loaded b) in E0 as [H0 Ho]; [|done]. split; [done|]. intros o Hr0. right. apply Ho.
    destruct r0; cbn in Hr0; congruence. }
  destruct r1 as [taken|e]; [|by intros [= <- <-]]. specialize (Ho taken eq_refl).
  destruct taken as [q|].
  { intros [= <- <-]. split; [done|]. intros rep [= <-]. apply TN; [done|]. intros Hm.
    destruct Ho as [[_ ?]|Ho]; [done|]. rewrite <-Ho; [eauto|done]. }
  unfold mbind, M_bind, M_map_err, rename_peer, mret, M_ret, mbind, M_bind.
  destruct (load_peer root old s1) as [r2 s2] eqn:E2.
  apply (loaded b) in E2 as [H2 Hp]; [|done]. destruct r2 as [o|e]; cbn [map_err]; [|by intros [= <- <-]].
  specialize (Hp o eq_refl Hold). destruct o as [p|]; [|intros [= <- <-]; split; [done|]; intros rep [= <-]; by apply TS].
  destruct (save_peer root suffix (mk_PeerProfile m (ticket p)) s2) as [r3 s3] eqn:E3.
  apply (saved _ b) in E3; [|done]. destruct r3 as [u|e]; cbn [map_err]; [|by intros [= <- <-]].
  destruct E3 as (Hv & H3 & Hf).
  destruct (delete_peer root old s3) as [r4 s4] eqn:E4. apply (deleted _ _ _ _ _ H3 Hold) in E4.
  destruct r4 as [ok|e]; cbn [map_err].
  - intros [= <- <-]. split; [|intros rep [= <-]; apply TR; [done|by rewrite <-Hp| |done]].
    + destruct E4 as (Hr4 & Ht4 & Hb4). split; [done|]. split; [done|]. intros x Hx. rewrite Hb4 by done. cbn.
      rewrite <-Hp. cbn. done.
    + destruct Ho as [[-> _]|Ho]; [by left|]. right. symmetry. by apply Ho, valid_plain.
  - intros _. exfalso. destruct E4 as [_ Hd].
    destruct H3 as (_ & _ & Hb3). destruct (decide (m = old)) as [->|Hne].
    + destruct Hf as (json & k & Hf). change (nodes s3 !! (file_of old :: peers_dir root) = Some (File json k)) in Hf.
      by rewrite Hf in Hd.
    + specialize (Hb3 old (proj1 Hold)). cbn in Hb3. rewrite decide_False, <-Hp in Hb3 by done.
      unfold book in Hb3. by destruct (nodes s3 !! (file_of old :: peers_dir root)) as [[]|].
Qed.

(** A book whose listing is empty is empty. *)
Lemma listed_none b s : holds b s -> lists [] b -> forall n, plain n -> b n = None.
Proof.
  intros (_ & Ht & Hb) Hl n [Hn _]. destruct (b n) as [p|] eqn:E; [|done]. exfalso.
  destruct (book_name (nodes s) n p) as [En Hv]; [done|done|by rewrite Hb|].
  assert (p ∈ []) as Hin%elem_of_nil; [|done]. apply Hl. by rewrite En.
Qed.

Lemma keeps_picked b (T : Report -> Prop) a given go :
  (forall n, given = Some n -> plain n) ->
  (forall n, plain n -> means a given b n -> keeps b T (go n)) ->
  (given = None -> (forall n, plain n -> b n = None) -> T Nothing) ->
  (given = None -> selected a = None -> (exists m, is_Some (b m)) -> T Cancelled) ->
  keeps b T (picked root a given go).
Proof.
  intros Hg Hgo HN HC s r s' Hh. unfold picked, pick_peer. destruct given as [n|].
  { by apply (Hgo n (Hg n eq_refl) eq_refl s r s' Hh). }
  unfold mbind, M_bind, M_map_err. destruct (list_peers root s) as [r1 s1] eqn:E1.
  apply (listed b) in E1 as [H1 Hl]; [|done]. destruct r1 as [l|e]; cbn [map_err]; [|by intros [= <- <-]].
  specialize (Hl l eq_refl). case_decide as El.
  { subst l. apply keeps_ret; [done| |done]. by apply HN; [|eapply listed_none]. }
  destruct (selected a) as [i|] eqn:Es.
  - destruct (l !! i) as [p|] eqn:Ep; [|by intros [= <- <-]].
    apply list_elem_of_lookup_2, Hl in Ep as [Hv Hp].
    apply Hgo; [by apply valid_plain|split; [by rewrite Es|done]|done].
  - apply keeps_ret; [done| |done]. apply HC; [done..|]. destruct l as [|p l]; [done|].
    exists (name p). assert (p ∈ p :: l) as [_ ->]%Hl by left. done.
Qed.

(** The names of a command that are no new ones. *)
Definition names_plain (action : PeerAction) : Prop :=
  match action with
  | PeerRemove (Some n) | PeerInfo (Some n) | PeerRename (Some n) _ => plain n
  | _ => True
  end.

Lemma keeps_exec b suffix json a action : names_plain action ->
  keeps b (truthful json a action b) (exec ticket_from_str id_of root suffix json a action).
Proof.
  intros Hp. destruct action as [|n t|g|g|g new]; cbn [exec].
  - intros s r s' Hh. unfold mbind, M_bind, M_map_err. destruct (list_peers root s) as [r1 s1] eqn:E1.
    apply (listed b) in E1 as [H1 Hl]; [|done]. destruct r1 as [l|e]; cbn [map_err]; intros [= <- <-]; [|done].
    split; [done|]. intros rep [= <-]. split; [done|]. by apply Hl.
  - apply keeps_add.
  - apply keeps_picked; [by intros m ->| |by intros -> ?|by intros -> ? ?]. intros n Hn Hm.
    assert (meant a (PeerRemove g) b n) by by exists g.
    apply keeps_remove_peer; [done|done|]. intros ?. split; [by exists n|done].
  - apply keeps_picked; [by intros m ->| |by intros -> ?|by intros -> ? ?]. intros n Hn Hm.
    assert (meant a (PeerInfo g) b n) by by exists g.
    apply keeps_info; [done| |done]. intros p <- Hb. done.
  - apply keeps_picked; [by intros m ->| |by intros -> ?|by intros -> ? ?; left]. intros n Hn Hm.
    assert (meant a (PeerRename g new) b n) by by exists g.
    apply keeps_rename_peer; [done|by right| |done|].
    + intros m Hw Hb. split; [right; by exists g, new|done].
    + intros m Hw Ho Hf Hv. split_and!; [done..|]. by exists g, new.
Qed.
End book.

(** ** What the commands promise *)


Definition demo_parse (b : bytes) : option N := if decide (b = bs "t1") then Some 7%N else None.
Definition demo_id (t : N) : bytes := bs "0123456789abcdef".
Definition demo_answers : Answers := mk_Answers (Some (bs " t1 ")) (Some (bs "home")) None true.

Lemma demo_tidy : tidy (SJ := bit_json) (Ticket := N) (PT := N_payload) [bs "srv"] (nodes (demo_fs (fun _ => None))).
Proof.
  intros file _ json m H. exfalso. revert H. unfold demo_fs. cbn [nodes].
  unfold peers_dir. rewrite ?lookup_insert_ne by (intros [=]). by rewrite lookup_singleton_ne by (intros [=]).
Qed.


(** Removing a name that is not in the book is reported as a success. *)
Lemma remove_unknown_reported {SJ : SerdeJson} {Ticket} {PT : Payload Ticket} root ticket_from_str id_of suffix json n s :
  reliable s -> plain n -> nodes s !! (file_of n :: peers_dir root) = None ->
  exists s', exec (PT := PT) ticket_from_str id_of root suffix json (mk_Answers None None None true) (PeerRemove (Some n)) s =
    (Ok (Removed n), s') /\ nodes s' = nodes s.
Proof.
  intros Hr [Hn Hs] Hd. eexists. cbn [exec]. unfold picked, pick_peer, remove_peer. rewrite orb_true_r.
  unfold mbind, M_bind, mret, M_ret, M_map_err, delete_peer, remove_file, syscall.
  rewrite Hr, peer_path_valid by done. fold (file_of n). by rewrite Hd.
Qed.
