(* ===== verification/ConnectFlow.v ===== *)
(** * The connect command: [cli/src/commands/connect/mod.rs] and [tunnels.rs]

    The phases of [irosh connect]: what the target is, dialing and
    authenticating, setting the session up, the shell, and the end; with the
    saving of peers around them. The phases are those of the code, and every
    call is the model of its own file. What the user, the network, the
    terminal and the peer do during one command is a [Surroundings]. *)

From stdpp Require Import sorting.
From S2P Require Import Wormhole Startup.
From S2P Require Import Prelude Text Stream Fs StorageUtils Vault Trust Auth Config Peers AddressBook.
From S2P Require Import Metadata TransferTypes TransferCodec Paths Conn ShellOps Control.
From S2P Require Import Pty HostKey Connect ClientSession TerminalTrip LocalPaths Editor InputActions Engine Completion LocalCommands Drive.

(** [ConnectPhase::Dial] up to its end: what can be interrupted by Ctrl-C. *)
Inductive DialStage : Type := Searching | DialingPeer | Authenticating.

#[export] Instance dial_stage_eq_dec : EqDecision DialStage.
Proof. solve_decision. Defined.

(** ** Port forwards *)

Definition parse_u32 (b : bytes) : option N :=
  match parse_radix 10 (2 ^ 32) b with Ok n => Some n | Err _ => None end.

(** The three parts of [local:host:remote]; any other text is no forward at
    all. [Err]: a port is no number. *)
Definition parse_forward (f : bytes) : option (result unit (N * bytes * N)) :=
  match split_on ":"%char f with
  | [l; remote_host; r] =>
      Some (match parse_u16 l with
            | None => Err tt
            | Some local_port =>
                match parse_u32 r with
                | None => Err tt
                | Some remote_port => Ok (local_port, remote_host, remote_port)
                end
            end)
  | _ => None
  end.

Definition local_addr (local_port : N) : bytes := bs "127.0.0.1:" ++ decimal local_port.

Section flow.
Context {SJ : SerdeJson} {Ticket : Type} {PT : Payload Ticket}.
Context {Sv : Type} {SS : SshServer Sv} {K : Type} {SK : SshKey K} {RelayUrl : Type}.
Variable ticket_from_str : bytes -> option Ticket.
Variable id_of : Ticket -> bytes.
Variable relay_url_from_str : bytes -> option RelayUrl.
Variable to_lowercase : bytes -> bytes.
Variable answers : list (Request * option bytes) -> Request -> option bytes.
Variable sig_text : Sig -> bytes.
Variable home : option bytes.
Variable error_text : IroshError -> bytes.
Variable split : bytes -> option (list bytes).
Variable quote : bytes -> bytes.
Variable state : StateConfig.

Abbreviation root := (Config.root state).

Inductive FlowError : Type :=
| FlowStorage (e : storage_error)
| FlowRelay (url : bytes)
| FlowTarget (e : TargetError)
| FlowRendezvous (e : Wormhole.RendezvousError)
| FlowConnect (e : ConnectError)
| FlowSession (e : SessionError)
| FlowHistory (e : io_error)
| FlowTerminal
| FlowPort
| FlowCancelled
| FlowSelect.

(** ** What surrounds a command *)

Record Surroundings : Type := mk_Surroundings {
  code_input : option bytes;                 (** "Enter a wormhole code or ticket" *)
  peer_choice : option nat;
  resolve : nat -> option (list bytes);      (** the records at the wormhole's key *)
  overdue : bool;
  prepared : result storage_error unit;      (** [dial_p2p] until its endpoint is bound *)
  dials : nat -> Dialed;
  blob_dials : nat -> Dialed;
  exchange : Exchange (K := K);
  passwords : nat -> option bytes;
  interrupted : option (DialStage * World (Sv := Sv));   (** Ctrl-C, and what the stage had done *)
  session_handler : ClientHandler K;         (** as [establish_session] leaves it *)
  remote_metadata : option PeerMetadata;
  alias_answer : option bytes;               (** "Enter a new alias" *)
  random : N;
  on_tty : bool;                             (** of standard input and output *)
  raw_mode : bool;                           (** whether [TerminalGuard::new] succeeds *)
  term : option bytes;
  window : PtySize;
  listen : bytes -> result bytes bytes;
  current_dir : option bytes;
  events : list LoopEvent;                   (** of the interactive session *)
}.
Variable env : Surroundings.

(** ** The state *)

Record Flow : Type := mk_Flow {
  world : World (Sv := Sv);
  session : option (Session K);              (** wherever the phases hold it *)
  peer_alias : option bytes;
  printed : bytes;
  printed_errors : bytes;
}.

Abbreviation F := (M Flow FlowError).

Definition set_world (w : World) (f : Flow) : Flow := mk_Flow w (session f) (peer_alias f) (printed f) (printed_errors f).
Definition set_session (s : Session K) (f : Flow) : Flow := mk_Flow (world f) (Some s) (peer_alias f) (printed f) (printed_errors f).
Definition set_alias (a : option bytes) (f : Flow) : Flow := mk_Flow (world f) (session f) a (printed f) (printed_errors f).
Definition set_printed (out err : bytes) (f : Flow) : Flow := mk_Flow (world f) (session f) (peer_alias f) out err.

Definition modify (g : Flow -> Flow) : F unit := fun f => (Ok tt, g f).
Definition on_world {A} (m : M (World (Sv := Sv)) FlowError A) : F A := fun f =>
  let '(r, w) := m (world f) in (r, set_world w f).
Definition on_disk {A} (m : M fs FlowError A) : F A := on_world (on_w_disk m).

(** An operation of the session the phase has. *)
Definition on_session {A} (s : Session K) (m : M (Session K) SessionError A) : F (A * Session K) := fun f =>
  let '(r, s) := m s in
  (match r with Ok x => Ok (x, s) | Err e => Err (FlowSession e) end, set_session s f).

(** ** Options *)

Record ClientOptions : Type := mk_ClientOptions {
  secret : option bytes;
  relay_mode : Startup.RelayMode (RelayUrl := RelayUrl);
}.

(** [a.or(b)] *)
Definition opt_or {A} (a b : option A) : option A := match a with Some _ => a | None => b end.

Definition client_options (config : AppConfig) (secret_str : option bytes) : result FlowError ClientOptions :=
  let secret := opt_or secret_str (stealth_secret config) in
  match relay_url config with
  | Some url => map_err FlowRelay (mk_ClientOptions secret <$> Startup.parse_relay_mode relay_url_from_str url)
  | None => Ok (mk_ClientOptions secret Startup.RelayDefault)
  end.

(** ** Saving peers *)

Abbreviation Profile := (PeerProfile Ticket).

Definition known_id (peers : list Profile) (t : Ticket) : bool :=
  existsb (fun p => bool_decide (id_of (ticket p) = id_of t)) peers.

(** [list_peers(state).unwrap_or_default()] *)
Definition peers_or_none : M fs FlowError (list Profile) :=
  r ← attempt (list_peers root);
  mret (match r with Ok peers => peers | Err _ => [] end).

Definition auto_save_peer (t : Ticket) (display_name : bytes) : M fs FlowError (option bytes) :=
  peers ← peers_or_none;
  if known_id peers t then mret None
  else
    let name_exists := existsb (fun p => bool_decide (name p = display_name)) peers in
    let final_name := if name_exists then alias_answer env else Some display_name in
    match final_name with
    | Some n => ignore (save_peer root (random env) (mk_PeerProfile n t))
    | None => mret tt
    end;;
    mret final_name.

Definition auto_save_temp_peer (t : Ticket) : M fs FlowError unit :=
  let n := default_name id_of t in
  peers ← peers_or_none;
  if known_id peers t then mret tt
  else ignore (save_peer root (random env) (mk_PeerProfile n t)).

(** ** Resolve *)

Definition ask_code : result FlowError bytes :=
  match entered (code_input env) with Some v => Ok v | None => Err FlowCancelled end.

Definition pick_target (target_str : option bytes) : F bytes :=
  match target_str with
  | Some t => mret t
  | None =>
      peers ← on_disk (M_map_err FlowStorage (list_peers (Ticket := Ticket) root));
      if decide (peers = []) then lift ask_code
      else
        match peer_choice env with
        | Some O => lift ask_code
        | Some (S i) => match peers !! i with Some p => mret (name p) | None => throw FlowSelect end
        | None => throw FlowCancelled
        end
  end.

Definition phase_resolve (target_str : option bytes) : F (ResolvedTarget (Ticket := Ticket)) :=
  raw_target ← pick_target target_str;
  resolved ← on_disk (M_map_err FlowTarget (parse_target ticket_from_str root raw_target));
  match resolved with
  | TargetTicket _ => on_disk (M_map_err FlowStorage (list_peers (Ticket := Ticket) root));; mret tt
  | TargetWormhole _ => mret tt
  end;;
  mret resolved.

(** ** Dial *)

Definition stage {A} (st : DialStage) (m : M (World (Sv := Sv)) FlowError A) : M (World (Sv := Sv)) FlowError A := fun w =>
  match interrupted env with
  | Some (st', w') => if decide (st = st') then (Err FlowCancelled, w') else m w
  | None => m w
  end.

(** A failure of a pairing saves the ticket. *)
Definition rescued {A} (is_pairing : bool) (t : Ticket) (m : M (World (Sv := Sv)) FlowError A) : M (World (Sv := Sv)) FlowError A :=
  on_error m (if is_pairing then on_w_disk (auto_save_temp_peer t) else mret tt).

Definition on_net {A} (m : Net -> result ConnectError A * Net) : M (World (Sv := Sv)) FlowError A := fun w =>
  let '(r, n) := m (w_net w) in (map_err FlowConnect r, mk_World n (w_disk w) (w_server w)).

(** [Client::dial_p2p] *)
Definition dial : M (World (Sv := Sv)) FlowError unit :=
  lift (map_err FlowStorage (prepared env));;
  set_net (fun _ => mk_Net true false false);;
  on_net (dial_p2p (dials env) (blob_dials env)).

Definition search (target : ResolvedTarget) : result FlowError (Ticket * bool) :=
  match target with
  | TargetTicket t => Ok (t, false)
  | TargetWormhole c =>
      match Wormhole.connect_wormhole ticket_from_str (resolve env) (overdue env) (code c) with
      | Ok t => Ok (t, true)
      | Err e => Err (FlowRendezvous e)
      end
  end.

Definition phase_dial (target : ResolvedTarget) : F (Session K * Ticket * bool) :=
  found ← on_world (stage Searching (lift (search target)));
  let '(t, is_pairing) := (found : Ticket * bool) in
  on_world (rescued is_pairing t (stage DialingPeer dial));;
  on_world (rescued is_pairing t (stage Authenticating
    (M_map_err FlowConnect (establish_session root Tofu (id_of t) None (Some (passwords env)) (exchange env)))));;
  let s := session_new (session_handler env) in
  modify (set_session s);;
  mret (s, t, is_pairing).

(** ** Setup *)

Inductive ConnectPhase : Type :=
| Resolve (target_str : option bytes)
| Dial (target : ResolvedTarget (Ticket := Ticket))
| Setup (s : Session K) (t : Ticket) (is_pairing : bool)
| Shell (s : Session K) (engine : InputEngine) (guard : bool)
| Close (reason : DisconnectReason) (detail : option DriveError).

(** How the command ends when it does not fail: [phase_close], the exit of the
    process with a status, or not yet. *)
Inductive Outcome : Type :=
| Finished (reason : DisconnectReason) (detail : option DriveError)
| Exited (code : N)
| StillRunning.

(** [process::exit(status as i32)]: the system keeps the low byte. *)
Definition exit_code (status : N) : N := status mod 2 ^ 8.

Definition run_command (s : Session K) (cmd : bytes) : F (ConnectPhase + Outcome) :=
  '(output, s) ← on_session s (capture_exec answers cmd);
  modify (fun f => set_printed (printed f ++ stdout output) (printed_errors f ++ stderr output) f);;
  modify (set_session (disconnect answers s).2);;
  if (exit_status output =? 0)%N then mret (inl (Close UserInitiated None))
  else mret (inr (Exited (exit_code (exit_status output)))).

(** [tunnels::setup_forwarding]: a listener that cannot be bound is only reported. *)
Definition setup_forwarding (s : Session K) (f : bytes) : F (Session K) :=
  match parse_forward f with
  | None => mret s
  | Some (Err _) => throw FlowPort
  | Some (Ok (local_port, _, _)) =>
      let s := (local_forward (listen env (local_addr local_port)) s).2 in
      modify (set_session s);; mret s
  end.

Definition forwarded (forward : option bytes) (s : Session K) : F (Session K) :=
  match forward with Some f => setup_forwarding s f | None => mret s end.

Definition display_name (t : Ticket) : bytes :=
  match remote_metadata env with
  | Some meta => default_alias to_lowercase meta
  | None => default_name id_of t
  end.

(** [meta.os.eq_ignore_ascii_case("windows")] *)
Definition remote_is_windows : bool :=
  match remote_metadata env with
  | Some meta => bool_decide (ascii_lowercase (os meta) = bs "windows")
  | None => false
  end.

Definition open_terminal (s : Session K) : F (Session K * bool) :=
  if on_tty env then
    ensure (raw_mode env) FlowTerminal;;
    '(_, s) ← on_session s (request_pty answers
      (pty_options_new (default (bs "xterm-256color") (term env)) (window env)));
    mret (s, true)
  else mret (s, false).

Definition phase_setup (forward exec_cmd : option bytes) (s : Session K) (t : Ticket) : F (ConnectPhase + Outcome) :=
  match exec_cmd with
  | Some cmd => run_command s cmd
  | None =>
      alias ← on_disk (auto_save_peer t (display_name t));
      modify (set_alias alias);;
      '(s, guard) ← open_terminal s;
      '(_, s) ← on_session s (start_shell answers);
      s ← forwarded forward s;
      engine ← on_disk (M_map_err FlowHistory (engine_new root remote_is_windows));
      mret (inl (Shell s engine guard))
  end.

(** ** Shell and close *)

(** The session's events; [StillRunning] when they do not end it. *)
Definition phase_shell (s : Session K) (engine : InputEngine) : F (ConnectPhase + Outcome) := fun f =>
  let l := Drive.run answers sig_text home (os <$> remote_metadata env) error_text split quote
             (drive_new s engine (w_disk (world f)) (current_dir env)) (events env) in
  match l with
  | None => (Ok (inr StillRunning), f)
  | Some l =>
      let t := Drive.terminal l in
      let w := world f in
      let f := set_session (LocalCommands.session t) (set_world (mk_World (w_net w) (files t) (w_server w)) f) in
      match Drive.outcome l with
      | None => (Ok (inr StillRunning), f)
      | Some (Ok reason) => (Ok (inl (Close reason None)), f)
      | Some (Err err) => (Ok (inl (Close SessionErrored (Some err))), f)
      end
  end.

(** [phase_close]: the message. *)
Definition phase_close (reason : DisconnectReason) (alias : option bytes) : bytes :=
  let peer := default (bs "remote") alias in
  match reason with
  | UserInitiated => bs "Disconnected from " ++ peer ++ bs "."
  | RemoteClosed => peer ++ bs " closed the connection."
  | ShellCrashed => peer ++ bs " shell exited unexpectedly."
  | SessionErrored => bs "Session with " ++ peer ++ bs " terminated due to an error."
  end.

(** One turn of the loop of [exec_internal]. *)
Definition phase (forward exec_cmd : option bytes) (p : ConnectPhase) : F (ConnectPhase + Outcome) :=
  match p with
  | Resolve target_str => resolved ← phase_resolve target_str; mret (inl (Dial resolved))
  | Dial target => '(s, t, is_pairing) ← phase_dial target; mret (inl (Setup s t is_pairing))
  | Setup s t _ => phase_setup forward exec_cmd s t
  | Shell s engine _ => phase_shell s engine
  | Close reason detail =>
      f ← (fun f => (Ok f, f)) : F Flow;
      modify (set_printed (printed f) (printed_errors f ++ phase_close reason (peer_alias f)));;
      mret (inr (Finished reason detail))
  end.

Fixpoint phases (forward exec_cmd : option bytes) (fuel : nat) (p : ConnectPhase) : F (option Outcome) :=
  match fuel with
  | O => mret None
  | S fuel =>
      r ← phase forward exec_cmd p;
      match r with
      | inl p => phases forward exec_cmd fuel p
      | inr o => mret (Some o)
      end
  end.

(** [exec_internal] *)
Definition exec_internal (fuel : nat) (target_str code_str ticket_str forward_str secret_str exec_cmd : option bytes) :
    F (option Outcome) :=
  config ← on_disk (M_map_err FlowStorage (load_config state));
  lift (client_options config secret_str);;
  let initial_target := opt_or (opt_or ticket_str code_str) target_str in
  phases forward_str exec_cmd fuel (Resolve initial_target).
End flow.
