(* ===== verification/ConnectFlowFacts.v ===== *)
(** * What the connect command guarantees

    The phases of ConnectFlow.v always decide; a failed pairing is not lost; a
    new peer is found again under its alias; a command's status and output
    arrive; and a server whose key differs from the pinned one gets nothing. *)

From stdpp Require Import sorting.
From stdpp Require Import pretty.
From S2P Require Import Wormhole Startup History.
From S2P Require Import Prelude Text Stream Fs StorageUtils Vault Trust Auth Config Peers AddressBook.
From S2P Require Import Metadata TransferTypes TransferCodec Paths Conn ShellOps Control.
From S2P Require Import Pty HostKey Connect ClientSession TerminalTrip LocalPaths Editor InputActions Engine Completion LocalCommands Drive.
From S2P Require Import DriveFacts ConnectFlow.

(** ** Port forwards *)

Lemma digit_of_char x : (x < 10)%N -> digit_of 10 (pretty_N_char x) = Some x.
Proof.
  intros H. assert (x = 0 \/ x = 1 \/ x = 2 \/ x = 3 \/ x = 4 \/ x = 5 \/ x = 6 \/ x = 7 \/ x = 8 \/ x = 9)%N as Hx by lia.
  destruct_or! Hx; subst x; reflexivity.
Qed.

Lemma parse_digits_pretty bound x str : (x < bound)%N ->
  parse_digits 10 bound 0 (bs (pretty_N_go x str)) = parse_digits 10 bound x (bs str).
Proof.
  revert str. induction (N.lt_wf_0 x) as [x _ IH]. intros str Hx.
  destruct (decide (x = 0)%N) as [->|Hne]; [by rewrite pretty_N_go_0|].
  assert (x / 10 < x)%N as Hlt by (apply N.div_lt; lia).
  rewrite pretty_N_go_step, IH by lia.
  change (bs (String ?c ?s)) with (c :: bs s). cbn [parse_digits].
  rewrite digit_of_char by by apply N.mod_lt. cbv zeta.
  assert (x / 10 * 10 + x mod 10 = x)%N as -> by (pose proof (N.div_mod x 10); lia).
  by rewrite (proj2 (N.ltb_lt _ _) Hx).
Qed.

(** A number is read back from its decimal digits. *)
Lemma parse_radix_decimal bound x : (x < bound)%N -> parse_radix 10 bound (decimal x) = Ok x.
Proof.
  intros Hx. unfold decimal, pretty, pretty_N. case_decide as H0.
  { subst x. destruct bound; [lia|done]. }
  pose proof (parse_digits_pretty bound x EmptyString Hx) as E. change (bs EmptyString) with (@nil ascii) in E.
  assert (forall c, c ∈ bs (pretty_N_go x EmptyString) -> digit_of 10 c <> None) as Hd.
  { clear. assert (forall y str, (forall c, c ∈ bs str -> digit_of 10 c <> None) ->
      forall c, c ∈ bs (pretty_N_go y str) -> digit_of 10 c <> None) as Hgo; [|by apply Hgo; intros c ?%elem_of_nil].
    intros y. induction (N.lt_wf_0 y) as [y _ IH]. intros str Hs.
    destruct (decide (y = 0)%N) as [->|Hne]; [done|]. rewrite pretty_N_go_step by lia.
    apply IH; [apply N.div_lt; lia|]. intros c [->|Hc]%elem_of_cons; [|by apply Hs].
    by rewrite digit_of_char by by apply N.mod_lt. }
  destruct (bs (pretty_N_go x EmptyString)) as [|c b] eqn:Eb.
  - cbn in E. injection E as <-. done.
  - unfold parse_radix. destruct (decide (c = "+"%char)) as [->|Hc]; [exfalso; apply (Hd "+"%char); [left|done]|].
    change (parse_digits 10 bound x []) with (@Ok bytes N x) in E. destruct c as [[] [] [] [] [] [] [] []]; done.
Qed.

Lemma decimal_no_colon x : ":"%char ∉ decimal x.
Proof.
  intros Hin. assert (forall y str, ":"%char ∉ bs str -> ":"%char ∉ bs (pretty_N_go y str)) as Hgo.
  { intros y. induction (N.lt_wf_0 y) as [y _ IH]. intros str Hs.
    destruct (decide (y = 0)%N) as [->|Hne]; [done|]. rewrite pretty_N_go_step by lia.
    apply IH; [apply N.div_lt; lia|]. intros [E|Hc]%elem_of_cons; [|done].
    pose proof (digit_of_char (y mod 10)) as Hd. rewrite <-E in Hd. specialize (Hd (N.mod_lt y 10 ltac:(done))). done. }
  revert Hin. unfold decimal, pretty, pretty_N. case_decide; [by apply (bool_decide_unpack _)|]. by apply Hgo, not_elem_of_nil.
Qed.

(** ** Storage that works *)

Lemma apply_secure_permissions_works p s c m :
  reliable s -> nodes s !! p = Some (File c m) ->
  exists s' m', apply_secure_permissions p s = (Ok tt, s') /\ reliable s' /\ nodes s' = <[p := File c m']> (nodes s).
Proof.
  intros Hr Hp. unfold apply_secure_permissions, metadata, mbind, M_bind, M_map_err.
  rewrite query_reliable, Hp by done. cbn [map_err]. destruct (_ =? _)%N.
  - eexists _, m. split; [reflexivity|]. split; [done|]. cbn. by rewrite insert_id.
  - unfold set_permissions, syscall. cbn [nodes tick oracle ticks]. rewrite Hr, Hp. by eexists _, _.
Qed.

(** Without faults a write succeeds, unless a directory is in the way. *)
Lemma atomic_write_works suffix base parent data s :
  reliable s -> is_dir_node (nodes s !! parent) ->
  is_dir_node (nodes s !! (base :: parent)) = false ->
  is_dir_node (nodes s !! (tmp_name base suffix :: parent)) = false ->
  exists s', atomic_write_secure suffix (base :: parent) data s = (Ok tt, s').
Proof.
  intros Hr Hp Ht Hm. unfold atomic_write_secure, ensure_dir_secure, mbind, M_bind.
  rewrite path_exists_reliable by done. rewrite bool_decide_eq_true_2 by (by destruct (nodes s !! parent)).
  cbn [negb]. set (s1 := tick s (nodes s)). assert (reliable s1) as Hr1 by done.
  unfold mret, M_ret, on_error, write_tmp_and_rename, mbind, M_bind, M_map_err.
  set (tmp := tmp_name base suffix :: parent) in *.
  assert (exists m, file_create tmp s1 = (Ok tt, tick s1 (<[tmp := File [] m]> (nodes s)))) as (m & ->).
  { unfold file_create, syscall. rewrite Hr1. unfold s1. cbn [nodes tick].
    destruct (nodes s !! tmp) as [[|c m]|] eqn:E; [done|by eexists|].
    unfold parent_check, tmp. destruct (nodes s !! parent) as [[]|]; [by eexists|done..]. }
  set (s2 := tick _ _). assert (reliable s2) as Hr2 by done.
  assert (nodes s2 !! tmp = Some (File [] m)) as E2 by apply lookup_insert_eq. cbn [map_err].
  destruct (apply_secure_permissions_works tmp s2 [] m Hr2 E2) as (s3 & m3 & -> & Hr3 & E3).
  unfold file_write_all. rewrite Hr3. cbn [map_err]. unfold append. rewrite E3, lookup_insert_eq. cbn [app].
  set (s4 := tick s3 _). unfold file_sync. rewrite query_reliable by done. cbn [map_err].
  unfold Fs.rename, syscall. cbn [oracle ticks tick s4]. rewrite Hr3. cbn [nodes tick].
  assert (tmp <> base :: parent) as Hne by (unfold tmp; intros [= E]; by apply tmp_name_ne in E).
  assert (parent <> tmp) as Hpt by (unfold tmp; intros E; apply (f_equal length) in E; simpl in E; lia).
  assert (nodes s4 !! tmp = Some (File data m3)) as -> by apply lookup_insert_eq.
  assert (nodes s4 !! (base :: parent) = nodes s !! (base :: parent)) as ->
    by (unfold s4, s2; cbn [nodes tick]; by rewrite !lookup_insert_ne by done).
  unfold parent_check.
  assert (nodes s4 !! parent = nodes s !! parent) as ->
    by (unfold s4, s2; cbn [nodes tick]; by rewrite !lookup_insert_ne by done).
  destruct (nodes s !! (base :: parent)) as [[]|]; [done|..];
    destruct (nodes s !! parent) as [[]|]; try done; by eexists.
Qed.

Section book.
Context {SJ : SerdeJson} {SL : SerdeJsonLaws} {Ticket : Type} {PT : Payload Ticket}.
Variable root : path.

Abbreviation Profile := (PeerProfile Ticket).
Abbreviation book_of s := (book (PT := PT) root (nodes s)).

(** The same peers directory, with the same entries. *)
Record peers_same (d d' : gmap path node) : Prop := {
  ps_entries file : d' !! (file :: peers_dir root) = d !! (file :: peers_dir root);
  ps_root : is_dir_node (d !! root) = true -> is_dir_node (d' !! root) = true;
  ps_dir : is_dir_node (d !! peers_dir root) = true -> is_dir_node (d' !! peers_dir root) = true;
}.

(** A disk on which the address book can be read and written. *)
Record ready (s : fs) : Prop := {
  rd_reliable : reliable s;
  rd_tidy : tidy (Ticket := Ticket) root (nodes s);
  rd_root : is_dir_node (nodes s !! root) = true;
  rd_dir : is_dir_node (nodes s !! peers_dir root) = true;
  rd_files file : is_dir_node (nodes s !! (file :: peers_dir root)) = false;
}.

Lemma peers_same_refl d : peers_same d d.
Proof. by split. Qed.

Lemma peers_same_trans d1 d2 d3 : peers_same d1 d2 -> peers_same d2 d3 -> peers_same d1 d3.
Proof. intros [E1 R1 D1] [E2 R2 D2]. split; [|by auto..]. intros file. by rewrite E2. Qed.

Lemma peers_same_book d d' n : peers_same d d' -> book (PT := PT) root d' n = book root d n.
Proof. intros [E _ _]. unfold book. by rewrite E. Qed.

Lemma ready_same s s' : ready s -> reliable s' -> peers_same (nodes s) (nodes s') -> ready s'.
Proof.
  intros [Hr Ht Hroot Hd Hf] Hr' [E R D]. split; [done| |by auto..|].
  - intros file Hj json m. rewrite E. by apply Ht.
  - intros file. by rewrite E.
Qed.

Lemma ensure_peers_dir_works s : ready s ->
  exists s', ensure_peers_dir root s = (Ok (peers_dir root), s') /\ reliable s' /\ peers_same (nodes s) (nodes s').
Proof.
  intros [Hr Ht Hroot Hd Hf]. unfold ensure_peers_dir, mbind, M_bind, mret, M_ret.
  destruct (ensure_dir_secure_tighten_again root s) as [s1 E1]; [done|by rewrite Hroot|].
  apply ensure_dir_secure_tighten_runs in E1 as R1. rewrite E1.
  assert (reliable s1) as Hr1 by by eapply runs_reliable. apply (runs_final _ _ _ (dirs_only_refl _ _)) in R1.
  assert (is_dir_node (nodes s1 !! peers_dir root)) as Hd1 by (eapply dirs_only_dir; [exact R1|by rewrite Hd]).
  destruct (ensure_dir_secure_tighten_again (peers_dir root) s1) as [s2 E2]; [done|done|].
  apply ensure_dir_secure_tighten_runs in E2 as R2. rewrite E2.
  assert (reliable s2) as Hr2 by by eapply runs_reliable. apply (runs_final _ _ _ (dirs_only_refl _ _)) in R2.
  exists s2. split; [done|]. split; [done|].
  assert (forall q, is_dir_node (nodes s !! q) = true -> is_dir_node (nodes s2 !! q) = true) as Hdirs.
  { intros q Hq. apply Is_true_true. eapply dirs_only_dir; [exact R2|]. eapply dirs_only_dir; [exact R1|]. by apply Is_true_true. }
  split; [|by apply Hdirs..]. intros file.
  rewrite (dirs_only_below _ _ _ _ R2), (dirs_only_below _ _ _ _ R1); [done| |];
    intros [k Hk]; apply (f_equal length) in Hk; rewrite length_app in Hk; simpl in Hk; lia.
Qed.

Lemma list_peers_works s : ready s ->
  exists l s', list_peers (Ticket := Ticket) root s = (Ok l, s') /\ ready s' /\ peers_same (nodes s) (nodes s') /\
    forall p, p ∈ l <-> validate_peer_name (name p) = Ok tt /\ book_of s (name p) = Some p.
Proof.
  intros H. destruct (ensure_peers_dir_works s H) as (s1 & E1 & Hr1 & S1). pose proof (ready_same _ _ H Hr1 S1) as H1.
  destruct (list_peers (Ticket := Ticket) root s) as [r s'] eqn:E.
  pose proof (list_peers_spec root s r s' (rd_reliable _ H) (rd_tidy _ H) E) as (Hr' & _ & Hl).
  revert E. unfold list_peers, mbind, M_bind, M_map_err. rewrite E1. unfold read_dir. rewrite query_reliable by done.
  pose proof (rd_dir _ H1) as Hd1. destruct (nodes s1 !! peers_dir root) as [[k|]|]; [|done..]. cbn [map_err].
  destruct (collect_pure (fun s' => reliable s' /\ nodes s' = nodes s1) (entry_of root (nodes s1)) (list_entry (peers_dir root))
    (children (nodes s1) (peers_dir root))) with (s := tick s1 (nodes s1)) as (s2 & -> & Hr2 & E2);
    [intros file s0 H0; apply list_entry_reliable; [apply (rd_tidy _ H1)|done]|done|].
  intros [= <- <-]. eexists _, s2. split; [reflexivity|]. rewrite E2.
  assert (ready s2) as H2 by (apply (ready_same s1); [done|done|rewrite E2; apply peers_same_refl]).
  split; [done|]. split; [done|]. by apply Hl.
Qed.

Lemma save_peer_works suffix (p : Profile) json s :
  ready s -> validate_peer_name (name p) = Ok tt -> to_vec_pretty p = Ok json ->
  exists s', save_peer root suffix p s = (Ok tt, s') /\ ready s' /\
    forall m, m <> [] -> book_of s' m = if decide (m = name p) then Some p else book_of s m.
Proof.
  intros H Hv Hj. destruct (ensure_peers_dir_works s H) as (s1 & E1 & Hr1 & S1). pose proof (ready_same _ _ H Hr1 S1) as H1.
  pose proof (peer_name_ok _ Hv) as (Hn & _ & _ & Hs & _).
  destruct (atomic_write_works suffix (file_of (name p)) (peers_dir root) json s1) as [s2 E2];
    [done|by rewrite (rd_dir _ H1)|by apply H1..|].
  assert (save_peer root suffix p s = (Ok tt, s2)) as E.
  { unfold save_peer, mbind, M_bind, lift, map_err. rewrite E1, Hv, Hj, peer_path_valid by done. exact E2. }
  exists s2. split; [done|]. assert (holds root (book_of s) s) as Hh by (split; [apply H|split; [apply H|done]]).
  destruct (saved root suffix _ p s (Ok tt) s2 Hh E) as (_ & (Hr2 & Ht2 & Hb2) & _). split; [|exact Hb2].
  pose proof (atomic_write_secure_spec _ _ _ _ _ _ _ E2) as (R & (m & Hm & _) & Hnone).
  apply runs_final in R as (F & _); [|apply write_step_refl].
  split; [done|done|apply Is_true_true|apply Is_true_true|].
  - eapply atomic_write_dirs; [exact E2|..].
    + intros Hq. apply (f_equal length) in Hq. simpl in Hq. lia.
    + intros Hq. apply (f_equal length) in Hq. simpl in Hq. lia.
    + by rewrite (rd_root _ H1).
  - eapply atomic_write_dirs; [exact E2|..].
    + intros Hq. apply (f_equal length) in Hq. simpl in Hq. lia.
    + intros Hq. apply (f_equal length) in Hq. simpl in Hq. lia.
    + by rewrite (rd_dir _ H1).
  - intros file. destruct (decide (file = file_of (name p))) as [->|Hf1]; [by rewrite Hm|].
    destruct (decide (file = tmp_name (file_of (name p)) suffix)) as [->|Hf2]; [by rewrite Hnone|].
    destruct (F (file :: peers_dir root)) as [->|([k Hk] & _)]; [by intros [= ?]..|apply (rd_files _ H1)|].
    destruct k as [|c k]; [by injection Hk|]. apply (f_equal length) in Hk. simpl in Hk. rewrite length_app in Hk. simpl in Hk. lia.
Qed.

(** ** The other calls leave the book alone *)

Context {K : Type} {SK : SshKey K}.

Lemma same_peers s s' : runs same s s' -> peers_same (nodes s) (nodes s').
Proof. intros ->%runs_same_nodes. apply peers_same_refl. Qed.

Lemma load_known_peers id s r s' :
  load_known_server (K := K) root id s = (r, s') -> reliable s -> reliable s' /\ peers_same (nodes s) (nodes s').
Proof.
  intros E Hr. destruct (load_known_reliable root id s Hr) as (r0 & s0 & E0 & N0 & R0 & _).
  rewrite E0 in E. injection E as <- <-. split; [done|]. rewrite N0. apply peers_same_refl.
Qed.

Lemma write_known_peers suffix id key s r s' :
  write_known_server root suffix id key s = (r, s') -> reliable s -> reliable s' /\ peers_same (nodes s) (nodes s').
Proof.
  unfold write_known_server, mbind at 1, M_bind at 1. intros E Hr.
  destruct (ensure_trust_dirs root s) as [r1 s1] eqn:E1.
  pose proof (ensure_trust_dirs_runs _ _ _ _ E1) as [R1 _].
  assert (reliable s1) as Hr1 by (by eapply runs_reliable).
  pose proof (runs_final _ _ _ (dirs_in_refl _ _) R1) as F1.
  assert (peers_same (nodes s) (nodes s1)) as P1.
  { split.
    - intros file. destruct (F1 (file :: peers_dir root)) as [?|([Hq|Hq] & _)]; [done|..]; exfalso;
        destruct Hq as [k Hq]; unfold clients_dir, servers_dir, trust_dir, peers_dir in *;
        (destruct k as [|c k]; [by injection Hq|]); apply (f_equal length) in Hq; rewrite length_app in Hq; simpl in *; lia.
    - intros Hd. destruct (F1 root) as [->|(_ & _ & ?)]; [done|by apply Is_true_true].
    - intros Hd. destruct (F1 (peers_dir root)) as [->|(_ & _ & ?)]; [done|by apply Is_true_true]. }
  destruct r1 as [u|e]; [|by injection E as <- <-].
  revert E. unfold write_public_key, mbind, M_bind, mret, M_ret.
  destruct (to_openssh key) as [data|] eqn:Ek; [|by intros [= <- <-]].
  destruct (atomic_write_secure suffix _ data s1) as [r2 s2] eqn:E2. intros E.
  assert (s' = s2) as -> by (by destruct r2; injection E).
  pose proof E2 as [R2 _]%atomic_write_secure_spec. split; [by eapply runs_reliable|].
  apply (peers_same_trans _ _ _ P1). apply runs_final in R2 as (F & _); [|apply write_step_refl].
  unfold servers_dir, trust_dir, peers_dir in *.
  split.
  - intros file. destruct (F (file :: bs "peers" :: root)) as [?|(Hq & _)]; try done;
      try (intros Hq; apply (f_equal length) in Hq; simpl in Hq; lia).
    exfalso. destruct Hq as [k Hq]. destruct k as [|c [|c' k]]; [..|apply (f_equal length) in Hq; rewrite length_app in Hq; simpl in Hq; lia].
    + apply (f_equal length) in Hq. simpl in Hq. lia.
    + by injection Hq.
  - intros Hd. apply Is_true_true. eapply atomic_write_dirs; [exact E2|..|by apply Is_true_true];
      intros Hq; apply (f_equal length) in Hq; simpl in Hq; lia.
  - intros Hd. apply Is_true_true. eapply atomic_write_dirs; [exact E2|..|by apply Is_true_true];
      intros Hq; apply (f_equal length) in Hq; simpl in Hq; lia.
Qed.

Lemma ssh_connect_peers (x : Exchange) h s r s' :
  ssh_connect root x h s = (r, s') -> reliable s -> reliable s' /\ peers_same (nodes s) (nodes s').
Proof.
  intros E Hr. unfold ssh_connect in E.
  destruct (ex_failure x) as [[]|]; [by injection E as <- <-..|].
  unfold check_server_key in E. destruct (host_key_policy h); [..|by injection E as <- <-];
    (destruct (known_server h); [case_decide; by injection E as <- <-|]); [by injection E as <- <-|].
  destruct (write_known_server root (ex_suffix x) (node_id h) (ex_key x) s) as [rw sw] eqn:Ew.
  apply write_known_peers in Ew as [Hrw P]; [|done]. by destruct rw; injection E as <- <-.
Qed.

Context {Sv : Type} {SS : SshServer Sv}.

Lemma establish_session_peers policy id creds prompter (x : Exchange) (w : World (Sv := Sv)) r w' :
  establish_session root policy id creds prompter x w = (r, w') -> reliable (w_disk w) ->
  reliable (w_disk w') /\ peers_same (nodes (w_disk w)) (nodes (w_disk w')).
Proof.
  intros E Hr. unfold establish_session, mbind, M_bind, lift in E.
  destruct (ex_identity x); cbn [map_err] in E; [|by injection E as <- <-].
  assert (exists r1 s1, (if decide (policy = AcceptAll) then mret None
      else on_w_disk (M_map_err ConnectStorage (load_known_server (K := K) root id))) w = (r1, mk_World (w_net w) s1 (w_server w)) /\
    reliable s1 /\ peers_same (nodes (w_disk w)) (nodes s1)) as (r1 & s1 & E1 & Hr1 & P1).
  { case_decide; [exists (Ok None), (w_disk w); split; [by destruct w|split; [done|apply peers_same_refl]]|].
    unfold on_w_disk, M_map_err. destruct (load_known_server root id (w_disk w)) as [r0 s0] eqn:E0.
    apply load_known_peers in E0; [|done]. by eexists _, s0. }
  rewrite E1 in E. destruct r1 as [known|e]; [|by injection E as <- <-].
  destruct (ex_stream x); [|by injection E as <- <-].
  unfold on_error, handshake, mbind, M_bind, on_w_disk, mret, M_ret in E. cbn [w_disk] in E.
  destruct (ssh_connect root x _ s1) as [r2 s2] eqn:E2. apply ssh_connect_peers in E2 as [Hr2 P2]; [|done].
  assert (reliable s2 /\ peers_same (nodes (w_disk w)) (nodes s2)) as H2 by (split; [done|by eapply peers_same_trans]).
  destruct r2; [|by injection E as <- <-]. unfold on_server in E. cbn [w_server] in E.
  destruct (authenticate creds prompter (w_server w)) as [r3 sv]. destruct r3; by injection E as <- <-.
Qed.
End book.

(** ** Saving peers *)

Definition hexadecimal (b : bytes) : Prop := Forall (fun c => byte_in 48 57 c || byte_in 97 102 c = true) b.

Lemma lower_length b : length (ascii_lowercase b) = length b.
Proof. apply length_fmap. Qed.

Lemma short_reserved : Forall (fun w => length w <= 4) RESERVED_NAMES.
Proof. apply (bool_decide_unpack _). vm_compute. exact I. Qed.

Lemma hex_not x c : hexadecimal x -> byte_in 48 57 c || byte_in 97 102 c = false -> c ∉ x.
Proof. intros Hx Hc Hin. unfold hexadecimal in Hx. rewrite Forall_forall in Hx. apply list_elem_of_In, Hx in Hin. congruence. Qed.

(** The name of a peer without metadata is a good one. *)
Lemma default_name_ok {Ticket} (id_of : Ticket -> bytes) t :
  hexadecimal (id_of t) ->
  validate_peer_name (default_name id_of t) = Ok tt /\ trim (default_name id_of t) = default_name id_of t /\
  default_name id_of t <> [].
Proof.
  intros Hh. unfold default_name. assert (hexadecimal (take 8 (id_of t))) as Hx by by apply Forall_take.
  set (x := take 8 (id_of t)) in *. assert (length x <= 8) as Hl by (unfold x; rewrite length_take; lia).
  assert (forall c, byte_in 48 57 c || byte_in 97 102 c = false -> c ∉ bs "peer-" -> contains (bs "peer-" ++ x) c = false) as Hc.
  { intros c Hc Hp. apply bool_decide_eq_false. intros [?|Hin]%elem_of_app; [done|]. by eapply hex_not. }
  split; [|split; [|done]].
  - unfold validate_peer_name. rewrite decide_False by done.
    destruct (N.ltb_spec MAX_NAME_LEN (blen (bs "peer-" ++ x))) as [Hlt|_].
    { unfold MAX_NAME_LEN, blen in Hlt. rewrite length_app in Hlt. change (length (bs "peer-")) with 5 in Hlt. lia. }
    rewrite !Hc by (done || by apply (bool_decide_unpack _)). cbn [orb].
    rewrite !bool_decide_eq_false_2 by done. rewrite decide_False; [done|].
    intros Hin. pose proof short_reserved as Hs. rewrite Forall_forall in Hs. apply list_elem_of_In, Hs in Hin.
    rewrite lower_length, length_app in Hin. change (length (bs "peer-")) with 5 in Hin. lia.
  - apply trim_graphic. apply Forall_app_2; [apply (bool_decide_unpack _); vm_compute; exact I|].
    eapply Forall_impl; [|exact Hx]. intros c. unfold graphic, byte_in. rewrite orb_true_iff, !andb_true_iff, !N.leb_le. lia.
Qed.

Section saving.
Context {SJ : SerdeJson} {SL : SerdeJsonLaws} {Ticket : Type} {PT : Payload Ticket}.
Context {Sv : Type} {SS : SshServer Sv} {K : Type} {SK : SshKey K}.
Variable ticket_from_str : bytes -> option Ticket.
Variable id_of : Ticket -> bytes.
Variable state : StateConfig.
Variable env : Surroundings (Sv := Sv) (K := K).

Abbreviation root := (Config.root state).
Abbreviation book_at s := (book (PT := PT) root (nodes s)).
Abbreviation ready_at := (ready (PT := PT) root).

(** The peer is saved already, under some name. *)
Definition known_at (t : Ticket) (s : fs) : Prop :=
  exists p, validate_peer_name (name p) = Ok tt /\ book_at s (name p) = Some p /\ id_of (ticket p) = id_of t.

Lemma known_id_listed peers t s :
  (forall p, p ∈ peers <-> validate_peer_name (name p) = Ok tt /\ book_at s (name p) = Some p) ->
  known_id id_of peers t = true <-> known_at t s.
Proof.
  intros Hl. unfold known_id. rewrite existsb_exists. split.
  - intros (p & Hp%list_elem_of_In & E%bool_decide_eq_true). apply Hl in Hp as [? ?]. by exists p.
  - intros (p & Hv & Hb & E). exists p. split; [by apply list_elem_of_In, Hl|by apply bool_decide_eq_true].
Qed.

(** A listing on a ready disk, as the savers make it. *)
Lemma peers_or_none_works s : ready_at s ->
  exists peers s', peers_or_none (PT := PT) state s = (Ok peers, s') /\ ready_at s' /\ (forall m, book_at s' m = book_at s m) /\
    forall p, p ∈ peers <-> validate_peer_name (name p) = Ok tt /\ book_at s (name p) = Some p.
Proof.
  intros H. destruct (list_peers_works root s H) as (l & s' & E & H' & P & Hl).
  exists l, s'. unfold peers_or_none, attempt, mbind, M_bind, mret, M_ret. rewrite E.
  split; [done|]. split; [done|]. split; [|done]. intros m. by apply peers_same_book.
Qed.

Lemma auto_save_temp_spec t json s :
  ready_at s -> validate_peer_name (default_name id_of t) = Ok tt ->
  to_vec_pretty (mk_PeerProfile (default_name id_of t) t) = Ok json ->
  exists s', auto_save_temp_peer id_of state env t s = (Ok tt, s') /\ ready_at s' /\
    ((known_at t s /\ forall m, book_at s' m = book_at s m) \/
     forall m, m <> [] -> book_at s' m =
       if decide (m = default_name id_of t) then Some (mk_PeerProfile (default_name id_of t) t) else book_at s m).
Proof.
  intros H Hv Hj. destruct (peers_or_none_works s H) as (peers & s1 & E1 & H1 & B1 & Hl).
  unfold auto_save_temp_peer, mbind, M_bind. rewrite E1.
  destruct (known_id id_of peers t) eqn:Hk.
  - exists s1. split; [done|]. split; [done|]. left. split; [by eapply known_id_listed|done].
  - destruct (save_peer_works root (random env) (mk_PeerProfile (default_name id_of t) t) json s1 H1 Hv Hj) as (s2 & E2 & H2 & B2).
    exists s2. unfold ignore. rewrite E2. split; [done|]. split; [done|]. right. intros m Hm. rewrite B2 by done. by rewrite B1.
Qed.

Lemma auto_save_spec t n json s :
  ready_at s -> validate_peer_name n = Ok tt -> to_vec_pretty (mk_PeerProfile n t) = Ok json ->
  book_at s n = None ->
  exists alias s', auto_save_peer id_of state env t n s = (Ok alias, s') /\ ready_at s' /\
    ((known_at t s /\ alias = None /\ forall m, book_at s' m = book_at s m) \/
     (alias = Some n /\ forall m, m <> [] -> book_at s' m = if decide (m = n) then Some (mk_PeerProfile n t) else book_at s m)).
Proof.
  intros H Hv Hj Hn. destruct (peers_or_none_works s H) as (peers & s1 & E1 & H1 & B1 & Hl).
  unfold auto_save_peer, mbind, M_bind. rewrite E1.
  destruct (known_id id_of peers t) eqn:Hk.
  - exists None, s1. split; [done|]. split; [done|]. left. split; [by eapply known_id_listed|done].
  - assert (existsb (fun p => bool_decide (name p = n)) peers = false) as ->.
    { apply not_true_iff_false. rewrite existsb_exists. intros (p & Hp%list_elem_of_In & E%bool_decide_eq_true).
      apply Hl in Hp as [_ Hb]. congruence. }
    destruct (save_peer_works root (random env) (mk_PeerProfile n t) json s1 H1 Hv Hj) as (s2 & E2 & H2 & B2).
    exists (Some n), s2. unfold ignore. rewrite E2. split; [done|]. split; [done|]. right. split; [done|].
    intros m Hm. rewrite B2 by done. by rewrite B1.
Qed.

(** A saved name is a target. *)
Lemma saved_is_target s n t :
  ready_at s -> validate_peer_name n = Ok tt -> trim n = n -> ticket_from_str n = None ->
  book_at s n = Some (mk_PeerProfile n t) ->
  exists s', parse_target ticket_from_str root n s = (Ok (TargetTicket t), s').
Proof.
  intros H Hv Htr Hno Hb. destruct (list_peers_works root s H) as (l & s' & E & _ & _ & Hl).
  exists s'. unfold parse_target. rewrite Htr, Hno. unfold mbind, M_bind, M_map_err. rewrite E. cbn [map_err].
  assert (mk_PeerProfile n t ∈ l) as Hin by (by apply Hl).
  destruct (list_find (fun p => name p = n) l) as [[i p]|] eqn:Hf.
  - apply list_find_Some in Hf as (Hp & Hnm & _). apply list_elem_of_lookup_2, Hl in Hp as [_ Hp].
    rewrite Hnm, Hb in Hp. by injection Hp as <-.
  - exfalso. apply list_find_None in Hf. rewrite Forall_forall in Hf. apply (Hf (mk_PeerProfile n t)); [by apply list_elem_of_In|done].
Qed.

(** ** Dialing *)

(** A stage that leaves the address book alone. *)
Definition calm {A} (m : M (World (Sv := Sv)) FlowError A) : Prop := forall w r w', m w = (r, w') ->
  ready_at (w_disk w) -> ready_at (w_disk w') /\ forall n, book_at (w_disk w') n = book_at (w_disk w) n.

Lemma dial_calm : calm (dial env).
Proof.
  intros w r w'. unfold dial, mbind, M_bind, lift, on_net, set_net. destruct (prepared env); cbn -[dial_p2p]; [|by intros [= <- <-]].
  destruct (dial_p2p _ _ _) as [r1 n]. by intros [= <- <-].
Qed.

Lemma establish_calm t : calm (M_map_err FlowConnect
  (establish_session root Tofu (id_of t) None (Some (passwords env)) (exchange env))).
Proof.
  intros w r w'. unfold M_map_err. destruct (establish_session _ _ _ _ _ _ w) as [r1 w1] eqn:E. intros [= <- <-] H.
  pose proof (establish_session_peers root _ _ _ _ _ _ _ _ E (rd_reliable _ _ H)) as [Hr P].
  split; [by eapply ready_same|]. intros n. by apply peers_same_book.
Qed.

(** Ctrl-C leaves the address book alone, wherever it comes, and does not
    come while the wormhole is searched. *)
Definition interruption_calm (s : fs) : Prop := forall st w', interrupted env = Some (st, w') ->
  st <> Searching /\ ready_at (w_disk w') /\ forall m, book_at (w_disk w') m = book_at s m.

Lemma stage_calm {A} st (m : M (World (Sv := Sv)) FlowError A) w r w' s :
  calm m -> interruption_calm s -> ready_at (w_disk w) -> (forall n, book_at (w_disk w) n = book_at s n) ->
  stage env st m w = (r, w') -> ready_at (w_disk w') /\ forall n, book_at (w_disk w') n = book_at s n.
Proof.
  intros Hm Hi H B. unfold stage. destruct (interrupted env) as [[st' w1]|] eqn:Ei.
  - case_decide; [intros [= <- <-]; by destruct (Hi st' w1 Ei) as (_ & ? & ?)|].
    intros E. destruct (Hm _ _ _ E H) as [H' B']. split; [done|]. intros n. by rewrite B'.
  - intros E. destruct (Hm _ _ _ E H) as [H' B']. split; [done|]. intros n. by rewrite B'.
Qed.

Lemma stage_search {A} (x : A) w s : interruption_calm s ->
  stage env Searching (lift (E := FlowError) (Ok x)) w = (Ok x, w).
Proof.
  intros Hi. unfold stage. destruct (interrupted env) as [[st w1]|] eqn:Ei; [|done].
  rewrite decide_False; [done|]. by destruct (Hi st w1 Ei).
Qed.

(** The address book after a failed pairing. *)
Definition recovered (t : Ticket) (s s' : fs) : Prop := ready_at s' /\
  ((known_at t s /\ forall m, book_at s' m = book_at s m) \/
   forall m, m <> [] -> book_at s' m =
     if decide (m = default_name id_of t) then Some (mk_PeerProfile (default_name id_of t) t) else book_at s m).

Lemma rescued_spec {A} t json (m : M (World (Sv := Sv)) FlowError A) w r w' s :
  hexadecimal (id_of t) -> to_vec_pretty (mk_PeerProfile (default_name id_of t) t) = Ok json ->
  (forall r w', m w = (r, w') -> ready_at (w_disk w') /\ forall n, book_at (w_disk w') n = book_at s n) ->
  rescued id_of state env true t m w = (r, w') ->
  match r with
  | Ok _ => ready_at (w_disk w') /\ forall n, book_at (w_disk w') n = book_at s n
  | Err _ => recovered t s (w_disk w')
  end.
Proof.
  intros Hh Hj Hm. unfold rescued, on_error. destruct (m w) as [r1 w1] eqn:E1. destruct (Hm _ _ eq_refl) as [H1 B1].
  destruct r1 as [x|e]; intros [= <- <-]; [done|].
  destruct (auto_save_temp_spec t json (w_disk w1) H1) as (s2 & E2 & H2 & HB); [by apply default_name_ok|done|].
  unfold on_w_disk. rewrite E2. cbn [w_disk snd]. split; [done|]. destruct HB as [[(p & Hv & Hb & E) HB]|HB].
  - left. split; [exists p; split; [done|]; split; [by rewrite <-B1|done]|]. intros n. by rewrite HB.
  - right. intros n Hn. rewrite HB by done. by rewrite B1.
Qed.
End saving.

(** ** Properties *)

Section properties.
Context {SJ : SerdeJson} {SL : SerdeJsonLaws} {Ticket : Type} {PT : Payload Ticket}.
Context {Sv : Type} {SS : SshServer Sv} {K : Type} {SK : SshKey K}.
Variable ticket_from_str : bytes -> option Ticket.
Variable id_of : Ticket -> bytes.
Variable state : StateConfig.
Variable env : Surroundings (Sv := Sv) (K := K).

Abbreviation root := (Config.root state).
Abbreviation disk_of f := (w_disk (world f)).
Abbreviation book_at s := (book (PT := PT) root (nodes s)).
Abbreviation ready_at := (ready (PT := PT) root).

(** C28: A pairing that fails is not lost. On a disk whose calls do not fail,
    with a well-formed address book (the code ignores every error of saving):
    once the wormhole was found, then however dialing and authentication fail
    or are interrupted, the next attempt has a target. Either the ticket is in
    the address book under [peer-] and the first digits of the node's id, a
    name that means this ticket, and no other entry changed; or the node was
    in the book already, under some name and with a ticket of the same node
    id, and then the book is as it was: that entry stays, the ticket of the
    wormhole is not saved. *)
Theorem failed_pairing_recovers c t json f e f' :
  Wormhole.connect_wormhole ticket_from_str (resolve env) (overdue env) c = Ok t ->
  interruption_calm (PT := PT) state env (disk_of f) ->
  ready_at (disk_of f) -> hexadecimal (id_of t) ->
  to_vec_pretty (mk_PeerProfile (default_name id_of t) t) = Ok json -> ticket_from_str (default_name id_of t) = None ->
  phase_dial ticket_from_str id_of state env (TargetWormhole (mk_WormholeCode c)) f = (Err e, f') ->
  (known_at (PT := PT) id_of state t (disk_of f) /\ forall n, book_at (disk_of f') n = book_at (disk_of f) n) \/
  (exists s', parse_target ticket_from_str root (default_name id_of t) (disk_of f') = (Ok (TargetTicket t), s')) /\
  forall n, n <> [] -> n <> default_name id_of t -> book_at (disk_of f') n = book_at (disk_of f) n.
Proof.
  intros Hc Hi H Hh Hj Hno E.
  destruct (default_name_ok id_of t Hh) as (Hv & Htr & Hne).
  assert (recovered (PT := PT) id_of state t (disk_of f) (disk_of f')) as [H' HR].
  { assert (search ticket_from_str env (TargetWormhole (mk_WormholeCode c)) = Ok (t, true)) as Hs
      by (unfold search; cbn [code]; by rewrite Hc).
    unfold phase_dial, mbind, M_bind, on_world in E. rewrite Hs in E.
    rewrite (stage_search state env _ _ (disk_of f) Hi) in E. revert E. set (f1 := set_world _ f).
    destruct (rescued id_of state env true t (stage env DialingPeer (dial env)) (world f1)) as [r2 w2] eqn:E2.
    pose proof (rescued_spec id_of state env t json _ _ _ _ (disk_of f) Hh Hj
      (fun r w' => stage_calm state env DialingPeer _ _ r w' _ (dial_calm state env) Hi H (fun _ => eq_refl)) E2) as S2.
    destruct r2 as [u|e2]; [|by intros [= <- <-]]. destruct S2 as [H2 B2].
    destruct (rescued id_of state env true t (stage env Authenticating _) _) as [r3 w3] eqn:E3.
    pose proof (rescued_spec id_of state env t json _ _ _ _ (disk_of f) Hh Hj
      (fun r w' => stage_calm state env Authenticating _ _ r w' _ (establish_calm id_of state env t) Hi H2 B2) E3) as S3.
    destruct r3; [done|]. by intros [= <- <-]. }
  destruct HR as [?|HR]; [by left|right]. split.
  - eapply saved_is_target; [done..|]. rewrite HR by done. by rewrite decide_True.
  - intros n Hn Hd. rewrite HR by done. by rewrite decide_False.
Qed.

(** ** The phases *)

Variable to_lowercase : bytes -> bytes.
Variable answers : list (Request * option bytes) -> Request -> option bytes.
Variable sig_text : Sig -> bytes.
Variable home : option bytes.
Variable error_text : IroshError -> bytes.
Variable split : bytes -> option (list bytes).
Variable quote : bytes -> bytes.

Abbreviation phase_of := (phase ticket_from_str id_of to_lowercase answers sig_text home error_text split quote state env).
Abbreviation phases_of := (phases ticket_from_str id_of to_lowercase answers sig_text home error_text split quote state env).

(** The turns that are left. *)
Definition turns (p : ConnectPhase (Ticket := Ticket) (K := K)) : nat :=
  match p with Resolve _ => 5 | Dial _ => 4 | Setup _ _ _ => 3 | Shell _ _ _ => 2 | Close _ _ => 1 end.

Lemma phase_turns forward exec_cmd p f p' f' :
  phase_of forward exec_cmd p f = (Ok (inl p'), f') -> turns p' < turns p.
Proof.
  destruct p as [target|target|s t b|s e g|reason detail]; cbn [phase]; unfold mbind, M_bind, mret, M_ret.
  - destruct (phase_resolve _ _ _ _ f) as [[r|] f1]; [|done]. intros [= <- _]. cbn. lia.
  - destruct (phase_dial _ _ _ _ _ f) as [[[[s t] b]|] f1]; [|done]. intros [= <- _]. cbn. lia.
  - unfold phase_setup, run_command, mbind, M_bind, mret, M_ret. destruct exec_cmd as [cmd|].
    + destruct (on_session _ _ f) as [[[o s1]|] f1]; [|done]. destruct (_ =? _)%N; [|done]. intros [= <- _]. cbn. lia.
    + destruct (on_disk _ f) as [[a|] f1]; [|done]. cbn -[open_terminal].
      destruct (open_terminal _ _ _ _) as [[[s1 g]|] f2]; [|done].
      destruct (on_session _ _ _) as [[[u s2]|] f3]; [|done].
      destruct (forwarded _ _ _ f3) as [[s3|] f4]; [|done].
      destruct (on_disk _ f4) as [[e|] f5]; [|done]. intros [= <- _]. cbn. lia.
  - unfold phase_shell. destruct (Drive.run _ _ _ _ _ _ _ _ _) as [l|]; [|done].
    destruct (Drive.outcome l) as [[r|]|]; [..|done]; intros [= <- _]; cbn; lia.
  - done.
Qed.

Lemma phases_enough forward exec_cmd fuel more p f : turns p <= fuel ->
  phases_of forward exec_cmd (fuel + more) p f = phases_of forward exec_cmd fuel p f /\
  forall f', phases_of forward exec_cmd fuel p f <> (Ok None, f').
Proof.
  revert p f. induction fuel as [|fuel IH]; intros p f Hle; [destruct p; cbn in Hle; lia|].
  cbn [Nat.add phases]. unfold mbind, M_bind.
  destruct (phase_of forward exec_cmd p f) as [r f1] eqn:E. destruct r as [[p'|o]|e]; [|by split..].
  apply phase_turns in E. apply IH. lia.
Qed.

(** Every phase goes on to a later one, or ends the command: the loop of
    the connect command never takes more than five turns. *)
Lemma connect_decides {RelayUrl} (relay_url_from_str : bytes -> option RelayUrl) more target code ticket forward secret cmd f :
  let run fuel := exec_internal ticket_from_str id_of relay_url_from_str to_lowercase answers sig_text home error_text
    split quote state env fuel target code ticket forward secret cmd f in
  turns (Resolve (opt_or (opt_or ticket code) target)) = 5 /\
  run (5 + more) = run 5 /\ forall f', run 5 <> (Ok None, f').
Proof.
  unfold exec_internal, mbind, M_bind. cbv zeta. split; [done|].
  destruct (on_disk _ f) as [[config|e] f1]; [|by split].
  destruct (lift (client_options _ _ _) f1) as [[o|e] f2]; [|by split].
  by apply phases_enough.
Qed.

(** *** A new peer *)

Lemma engine_new_calm windows s r s' : engine_new root windows s = (r, s') -> runs same s s'.
Proof.
  unfold engine_new, mbind, M_bind, mret, M_ret, History.history_new.
  destruct (read_to_string _ s) as [r1 s1] eqn:E1. destruct (read_to_string _ s1) as [r2 s2] eqn:E2. intros [= _ <-].
  assert (forall p s r s', read_to_string p s = (r, s') -> runs same s s') as Hread.
  { intros p s0 r0 s0'. unfold read_to_string, mbind, M_bind, mret, M_ret, read_file. destruct (query _ s0) as [r3 s3] eqn:E3.
    apply query_runs in E3. destruct r3 as [b|e]; [destruct (utf8_valid b)|]; by intros [= _ <-]. }
  eapply runs_trans; [apply same_trans|by eapply Hread..].
Qed.

(** What comes after the peer was saved: the disk is only read. *)
Definition reads {A} (m : M (Flow (Sv := Sv) (K := K)) FlowError A) : Prop := forall f r f', m f = (r, f') ->
  peer_alias f' = peer_alias f /\ runs same (disk_of f) (disk_of f').

Lemma reads_ret {A} (x : A) : reads (mret x).
Proof. intros f r f' [= <- <-]. split; [done|]. apply runs_refl. Qed.

Lemma reads_throw {A} e : reads (throw e : M _ _ A).
Proof. intros f r f' [= <- <-]. split; [done|]. apply runs_refl. Qed.

Lemma reads_bind {A B} (m : M _ FlowError A) (k : A -> M _ FlowError B) : reads m -> (forall x, reads (k x)) -> reads (m ≫= k).
Proof.
  intros Hm Hk f r f'. unfold mbind, M_bind. destruct (m f) as [r1 f1] eqn:E. apply Hm in E as [A1 R1].
  destruct r1 as [x|e]; [|by intros [= <- <-]]. intros [A2 R2]%Hk. split; [by rewrite A2|].
  eapply runs_trans; [apply same_trans|done..].
Qed.

Lemma reads_on_session {A} s (m : M (Session K) SessionError A) : reads (on_session s m).
Proof. intros f r f'. unfold on_session. destruct (m s) as [r1 s1]. intros [= <- <-]. split; [done|]. apply runs_refl. Qed.

Lemma reads_session s : reads (modify (set_session s)).
Proof. intros f r f' [= <- <-]. split; [done|]. apply runs_refl. Qed.

Lemma reads_engine windows : reads (on_disk (M_map_err FlowHistory (engine_new root windows))).
Proof.
  intros f r f'. unfold on_disk, on_world, on_w_disk, M_map_err. destruct (engine_new root windows (disk_of f)) as [r1 s1] eqn:E.
  apply engine_new_calm in E. by intros [= <- <-].
Qed.

Create HintDb reads.
#[local] Hint Resolve reads_ret reads_throw reads_on_session reads_session reads_engine : reads.
#[local] Hint Extern 1 (reads (_ ≫= _)) => apply reads_bind; [|intros ?] : reads.

Lemma reads_open_terminal s : reads (open_terminal answers env s).
Proof.
  unfold open_terminal. destruct (on_tty env); [|auto with reads]. unfold ensure.
  apply reads_bind; [destruct (raw_mode env); auto with reads|intros _].
  apply reads_bind; [auto with reads|]. intros [? ?]. auto with reads.
Qed.

Lemma reads_forwarded forward s : reads (forwarded env forward s).
Proof.
  unfold forwarded, setup_forwarding. destruct forward as [fw|]; [|auto with reads].
  destruct (parse_forward fw) as [[[[l h] p]|u]|]; auto with reads.
Qed.

(** C29: A new peer is found again. When an interactive session was
    established with a node that is not in the address book, under a valid
    name that is free, on a disk whose calls do not fail and with a
    well-formed book: the peer is saved under that name before anything else
    of the session is set up, so whatever fails of the terminal, the shell, the
    forward and the history, the name is a target that means the peer's
    ticket. A session for a command saves nothing. What is typed in the session later is not part of this: a
    local command may change any file. *)
Theorem new_peer_reconnects forward s t b json f :
  let n := display_name id_of to_lowercase env t in
  ready_at (disk_of f) -> validate_peer_name n = Ok tt -> trim n = n -> ticket_from_str n = None ->
  to_vec_pretty (mk_PeerProfile n t) = Ok json -> book_at (disk_of f) n = None ->
  ~ known_at (PT := PT) id_of state t (disk_of f) ->
  (forall r f', phase_of forward None (Setup s t b) f = (r, f') ->
     peer_alias f' = Some n /\ exists s', parse_target ticket_from_str root n (disk_of f') = (Ok (TargetTicket t), s')) /\
  (forall cmd r f', phase_of forward (Some cmd) (Setup s t b) f = (r, f') ->
     disk_of f' = disk_of f /\ peer_alias f' = peer_alias f).
Proof.
  intros n H Hv Htr Hno Hj Hfree Hnew. split.
  2: { intros cmd r f'. cbn [phase]. unfold phase_setup, run_command, on_session, modify, mbind, M_bind, mret, M_ret.
       destruct (capture_exec answers cmd s) as [[o|e] s1]; [|by intros [= _ <-]]. by case_match; intros [= _ <-]. }
  intros r f'. cbn [phase]. unfold phase_setup, mbind at 1, M_bind at 1.
  destruct (auto_save_spec id_of state env t n json (disk_of f) H Hv Hj Hfree) as (alias & s1 & E1 & H1 & HB).
  destruct HB as [(Hk & _)|[-> HB]]; [done|].
  unfold on_disk at 1, on_world at 1, on_w_disk at 1. fold n. rewrite E1. cbn [w_disk w_net w_server].
  set (f1 := set_world _ f). unfold mbind at 1, M_bind at 1, modify at 1. set (f2 := set_alias _ f1).
  intros E.
  assert (reads (
    '(s0, guard) ← open_terminal answers env s;
    '(_, s0) ← on_session s0 (start_shell answers);
    s0 ← forwarded env forward s0;
    engine ← on_disk (M_map_err FlowHistory (engine_new root (remote_is_windows env)));
    (mret (inl (Shell s0 engine guard)) : M Flow FlowError (ConnectPhase (Ticket := Ticket) (K := K) + Outcome)))) as HR.
  { apply reads_bind; [apply reads_open_terminal|]. intros [s2 g]. apply reads_bind; [auto with reads|]. intros [? s3].
    apply reads_bind; [apply reads_forwarded|]. intros s4. auto with reads. }
  apply HR in E as [Ha R]. split; [by rewrite Ha|].
  pose proof (runs_same_nodes _ _ R) as En. cbn in En.
  assert (ready_at (disk_of f')) as H'.
  { eapply ready_same; [exact H1| |rewrite En; apply peers_same_refl]. eapply runs_reliable; [exact R|]. apply H1. }
  eapply saved_is_target; [done..|]. rewrite En. rewrite HB by (by destruct (peer_name_ok _ Hv)). by rewrite decide_True.
Qed.

(** *** An impostor *)

(** The host was asked nothing, and the user shown nothing. *)
Definition untouched (f f' : Flow (Sv := Sv) (K := K)) : Prop :=
  w_server (world f') = w_server (world f) /\ session f' = session f /\
  printed f' = printed f /\ printed_errors f' = printed_errors f.

(** C6: A server with another key gets nothing. On a disk whose calls do not
    fail, in a command that is not interrupted: when the node's key is pinned
    and the server at the other end presents a different one, the command
    fails, whatever it was to do; the server was asked nothing, no session
    was opened and nothing was printed. The condition on the disk is needed:
    a momentary failure of the call that looks for the record makes the client
    accept another key and pin it ([stat_failure_replaces_pin] of HostKey.v). *)
Theorem impostor_gets_nothing {SL' : SshKeyLaws K} forward exec_cmd fuel target t pairing k f :
  search ticket_from_str env target = Ok (t, pairing) -> interrupted env = None ->
  reliable (disk_of f) -> pinned root (id_of t) k (nodes (disk_of f)) -> ex_key (exchange env) <> k ->
  exists e f', phases_of forward exec_cmd (S fuel) (Dial target) f = (Err e, f') /\ untouched f f'.
Proof.
  intros Hs Hi Hr Hk Hne. cbn [phases phase]. unfold mbind, M_bind, mret, M_ret.
  assert (forall w r w', stage env DialingPeer (dial env) w = (r, w') -> w_server w' = w_server w /\ w_disk w' = w_disk w) as Hdial.
  { intros w r w'. unfold stage, dial, mbind, M_bind, lift, on_net, set_net. rewrite Hi.
    destruct (prepared env); cbn -[dial_p2p]; [|by intros [= <- <-]].
    destruct (dial_p2p _ _ _) as [r1 n]. by intros [= <- <-]. }
  assert (forall w, w_disk w = disk_of f -> w_server w = w_server (world f) -> exists e w',
    stage env Authenticating (M_map_err FlowConnect
      (establish_session root Tofu (id_of t) None (Some (passwords env)) (exchange env))) w = (Err e, w') /\
    w_server w' = w_server (world f)) as Hest.
  { intros w Ew Esv. unfold stage, M_map_err. rewrite Hi. unfold establish_session, mbind, M_bind, lift.
    destruct (ex_identity (exchange env)); cbn [map_err]; [|by eexists _, w].
    rewrite decide_False by done. unfold on_w_disk, M_map_err. rewrite Ew.
    destruct (load_known_reliable root (id_of t) (disk_of f) Hr) as (r0 & s0 & E0 & N0 & R0 & H0).
    rewrite E0. apply H0 in Hk as ->. cbn [map_err].
    destruct (ex_stream (exchange env)); [|by eexists _, _].
    unfold on_error, handshake, mbind, M_bind, on_w_disk, ssh_connect. cbn [w_disk].
    destruct (ex_failure (exchange env)) as [[]|]; [by eexists _, _..|].
    unfold check_server_key. cbn [client_handler_new host_key_policy known_server]. rewrite decide_False by done.
    by eexists _, _. }
  assert (forall A b (m : M (World (Sv := Sv)) FlowError A) w r w', rescued id_of state env b t m w = (r, w') ->
    exists r1 w1, m w = (r1, w1) /\ w_server w' = w_server w1 /\ match r1 with Ok x => r = Ok x /\ w' = w1 | Err e => r = Err e end) as Hres.
  { intros A b m w r w'. unfold rescued, on_error. destruct (m w) as [[x|e] w1]; intros [= <- <-]; eexists _, _; (split; [reflexivity|]).
    - done.
    - split; [|done]. destruct b; [|done]. unfold on_w_disk. by destruct (auto_save_temp_peer _ _ _ _ _). }
  unfold phase_dial, mbind, M_bind, on_world. rewrite Hs. unfold stage at 1. rewrite Hi. cbn [lift].
  destruct (rescued id_of state env pairing t (stage env DialingPeer (dial env)) _) as [r2 w2] eqn:E2.
  apply Hres in E2 as (r1 & w1 & E1 & S2 & M2). apply Hdial in E1 as [S1 D1].
  destruct r1 as [u|e]; [destruct M2 as [-> ->]|subst r2; eexists e, _; split; [reflexivity|]; unfold untouched; cbn; by rewrite S2].
  destruct (rescued id_of state env pairing t (stage env Authenticating _) _) as [r4 w4] eqn:E4.
  apply Hres in E4 as (r3 & w3 & E3 & S4 & M4).
  destruct (Hest (world (set_world w1 (set_world (world f) f)))) as (e & w5 & E5 & S5); [done|done|].
  rewrite E5 in E3. injection E3 as <- <-. subst r4. eexists e, _. split; [reflexivity|]. unfold untouched. cbn. by rewrite S4.
Qed.
End properties.

(** A port forward means what it says: the text [local:host:remote] of two
    ports in range and a host without a colon is read back as these, and
    listened for on the loopback interface only. *)
Theorem forward_roundtrip l remote_host r :
  (l < 2 ^ 16)%N -> (r < 2 ^ 32)%N -> ":"%char ∉ remote_host ->
  parse_forward (decimal l ++ ":"%char :: remote_host ++ ":"%char :: decimal r) = Some (Ok (l, remote_host, r)) /\
  local_addr l = bs "127.0.0.1:" ++ decimal l.
Proof.
  intros Hl Hr Hh. split; [|done]. unfold parse_forward.
  rewrite split_on_sep, !(split_on_none ":"%char) by apply decimal_no_colon.
  rewrite split_on_sep, (split_on_none ":"%char remote_host), (split_on_none ":"%char) by (done || apply decimal_no_colon).
  cbn [app]. unfold parse_u16, parse_u32. by rewrite !parse_radix_decimal.
Qed.

Lemma forward_roundtrip_witness :
  parse_forward (bs "8080:example.org:443") = Some (Ok (8080%N, bs "example.org", 443%N)).
Proof.
  refine (proj1 (forward_roundtrip 8080 (bs "example.org") 443 _ _ _)); [reflexivity|reflexivity|].
  apply (bool_decide_unpack _). vm_compute. exact I.
Defined.

(** ** A whole connection *)

Section whole.
Context {SJ : SerdeJson} {Ticket : Type} {PT : Payload Ticket}.
Context {Sv : Type} {SS : SshServer Sv} {K : Type} {SK : SshKey K} {SL : SshKeyLaws K}.
Variable ticket_from_str : bytes -> option Ticket.
Variable id_of : Ticket -> bytes.
Variable state : StateConfig.
Variable env : Surroundings (Sv := Sv) (K := K).
Variable to_lowercase : bytes -> bytes.
Variable sig_text : Sig -> bytes.
Variable home : option bytes.
Variable error_text : IroshError -> bytes.
Variable split : bytes -> option (list bytes).
Variable quote : bytes -> bytes.

Abbreviation root := (Config.root state).

(** Everything that has to work for a known server, at the first attempt. *)
Record works (t : Ticket) (f : Flow (Sv := Sv) (K := K)) (sv : Sv) : Prop := {
  wk_calm : interrupted env = None;
  wk_prepared : prepared env = Ok tt;
  wk_dials : dials env 1 = Connected /\ blob_dials env 1 = Connected;
  wk_exchange : ex_identity (exchange env) = Ok tt /\ ex_stream (exchange env) = true /\ ex_failure (exchange env) = None;
  wk_disk : reliable (w_disk (world f));
  wk_pinned : pinned root (id_of t) (ex_key (exchange env)) (nodes (w_disk (world f)));
  wk_accepts : authenticate_publickey DEFAULT_USER (w_server (world f)) = (Ok true, sv);
  wk_terminal : on_tty env = true /\ raw_mode env = true;
}.

Lemma works_establish t f sv : works t f sv ->
  exists s, M_map_err FlowConnect (establish_session root Tofu (id_of t) None (Some (passwords env)) (exchange env))
    (mk_World (mk_Net true true true) (w_disk (world f)) (w_server (world f))) =
    (Ok Authenticated, mk_World (mk_Net true true true) s sv).
Proof.
  intros [_ _ _ (Hid & Hst & Hf) Hr Hp Ha _]. unfold M_map_err, establish_session, mbind, M_bind, lift. rewrite Hid. cbn [map_err].
  rewrite decide_False by done. unfold on_w_disk, M_map_err. cbn [w_disk].
  destruct (load_known_reliable root (id_of t) _ Hr) as (r0 & s0 & E0 & N0 & R0 & H0).
  rewrite E0. apply H0 in Hp as ->. cbn [map_err]. rewrite Hst. exists s0.
  unfold on_error, handshake, mbind, M_bind, on_w_disk, ssh_connect. rewrite Hf. cbn [w_disk].
  unfold check_server_key. cbn [client_handler_new host_key_policy known_server]. rewrite decide_True by done.
  unfold on_server, authenticate, M_map_err, mbind, M_bind, mret, M_ret. cbn [w_server]. by rewrite Ha.
Qed.

Lemma works_dial target t pairing f sv :
  search ticket_from_str env target = Ok (t, pairing) -> works t f sv ->
  exists s, phase_dial ticket_from_str id_of state env target f =
    (Ok (session_new (session_handler env), t, pairing),
     set_session (session_new (session_handler env)) (set_world (mk_World (mk_Net true true true) s sv) f)).
Proof.
  intros Hs Hw. destruct (works_establish t f sv Hw) as (s & E). exists s. destruct Hw as [Hi Hp (Hd & Hb) _ _ _ _ _].
  unfold phase_dial, mbind, M_bind, on_world. rewrite Hs. unfold rescued, on_error, stage. rewrite Hi. cbn [lift].
  unfold dial, mbind, M_bind, lift, on_net, set_net. rewrite Hp. cbn [map_err].
  unfold dial_p2p. cbn [dial_loop]. rewrite Hd, Hb. cbn [map_err w_net w_disk w_server connection endpoint blobs_connection world set_world].
  rewrite E. done.
Qed.

Abbreviation phase_on := (phase ticket_from_str id_of to_lowercase willing sig_text home error_text split quote state env).
Abbreviation phases_on := (phases ticket_from_str id_of to_lowercase willing sig_text home error_text split quote state env).

Lemma phases_step forward cmd n p f r f1 : phase_on forward cmd p f = (Ok r, f1) ->
  phases_on forward cmd (S n) p f = match r with inl p' => phases_on forward cmd n p' f1 | inr o => (Ok (Some o), f1) end.
Proof. intros E. cbn [phases]. unfold mbind, M_bind. rewrite E. by destruct r. Qed.

Lemma auto_save_total t n s : exists alias s', auto_save_peer id_of state env t n s = (Ok alias, s').
Proof.
  unfold auto_save_peer, peers_or_none, attempt, mbind, M_bind, mret, M_ret.
  destruct (list_peers root s) as [r s1]. destruct (known_id _ _ _); [by eexists _, _|].
  destruct (if existsb _ _ then _ else _); by eexists _, _.
Qed.

Lemma engine_new_total windows s : exists e s', engine_new root windows s = (Ok e, s') /\
  mode e = Remote /\ swallow_next_enter_pair e = None.
Proof.
  unfold engine_new, History.history_new, mbind, M_bind, mret, M_ret.
  destruct (read_to_string _ s) as [r1 s1]. destruct (read_to_string _ s1) as [r2 s2]. by eexists _, _.
Qed.

(** The session after the set-up. *)
Definition shell_session (h : ClientHandler K) : Session K :=
  mk_Session ShellReady (Some 0%N) true true true h
    [(OpenSession, None);
     (pty_request_of (pty_options_new (default (bs "xterm-256color") (term env)) (window env)), None);
     (RequestShell 0 true, None)] 1 ∅.

Lemma setup_shell t b f : on_tty env = true -> raw_mode env = true ->
  exists e f', phase_on None None (Setup (session_new (session_handler env)) t b) f =
      (Ok (inl (Shell (shell_session (session_handler env)) e true)), f') /\
    mode e = Remote /\ swallow_next_enter_pair e = None /\
    w_net (world f') = w_net (world f) /\ w_server (world f') = w_server (world f).
Proof.
  intros Htty Hraw. cbn [phase]. unfold phase_setup, mbind at 1, M_bind at 1.
  destruct (auto_save_total t (display_name id_of to_lowercase env t) (w_disk (world f))) as (alias & s1 & E1).
  unfold on_disk at 1, on_world at 1, on_w_disk at 1. rewrite E1.
  unfold open_terminal. rewrite Htty, Hraw.
  unfold ensure, modify, mbind, M_bind, mret, M_ret, on_disk, on_world, on_w_disk, M_map_err.
  destruct (engine_new_total (remote_is_windows env) s1) as (e & s2 & E2 & Hm & Hs).
  set (o := pty_options_new _ _).
  set (sa := mk_Session Authenticated (Some 0%N) true true true (session_handler env)
    [(OpenSession, None); (pty_request_of o, None)] 1 ∅ : Session K).
  assert (forall f : Flow (Sv := Sv), on_session (session_new (session_handler env)) (request_pty willing o) f =
    (Ok (tt, sa), set_session sa f)) as Hpty by reflexivity.
  assert (forall f : Flow (Sv := Sv), on_session sa (start_shell willing) f =
    (Ok (tt, shell_session (session_handler env)), set_session (shell_session (session_handler env)) f)) as Hstart by reflexivity.
  rewrite Hpty. cbn beta iota. rewrite Hstart. cbn -[engine_new]. rewrite E2. by eexists e, _.
Qed.

(** C2: A connection end to end: with a server whose key is pinned and which
    accepts the client's key, three turns lead to a shell on a terminal of the
    window's size, over one channel and with everything open; and what is
    typed then, cut into reads in any way, is sent to that shell. *)
Theorem connect_reaches_shell target t pairing f sv chunks :
  search ticket_from_str env target = Ok (t, pairing) -> works t f sv ->
  Forall (fun d => "~"%char ∉ d) chunks -> events env = Typed <$> chunks ->
  exists s f', phases ticket_from_str id_of to_lowercase willing sig_text home error_text split quote state env
      None None 3 (Dial target) f = (Ok (Some StillRunning), f') /\
    session f' = Some s /\ ClientSession.state s = ShellReady /\ channel s = Some 0%N /\
    take 3 (log s).*1 = [OpenSession;
      pty_request_of (pty_options_new (default (bs "xterm-256color") (term env)) (window env)); RequestShell 0 true] /\
    sent (log s) = concat chunks /\ w_net (world f') = mk_Net true true true /\ w_server (world f') = sv.
Proof.
  intros Hs Hw Hc He. destruct (works_dial target t pairing f sv Hs Hw) as (s0 & E0). destruct Hw as [_ _ _ _ _ _ _ (Htty & Hraw)].
  rewrite (phases_step None None 2 (Dial target) f (inl (Setup (session_new (session_handler env)) t pairing))
    (set_session (session_new (session_handler env)) (set_world (mk_World (mk_Net true true true) s0 sv) f)))
    by (cbn [phase]; unfold mbind, M_bind, mret, M_ret; by rewrite E0).
  set (f1 := set_session _ _). destruct (setup_shell t pairing f1 Htty Hraw) as (e & f2 & E1 & Hm & Hsw & Hnet & Hsv).
  rewrite (phases_step None None 1 _ f1 _ f2 E1).
  destruct (typing_reaches_peer sig_text home (os <$> remote_metadata env) error_text split quote
    (shell_session (session_handler env)) e (w_disk (world f2)) (current_dir env) 0%N chunks) as (l & Hrun & Hsent & _ & _ & Hout & _ & Hst & Hch & [rest Hlog]);
    [done..|].
  cbn [phases phase]. unfold mbind, M_bind, mret, M_ret, phase_shell. rewrite He.
  change SessionFacts.agreeing with willing in Hrun. rewrite Hrun, Hout.
  eexists _, _. split; [reflexivity|]. split; [reflexivity|]. split_and!; [done|done| |done|by cbn|by cbn].
  by rewrite Hlog, fmap_app.
Qed.
End whole.

(** ** A concrete command *)

Definition flow_ticket (b : bytes) : option N := if decide (b = bs "t1") then Some 7%N else None.
Definition flow_split (b : bytes) : option (list bytes) := Some (split_on " "%char b).
Definition flow_state : StateConfig := mk_StateConfig [bs "srv"].

(** A server that accepts the key of everyone, or of no one. *)
#[local] Instance flow_server : SshServer bool := {|
  authenticate_publickey _ := fun open => (Ok open, open);
  authenticate_password _ _ := fun open => (Ok false, open);
|}.

Definition flow_nodes : gmap path node :=
  <[ server_key_path [bs "srv"] (demo_id 7) := File (bs "key") 384 ]>
    {[ [] := Dir 493; [bs "srv"] := Dir 493; [bs "peers"; bs "srv"] := Dir 493 ]}.

Definition flow_start (open : bool) : Flow (Sv := bool) (K := bytes) :=
  mk_Flow (mk_World (mk_Net false false false) (mk_fs flow_nodes 18 (fun _ => None) 0 []) open) None None [] [].

(** [key] is the key of the host at the other end, which is on the network if
    [found]. *)
Definition flow_env (found : bool) (key : bytes) (evs : list LoopEvent) : Surroundings (Sv := bool) (K := bytes) := {|
  code_input := None; peer_choice := None;
  resolve := fun _ => Some [bs "irosh-ticket=t1"]; overdue := false;
  prepared := Ok tt;
  dials := fun _ => if found then Connected else TimedOut; blob_dials := fun _ => Connected;
  exchange := mk_Exchange (Ok tt) true None key 3;
  passwords := fun _ => None; interrupted := None;
  session_handler := client_handler_new (demo_id 7) None Tofu;
  remote_metadata := None; alias_answer := None; random := 5;
  on_tty := true; raw_mode := true; term := None; window := mk_PtySize 24 80 0 0;
  listen := fun _ => Err []; current_dir := None; events := evs;
|}.

Lemma flow_ready open : ready (SJ := bit_json) (PT := N_payload) [bs "srv"] (w_disk (world (flow_start open))).
Proof.
  split; [done| |done|done|]; intros file; [intros _ json m H; exfalso; revert H|]; cbn [flow_start world w_disk nodes];
    unfold flow_nodes, peers_dir; repeat rewrite ?lookup_insert_ne by (intros [=]);
    by rewrite lookup_singleton_ne by (intros [=]).
Qed.

Lemma flow_pinned open : pinned (SK := text_key) [bs "srv"] (demo_id 7) (bs "key") (nodes (w_disk (world (flow_start open)))).
Proof. by exists (bs "key"), 384%N. Qed.

Lemma flow_works evs : works (SK := text_key) demo_id flow_state (flow_env true (bs "key") evs) 7%N (flow_start true) true.
Proof. split; [done..|apply flow_pinned|done|done]. Qed.

(** The host is not on the network: the ticket of the pairing is kept. *)
Lemma failed_pairing_recovers_witness :
  let env := flow_env false (bs "key") [] in
  let after := @phase_dial bit_json N N_payload bool flow_server bytes text_key flow_ticket demo_id flow_state env
                 (TargetWormhole (mk_WormholeCode (bs "7-crossover"))) (flow_start true) in
  after.1 = Err (FlowConnect (ConnectFailed None)) /\
  exists s', parse_target (SJ := bit_json) (PT := N_payload) flow_ticket [bs "srv"] (bs "peer-01234567") (w_disk (world after.2)) =
    (Ok (TargetTicket 7%N), s').
Proof.
  intros env after. assert (after.1 = Err (FlowConnect (ConnectFailed None))) as E by (vm_compute; reflexivity). split; [exact E|].
  destruct (@failed_pairing_recovers bit_json bit_json_laws N N_payload bool flow_server bytes text_key flow_ticket demo_id
    flow_state env (bs "7-crossover") 7%N (default [] (match to_vec_pretty (SerdeJson := bit_json) (mk_PeerProfile (bs "peer-01234567") 7%N) with Ok j => Some j | _ => None end))
    (flow_start true) (FlowConnect (ConnectFailed None)) after.2) as [[(p & _ & Hb & _) _]|[H _]].
  - reflexivity.
  - intros st w'. discriminate.
  - apply flow_ready.
  - apply (bool_decide_unpack _). vm_compute. exact I.
  - vm_compute. reflexivity.
  - reflexivity.
  - exact (pair_fst after _ E).
  - exfalso. revert Hb. unfold book. cbn [flow_start world w_disk nodes]. unfold flow_nodes, peers_dir.
    repeat rewrite ?lookup_insert_ne by (intros [=]). by rewrite lookup_singleton_ne by (intros [=]).
  - exact H.
Defined.

Lemma new_peer_reconnects_witness :
  let env := flow_env true (bs "key") [] in
  let s := session_new (client_handler_new (demo_id 7) None Tofu) in
  let after := @phase bit_json N N_payload bool flow_server bytes text_key flow_ticket demo_id (fun b => b) willing (fun _ => [])
                 (Some (bs "/home/u")) (fun _ => []) flow_split (fun b => b) flow_state env None None (Setup s 7%N false) (flow_start true) in
  peer_alias after.2 = Some (bs "peer-01234567") /\
  exists s', parse_target (SJ := bit_json) (PT := N_payload) flow_ticket [bs "srv"] (bs "peer-01234567") (w_disk (world after.2)) =
    (Ok (TargetTicket 7%N), s').
Proof.
  intros env s after.
  assert (exists json, to_vec_pretty (SerdeJson := bit_json) (mk_PeerProfile (Ticket := N) (bs "peer-01234567") 7%N) = Ok json) as [json Hj]
    by (eexists; vm_compute; reflexivity).
  destruct (@new_peer_reconnects bit_json bit_json_laws N N_payload bool flow_server bytes text_key flow_ticket demo_id
    flow_state env (fun b => b) willing (fun _ => []) (Some (bs "/home/u")) (fun _ => []) flow_split (fun b => b)
    None s 7%N false json (flow_start true)) as [H _]; [..|exact (H after.1 after.2 (surjective_pairing _))].
  - apply flow_ready.
  - reflexivity.
  - reflexivity.
  - reflexivity.
  - exact Hj.
  - reflexivity.
  - intros (p & _ & Hb & _). revert Hb. unfold book. cbn [flow_start world w_disk nodes]. unfold flow_nodes, peers_dir.
    repeat rewrite ?lookup_insert_ne by (intros [=]). by rewrite lookup_singleton_ne by (intros [=]).
Defined.

Lemma impostor_gets_nothing_witness :
  let env := flow_env true (bs "forged") [] in
  exists e f', @phases bit_json N N_payload bool flow_server bytes text_key flow_ticket demo_id (fun b => b) willing (fun _ => [])
      (Some (bs "/home/u")) (fun _ => []) flow_split (fun b => b) flow_state env None (Some (bs "passwd")) 3
      (Dial (TargetTicket 7%N)) (flow_start true) = (Err e, f') /\
    w_server (world f') = true /\ session f' = None /\ printed f' = [] /\ printed_errors f' = [].
Proof.
  intros env.
  apply (@impostor_gets_nothing bit_json N N_payload bool flow_server bytes text_key flow_ticket demo_id
    flow_state env (fun b => b) willing (fun _ => []) (Some (bs "/home/u")) (fun _ => []) flow_split (fun b => b)
    text_key_laws None (Some (bs "passwd")) 2 (TargetTicket 7%N) 7%N false (bs "key") (flow_start true)).
  - reflexivity.
  - reflexivity.
  - intros n. reflexivity.
  - apply flow_pinned.
  - discriminate.
Defined.

Lemma connect_reaches_shell_witness :
  let env := flow_env true (bs "key") (Typed <$> [bs "ls"; bs " -l"]) in
  exists s f', @phases bit_json N N_payload bool flow_server bytes text_key flow_ticket demo_id (fun b => b) willing (fun _ => [])
      (Some (bs "/home/u")) (fun _ => []) flow_split (fun b => b) flow_state env None None 3
      (Dial (TargetTicket 7%N)) (flow_start true) = (Ok (Some StillRunning), f') /\
    session f' = Some s /\ sent (log s) = bs "ls -l".
Proof.
  intros env.
  destruct (@connect_reaches_shell bit_json N N_payload bool flow_server bytes text_key flow_ticket demo_id
    flow_state env (fun b => b) (fun _ => []) (Some (bs "/home/u")) (fun _ => []) flow_split (fun b => b)
    (TargetTicket 7%N) 7%N false (flow_start true) true [bs "ls"; bs " -l"]) as (s & f' & H1 & H2 & _ & _ & _ & H3 & _).
  - reflexivity.
  - apply flow_works.
  - repeat constructor; apply (bool_decide_unpack _); vm_compute; exact I.
  - reflexivity.
  - exists s, f'. split; [exact H1|]. split; [exact H2|exact H3].
Defined.

(** ** Names that are taken *)

(** Two nodes whose ids agree in their first eight digits. *)
Definition twin_id (t : N) : bytes := bs "01234567" ++ decimal t.

(** The profile found under a name. *)
Definition found_as (n : bytes) (s : fs) : option (PeerProfile N) :=
  book (SJ := bit_json) (PT := N_payload) [bs "srv"] (nodes s) n.

(** A failed pairing replaces the one of the twin. *)
Lemma temp_peer_replaces :
  let save t s := (@auto_save_temp_peer bit_json N N_payload bool bytes twin_id flow_state (flow_env false (bs "key") []) t s).2 in
  let s := save 7%N (w_disk (world (flow_start true))) in
  found_as (bs "peer-01234567") s = Some (mk_PeerProfile (bs "peer-01234567") 7%N) /\
  found_as (bs "peer-01234567") (save 8%N s) = Some (mk_PeerProfile (bs "peer-01234567") 8%N).
Proof. vm_compute. done. Qed.

(** The new alias the user gives for a taken one is not checked itself. *)
Lemma alias_answer_replaces :
  let env := let 'mk_Surroundings a b c d e f g h i j k l _ n o p q r s t u := flow_env true (bs "key") [] in
    mk_Surroundings a b c d e f g h i j k l (Some (bs "home")) n o p q r s t u in
  let save t n s := (@auto_save_peer bit_json N N_payload bool bytes twin_id flow_state env t n s).2 in
  let s := save 9%N (bs "work") (save 7%N (bs "home") (w_disk (world (flow_start true)))) in
  found_as (bs "home") s = Some (mk_PeerProfile (bs "home") 7%N) /\
  found_as (bs "home") (save 8%N (bs "work") s) = Some (mk_PeerProfile (bs "home") 8%N).
Proof. vm_compute. done. Qed.
