(* ===== verification/NodeCommands.v ===== *)
(** * Commands for a node: [cli/src/context.rs], [commands/trust.rs],
    [passwd.rs], [config.rs] and the start of [host.rs]

    What the commands do to the trust records, the password and the
    configuration, and which state directory they do it in. The answers of the
    user are arguments and what is printed is a report. The Linux build is
    modelled. *)

From S2P Require Import ShellOps.
From S2P Require Import Prelude Text Stream Fs StorageUtils Vault Trust Auth AuthFacts AuthSystem AuthBackends Config Startup.

(** ** State directories *)

Section context.
Variables env_state home : option path.    (** [IROSH_STATE] and [dirs::home_dir()] *)
Variable system_profile : bool.            (** [is_system_profile] of it *)

Definition resolve_system_profile_dir (subdir : bytes) : option path := None.

Definition resolve_state_dir (subdir : bytes) : option path :=
  match env_state with
  | Some state => Some state
  | None =>
      home ← home;
      if negb system_profile then Some (subdir :: bs ".irosh" :: home)
      else resolve_system_profile_dir subdir
  end.

(** [args.state.or_else(..)]: [CliContext::new] with "client", and
    [server_state_root] with "server". *)
Definition state_root (args_state : option path) (subdir : bytes) : option path :=
  match args_state with Some s => Some s | None => resolve_state_dir subdir end.
End context.

(** ** [irosh trust] *)

Inductive CommandError : Type :=
| CmdStorage (e : storage_error)
| CmdSelect
| CmdHash
| CmdInvalidKey
| CmdLogLevel
| CmdTimeout
| CmdRelay (url : bytes).

Section trust.
Context {K : Type} {SK : SshKey K}.
Variable root : path.

Abbreviation C := (M fs CommandError).

Inductive TrustAction : Type :=
| TrustList
| TrustRevoke (given : option bytes)
| TrustReset.

Record Device : Type := mk_Device {
  identity : bytes;
  fp : bytes;
  unknown : bool;
}.

Inductive TrustReport : Type :=
| Devices (l : list Device)
| NoDevices
| NoMatch (query : bytes)
| Ambiguous (query : bytes)
| NoIdentity                      (** nothing selected *)
| NotSure                         (** not confirmed *)
| Revoked (id : bytes)
| WasReset.

Definition device (x : bytes * K) : Device :=
  let fingerprint := Vault.fingerprint x.2 in
  mk_Device x.1 fingerprint (bool_decide (x.1 = fingerprint)).

Definition matches (query : bytes) (x : bytes * K) : bool :=
  let fp := Vault.fingerprint x.2 in
  bool_decide (x.1 = query) || bool_decide (fp = query) || starts_with fp query.

(** The device that is meant: a report when there is none. *)
Definition revoke_target (selected : option nat) (keys : list (bytes * K)) (given : option bytes) : C (TrustReport + bytes) :=
  match given with
  | Some query =>
      match List.filter (matches query) keys with
      | [] => mret (inl (NoMatch query))
      | [only] => mret (inr only.1)
      | _ => mret (inl (Ambiguous query))
      end
  | None =>
      match selected with
      | Some idx => match keys !! idx with Some x => mret (inr x.1) | None => throw CmdSelect end
      | None => mret (inl NoIdentity)
      end
  end.

Definition revoke (json : bool) (selected : option nat) (confirmed : bool) (given : option bytes) : C TrustReport :=
  keys ← M_map_err CmdStorage (load_all_authorized_clients root);
  if decide (keys = []) then mret NoDevices
  else
    target ← revoke_target selected keys given;
    match target with
    | inl report => mret report
    | inr id =>
        if json || confirmed then
          M_map_err CmdStorage (reset_authorized_client root id);;
          mret (Revoked id)
        else mret NotSure
    end.

Definition trust_exec (json : bool) (selected : option nat) (confirmed : bool) (action : TrustAction) : C TrustReport :=
  match action with
  | TrustList =>
      keys ← M_map_err CmdStorage (load_all_authorized_clients root);
      mret (Devices (device <$> keys))
  | TrustRevoke given => revoke json selected confirmed given
  | TrustReset =>
      if confirmed then M_map_err CmdStorage (reset_vault root);; mret WasReset
      else mret NotSure
  end.
End trust.

(** ** [irosh passwd] *)

Inductive PasswdAction : Type := PasswdSet | PasswdRemove | PasswdStatus.

Inductive PasswdReport : Type :=
| PasswordUpdated
| NoPassword
| PasswordRemoved
| PasswordKept
| PasswordIsSet (set : bool).

Section passwd.
Variable root : path.
Variable hash_password : bytes -> option bytes.

Definition passwd_exec (suffix : N) (json : bool) (password : option bytes) (confirmed : bool) (action : PasswdAction) :
    M fs CommandError PasswdReport :=
  match action with
  | PasswdSet =>
      match password with
      | Some pw =>
          match hash_password pw with
          | Some hash =>
              M_map_err CmdStorage (write_shadow_file root suffix hash);;
              mret PasswordUpdated
          | None => throw CmdHash
          end
      | None => mret NoPassword
      end
  | PasswdRemove =>
      if json || confirmed then
        M_map_err CmdStorage (delete_shadow_file root);;
        mret PasswordRemoved
      else mret PasswordKept
  | PasswdStatus =>
      shadow ← M_map_err CmdStorage (load_shadow_file root);
      mret (PasswordIsSet (bool_decide (is_Some shadow)))
  end.
End passwd.

(** ** [irosh config] *)

Inductive ConfigAction : Type :=
| ConfigList
| ConfigGet (key : bytes)
| ConfigSet (key value : bytes)
| ConfigExport (output : option path)
| ConfigImport (file : path).

Inductive ConfigReport : Type :=
| Settings (l : list (bytes * bytes))
| Value (v : bytes)
| UnknownKey (key : bytes)
| Saved (key : bytes)
| Exported
| Printed (config : AppConfig)
| Imported.

Definition redact (secret : option bytes) : bytes :=
  match secret with Some _ => bs "<set>" | None => bs "<none>" end.

(** What [list] and [get] show. *)
Definition settings (c : AppConfig) : list (bytes * bytes) :=
  [(bs "stealth-secret", redact (stealth_secret c));
   (bs "relay-url", default (bs "<iroh-default>") (relay_url c));
   (bs "log-level", as_str (log_level c));
   (bs "wormhole-timeout", decimal (wormhole_timeout c) ++ bs "s");
   (bs "default-user", default (bs "<system-user>") (default_user c))].

Definition setting (key : bytes) (c : AppConfig) : option bytes :=
  snd <$> List.find (fun x => bool_decide (x.1 = key)) (settings c).

(** [value.is_empty() || value == word] *)
Definition unless (word value : bytes) : option bytes :=
  if decide (value = [] \/ value = word) then None else Some value.

Definition set_setting (key value : bytes) (c : AppConfig) : result CommandError AppConfig :=
  let 'mk_AppConfig secret relay level timeout user := c in
  if decide (key = bs "stealth-secret") then Ok (mk_AppConfig (unless (bs "none") value) relay level timeout user)
  else if decide (key = bs "relay-url") then Ok (mk_AppConfig secret (unless (bs "default") value) level timeout user)
  else if decide (key = bs "log-level") then
    match log_level_from_str value with
    | Ok level => Ok (mk_AppConfig secret relay level timeout user)
    | Err _ => Err CmdLogLevel
    end
  else if decide (key = bs "wormhole-timeout") then
    match parse_u64 value with
    | Ok timeout => Ok (mk_AppConfig secret relay level timeout user)
    | Err _ => Err CmdTimeout
    end
  else if decide (key = bs "default-user") then Ok (mk_AppConfig secret relay level timeout (unless [] value))
  else Err CmdInvalidKey.

Section config.
Context {SJ : SerdeJson}.
Variable state : StateConfig.

Definition config_exec (suffix : N) (json : bool) (action : ConfigAction) : M fs CommandError ConfigReport :=
  config ← M_map_err CmdStorage (load_config state);
  match action with
  | ConfigList => mret (Settings (settings config))
  | ConfigGet key =>
      match setting key config with
      | Some v => mret (Value v)
      | None => if json then mret (UnknownKey key) else throw CmdInvalidKey
      end
  | ConfigSet key value =>
      config ← lift (set_setting key value config);
      M_map_err CmdStorage (save_config state suffix config);;
      mret (Saved key)
  | ConfigExport (Some p) => M_map_err CmdStorage (export_config state suffix p);; mret Exported
  | ConfigExport None => config ← M_map_err CmdStorage (load_config state); mret (Printed config)
  | ConfigImport p => M_map_err CmdStorage (import_config state suffix p);; mret Imported
  end.
End config.

(** ** The start of [irosh host] *)

Section host.
Context {SJ : SerdeJson} {K : Type} {SK : SshKey K} {RelayUrl : Type}.
Variable relay_url_from_str : bytes -> option RelayUrl.
Variable state : StateConfig.

Abbreviation root := (Config.root state).

(** What [exec] makes of the [ServerOptions]. *)
Record HostOptions : Type := mk_HostOptions {
  ho_auth_mode : AuthMode;
  ho_idle_timeout : N;
  ho_secret : option bytes;
  ho_relay : RelayMode (RelayUrl := RelayUrl);
}.

(** [--authorize] *)
Definition authorize_file (suffix : N) (authorize : option path) : M fs CommandError unit :=
  match authorize with
  | Some p =>
      key ← M_map_err CmdStorage (read_openssh_file (K := K) p);
      M_map_err CmdStorage (write_authorized_client root suffix (Vault.fingerprint key) key);;
      mret tt
  | None => mret tt
  end.

Definition host_options (secret : option bytes) (auth_mode : option AuthMode) (idle_timeout : option N) :
    M fs CommandError HostOptions :=
  config ← M_map_err CmdStorage (load_config state);
  relay ← lift (match relay_url config with
                | Some url => map_err CmdRelay (parse_relay_mode relay_url_from_str url)
                | None => Ok RelayDefault
                end);
  mret (mk_HostOptions (default UnifiedMode auth_mode) (default 0%N idle_timeout)
          (match secret with Some s => Some s | None => stealth_secret config end) relay).

(** [exec] up to [Server::bind]; the flag is the notice that the first device
    will be trusted. *)
Definition host_prepare (suffix : N) (secret : option bytes) (auth_mode : option AuthMode) (authorize : option path)
    (simple : bool) (idle_timeout : option N) (json : bool) : M fs CommandError (bool * HostOptions) :=
  authorize_file suffix authorize;;
  vault ← M_map_err CmdStorage (load_all_authorized_clients (K := K) root);
  shadow ← M_map_err CmdStorage (load_shadow_file root);
  options ← host_options secret auth_mode idle_timeout;
  mret (bool_decide (vault = []) && bool_decide (shadow = None) && negb simple && negb json, options).
End host.

(** ** The vault of a disk *)

Section vault.
Context {K : Type} {SK : SshKey K}.
Variable root : path.

Definition record_name (id : bytes) : bytes := id ++ bs ".pub".

(** The key recorded for an identity. *)
Definition vault_of (d : gmap path node) (id : bytes) : option K := snd <$> entry_of root d (record_name id).

(** The directories of the records are there when the records are. *)
Definition vault_ok (d : gmap path node) : Prop :=
  clients_ok root d /\ (is_Some (d !! clients_dir root) -> is_Some (d !! trust_dir root)).

(** Every record has a name that [client_key_path] gives. *)
Definition safely_named (d : gmap path node) : Prop := forall id k, vault_of d id = Some k -> safe_id id = id.

Lemma last_dot_eq n x e : last_dot n = Some (x, e) -> n = x ++ "."%char :: e.
Proof.
  revert x e. induction n as [|c n IH]; intros x e; [done|]. simpl.
  destruct (last_dot n) as [[x' e']|] eqn:E.
  - intros [= <- <-]. cbn. f_equal. by apply IH.
  - case_decide as Hc; [|done]. intros [= <- <-]. by subst c.
Qed.

Lemma record_name_pub n : is_pub n = true -> n = record_name (file_stem n) /\ file_stem n <> [].
Proof.
  unfold is_pub, record_name, extension, file_stem. intros H%bool_decide_eq_true. revert H.
  destruct (last_dot n) as [[[|c x] e]|] eqn:E; try done. case_decide; [done|]. intros [= ->].
  split; [|done]. by apply last_dot_eq in E.
Qed.

Lemma entry_of_vault d n id k : entry_of root d n = Some (id, k) <-> n = record_name id /\ vault_of d id = Some k.
Proof.
  unfold vault_of. split.
  - intros H. assert (is_pub n = true /\ id = file_stem n) as [Hp ->].
    { revert H. unfold entry_of. destruct (is_pub n); [|done]. destruct (d !! _) as [[|c m]|]; [done| |done].
      destruct (utf8_valid c); [|done]. destruct (parse_openssh c); [|done]. by intros [= <- _]. }
    destruct (record_name_pub n Hp) as [Hn _]. rewrite <-Hn, H. done.
  - intros [-> H]. destruct (entry_of root d (record_name id)) as [[id' k']|] eqn:E; [|done]. injection H as ->.
    f_equal. f_equal. revert E. unfold entry_of. destruct (is_pub _) eqn:Hp; [|done].
    destruct (record_name_pub _ Hp) as [Hn%app_inv_tail _].
    destruct (d !! _) as [[|c m]|]; [done| |done].
    destruct (utf8_valid c); [|done]. destruct (parse_openssh c); [|done]. intros [= <- _]. by rewrite <-Hn.
Qed.

Lemma vault_file d id k : vault_of d id = Some k -> exists c m, d !! (record_name id :: clients_dir root) = Some (File c m).
Proof.
  unfold vault_of, entry_of. destruct (is_pub _); [|done]. destruct (d !! _) as [[|c m]|]; [done| |done]. by exists c, m.
Qed.

(** The entries of a directory, and so the identities, are listed once. *)
Lemma omap_once {A B} (f : A -> option B) l :
  (forall x y z, f x = Some z -> f y = Some z -> x = y) -> NoDup l -> NoDup (omap f l).
Proof.
  intros Hf. induction 1 as [|x l Hx _ IH]; [constructor|]. simpl. destruct (f x) as [z|] eqn:E; [|done].
  constructor; [|done]. intros (y & Hy & Ey)%list_elem_of_omap. by rewrite (Hf x y z E Ey) in Hx.
Qed.

Lemma children_once d p : NoDup (children d p).
Proof.
  set (g := fun q : path => match q with c :: q => if decide (q = p) then Some c else None | [] => None end).
  assert (children d p = omap g (map_to_list d).*1) as ->.
  { unfold children. induction (map_to_list d) as [|[q n] l IH]; [done|]. cbn [omap list_omap fmap list_fmap fst].
    fold (omap (M := list) g). rewrite <-IH. by destruct q. }
  apply omap_once; [|apply NoDup_fst_map_to_list].
  intros [|c q] [|c' q'] z; cbn; try done; repeat case_decide; congruence.
Qed.

Lemma identities_once d : NoDup (omap (entry_of (K := K) root d) (children d (clients_dir root))).*1.
Proof.
  assert (forall l : list bytes, (omap (entry_of (K := K) root d) l).*1 = omap (fun n => fst <$> entry_of (K := K) root d n) l) as ->.
  { induction l as [|n l IH]; [done|]. cbn. by destruct (entry_of root d n); cbn; rewrite <-IH. }
  apply omap_once; [|apply children_once]. intros x y z (k & Hx & ->)%fmap_Some_1 (k' & Hy & E)%fmap_Some_1.
  destruct k as [i k], k' as [i' k']. cbn in E. subst i'. apply entry_of_vault in Hx as [-> _]. by apply entry_of_vault in Hy as [-> _].
Qed.

Lemma load_listed s r s' :
  reliable s -> clients_ok root (nodes s) -> load_all_authorized_clients root s = (r, s') ->
  exists l, r = Ok l /\ reliable s' /\ nodes s' = nodes s /\
    (forall id k, (id, k) ∈ l <-> vault_of (nodes s) id = Some k) /\ NoDup l.*1.
Proof.
  intros Hr Hc E. pose proof (load_all_runs root s r s' E) as [R Hs].
  pose proof (runs_same_nodes _ _ R) as En. assert (reliable s') as Hr' by by eapply runs_reliable.
  destruct (nodes s !! clients_dir root) as [[m|]|] eqn:Ed; [|by destruct Hc as [Hc|[Hc _]]; [rewrite Ed in Hc|congruence]|].
  - revert E. unfold load_all_authorized_clients, path_exists, mbind, M_bind, M_map_err.
    rewrite test_path_reliable, Ed by done. unfold read_dir. rewrite query_reliable by done. cbn [map_err nodes tick].
    rewrite Ed. cbn [map_err].
    destruct (collect_pure (fun s' => reliable s' /\ nodes s' = nodes s) (entry_of root (nodes s))
      (load_entry root) (children (nodes s) (clients_dir root)) (load_entry_reliable root (nodes s)))
      with (s := tick (tick s (nodes s)) (nodes s)) as (s2 & -> & _); [done|].
    intros [= <- _]. eexists. split; [reflexivity|]. split; [done|]. split; [done|]. split; [|apply identities_once]. intros id k.
    rewrite list_elem_of_omap. split.
    + by intros (n & _ & [_ ?]%entry_of_vault).
    + intros Hv. exists (record_name id).
      split; [|by apply entry_of_vault]. apply elem_of_children.
      destruct (vault_file _ _ _ Hv) as (c & mo & Hf). exists (File c mo). exact Hf.
  - destruct Hc as [Hc|[_ Hn]]; [by rewrite Ed in Hc|]. revert E.
    unfold load_all_authorized_clients, path_exists, mbind, M_bind. rewrite test_path_reliable, Ed by done.
    intros [= <- _]. exists []. split; [done|]. split; [done|]. split; [done|]. split; [|constructor]. intros id k.
    split; [by intros ?%elem_of_nil|]. intros Hv. exfalso. revert Hv. unfold vault_of, entry_of.
    rewrite Hn. by destruct (is_pub _).
Qed.

Lemma on_disk_vault d k : on_disk root d k <-> exists id, vault_of d id = Some k.
Proof.
  unfold on_disk. split.
  - intros (n & id & [_ ?]%entry_of_vault). by exists id.
  - intros [id Hv]. exists (record_name id), id. by apply entry_of_vault.
Qed.

Lemma vault_of_delete d id id' :
  vault_of (delete (record_name id :: clients_dir root) d) id' = if decide (id' = id) then None else vault_of d id'.
Proof.
  unfold vault_of, entry_of. case_decide as Hd.
  - subst id'. rewrite lookup_delete_eq. by destruct (is_pub _).
  - rewrite lookup_delete_ne; [done|]. by intros [= ?%app_inv_tail].
Qed.

Lemma vault_ok_delete d id : vault_ok d -> vault_ok (delete (record_name id :: clients_dir root) d).
Proof.
  assert (forall n, record_name n :: clients_dir root <> clients_dir root) as H1 by (intros n E; apply (f_equal length) in E; simpl in E; lia).
  assert (forall n, record_name n :: clients_dir root <> trust_dir root) as H2
    by (intros n E; apply (f_equal length) in E; simpl in E; lia).
  intros [Hc Ht]. unfold vault_ok, clients_ok. rewrite !lookup_delete_ne by done. split; [|done].
  destruct Hc as [Hc|[Hc Hn]]; [by left|right]. split; [done|]. intros n. apply lookup_delete_None. by right.
Qed.

(** Removing a record. *)
Lemma revoke_key_works s id k :
  reliable s -> vault_of (nodes s) id = Some k -> safe_id id = id ->
  reset_authorized_client root id s = (Ok true, tick s (delete (record_name id :: clients_dir root) (nodes s))).
Proof.
  intros Hr (c & m & Hf)%vault_file Hid. unfold reset_authorized_client, remove_if_exists, client_key_path. rewrite Hid.
  fold (record_name id). unfold remove_file, syscall. by rewrite Hr, Hf.
Qed.

(** A full reset. *)
Lemma reset_vault_works s s' :
  reliable s -> vault_ok (nodes s) -> reset_vault root s = (Ok tt, s') ->
  reliable s' /\ vault_ok (nodes s') /\ (forall id, vault_of (nodes s') id = None) /\ nodes s' !! shadow_file_path root = None.
Proof.
  intros Hr Hv. unfold reset_vault, remove_dir_all, syscall. rewrite Hr.
  assert (forall n, is_below (trust_dir root) (n :: clients_dir root) = true) as Hb.
  { intros n. apply bool_decide_eq_true. by exists [n; bs "clients"]. }
  assert (is_below (trust_dir root) (clients_dir root) = true) as Hb' by (apply bool_decide_eq_true; by exists [bs "clients"]).
  set (d1 := filter _ _).
  assert (forall q, is_below (trust_dir root) q = true -> d1 !! q = None) as Hd1.
  { intros q Hq. apply map_lookup_filter_None. right. intros x _. cbn. by rewrite Hq. }
  assert (forall s2, reliable s2 -> nodes s2 !! clients_dir root = None -> (forall n, nodes s2 !! (n :: clients_dir root) = None) ->
    (delete_shadow_file root;; mret tt) s2 = (Ok tt, s') ->
    reliable s' /\ vault_ok (nodes s') /\ (forall id, vault_of (nodes s') id = None) /\ nodes s' !! shadow_file_path root = None) as Hgo.
  { intros s2 Hr2 Hc2 Hn2. unfold delete_shadow_file, path_exists, mbind, M_bind, mret, M_ret, M_map_err.
    rewrite test_path_reliable by done. destruct (nodes s2 !! shadow_file_path root) as [[|c m]|] eqn:Es; cbn [negb].
    - unfold remove_file, syscall. cbn [nodes tick oracle ticks]. rewrite Hr2, Es. done.
    - unfold remove_file, syscall. cbn [nodes tick oracle ticks]. rewrite Hr2, Es. intros [= <-].
      split; [done|]. cbn. unfold vault_ok, clients_ok, vault_of, entry_of. split; [|split].
      + split; [right; split|]; [|intros n|]; rewrite ?lookup_delete_ne by (intros E; apply (f_equal length) in E; simpl in E; lia); try done.
        by rewrite Hc2; intros [? ?].
      + intros id. rewrite lookup_delete_ne by (intros E; apply (f_equal length) in E; simpl in E; lia). rewrite Hn2. by destruct (is_pub _).
      + apply lookup_delete_eq.
    - intros [= <-]. split; [done|]. cbn. split; [|split; [|done]].
      + split; [by right|]. rewrite Hc2. by intros [? ?].
      + intros id. unfold vault_of, entry_of. rewrite Hn2. by destruct (is_pub _). }
  destruct (nodes s !! trust_dir root) as [[|]|] eqn:Et; [|done|].
  - apply Hgo; [done|by apply Hd1|intros n; by apply Hd1].
  - destruct Hv as [Hc Ht]. assert (nodes s !! clients_dir root = None) as Hc0.
    { destruct (nodes s !! clients_dir root) eqn:Ec; [|done]. rewrite Et in Ht. destruct Ht; [by eexists|done]. }
    apply Hgo; [done|done|]. destruct Hc as [Hc|[_ Hc]]; [by rewrite Hc0 in Hc|done].
Qed.
End vault.

(** ** What [irosh trust] promises *)

(** What a report says of the disk before ([d]) and after ([d']) the command,
    of the command, and of the answers. *)
Definition trust_outcome {K} {SK : SshKey K} (root : path) (json : bool) (selected : option nat) (confirmed : bool)
    (action : TrustAction) (r : TrustReport) (d d' : gmap path node) : Prop :=
  let vault := vault_of (K := K) root d in let vault' := vault_of (K := K) root d' in
  match r with
  | Revoked id =>
      is_Some (vault id) /\ (forall id', vault' id' = if decide (id' = id) then None else vault id') /\
      d' !! shadow_file_path root = d !! shadow_file_path root /\
      (forall q, action = TrustRevoke (Some q) -> forall id' k, vault id' = Some k -> matches q (id', k) = true <-> id' = id) /\
      (exists given, action = TrustRevoke given /\ (given = None -> is_Some selected)) /\ json || confirmed = true
  | WasReset => (forall id, vault' id = None) /\ d' !! shadow_file_path root = None /\ action = TrustReset /\ confirmed = true
  | Devices l => d' = d /\ action = TrustList /\ forall x, x ∈ l <-> exists id k, vault id = Some k /\ x = device (id, k)
  | NoDevices => d' = d /\ (exists given, action = TrustRevoke given) /\ forall id, vault id = None
  | NoMatch q => d' = d /\ action = TrustRevoke (Some q) /\ forall id k, vault id = Some k -> matches q (id, k) = false
  | Ambiguous q => d' = d /\ action = TrustRevoke (Some q) /\ exists id1 k1 id2 k2, id1 <> id2 /\
      vault id1 = Some k1 /\ matches q (id1, k1) = true /\ vault id2 = Some k2 /\ matches q (id2, k2) = true
  | NoIdentity => d' = d /\ action = TrustRevoke None /\ selected = None /\ exists id, is_Some (vault id)
  | NotSure => d' = d /\ confirmed = false /\
      (action = TrustReset \/ json = false /\ exists given id, action = TrustRevoke given /\ is_Some (vault id))
  end.

Lemma filter_once {A B} (f : A * B -> bool) l : NoDup l.*1 -> NoDup (List.filter f l).*1.
Proof.
  induction l as [|x l IH]; [done|]. cbn. intros [Hx Hl]%list.NoDup_cons. destruct (f x); [|by apply IH].
  cbn. apply list.NoDup_cons. split; [|by apply IH].
  intros (y & E & [Hy _]%list_elem_of_In%filter_In)%list_elem_of_fmap. apply Hx, list_elem_of_fmap. exists y. split; [done|].
  by apply list_elem_of_In.
Qed.

(** What is meant, of the devices [l] that are listed. *)
Lemma revoke_target_spec {K} {SK : SshKey K} selected (l : list (bytes * K)) given (s : fs) r s' :
  NoDup l.*1 -> revoke_target selected l given s = (Ok r, s') -> s' = s /\
  match r with
  | inl (NoMatch q) => given = Some q /\ forall x, x ∈ l -> matches q x = false
  | inl (Ambiguous q) => given = Some q /\ exists x y, x.1 <> y.1 /\ x ∈ l /\ matches q x = true /\ y ∈ l /\ matches q y = true
  | inl report => report = NoIdentity /\ given = None /\ selected = None
  | inr id => (exists k, (id, k) ∈ l) /\ (given = None -> is_Some selected) /\
      forall q, given = Some q -> forall x, x ∈ l -> matches q x = true <-> x.1 = id
  end.
Proof.
  intros Hnd. unfold revoke_target, mret, M_ret, throw. destruct given as [q|].
  - assert (forall x, x ∈ List.filter (matches q) l <-> x ∈ l /\ matches q x = true) as Hin
      by (intros x; rewrite !list_elem_of_In; apply filter_In).
    destruct (List.filter (matches q) l) as [|x [|y rest]] eqn:Ef; intros [= <- <-]; (split; [done|]).
    + split; [done|]. intros x Hx. destruct (matches q x) eqn:Em; [|done].
      assert (x ∈ []) as H%elem_of_nil; [|done]. by apply Hin.
    + assert (x ∈ l /\ matches q x = true) as [Hx Hm] by (apply Hin; by left).
      split; [exists x.2; by destruct x|]. split; [done|]. intros q' [= <-] z Hz. split.
      * intros Hq. assert (z ∈ [x]) as ->%list_elem_of_singleton; [by apply Hin|done].
      * intros E. assert (z = x) as ->; [|done].
        apply list_elem_of_lookup in Hz as [i Hi], Hx as [j Hj].
        assert (i = j) as ->; [|congruence].
        eapply (NoDup_lookup l.*1); [done|by rewrite list_lookup_fmap, Hi|rewrite list_lookup_fmap, Hj; cbn; by f_equal].
    + assert (x ∈ l /\ matches q x = true) as [Hx Hmx] by (apply Hin; by left).
      assert (y ∈ l /\ matches q y = true) as [Hy Hmy] by (apply Hin; right; by left).
      split; [done|]. exists x, y. split; [|done]. intros E.
      pose proof (filter_once (matches q) l Hnd) as Hf.
      rewrite Ef in Hf. cbn in Hf. rewrite E in Hf. apply list.NoDup_cons in Hf as [Hf _]. apply Hf. by left.
  - destruct selected as [i|]; [destruct (l !! i) as [x|] eqn:Ei|]; intros [= <- <-]; (split; [done|]); [|done].
    split; [exists x.2; apply list_elem_of_lookup_2 in Ei; by destruct x|]. by split; [eexists|].
Qed.

Lemma trust_exec_spec {K} {SK : SshKey K} (root : path) json selected confirmed action s r s' :
  reliable s -> vault_ok root (nodes s) -> safely_named (K := K) root (nodes s) ->
  trust_exec (K := K) root json selected confirmed action s = (Ok r, s') ->
  reliable s' /\ vault_ok root (nodes s') /\
  trust_outcome (K := K) root json selected confirmed action r (nodes s) (nodes s').
Proof.
  intros Hr Hv Hn E. pose proof Hv as [Hc _]. unfold trust_outcome.
  set (vault := vault_of (K := K) root (nodes s)).
  destruct (load_all_authorized_clients (K := K) root s) as [r0 s0] eqn:E0.
  destruct (load_listed root s r0 s0 Hr Hc E0) as (l & -> & Hr0 & En & Hl & Hnd).
  destruct action as [|given|]; cbn [trust_exec] in E.
  - unfold mbind, M_bind, M_map_err in E. rewrite E0 in E. injection E as <- <-.
    split; [done|]. rewrite En. split; [done|]. split; [done|]. split; [done|]. intros d. rewrite list_elem_of_fmap. split.
    + intros ([id k] & -> & Hin%Hl). by exists id, k.
    + intros (id & k & Hin & ->). exists (id, k). split; [done|]. by apply Hl.
  - unfold revoke, mbind, M_bind, M_map_err in E. rewrite E0 in E. cbn [map_err] in E. case_decide as El.
    { injection E as <- <-. rewrite En. split_and!; [done..|by eexists|]. intros id.
      destruct (vault id) as [k|] eqn:Ek; [|done]. apply Hl in Ek. by rewrite El, elem_of_nil in Ek. }
    destruct (revoke_target selected l given s0) as [[target|] s1] eqn:Et; [|done].
    apply revoke_target_spec in Et as [-> Et]; [|done].
    assert (exists id, is_Some (vault id)) as Hsome.
    { destruct l as [|[id k] l]; [done|]. exists id, k. apply Hl. by left. }
    destruct target as [report|id].
    { injection E as <- <-. rewrite En. split; [done|]. split; [done|].
      destruct report; try (by destruct Et as [? _]).
      - destruct Et as [-> Ht]. split_and!; [done..|]. intros id k Hk%Hl. by apply Ht.
      - destruct Et as (-> & [id1 k1] & [id2 k2] & Hne & H1%Hl & ? & H2%Hl & ?). split_and!; [done..|]. by exists id1, k1, id2, k2.
      - by destruct Et as (_ & -> & ->). }
    destruct Et as ([k Hk%Hl] & Hsel & Hq).
    destruct (json || confirmed) eqn:Ey.
    2: { injection E as <- <-. rewrite En. apply orb_false_iff in Ey as [-> ->]. split_and!; [done..|].
         right. split; [done|]. destruct Hsome as [i ?]. by exists given, i. }
    rewrite (revoke_key_works root s0 id k Hr0) in E; [|by rewrite En|by eapply Hn].
    injection E as <- <-. cbn [nodes tick]. rewrite En. split; [done|]. split; [by apply vault_ok_delete|].
    split_and!; [by eexists|intros id'; apply vault_of_delete| | |by exists given|done].
    { apply lookup_delete_ne. intros Eq. apply (f_equal length) in Eq. simpl in Eq. lia. }
    intros q [= ->] id' k' Hk'%Hl. by apply (Hq q eq_refl (id', k')).
  - destruct confirmed; [|injection E as <- <-; by split_and!; [..|left]].
    unfold mbind, M_bind, M_map_err in E. destruct (reset_vault root s) as [[[]|] s1] eqn:E1; [|done]. injection E as <- <-.
    destruct (reset_vault_works root s s1 Hr Hv E1) as (? & ? & ? & ?). done.
Qed.


(** C33: A revoked device is locked out of a server that starts afterwards, when
    its key was recorded once and something is left that guards the node: the
    strict policy, a password, or another device. *)
Theorem revoked_device_refused {K} {SK : SshKey K} {SL : SshKeyLaws K} (root : path) rng json selected confirmed given s id k s' p a s2 now user :
  reliable s -> vault_ok root (nodes s) -> safely_named (K := K) root (nodes s) ->
  trust_exec (K := K) root json selected confirmed (TrustRevoke given) s = (Ok (Revoked id), s') ->
  vault_of root (nodes s) id = Some k -> (forall id', vault_of root (nodes s) id' = Some k -> id' = id) ->
  p = Strict \/ p = Tofu /\ (is_Some (nodes s !! shadow_file_path root) \/
                          exists id' k', id' <> id /\ vault_of (K := K) root (nodes s) id' = Some k') ->
  build_authenticator (VS := fs_vault root rng) (C := unit) None UnifiedMode p s' = (Ok a, s2) ->
  answer_key (VS := fs_vault root rng) (fun _ _ => Ok false) now user k a <> Ok true.
Proof.
  intros Hr Hv Hn E Hk Honce Hp Eb.
  destruct (trust_exec_spec root _ _ _ _ s _ s' Hr Hv Hn E) as (Hr' & [Hc' _] & (_ & Hdel & Hsh & _)).
  revert Eb. unfold build_authenticator, vault_keys, read_state, mbind, M_bind, mret, M_ret, M_map_err. cbn [load_vault fs_vault].
  destruct (load_all_authorized_clients root s') as [r1 s1] eqn:E1.
  destruct (load_listed root s' r1 s1 Hr' Hc' E1) as (l & -> & Hr1 & En & Hl & _). cbn [map_err]. intros [= <- <-].
  assert (forall i, vault_of root (nodes s') i <> Some k) as Hgone.
  { intros i. rewrite Hdel. case_decide; [done|]. intros Hi. by apply Honce in Hi. }
  assert (k ∉ l.*2) as Hnot.
  { intros ([i k'] & -> & Hin)%list_elem_of_fmap. apply Hl in Hin. by apply Hgone in Hin. }
  cbn [answer_key]. set (cfg := mk_UnifiedConfig p None false false). set (x := Auth.new l.*2 s1).
  destruct (check_public_key_cases (VS := fs_vault root rng) (VL := fs_vault_laws root rng) cfg now k x)
    as (r & x' & -> & _ & _ & _ & _ & [[_ H]|(Ht & _ & H & _)]).
  - cbn [fst]. intros Hok. destruct (H Hok) as [H1|[H1|H1]].
    + cbn in H1. by destruct Hp as [->|[-> _]].
    + apply Hnot in H1. done.
    + apply on_disk_vault in H1 as [i Hi]. cbn in Hi. rewrite En in Hi. by apply Hgone in Hi.
  - exfalso. cbn in Ht. subst p. destruct H as [Hs0 Hno].
    { split; [done|]. cbn. by rewrite En. }
    destruct Hp as [?|[_ [[x1 Hx]|(i & k' & Hi & Hk')]]]; [done| |].
    + cbn in Hs0. rewrite En, Hsh, Hx in Hs0. destruct x1 as [|c m]; [done|]. by destruct (utf8_valid c).
    + apply (Hno k'). cbn. apply on_disk_vault. exists i. rewrite En, Hdel. by rewrite decide_False.
Qed.

(** ** What [irosh config] promises *)

(** What [get] shows after [set]. *)
Definition shown (key value : bytes) : bytes :=
  if decide (key = bs "stealth-secret") then redact (unless (bs "none") value)
  else if decide (key = bs "relay-url") then default (bs "<iroh-default>") (unless (bs "default") value)
  else if decide (key = bs "log-level") then match log_level_from_str value with Ok l => as_str l | Err _ => [] end
  else if decide (key = bs "wormhole-timeout") then match parse_u64 value with Ok n => decimal n ++ bs "s" | Err _ => [] end
  else default (bs "<system-user>") (unless [] value).

Lemma setting_cases key c : setting key c =
  if decide (key = bs "stealth-secret") then Some (redact (stealth_secret c))
  else if decide (key = bs "relay-url") then Some (default (bs "<iroh-default>") (relay_url c))
  else if decide (key = bs "log-level") then Some (as_str (log_level c))
  else if decide (key = bs "wormhole-timeout") then Some (decimal (wormhole_timeout c) ++ bs "s")
  else if decide (key = bs "default-user") then Some (default (bs "<system-user>") (default_user c)) else None.
Proof.
  unfold setting, settings. cbn [List.find fst snd].
  repeat (case_decide as Hd; [subst key; reflexivity|rewrite (bool_decide_eq_false_2 _ (not_eq_sym Hd)); clear Hd]).
  done.
Qed.

Lemma set_setting_shown key value c c' : set_setting key value c = Ok c' ->
  is_Some (setting key c) /\ forall key', setting key' c' = if decide (key' = key) then Some (shown key value) else setting key' c.
Proof.
  destruct c as [secret relay level timeout user]. unfold set_setting, shown.
  assert (forall shown0 c0, (forall key', setting key' c0 = if decide (key' = key) then Some shown0
      else setting key' (mk_AppConfig secret relay level timeout user)) ->
    is_Some (setting key (mk_AppConfig secret relay level timeout user)) -> Ok c0 = Ok (E := CommandError) c' ->
    is_Some (setting key (mk_AppConfig secret relay level timeout user)) /\
    forall key', setting key' c' = if decide (key' = key) then Some shown0 else setting key' (mk_AppConfig secret relay level timeout user)) as Hgo
    by (intros ? ? ? ? [= <-]; done).
  repeat (case_decide as Hd; [clear -Hgo Hd|clear Hd]); [..|done].
  3: destruct (log_level_from_str value); [|done].
  4: destruct (parse_u64 value); [|done].
  all: apply Hgo; [intros key'|]; rewrite !setting_cases; subst key; [repeat case_decide; simplify_eq; done|by eexists].
Qed.

Lemma load_config_calm {SJ : SerdeJson} state s r s' :
  load_config state s = (r, s') -> nodes s' = nodes s /\ (reliable s -> reliable s').
Proof.
  intros E. assert (runs same s s') as R; [|split; [by apply (runs_same_nodes _ _ R)|by eapply runs_reliable]].
  revert E. unfold load_config, parse_config, read_to_string, read_file, mbind, M_bind, mret, M_ret, M_map_err, lift, path_exists.
  destruct (test_path _ _ s) as [r1 s1] eqn:E1. apply test_path_runs in E1 as [R1 [b ->]].
  destruct b; cbn [negb]; [|by intros [= _ <-]]. destruct (query _ s1) as [r2 s2] eqn:E2. apply query_runs in E2.
  pose proof (runs_trans _ _ _ _ same_trans R1 E2) as R.
  destruct r2 as [b|]; cbn [map_err]; [destruct (utf8_valid b); cbn [map_err]|]; by intros [= _ <-].
Qed.

(** A setting that was saved is the one shown afterwards, in normal form,
    whatever was shown before, and every other setting is shown as before;
    the secret is shown as set or not only. *)
Theorem config_set_get {SJ : SerdeJson} {SL : SerdeJsonLaws} state suffix json json' key value s r s' :
  reliable s -> config_exec state suffix json (ConfigSet key value) s = (Ok r, s') ->
  r = Saved key /\ reliable s' /\
  (config_exec state suffix json' (ConfigGet key) s').1 = Ok (Value (shown key value)) /\
  forall key', key' <> key -> key' ∈ (bs <$> ["stealth-secret"; "relay-url"; "log-level"; "wormhole-timeout"; "default-user"]%string) ->
    (config_exec state suffix json' (ConfigGet key') s').1 = (config_exec state suffix json' (ConfigGet key') s).1.
Proof.
  intros Hr. unfold config_exec, M_map_err. unfold mbind at 1 2, M_bind at 1 2.
  destruct (load_config state s) as [[c|e] s1] eqn:E1; [|done]. cbn [map_err].
  destruct (load_config_calm _ _ _ _ E1) as [_ Hr1]. specialize (Hr1 Hr).
  unfold mbind, M_bind, lift. destruct (set_setting key value c) as [c'|] eqn:Es; [|done].
  destruct (save_config state suffix c' s1) as [[u|] s2] eqn:E2; [|done]. intros [= <- <-].
  pose proof (save_config_ok state suffix c' s1 u s2 Hr1 E2) as (Hr2 & data & m & Hj & Hf).
  pose proof (load_config_file state s2 c' data m Hr2 Hf Hj) as Hl.
  destruct (load_config state s2) as [r3 s3]. cbn in Hl. subst r3. cbn [map_err].
  destruct (set_setting_shown key value c c' Es) as [_ H]. split; [done|]. split; [done|]. split.
  - rewrite H, decide_True by done. done.
  - intros key' Hk Hin. rewrite H, decide_False by done.
    rewrite E1. cbn [map_err]. assert (is_Some (setting key' c)) as [v ->]; [|done].
    rewrite setting_cases. repeat (apply elem_of_cons in Hin as [->|Hin]; [by eexists|]). by apply elem_of_nil in Hin.
Qed.

(** ** What [irosh host] starts with *)

Lemma load_key_at_file {K} {SK : SshKey K} p s (k : K) s' : read_openssh_file p s = (Ok k, s') ->
  exists c m, nodes s !! p = Some (File c m) /\ utf8_valid c = true /\ parse_openssh c = Some k.
Proof. intros [_ H]%read_openssh_file_runs. by apply H. Qed.

(** The notice that the first device will be trusted is shown, unless it is
    suppressed, exactly when no key is recorded and no password set. A key
    that was to be authorized is recorded by then, so that a host started with
    one gives no notice. *)
Theorem host_notice_is_true {SJ : SerdeJson} {SL : SerdeJsonLaws} {K} {SK : SshKey K} {SL' : SshKeyLaws K} {RelayUrl}
    (relay_url_from_str : bytes -> option RelayUrl) state suffix secret auth_mode authorize simple idle json s warned o s' :
  reliable s -> clients_ok (Config.root state) (nodes s) ->
  host_prepare (K := K) relay_url_from_str state suffix secret auth_mode authorize simple idle json s = (Ok (warned, o), s') ->
  (warned = true <-> simple = false /\ json = false /\ (forall k : K, ~ on_disk (Config.root state) (nodes s') k) /\
                    nodes s' !! shadow_file_path (Config.root state) = None) /\
  forall p, authorize = Some p -> warned = false /\
    exists (k : K) c m, nodes s !! p = Some (File c m) /\ parse_openssh c = Some k /\ on_disk (Config.root state) (nodes s') k.
Proof.
  intros Hr Hc. set (root := Config.root state). unfold host_prepare, mbind at 1, M_bind at 1.
  assert (forall r0 s0, authorize_file (K := K) state suffix authorize s = (Ok r0, s0) ->
    reliable s0 /\ clients_ok root (nodes s0) /\ forall p, authorize = Some p ->
      exists (k : K) c m, nodes s !! p = Some (File c m) /\ parse_openssh c = Some k /\ on_disk root (nodes s0) k) as Ha.
  { intros r0 s0. unfold authorize_file. destruct authorize as [p|]; [|by intros [= _ <-]].
    unfold mbind, M_bind, M_map_err, mret, M_ret.
    destruct (read_openssh_file p s) as [[k|] s1] eqn:E1; [|done]. cbn [map_err].
    pose proof (load_key_at_file _ _ _ _ E1) as (c & m & Hf & _ & Hk). apply read_openssh_file_runs in E1 as [R1 _].
    pose proof (runs_same_nodes _ _ R1) as En. assert (reliable s1) as Hr1 by by eapply runs_reliable.
    destruct (write_authorized_client _ suffix _ k s1) as [[ev|] s2] eqn:E2; [|done]. intros [= _ <-].
    pose proof (write_authorized_client_clients _ _ _ _ _ _ _ E2) as [H1 H2].
    destruct (write_authorized_client_spec root suffix (fingerprint k) k s1 (Ok ev) s2 (fingerprint_nonempty k) E2) as [_ [_ H3]].
    split; [by apply H1|]. split; [apply H2; by rewrite En|]. intros p' [= <-]. exists k, c, m. split; [done|]. split; [done|].
    by eexists _, _. }
  destruct (authorize_file (K := K) state suffix authorize s) as [[r0|] s0]; [|done].
  destruct (Ha r0 s0 eq_refl) as (Hr0 & Hc0 & Hauth). clear Ha.
  unfold mbind at 1, M_bind at 1, M_map_err at 1.
  destruct (load_all_authorized_clients (K := K) _ s0) as [rv s1] eqn:E1.
  destruct (load_listed root s0 rv s1 Hr0 Hc0 E1) as (l & -> & Hr1 & En1 & Hl & _). cbn [map_err].
  unfold mbind at 1, M_bind at 1, M_map_err at 1.
  destruct (load_shadow_file _ s1) as [[sh|] s2] eqn:E2; [|done]. cbn [map_err].
  assert (sh = None <-> nodes s1 !! shadow_file_path root = None) as Hsh.
  { revert E2. unfold load_shadow_file, path_exists, mbind, M_bind, mret, M_ret, M_map_err.
    rewrite test_path_reliable by done. fold root. destruct (nodes s1 !! shadow_file_path root) as [x|]; cbn [negb].
    - destruct (read_to_string _ _) as [[b|] s3]; cbn [map_err]; [|done]. by intros [= <- _].
    - by intros [= <- _]. }
  apply load_shadow_file_runs in E2 as R2. pose proof (runs_same_nodes _ _ R2) as En2.
  unfold mbind at 1, M_bind at 1. destruct (host_options _ _ _ _ _ s2) as [[o'|] s3] eqn:E3; [|done].
  assert (nodes s3 = nodes s2) as En3.
  { revert E3. unfold host_options, mbind, M_bind, M_map_err, lift, mret, M_ret.
    destruct (load_config state s2) as [[c|] s4] eqn:E4; [|done]. cbn [map_err].
    apply load_config_calm in E4 as [E4 _]. destruct (relay_url c) as [u|]; [destruct (parse_relay_mode _ u)|]; by intros [= _ <-]. }
  intros [= <- <- <-]. rewrite En3, En2, En1.
  assert (l = [] <-> forall k : K, ~ on_disk root (nodes s0) k) as Hempty.
  { split.
    - intros -> k [id Hv]%on_disk_vault. apply Hl in Hv. by apply elem_of_nil in Hv.
    - intros Hno. destruct l as [|[id k] l]; [done|]. exfalso. apply (Hno k), on_disk_vault. exists id. apply Hl. by left. }
  rewrite En1 in Hsh. split.
  - rewrite !andb_true_iff, !negb_true_iff, !bool_decide_eq_true, Hempty, Hsh. tauto.
  - intros p Hp. destruct (Hauth p Hp) as (k & c & m & Hf & Hk & Hd). split; [|by exists k, c, m].
    rewrite bool_decide_eq_false_2; [done|]. intros Hl0. by apply (proj1 Hempty Hl0 k).
Qed.

(** ** Where the commands fall short *)

(** A running server keeps accepting a revoked key: the keys it has loaded are
    asked first, and the vault is loaded again only for a key they lack. *)
Lemma running_server_keeps_revoked {St K} {VS : VaultStore St K} {SK : SshKey K} cfg now (k : K) (x : Session (St := St)) st :
  (failed_attempts (shared x) < 3)%N -> k ∈ authorized_keys (shared x) ->
  (check_public_key cfg now k (with_st x st)).1 = Ok true.
Proof.
  intros Hf Hk. unfold check_public_key, pk_first, is_locked_out, reset_failures, update, get, mbind, M_bind, mret, M_ret.
  cbn [shared with_st failed_attempts]. rewrite (proj2 (N.ltb_lt _ _) Hf).
  case_decide; [done|]. cbn [shared with_st authorized_keys]. by rewrite decide_True.
Qed.

(** A record whose file name has a dot, placed by hand, survives its
    revocation, which is reported. *)
Lemma dotted_record_survives {K} {SK : SshKey K} root id s :
  reliable s -> safe_id id <> id -> nodes s !! (record_name (safe_id id) :: clients_dir root) = None ->
  exists s', reset_authorized_client root id s = (Ok false, s') /\ forall i, vault_of (K := K) root (nodes s') i = vault_of root (nodes s) i.
Proof.
  intros Hr _ Hn. unfold reset_authorized_client, remove_if_exists, client_key_path. fold (record_name (safe_id id)).
  unfold remove_file, syscall. rewrite Hr, Hn. by eexists.
Qed.

(** No record that the server makes is ever shown as one of an unknown device:
    the colon of a fingerprint is replaced in the name of its record. *)
Lemma no_device_unknown {K} {SK : SshKey K} (k : K) :
  ":"%char ∈ Vault.fingerprint k -> unknown (device (safe_id (Vault.fingerprint k), k)) = false.
Proof.
  intros Hc. apply bool_decide_eq_false_2. intros E. cbn in E. rewrite <-E in Hc. revert Hc.
  apply replace_chars_notin; [|by apply (bool_decide_unpack _)]. right. right. right. by left.
Qed.

(** ** A concrete node *)

Definition client_root : path := [bs "client"; bs ".irosh"; bs "u"; bs "home"].
Definition server_root : path := [bs "server"; bs ".irosh"; bs "u"; bs "home"].

Definition node_nodes : gmap path node :=
  <[ record_name (bs "SHA256_aa") :: clients_dir server_root := File (bs "aa") 384 ]>
  (<[ record_name (bs "SHA256_ab") :: clients_dir server_root := File (bs "ab") 384 ]>
    (list_to_map ((fun p => (p, Dir 448)) <$> [[]; [bs "home"]; [bs "u"; bs "home"]; [bs ".irosh"; bs "u"; bs "home"];
       client_root; server_root; trust_dir server_root; clients_dir server_root]))).

Definition node_disk : fs := mk_fs node_nodes 18 (fun _ => None) 0 [].

Definition no_relay (b : bytes) : option unit := None.

(** Without [--state] the two contexts differ. *)
Lemma two_state_directories :
  state_root None (Some [bs "u"; bs "home"]) false None (bs "client") = Some client_root /\
  state_root None (Some [bs "u"; bs "home"]) false None (bs "server") = Some server_root.
Proof. done. Qed.

(** What [config set] saves is read by the commands of the client only: a host
    that is started afterwards has no stealth secret. *)
Lemma config_does_not_reach_host :
  let set := @config_exec bit_json (mk_StateConfig client_root) 7 false (ConfigSet (bs "stealth-secret") (bs "s3cret")) node_disk in
  set.1 = Ok (Saved (bs "stealth-secret")) /\
  ho_secret <$> (match (@host_options bit_json unit no_relay (mk_StateConfig server_root) None None None set.2).1 with
                 | Ok o => Some o | Err _ => None end) = Some None.
Proof. vm_compute. done. Qed.

Abbreviation node_vault := (@fs_vault bytes text_key server_root (fun _ => 7%N)).

(** Revoking the last device of a node without a password opens the node: a
    server that starts afterwards trusts the first key it is offered, the
    revoked one included. *)
Lemma last_revocation_reopens :
  let revoke q s := (@trust_exec bytes text_key server_root true None false (TrustRevoke (Some q)) s).2 in
  let s := revoke (bs "SHA256:ab") (revoke (bs "SHA256:aa") node_disk) in
  match (@build_authenticator fs bytes node_vault unit None UnifiedMode Tofu s).1 with
  | Ok a => @answer_key fs bytes node_vault text_key unit (fun _ _ => Ok false) 0 (bs "u") (bs "aa") a
  | Err _ => Ok false
  end = Ok true.
Proof. vm_compute. reflexivity. Qed.

Lemma node_lookup n : n <> record_name (bs "SHA256_aa") -> n <> record_name (bs "SHA256_ab") ->
  node_nodes !! (n :: clients_dir server_root) = None.
Proof.
  intros H1 H2. unfold node_nodes. rewrite !lookup_insert_ne by congruence. apply not_elem_of_list_to_map_1.
  cbn. rewrite !not_elem_of_cons. split_and!; try (intros E; apply (f_equal length) in E; cbn in E; lia).
  by intros ?%elem_of_nil.
Qed.

Lemma node_records id k : vault_of (SK := text_key) server_root node_nodes id = Some k ->
  (id = bs "SHA256_aa" /\ k = bs "aa") \/ (id = bs "SHA256_ab" /\ k = bs "ab").
Proof.
  intros H. destruct (decide (id = bs "SHA256_aa")) as [->|H1]; [left; vm_compute in H; injection H as <-; split; reflexivity|].
  destruct (decide (id = bs "SHA256_ab")) as [->|H2]; [right; vm_compute in H; injection H as <-; split; reflexivity|].
  exfalso. apply vault_file in H as (c & m & Hf). rewrite node_lookup in Hf; [discriminate| |]; intros E%app_inv_tail; contradiction.
Qed.

Lemma node_vault_ok : vault_ok server_root node_nodes.
Proof. split; [left; by vm_compute|]. intros _. eexists. vm_compute. reflexivity. Qed.

Lemma node_named : safely_named (SK := text_key) server_root node_nodes.
Proof. intros id k [[-> _]|[-> _]]%node_records; reflexivity. Qed.


Lemma revoked_device_refused_witness :
  let s := (@trust_exec bytes text_key server_root true None false (TrustRevoke (Some (bs "SHA256:aa"))) node_disk).2 in
  match @build_authenticator fs bytes node_vault unit None UnifiedMode Tofu s with
  | (Ok a, _) => @answer_key fs bytes node_vault text_key unit (fun _ _ => Ok false) 0 (bs "u") (bs "aa") a <> Ok true
  | (Err _, _) => False
  end.
Proof.
  intros s. assert (is_ok (@build_authenticator fs bytes node_vault unit None UnifiedMode Tofu s).1 = true) as Hok by (vm_compute; reflexivity).
  revert Hok. destruct (@build_authenticator fs bytes node_vault unit None UnifiedMode Tofu s) as [[a|e] s2] eqn:Eb; intros Hok.
  - apply (@revoked_device_refused bytes text_key text_key_laws server_root (fun _ => 7%N) true None false (Some (bs "SHA256:aa")) node_disk
      (bs "SHA256_aa") (bs "aa") s Tofu a s2 0%N (bs "u")).
    + intros n. reflexivity.
    + exact node_vault_ok.
    + exact node_named.
    + refine (pair_fst (@trust_exec bytes text_key server_root true None false (TrustRevoke (Some (bs "SHA256:aa"))) node_disk) _ _). vm_compute. reflexivity.
    + vm_compute. reflexivity.
    + intros id' [[-> _]|[_ H]]%node_records; [reflexivity|discriminate].
    + right. split; [reflexivity|]. right. exists (bs "SHA256_ab"), (bs "ab"). split; [discriminate|vm_compute; reflexivity].
    + exact Eb.
  - discriminate Hok.
Defined.

Lemma config_set_get_witness :
  let run := @config_exec bit_json (mk_StateConfig client_root) 7 false in
  let s := (run (ConfigSet (bs "wormhole-timeout") (bs "0060")) node_disk).2 in
  (run (ConfigGet (bs "wormhole-timeout")) s).1 = Ok (Value (bs "60s")).
Proof.
  intros run s.
  destruct (@config_set_get bit_json bit_json_laws (mk_StateConfig client_root) 7 false false (bs "wormhole-timeout") (bs "0060") node_disk
    (Saved (bs "wormhole-timeout")) s) as (_ & _ & H & _).
  - intros n. reflexivity.
  - refine (pair_fst (run (ConfigSet (bs "wormhole-timeout") (bs "0060")) node_disk) _ _). vm_compute. reflexivity.
  - exact H.
Defined.

Lemma host_notice_is_true_witness :
  let p := record_name (bs "SHA256_aa") :: clients_dir server_root in
  let run := @host_prepare bit_json bytes text_key unit no_relay (mk_StateConfig server_root) 7 None None (Some p) false None false node_disk in
  let o := mk_HostOptions (RelayUrl := unit) UnifiedMode 0 None RelayDefault in
  run.1 = Ok (false, o) /\ on_disk (SK := text_key) server_root (nodes run.2) (bs "aa").
Proof.
  intros p run o. assert (run.1 = Ok (false, o)) as E by (vm_compute; reflexivity). split; [exact E|].
  destruct (@host_notice_is_true bit_json bit_json_laws bytes text_key text_key_laws unit no_relay (mk_StateConfig server_root) 7 None None
    (Some p) false None false node_disk false o run.2) as [_ H].
  - intros n. reflexivity.
  - exact (proj1 node_vault_ok).
  - exact (pair_fst run _ E).
  - destruct (H p eq_refl) as (_ & k & c & m & Hf & Hk & Hd). vm_compute in Hf. injection Hf as <- <-.
    vm_compute in Hk. injection Hk as <-. exact Hd.
Defined.
