(* ===== verification/Service.v ===== *)
(** * The background service: [src/sys/unix/service.rs] and [commands/system.rs]

    The Linux half of the service management: the unit that is written for
    systemd, the commands that are given to [systemctl], and how its answers
    are read. [systemctl] and [journalctl] are arguments; of a command only
    that it was run is recorded. *)

From S2P Require Import ShellOps LocalPaths.
From S2P Require Import Prelude Text Fs StorageUtils.

Inductive ServiceStatus : Type := Active (manager : bytes) | Inactive | NotFound | Unknown.

Inductive ServiceAction : Type := Install | Uninstall | Start | Stop.

Inductive ServiceError : Type :=
| NoExe
| NoHome
| CreateServiceDir (e : io_error)
| WriteServiceFile (e : io_error)
| RemoveServiceFile (e : io_error)
| CommandFailed (program : bytes).

(** Lines, each with its newline. *)
Definition printed (ls : list bytes) : bytes := foldr (fun l out => l ++ NL :: out) [] ls.

(** ** Status *)

(** [str::split_once] *)
Fixpoint split_once (c : ascii) (b : bytes) : option (bytes * bytes) :=
  match b with
  | [] => None
  | d :: r =>
      if decide (c = d) then Some ([], r)
      else match split_once c r with Some (x, y) => Some (d :: x, y) | None => None end
  end.

(** The closure [property]: the first line with this key. *)
Fixpoint find_property (key : bytes) (ls : list bytes) : option bytes :=
  match ls with
  | [] => None
  | line :: ls =>
      match split_once "="%char line with
      | Some (k, value) => if decide (k = key) then Some value else find_property key ls
      | None => find_property key ls
      end
  end.

Definition property (output key : bytes) : bytes := trim (default [] (find_property key (lines output))).

Definition systemd_status (load_state active_state : bytes) (exists_ : bool) : ServiceStatus :=
  if decide (load_state = bs "not-found" /\ exists_ = false) then NotFound
  else if decide (active_state = bs "active") then Active (bs "systemd")
  else if decide (load_state ∈ (bs <$> ["loaded"; "masked"; "error"; "bad-setting"]%string) /\
                  active_state ∈ (bs <$> ["inactive"; "failed"; "deactivating"]%string)) then Inactive
  else if exists_ then Inactive
  else Unknown.

Definition service_dir (home : path) : path := bs "user" :: bs "systemd" :: bs ".config" :: home.
Definition service_file (home : path) : path := bs "irosh.service" :: service_dir home.

(** [show] is the answer to [systemctl show]: whether it succeeded and what it
    printed, if it could be run. Without a home directory the path is one of
    the working directory, and [home] this. *)
Definition query_status_linux (home : path) (show : option (bool * bytes)) : M fs ServiceError ServiceStatus :=
  e ← path_exists (service_file home);
  mret (match show with
        | Some (true, out) =>
            let output := utf8_lossy out in
            systemd_status (property output (bs "LoadState")) (property output (bs "ActiveState")) e
        | Some (false, _) | None => if e : bool then Inactive else Unknown
        end).

(** ** Actions *)

Record Host : Type := mk_Host {
  disk_of : fs;
  ran : list (list bytes);
}.

Section actions.
(** The answer to a command after others: whether it succeeded, if it could
    be run. *)
Variable systemctl : list (list bytes) -> list bytes -> option bool.

Abbreviation H := (M Host ServiceError).

Definition on_disk {A} (m : M fs ServiceError A) : H A := fun h =>
  let '(r, s) := m (disk_of h) in (r, mk_Host s (ran h)).

(** [Command::new("systemctl").args(..).status()]: the exit status is left
    unread. *)
Definition ctl (args : list string) : H unit := fun h =>
  let args := bs <$> args in
  let h' := mk_Host (disk_of h) (ran h ++ [args]) in
  match systemctl (ran h) args with
  | Some _ => (Ok tt, h')
  | None => (Err (CommandFailed (bs "systemctl")), h')
  end.

Definition unit_lines (exe state_arg : bytes) : list bytes :=
  [bs "[Unit]"; bs "Description=irosh P2P SSH Server"; bs "After=network.target"; [];
   bs "[Service]"; bs "ExecStart=" ++ exe ++ state_arg ++ bs " host"; bs "Restart=always"; bs "RestartSec=5"; [];
   bs "[Install]"; bs "WantedBy=default.target"].

Definition unit_text (exe state_arg : bytes) : bytes := printed (unit_lines exe state_arg).

Definition state_arg (state : option path) : bytes :=
  match state with Some p => bs " --state " ++ display p | None => [] end.

(** [tokio::fs::write] *)
Definition fs_write (p : path) (b : bytes) : M fs io_error unit :=
  file_create p;; file_write_all p b.

Definition handle_service_linux (current_exe home : option path) (action : ServiceAction) (state : option path) : H unit :=
  match current_exe, home with
  | None, _ => throw NoExe
  | _, None => throw NoHome
  | Some exe, Some home =>
      let file := service_file home in
      match action with
      | Install =>
          on_disk (M_map_err CreateServiceDir (create_dir_all (service_dir home)));;
          on_disk (M_map_err WriteServiceFile (fs_write file (unit_text (display exe) (state_arg state))));;
          ctl ["--user"; "daemon-reload"]%string;;
          ctl ["--user"; "enable"; "irosh"]%string;;
          ctl ["--user"; "restart"; "irosh"]%string
      | Uninstall =>
          attempt (ctl ["--user"; "stop"; "irosh"]%string);;
          attempt (ctl ["--user"; "disable"; "irosh"]%string);;
          e ← on_disk (path_exists file);
          if e : bool then on_disk (M_map_err RemoveServiceFile (remove_file file)) else mret tt
      | Start => ctl ["--user"; "start"; "irosh"]%string
      | Stop => ctl ["--user"; "stop"; "irosh"]%string
      end
  end.

(** [view_logs_linux]; here the exit status counts. *)
Definition view_logs_linux (journalctl : list bytes -> option bool) (follow : bool) : result ServiceError unit :=
  match journalctl (bs <$> ["--user"; "-u"; "irosh"]%string ++ if follow then ["-f"]%string else []) with
  | Some true => Ok tt
  | _ => Err (CommandFailed (bs "journalctl"))
  end.

(** [irosh system], without [status] and [logs], which change nothing. *)
Inductive SystemAction : Type := SysInstall | SysUninstall | SysStart | SysStop | SysRestart.

Definition system_exec (current_exe home : option path) (state_root : path) (yes confirmed : bool) (action : SystemAction) : H unit :=
  let handle a := handle_service_linux current_exe home a (Some state_root) in
  match action with
  | SysInstall => handle Install
  | SysUninstall => if negb yes && negb confirmed then mret tt else handle Uninstall
  | SysStart => handle Start
  | SysStop => handle Stop
  | SysRestart => handle Stop;; handle Start
  end.
End actions.

(** ** What the status says *)

Lemma split_once_app c k v : c ∉ k -> split_once c (k ++ c :: v) = Some (k, v).
Proof.
  induction k as [|d k IH]; intros Hc; cbn; [by rewrite decide_True|].
  apply not_elem_of_cons in Hc as [Hd Hk]. by rewrite decide_False, IH.
Qed.

(** A line of [systemctl show]. *)
Definition shown_property (key value : bytes) : bytes := key ++ "="%char :: value.

Lemma find_property_cons key k v ls : "="%char ∉ k ->
  find_property key (shown_property k v :: ls) = if decide (k = key) then Some v else find_property key ls.
Proof. intros H. cbn [find_property]. unfold shown_property. by rewrite split_once_app. Qed.

Definition plain_line (l : bytes) : Prop := (NL ∉ l) /\ (CR ∉ l).

Lemma lines_printed ls : Forall plain_line ls -> lines (printed ls) = ls.
Proof.
  intros H. unfold lines.
  assert (split_on NL (printed ls) = ls ++ [[]]) as ->.
  { induction H as [|l ls [Hl _] _ IH]; [done|]. unfold printed in *. cbn [foldr].
    by rewrite split_on_sep, split_on_none, IH. }
  rewrite removelast_last, last_snoc, app_nil_r.
  induction H as [|l ls [_ Hl] _ IH]; [done|]. cbn [fmap list_fmap]. rewrite IH. f_equal.
  unfold strip_cr. case_match eqn:E; [|done]. rewrite decide_False; [done|].
  intros ->. apply Hl. apply last_Some in E as [l' ->]. apply elem_of_app. right. by left.
Qed.

(** The status is what systemd says of the unit, and its file where systemd
    says nothing: [property] reads the two properties back from the lines of
    [systemctl show], in any order and among any others. *)
Theorem status_is_what_systemd_says home ls s :
  Forall (fun x => ("="%char ∉ x.1) /\ plain_line (shown_property x.1 x.2)) ls ->
  utf8_valid (printed ((fun x => shown_property x.1 x.2) <$> ls)) = true -> reliable s ->
  let value key := default [] (snd <$> List.find (fun x => bool_decide (x.1 = key)) ls) in
  (query_status_linux home (Some (true, printed ((fun x => shown_property x.1 x.2) <$> ls))) s).1 =
    Ok (systemd_status (trim (value (bs "LoadState"))) (trim (value (bs "ActiveState")))
          (bool_decide (is_Some (nodes s !! service_file home)))).
Proof.
  intros Hls Hu Hr value. unfold query_status_linux, path_exists, mbind, M_bind, mret, M_ret.
  rewrite test_path_reliable by done. cbn [fst]. rewrite utf8_lossy_valid by done.
  assert (forall key, property (printed ((fun x => shown_property x.1 x.2) <$> ls)) key = trim (value key)) as Hp.
  { intros key. unfold property. rewrite lines_printed.
    - unfold value. clear Hu. induction Hls as [|[k v] ls [Hk _] _ IH]; [done|]. cbn [fmap list_fmap fst snd List.find] in *.
      rewrite find_property_cons by done. case_decide as Hd; [by rewrite bool_decide_eq_true_2|].
      by rewrite bool_decide_eq_false_2.
    - apply Forall_fmap. eapply Forall_impl; [|exact Hls]. by intros x [_ ?]. }
  rewrite !Hp. f_equal. f_equal. destruct (nodes s !! service_file home); [by rewrite bool_decide_eq_true_2|done].
Qed.

Lemma systemd_status_cases load active e :
  (systemd_status load active e = NotFound <-> load = bs "not-found" /\ e = false) /\
  ((exists m, systemd_status load active e = Active m) <-> active = bs "active" /\ ~ (load = bs "not-found" /\ e = false)).
Proof.
  unfold systemd_status. split.
  - case_decide; [done|]. repeat (case_decide; [naive_solver|]). destruct e; naive_solver.
  - case_decide; [naive_solver|]. case_decide; [naive_solver|]. case_decide; [naive_solver|]. destruct e; naive_solver.
Qed.

(** ** What installing does *)

(** The value of the first [ExecStart] of a unit. *)
Definition exec_start (unit : bytes) : bytes := default [] (find_property (bs "ExecStart") (lines unit)).

Lemma unit_exec_start exe arg : plain_line exe -> plain_line arg ->
  exec_start (unit_text exe arg) = exe ++ arg ++ bs " host".
Proof.
  intros [H1 H2] [H3 H4]. unfold exec_start, unit_text. rewrite lines_printed.
  - unfold unit_lines. cbn [find_property split_once]. reflexivity.
  - unfold unit_lines. repeat apply Forall_cons; try apply Forall_nil; try (split; apply (bool_decide_unpack _); vm_compute; exact I).
    split; rewrite !not_elem_of_app; split_and!; try done; apply (bool_decide_unpack _); vm_compute; exact I.
Qed.

Definition INSTALL_COMMANDS : list (list bytes) :=
  [bs <$> ["--user"; "daemon-reload"]%string; bs <$> ["--user"; "enable"; "irosh"]%string; bs <$> ["--user"; "restart"; "irosh"]%string].

Lemma fs_write_spec p b s u s' : reliable s -> fs_write p b s = (Ok u, s') ->
  reliable s' /\ (exists m, nodes s' !! p = Some (File b m)) /\ forall q, q <> p -> nodes s' !! q = nodes s !! q.
Proof.
  intros Hr. unfold fs_write, mbind, M_bind, file_create, syscall. rewrite Hr.
  assert (forall m s1, reliable s1 -> nodes s1 = <[p := File [] m]> (nodes s) -> file_write_all p b s1 = (Ok u, s') ->
    reliable s' /\ (exists m, nodes s' !! p = Some (File b m)) /\ forall q, q <> p -> nodes s' !! q = nodes s !! q) as Hw.
  { intros m s1 Hr1 E1. unfold file_write_all. rewrite Hr1. intros [= _ <-]. split; [done|]. cbn [nodes tick].
    unfold append. rewrite E1, lookup_insert_eq. split; [exists m; by rewrite lookup_insert_eq|].
    intros q Hq. by rewrite !lookup_insert_ne. }
  destruct (nodes s !! p) as [[m|c m]|]; [done|by apply (Hw m)|].
  destruct (parent_check (nodes s) p); [by eapply Hw|done].
Qed.

Section install.
Variable systemctl : list (list bytes) -> list bytes -> option bool.

(** Installing leaves a unit that runs the host with its state directory, adds
    nothing else but directories above it, and has given systemd three
    commands; what they answered does not count. *)
Theorem install_outcome exe home state h h' :
  reliable (disk_of h) -> plain_line (display exe) -> plain_line (display state) ->
  " "%char ∉ display exe -> " "%char ∉ display state ->
  handle_service_linux systemctl (Some exe) (Some home) Install (Some state) h = (Ok tt, h') ->
  (exists unit m, nodes (disk_of h') !! service_file home = Some (File unit m) /\
    split_on " "%char (exec_start unit) = [display exe; bs "--state"; display state; bs "host"]) /\
  ran h' = ran h ++ INSTALL_COMMANDS /\
  forall q, q <> service_file home -> nodes (disk_of h') !! q <> nodes (disk_of h) !! q ->
    nodes (disk_of h) !! q = None /\ is_dir_node (nodes (disk_of h') !! q) = true.
Proof.
  intros Hr He Hs He' Hs'. cbn [handle_service_linux]. unfold on_disk, ctl, M_map_err, mbind, M_bind.
  destruct (create_dir_all (service_dir home) (disk_of h)) as [[u|e] s1] eqn:E1; [|done]. cbn [map_err disk_of ran].
  apply create_dir_all_runs in E1 as R1. assert (reliable s1) as Hr1 by (eapply runs_reliable; [exact R1|exact Hr]).
  destruct (fs_write _ _ s1) as [[u2|e] s2] eqn:E2; [|done]. cbn [map_err disk_of ran].
  apply fs_write_spec in E2 as (Hr2 & [m Hm] & Hf2); [|done].
  destruct (systemctl _ _); [|done]. cbn [disk_of ran]. destruct (systemctl _ _); [|done]. cbn [disk_of ran].
  destruct (systemctl _ _); [|done].
  intros [= <-]. cbn [disk_of ran]. split; [|split].
  - eexists _, m. split; [exact Hm|]. rewrite unit_exec_start; [|done|].
    + cbn [state_arg]. change (bs " --state " ++ display state) with (" "%char :: bs "--state" ++ " "%char :: display state).
      change (bs " host") with (" "%char :: bs "host"). cbn [app]. rewrite <-app_assoc. cbn [app].
      by rewrite !split_on_sep, !split_on_none by (done || by apply (bool_decide_unpack _)).
    + cbn [state_arg]. destruct Hs as [H1 H2]. split; rewrite not_elem_of_app; (split; [|done]); apply (bool_decide_unpack _); vm_compute; exact I.
  - by rewrite <-!app_assoc.
  - intros q Hq. rewrite Hf2 by done. intros Hd.
    apply (runs_final _ _ _ (adds_dirs_refl _ _)) in R1.
    destruct (R1 q) as [?|(_ & ? & ?)]; [done|]. split; [done|by apply Is_true_true].
Qed.

(** Uninstalling stops and disables the service, if that is possible, and leaves
    no unit and everything else. *)
Theorem uninstall_outcome exe home state h h' :
  reliable (disk_of h) ->
  handle_service_linux systemctl (Some exe) (Some home) Uninstall state h = (Ok tt, h') ->
  nodes (disk_of h') !! service_file home = None /\
  (forall q, q <> service_file home -> nodes (disk_of h') !! q = nodes (disk_of h) !! q) /\
  ran h' = ran h ++ [bs <$> ["--user"; "stop"; "irosh"]%string; bs <$> ["--user"; "disable"; "irosh"]%string].
Proof.
  intros Hr. cbn [handle_service_linux]. unfold on_disk, M_map_err, attempt, mbind, M_bind, mret, M_ret, path_exists.
  assert (forall args h0, exists r, ctl systemctl args h0 = (r, mk_Host (disk_of h0) (ran h0 ++ [bs <$> args]))) as Hctl.
  { intros args h0. unfold ctl. by destruct (systemctl _ _); eexists. }
  destruct (Hctl ["--user"; "stop"; "irosh"]%string h) as [r1 ->].
  destruct (Hctl ["--user"; "disable"; "irosh"]%string (mk_Host (disk_of h) (ran h ++ [bs <$> ["--user"; "stop"; "irosh"]%string]))) as [r2 ->].
  cbn [disk_of ran]. rewrite test_path_reliable by done. rewrite <-app_assoc. cbn [app].
  destruct (nodes (disk_of h) !! service_file home) as [x|] eqn:Ex.
  - cbn [disk_of ran]. destruct (remove_file (service_file home) (tick (disk_of h) (nodes (disk_of h)))) as [r3 s3] eqn:E3.
    apply remove_file_spec in E3 as [(-> & _ & ->)|(e & -> & ->)]; [|done]. intros [= <-]. cbn [disk_of ran nodes tick].
    split; [apply lookup_delete_eq|]. split; [intros q Hq; by rewrite lookup_delete_ne|done].
  - intros [= <-]. by cbn.
Qed.
End install.

(** ** Where the service falls short *)

(** A command that systemd refuses is taken for one that worked. *)
Lemma refused_start_succeeds exe home state h :
  (handle_service_linux (fun _ _ => Some false) (Some exe) (Some home) Start state h).1 = Ok tt.
Proof. done. Qed.

(** A unit that was removed while its service runs is reported as not
    installed, not as running. *)
Lemma orphan_is_not_found : systemd_status (bs "not-found") (bs "active") false = NotFound.
Proof. done. Qed.

(** A state directory with a space becomes two words of the command. *)
Lemma spaced_directory_splits :
  split_on " "%char (exec_start (unit_text (bs "/usr/bin/irosh") (state_arg (Some [bs "my state"; bs "home"])))) =
    [bs "/usr/bin/irosh"; bs "--state"; bs "/home/my"; bs "state"; bs "host"].
Proof. vm_compute. done. Qed.

(** ** A concrete installation *)

Definition service_host : Host :=
  mk_Host (mk_fs {[ [] := Dir 493; [bs "home"] := Dir 493; [bs "u"; bs "home"] := Dir 448 ]} 18 (fun _ => None) 0 []) [].

Lemma install_outcome_witness :
  let run := handle_service_linux (fun _ _ => Some true) (Some [bs "irosh"; bs "bin"]) (Some [bs "u"; bs "home"]) Install
    (Some [bs "server"; bs ".irosh"; bs "u"; bs "home"]) service_host in
  exists unit m, nodes (disk_of run.2) !! service_file [bs "u"; bs "home"] = Some (File unit m) /\
    split_on " "%char (exec_start unit) = [bs "/bin/irosh"; bs "--state"; bs "/home/u/.irosh/server"; bs "host"].
Proof.
  intros run.
  destruct (install_outcome (fun _ _ => Some true) [bs "irosh"; bs "bin"] [bs "u"; bs "home"] [bs "server"; bs ".irosh"; bs "u"; bs "home"]
    service_host run.2) as [H _].
  - intros n. reflexivity.
  - split; apply (bool_decide_unpack _); vm_compute; exact I.
  - split; apply (bool_decide_unpack _); vm_compute; exact I.
  - apply (bool_decide_unpack _). vm_compute. exact I.
  - apply (bool_decide_unpack _). vm_compute. exact I.
  - refine (pair_fst run _ _). vm_compute. reflexivity.
  - exact H.
Defined.

Lemma status_is_what_systemd_says_witness :
  (query_status_linux [bs "u"; bs "home"]
     (Some (true, printed [shown_property (bs "ActiveState") (bs "active"); shown_property (bs "LoadState") (bs "loaded")]))
     (disk_of service_host)).1 = Ok (Active (bs "systemd")).
Proof.
  refine (eq_trans (status_is_what_systemd_says [bs "u"; bs "home"] [(bs "ActiveState", bs "active"); (bs "LoadState", bs "loaded")]
    (disk_of service_host) _ _ _) _).
  - repeat constructor; apply (bool_decide_unpack _); vm_compute; exact I.
  - vm_compute. reflexivity.
  - intros n. reflexivity.
  - vm_compute. reflexivity.
Defined.
